(* ===== verification/_CoqProject ===== *)
-Q . S2P
Prelude.v
Utf8.v
Hashing.v
Names.v
Json.v
Sql.v
Mini.v
Hlc.v
Context.v
Lww.v
Trigger.v
Report.v
Errors.v
Lock.v
ErrorText.v
Value.v
Scanner.v
Paging.v
Preimage.v
Grouping.v
Policy.v
Preflight.v
Row.v
Write.v
DeleteProp.v
Cleanup.v
Init.v
Compat.v
SqlAst.v
Prefix.v
Transform.v
CrdtWrite.v
Migrations.v
Install.v
Engine.v
EngineLemmas.v
Apply.v
Safety.v
Store.v
Merge.v
Deletes.v
Batch.v
Tombstone.v
Sync.v
Creates.v
Incremental.v
Replicas.v
DeleteRuns.v
Guard.v
Schema.v
Session.v
WritePath.v
Database.v
Handle.v
Observer.v
