(* ===== verification/Prelude.v ===== *)
(** * haex-crdt: a verification library

    This development models the Rust crate under src/src/ as executable
    definitions and proves the properties that make its components correct. This
    file is the root: it holds the result type, the loops and the list, string and
    integer lemmas that the components share, and this guide.

    ** The program

    haex-crdt keeps tables in SQLite and synchronises them between replicas. Every
    synced row carries the HLC (hybrid logical clock) of its last write and a map
    from column to HLC; every column is a last-writer-wins register. A local write
    goes through [Database::write]: the statement is parsed, refused if it touches
    the metadata, stamped with the HLC of its transaction and run. The scanner turns
    rows into column changes, a client sends them page by page, and
    [apply_remote_changes] merges a batch in one transaction. Around this stand
    triggers and migrations, a delete log with its retention, the file lock and the
    handle that owns the connection.

    ** The files, bottom up

    - Foundations: Prelude (results, loops, orders), Utf8 ([str]), Hashing
      ([HashMap] order), Names (table_names.rs, crdt/columns.rs), Json
      ([serde_json::Value]), Sql (the SQLite interface), Errors (error.rs,
      db/error.rs), Mini (the concrete instances of the witnesses), ErrorText (what
      the errors say).
    - Clock: Hlc (crdt/hlc.rs), Context (db/connection_context.rs and the hooks of
      db/core/init.rs), Lww (the specification of a column).
    - Tables: Trigger (crdt/trigger/), Value (db/core/value.rs), Init (db/init.rs),
      Compat and Migrations (db/migrations/, migration.rs), Install
      (database/install.rs, database/stamp.rs).
    - Out: Scanner (crdt/scanner/), Paging (what a client of the pages obtains),
      Incremental (what a scan since a cursor leaves out).
    - In: Preimage, Grouping, Policy, Preflight, Row, Write, DeleteProp, Report and
      Engine (the files of crdt/apply/ of the same names, signature.rs), Cleanup
      (crdt/cleanup/), with EngineLemmas, Apply and Safety for what
      [apply_remote_changes] promises of a batch.
    - Rows: Store (what the rows of a database are and what statements do to them),
      Merge (one row group), Deletes (the delete log), Batch (a whole call),
      Tombstone (deleted rows), Sync (a row's way from one replica to another),
      Creates (when a call creates an absent row), Replicas (runs of calls and exchanges), DeleteRuns (deletes in a run of calls).
    - SQL: SqlAst (sqlparser's trees, db/core/parsing.rs), Prefix (db/core/prefix.rs,
      extract.rs), Transform (crdt/transformer/, insert_transformer.rs, metadata.rs),
      CrdtWrite (db/core/execute/).
    - The handle: Lock (db/lock.rs), Guard, Schema and Session (database/guard.rs,
      schema.rs, write.rs), WritePath (what writes and reads guarantee), Database
      (database/mod.rs, config.rs, device_id.rs, the opening of db/core/init.rs),
      Handle (a handle over its life), Observer (what the change observer hears of it).

    ** How state and operations correspond

    A Rust [Result] is [res]: [Ok], [Err], or [Panic] for an [expect], an index out
    of range, an [unreachable!] or a panicking closure. A database is a value of a
    type [db] threaded from statement to statement; a statement that fails leaves it
    alone, a transaction that is dropped gives back the value it started from. An
    operation with a connection is a [conn_io]: it returns its result and the
    connection, whatever the result. SQL text the crate formats is a constructor of
    [Sql.Stmt]; SQL of the caller is text. The clock is [HlcService]; what it reads
    of the wall clock is an argument, and so are the hook events a component's
    statements raise under a handle. The HLC slot, the pending flag, the changed
    tables and the observer that SQLite's hooks share with a connection are
    [ConnectionContext], and the hooks are steps on it. The authorizer, the progress
    handler and the length limit are a state of their own that SQL cannot touch. A
    closure passed to [write] or [read] is a tree of the calls it makes, free to
    ignore their errors. An [Arc<Mutex>] is its value and whether it is poisoned.

    ** What is proved

    - Merging (Row, Merge, Batch, Deletes, Tombstone, Creates): the row selection is the merge of
      last-writer-wins registers; a committed batch changes a row, stored or absent,
      exactly so, whatever else the batch holds; a change the outcome does not name as
      skipped is what the row holds; and a row goes exactly when a delete-log entry of
      the batch is at least as new as the row, and is not brought back by changes that
      are not newer than its entry.
    - Agreement (Sync, Creates, Replicas, DeleteRuns): what a scan ships arrives with its
      HLC and its value when it is newer; replicas that were delivered the same changes
      agree on a row, held or not, however the changes were batched, ordered or repeated;
      and replicas that exchange scans agree. Both are proved without delete-log changes
      among those delivered, and where a replica lacks the row, for calls whose outcome
      names no change of it as refused by a constraint and whose delete log holds no
      entry at least as new as what they bring: that the row is then created is proved,
      not assumed. Over a run of calls in any order a delete wins over every change that is
      not newer, and a newer write survives it with its column; whether an older column
      of that row survives depends on the order of the calls (DeleteRuns shows it).
    - A batch (Preflight, Apply, Safety): a batch is refused for its first implausible
      change, every change is landed or named as skipped, the batch is atomic and the
      caller is given what stopped it, the clock covers what landed, the trigger gate reopens, and the
      pipeline cannot panic.
    - Leaving (Scanner, Incremental, Paging): only syncable columns of safe tables are
      shipped, a scan since a cursor ships what a full one has that is newer, and a
      client that asks for page after page receives every change.
    - Clock (Hlc, Context, Handle): HLC text is totally preordered, one transaction has
      one timestamp, a restart does not reissue, and over the life of a handle the
      clock never goes back.
    - Writes (CrdtWrite, Transform, Session in WritePath): what is admitted and with
      which error the rest is refused, that each inserted row is stamped, that a
      statement stays well formed except for an upsert that spells a metadata column
      in another case, that a write is all or nothing,
      that a schema change and a verbatim copy are atomic, and how parameters are
      charged.
    - The connection (Guard, WritePath, Database, Handle, Observer): guards are removed
      on every path, a read leaves no trace - query_only is reset once the rule that would
      deny it is gone, and stays on only when SQLite itself refuses the pragma -, a panic
      costs one write, a failed open owns nothing and a successful one carries the
      configuration's limits and the clock of its own database, any sequence of calls leaves the handle usable, and over it the change
      observer hears exactly of the transactions whose commit hook ran.
    - The rest: what an error says of SQLite's own (ErrorText), migrations are applied
      once, trigger installation, the injective signature preimage, the round trip of
      values, the lock against aliases of a path, the walkers over statements.

    ** Parameters and their laws

    SQLite and rusqlite ([Rusqlite], [LiveDb], [Statements], [OpenDb], [ConnHooks]), the
    texts of foreign errors and values ([ForeignText], [Printable]),
    uhlc ([Uhlc]), serde_json's text ([Serde]), sqlparser's parser and printer
    ([SqlParser]), base64, sha2, uuid, the file system ([FileSystem]), the Unicode
    tables ([Unicode]) and the order of a [HashMap] ([HashOrder]) are classes without
    a definition. What the crate relies on is stated as laws in classes beside them
    ([UhlcLaws], [SerdeLaws], [SavepointLaws], [TxLaws], [HookLaws], [RowStore]
    with the column affinities of [Affinity], [RowScan], [FsLaws], [JournalLaws], ...); Mini and the ends of the files give
    instances that satisfy them, on which each theorem with hypotheses is evaluated.

    ** Bounds and fuel

    Every recursion is structural but one: following the symbolic links of a path
    ([Lock.normalize_database_path_inner]) takes fuel, and Lock proves that as much as
    the file system has links is always enough. Integers are [Z] with the source's width
    written where it matters: u64 and u128 in the HLC text, saturating usize in the
    accounting of parameters, i64 days in the retention cutoff.

    ** Not modelled

    The re-exports of lib.rs and the mod.rs files; the zeroing of the SQLCipher key in
    memory; what SQLite does with trigger text, pragmas and SQL of the caller beyond the
    laws above. A statement of the crate's own that fails is taken to leave the
    database value as it was, so that SQLite's rolling back the transaction of its own
    accord is represented for the caller's statements and not for the crate's stamping
    and schema statements. A statement that fails is
    taken to leave the clock as it was when its transaction runs inside a component
    (the events of the call say what hooks did); threads are calls in the order in
    which they take the connection lock. What a component's statements tell the hooks
    under a handle is an argument of the call, so that which tables a remote batch
    reports is not derived from its changes. The raw connection of [with_connection] is
    the consumer's: after it only the poisoning of the mutex is described. *)

From Stdlib Require Import ZArith Lia Sorted.
From Stdlib Require Export Ascii String.
From stdpp Require Export base tactics list strings option gmap sorting pretty.

#[global] Open Scope string_scope.
#[global] Open Scope list_scope.
#[global] Open Scope Z_scope.
#[global] Set Default Goal Selector "!".

(** ** Results

    [res E A] is Rust's [Result<A, E>] with a third value for a panic: the
    code calls [expect] and indexes slices, and a theorem that says it never
    panics needs the panic to be a value. *)

Inductive res (E A : Type) : Type :=
| Ok (a : A)
| Err (e : E)
| Panic (msg : string).
Arguments Ok {E A} a.
Arguments Err {E A} e.
Arguments Panic {E A} msg.

#[export] Instance res_ret E : MRet (res E) := fun A a => Ok a.
#[export] Instance res_bind E : MBind (res E) := fun A B f r =>
  match r with
  | Ok a => f a
  | Err e => Err e
  | Panic m => Panic m
  end.

Definition map_err {E F A} (f : E -> F) (r : res E A) : res F A :=
  match r with
  | Ok a => Ok a
  | Err e => Err (f e)
  | Panic m => Panic m
  end.

Definition ok_or {E A} (o : option A) (e : E) : res E A :=
  match o with Some a => Ok a | None => Err e end.

Definition expect {E A} (o : option A) (msg : string) : res E A :=
  match o with Some a => Ok a | None => Panic msg end.

Definition is_ok {E A} (r : res E A) : bool :=
  match r with Ok _ => true | _ => false end.

(** The failure of [r] is passed on as that of [r']: the same panic, or the
    error wrapped by [on]. *)
Definition fails_as {E F A B} (on : E -> F) (r : res E A) (r' : res F B) : Prop :=
  match r, r' with
  | Err e, Err e' => e' = on e
  | Panic m, Panic m' => m' = m
  | _, _ => False
  end.

(** A loop that can only fail: [f] on every element with its position, the
    first failure is the loop's. *)
Fixpoint for_each {E A} (f : nat -> A -> res E unit) (i : nat) (l : list A) : res E unit :=
  match l with
  | [] => Ok tt
  | x :: l' => _ ← f i x; for_each f (S i) l'
  end.

(** [try_map f l] is [l.iter().map(f).collect::<Result<Vec<_>, _>>()]: the
    elements in order, or the first failure. *)
Fixpoint try_map {E A B} (f : A -> res E B) (l : list A) : res E (list B) :=
  match l with
  | [] => Ok []
  | x :: l' => y ← f x; ys ← try_map f l'; Ok (y :: ys)
  end.

Lemma try_map_Ok {E A B} (f : A -> res E B) l ys :
  try_map f l = Ok ys <-> Forall2 (fun x y => f x = Ok y) l ys.
Proof.
  revert ys; induction l as [|x l IH]; intros ys; simpl.
  - split; [intros [= <-]; constructor | by inversion 1].
  - unfold mbind, res_bind. destruct (f x) eqn:Hx; try (split; [done | inversion 1; congruence]).
    destruct (try_map f l) eqn:Hl; split; intros H; simplify_eq; try (inversion H; subst).
    + constructor; [done|]. by apply IH.
    + match goal with Hf : Forall2 _ l _ |- _ => apply IH in Hf; congruence end.
    + match goal with Hf : Forall2 _ l _ |- _ => apply IH in Hf; congruence end.
    + match goal with Hf : Forall2 _ l _ |- _ => apply IH in Hf; congruence end.
Qed.

(** An action on a connection: its result and the connection it leaves, which
    an error does not undo. *)
Definition conn_io (db E A : Type) : Type := db -> res E A * db.

Definition io_ret {db E A} (a : A) : conn_io db E A := fun c => (Ok a, c).
Definition io_bind {db E A B} (m : conn_io db E A) (f : A -> conn_io db E B) : conn_io db E B := fun c =>
  match m c with
  | (Ok a, c') => f a c'
  | (Err e, c') => (Err e, c')
  | (Panic msg, c') => (Panic msg, c')
  end.
(** A read of the connection, and a statement that replaces it on success. *)
Definition io_read {db E A} (f : db -> res E A) : conn_io db E A := fun c => (f c, c).
Definition io_exec {db E A} (f : db -> res E (A * db)) : conn_io db E A := fun c =>
  match f c with
  | Ok (a, c') => (Ok a, c')
  | Err e => (Err e, c)
  | Panic msg => (Panic msg, c)
  end.

Declare Scope io_scope.
Delimit Scope io_scope with io.
Notation "x <- m ;; k" := (io_bind m (fun x => k))
  (at level 100, m at next level, right associativity, format "x  <-  m ;;  '/' k") : io_scope.

Lemma io_bind_Ok {db E A B} (m : conn_io db E A) (f : A -> conn_io db E B) c b c' :
  io_bind m f c = (Ok b, c') <-> exists a c1, m c = (Ok a, c1) /\ f a c1 = (Ok b, c').
Proof.
  unfold io_bind. destruct (m c) as [[a| |] c1]; (split; [|intros (a' & c2 & Ha & Hf); congruence]);
    [by exists a, c1 | done | done].
Qed.

Lemma io_read_Ok {db E A} (f : db -> res E A) c a c' :
  io_read f c = (Ok a, c') <-> f c = Ok a /\ c' = c.
Proof. unfold io_read. split; [by intros [= ? <-] | by intros [-> ->]]. Qed.

(** ** Panic freedom *)

Definition no_panic {E A} (r : res E A) : Prop :=
  match r with Panic _ => False | _ => True end.

Lemma no_panic_bind {E A B} (r : res E A) (f : A -> res E B) :
  no_panic r -> (forall a, r = Ok a -> no_panic (f a)) -> no_panic (r ≫= f).
Proof. destruct r; cbn; auto. Qed.

Lemma no_panic_map_err {E F A} (f : E -> F) (r : res E A) : no_panic r -> no_panic (map_err f r).
Proof. by destruct r. Qed.

Lemma no_panic_ok_or {E A} (o : option A) (e : E) : no_panic (ok_or o e).
Proof. by destruct o. Qed.

Lemma no_panic_try_map {E A B} (f : A -> res E B) l :
  (forall x, In x l -> no_panic (f x)) -> no_panic (try_map f l).
Proof.
  induction l as [|x l IH]; intros Hf; cbn [try_map]; [done|].
  apply no_panic_bind; [apply Hf; by left|]. intros y _.
  apply no_panic_bind; [apply IH; intros; apply Hf; by right | done].
Qed.

Lemma no_panic_for_each {E A} (f : nat -> A -> res E unit) l : forall i,
  (forall j x, no_panic (f j x)) -> no_panic (for_each f i l).
Proof.
  induction l as [|x l IH]; intros i Hf; cbn [for_each]; [done|]. apply no_panic_bind; [apply Hf|]. intros [] _. by apply IH.
Qed.

(** The loop is its first element that is not [Ok]. *)
Lemma for_each_first {E A} (f : nat -> A -> res E unit) l : forall i,
  ((forall j x, l !! j = Some x -> f (i + j)%nat x = Ok tt) /\ for_each f i l = Ok tt) \/
  exists j x, l !! j = Some x /\ f (i + j)%nat x <> Ok tt /\ for_each f i l = f (i + j)%nat x /\
    forall k y, (k < j)%nat -> l !! k = Some y -> f (i + k)%nat y = Ok tt.
Proof.
  induction l as [|x l IH]; intros i; cbn [for_each]; [by left|].
  destruct (f i x) as [[]|e|m] eqn:Hx; cbn [res_bind].
  - destruct (IH (S i)) as [[Hall Hr]|(j & y & Hj & Hne & Hr & Hb)].
    + left. split; [|done]. intros [|j] y Hj; [injection Hj as <-; by rewrite Nat.add_0_r|].
      rewrite Nat.add_succ_r. by apply Hall.
    + right. exists (S j), y. rewrite Nat.add_succ_r. split; [done|]. split; [done|]. split; [done|].
      intros [|k] z Hk Hz; [injection Hz as <-; by rewrite Nat.add_0_r|]. rewrite Nat.add_succ_r. apply (Hb k); [lia|done].
  - right. exists 0%nat, x. rewrite Nat.add_0_r, Hx. split; [done|]. split; [done|]. split; [done|]. intros; lia.
  - right. exists 0%nat, x. rewrite Nat.add_0_r, Hx. split; [done|]. split; [done|]. split; [done|]. intros; lia.
Qed.
#[export] Hint Resolve no_panic_bind no_panic_map_err no_panic_ok_or no_panic_try_map no_panic_for_each : haex.

(** A pair cut at its result: a large concrete call is only ever evaluated
    for the part a witness states. *)
Lemma pair_result {A B} (x : A * B) a : fst x = a -> x = (a, snd x).
Proof. by destruct x as [y z]; cbn; intros ->. Qed.

Lemma triple_result {A B C} (x : A * B * C) a : fst (fst x) = a -> x = (a, snd (fst x), snd x).
Proof. by destruct x as [[y z] w]; cbn; intros ->. Qed.

Lemma pair_Ok_result {E A B C} (x : res E (A * B) * C) a d :
  match fst x with Ok (a', _) => a' = a | _ => False end ->
  x = (Ok (a, match fst x with Ok (_, b) => b | _ => d end), snd x).
Proof. destruct x as [[[a' b]| |] c]; cbn; [by intros -> | done..]. Qed.

(** Split a [Ok]-valued bind, a [map_err] or a [match] in a hypothesis. *)
Lemma bind_Ok {E A B} (r : res E A) (f : A -> res E B) b :
  r ≫= f = Ok b <-> exists a, r = Ok a /\ f a = Ok b.
Proof. destruct r; cbn; naive_solver. Qed.

Lemma map_err_Ok {E F A} (f : E -> F) (r : res E A) a : map_err f r = Ok a <-> r = Ok a.
Proof. destruct r; cbn; naive_solver. Qed.

Lemma ok_or_Ok {E A} (o : option A) (e : E) a : ok_or o e = Ok a <-> o = Some a.
Proof. destruct o; cbn; naive_solver. Qed.

(** ** Orderings: [std::cmp::Ordering] and the iterator comparators *)

Definition then_with (c d : comparison) : comparison :=
  match c with Eq => d | _ => c end.

(** A comparator is a total preorder: what [sort_by], [max_by] and [min_by]
    ask of their argument. *)
Class TotalCmp {A} (cmp : A -> A -> comparison) : Prop := {
  cmp_flip : forall x y, cmp y x = CompOpp (cmp x y);
  cmp_trans_le : forall x y z, cmp x y <> Gt -> cmp y z <> Gt -> cmp x z <> Gt;
}.

Section cmp.
Context {A : Type} (cmp : A -> A -> comparison) `{!TotalCmp cmp}.

Definition cmp_le (x y : A) : Prop := cmp x y <> Gt.

Lemma cmp_swap x y : cmp y x = CompOpp (cmp x y).
Proof. apply cmp_flip. Qed.

Lemma cmp_refl x : cmp x x = Eq.
Proof. pose proof (cmp_swap x x) as H. by destruct (cmp x x). Qed.

Lemma cmp_le_refl x : cmp_le x x.
Proof. unfold cmp_le. by rewrite cmp_refl. Qed.

Lemma cmp_le_trans x y z : cmp_le x y -> cmp_le y z -> cmp_le x z.
Proof. unfold cmp_le. apply cmp_trans_le. Qed.

Lemma cmp_gt_le x y : cmp x y = Gt -> cmp_le y x.
Proof. unfold cmp_le. rewrite (cmp_swap x y). by intros ->. Qed.

Lemma cmp_gt_lt x y : cmp x y = Gt <-> cmp y x = Lt.
Proof. rewrite (cmp_swap x y). by destruct (cmp x y). Qed.

Lemma cmp_le_total x y : cmp_le x y \/ cmp_le y x.
Proof. unfold cmp_le. rewrite (cmp_swap x y). destruct (cmp x y); simpl; auto. Qed.

Lemma cmp_le_antisym x y : cmp_le x y -> cmp_le y x -> cmp x y = Eq.
Proof. unfold cmp_le. rewrite (cmp_swap x y). by destruct (cmp x y). Qed.

Lemma cmp_gt_le_trans x y z : cmp x y = Gt -> cmp_le z y -> cmp x z = Gt.
Proof.
  intros Hxy Hzy. destruct (cmp x z) eqn:Hxz; [| |done]; exfalso;
    assert (cmp_le x z) as Hle by (unfold cmp_le; congruence);
    by apply (cmp_le_trans _ _ _ Hle Hzy).
Qed.

Lemma cmp_le_gt_trans x y z : cmp_le y x -> cmp y z = Gt -> cmp x z = Gt.
Proof.
  intros Hyx Hyz. destruct (cmp x z) eqn:Hxz; [| |done]; exfalso;
    assert (cmp_le x z) as Hle by (unfold cmp_le; congruence);
    by apply (cmp_le_trans _ _ _ Hyx Hle).
Qed.

(** [Iterator::max_by]: the last of the maximal elements. *)
Definition max_by_step (x y : A) : A :=
  match cmp x y with Gt => x | _ => y end.
Definition max_by (l : list A) : option A :=
  match l with [] => None | x :: l' => Some (fold_left max_by_step l' x) end.

(** [Iterator::min_by]: the first of the minimal elements. *)
Definition min_by_step (x y : A) : A :=
  match cmp x y with Gt => y | _ => x end.
Definition min_by (l : list A) : option A :=
  match l with [] => None | x :: l' => Some (fold_left min_by_step l' x) end.

Lemma fold_max_by l : forall x,
  (fold_left max_by_step l x = x \/ In (fold_left max_by_step l x) l) /\
  cmp_le x (fold_left max_by_step l x) /\
  forall y, In y l -> cmp_le y (fold_left max_by_step l x).
Proof.
  induction l as [|a l IH]; intros x; simpl.
  - split; [by left|]. split; [apply cmp_le_refl | done].
  - destruct (IH (max_by_step x a)) as (Hin & Hx & Hall).
    assert (cmp_le x (max_by_step x a) /\ cmp_le a (max_by_step x a)) as [H1 H2].
    { unfold max_by_step. destruct (cmp x a) eqn:Hc.
      - split; [unfold cmp_le; congruence | apply cmp_le_refl].
      - split; [unfold cmp_le; congruence | apply cmp_le_refl].
      - split; [apply cmp_le_refl | by apply cmp_gt_le]. }
    split.
    + destruct Hin as [Hin|Hin]; [|auto].
      rewrite Hin. unfold max_by_step. destruct (cmp x a); auto.
    + split; [by eapply cmp_le_trans|].
      intros y [->|Hy]; [by eapply cmp_le_trans | auto].
Qed.

Lemma max_by_spec l m : max_by l = Some m -> In m l /\ forall y, In y l -> cmp_le y m.
Proof.
  destruct l as [|x l]; simpl; [done|]. intros [= <-].
  destruct (fold_max_by l x) as (Hin & Hx & Hall). split.
  - destruct Hin as [->|]; auto.
  - intros y [->|Hy]; auto.
Qed.

Lemma max_by_None l : max_by l = None <-> l = [].
Proof. destruct l; simpl; split; congruence. Qed.

Lemma fold_min_by l : forall x,
  (fold_left min_by_step l x = x \/ In (fold_left min_by_step l x) l) /\
  cmp_le (fold_left min_by_step l x) x /\
  forall y, In y l -> cmp_le (fold_left min_by_step l x) y.
Proof.
  induction l as [|a l IH]; intros x; simpl.
  - split; [by left|]. split; [apply cmp_le_refl | done].
  - destruct (IH (min_by_step x a)) as (Hin & Hx & Hall).
    assert (cmp_le (min_by_step x a) x /\ cmp_le (min_by_step x a) a) as [H1 H2].
    { unfold min_by_step. destruct (cmp x a) eqn:Hc.
      - split; [apply cmp_le_refl | unfold cmp_le; congruence].
      - split; [apply cmp_le_refl | unfold cmp_le; congruence].
      - split; [by apply cmp_gt_le | apply cmp_le_refl]. }
    split.
    + destruct Hin as [Hin|Hin]; [|auto].
      rewrite Hin. unfold min_by_step. destruct (cmp x a); auto.
    + split; [by eapply cmp_le_trans|].
      intros y [->|Hy]; [by eapply cmp_le_trans | auto].
Qed.

Lemma min_by_spec l m : min_by l = Some m -> In m l /\ forall y, In y l -> cmp_le m y.
Proof.
  destruct l as [|x l]; simpl; [done|]. intros [= <-].
  destruct (fold_min_by l x) as (Hin & Hx & Hall). split.
  - destruct Hin as [->|]; auto.
  - intros y [->|Hy]; auto.
Qed.

Lemma min_by_None l : min_by l = None <-> l = [].
Proof. destruct l; simpl; split; congruence. Qed.

(** [slice::sort_by] is a stable sort; any stable sort returns the same
    list, so insertion sort (from the right) computes it. *)
Fixpoint insert_by (x : A) (l : list A) : list A :=
  match l with
  | [] => [x]
  | y :: l' => match cmp x y with Gt => y :: insert_by x l' | _ => x :: l end
  end.
Definition sort_by (l : list A) : list A := foldr insert_by [] l.

Lemma insert_by_perm x l : Permutation (insert_by x l) (x :: l).
Proof.
  induction l as [|y l IH]; simpl; [done|].
  destruct (cmp x y); try done. rewrite IH. constructor.
Qed.

Lemma sort_by_perm l : Permutation (sort_by l) l.
Proof.
  induction l as [|x l IH]; simpl; [done|]. by rewrite insert_by_perm, IH.
Qed.

Lemma insert_by_sorted x l :
  StronglySorted cmp_le l -> StronglySorted cmp_le (insert_by x l).
Proof.
  induction 1 as [|y l Hs IH Hall]; simpl; [repeat constructor|].
  destruct (cmp x y) eqn:Hc.
  - constructor; [by constructor|]. constructor; [unfold cmp_le; congruence|].
    eapply Forall_impl; [exact Hall|]. intros z Hz. simpl in Hz.
    eapply cmp_le_trans; [|exact Hz]. unfold cmp_le; congruence.
  - constructor; [by constructor|]. constructor; [unfold cmp_le; congruence|].
    eapply Forall_impl; [exact Hall|]. intros z Hz. simpl in Hz.
    eapply cmp_le_trans; [|exact Hz]. unfold cmp_le; congruence.
  - constructor; [done|].
    rewrite insert_by_perm. constructor; [by apply cmp_gt_le | done].
Qed.

Lemma sort_by_sorted l : StronglySorted cmp_le (sort_by l).
Proof. induction l; simpl; [constructor | by apply insert_by_sorted]. Qed.

(** A sorted list whose ties are equalities is determined by its elements:
    the result does not depend on the order of the input. *)
Lemma sort_by_unique l1 l2 :
  (forall x y, In x l1 -> In y l1 -> cmp x y = Eq -> x = y) ->
  Permutation l1 l2 -> sort_by l1 = sort_by l2.
Proof.
  intros Htie Hp.
  apply (StronglySorted_unique_strong cmp_le);
    [| apply sort_by_sorted | apply sort_by_sorted | by rewrite !sort_by_perm].
  intros x y Hx Hy Hxy Hyx.
  rewrite sort_by_perm in Hx, Hy. apply list_elem_of_In in Hx. rewrite <- Hp in Hy. apply list_elem_of_In in Hy.
  apply Htie; [done..|]. unfold cmp_le in *. rewrite (cmp_swap x y) in Hyx.
  by destruct (cmp x y).
Qed.
End cmp.

Lemma StronglySorted_weaken {A} (R R' : A -> A -> Prop) l :
  (forall x y, R x y -> R' x y) -> StronglySorted R l -> StronglySorted R' l.
Proof.
  intros HR. induction 1 as [|x l Hs IH Hall]; constructor; [done|].
  eapply Forall_impl; [exact Hall|]. auto.
Qed.

(** ** Strings

    A Rocq [string] is a sequence of bytes: a Rust [String] is its UTF-8
    bytes, a [Vec<u8>] is the bytes themselves. *)

Fixpoint split_once (c : ascii) (s : string) : option (string * string) :=
  match s with
  | EmptyString => None
  | String x s' =>
      if Ascii.eqb x c then Some (EmptyString, s')
      else match split_once c s' with
           | Some (a, b) => Some (String x a, b)
           | None => None
           end
  end.

Fixpoint contains_char (c : ascii) (s : string) : bool :=
  match s with
  | EmptyString => false
  | String x s' => Ascii.eqb x c || contains_char c s'
  end.

Fixpoint ends_with (suffix s : string) : bool :=
  String.eqb s suffix ||
  match s with EmptyString => false | String _ s' => ends_with suffix s' end.

Lemma append_cons c (a b : string) : String c a +:+ b = String c (a +:+ b).
Proof. done. Qed.
Lemma append_empty (b : string) : EmptyString +:+ b = b.
Proof. done. Qed.
Lemma append_assoc_str (a b c : string) : (a +:+ b) +:+ c = a +:+ (b +:+ c).
Proof. induction a as [|x a IH]; [done|]. by rewrite !append_cons, IH. Qed.
Lemma append_nil_str (a : string) : a +:+ EmptyString = a.
Proof. induction a as [|x a IH]; [done|]. by rewrite append_cons, IH. Qed.
Lemma append_length (a b : string) :
  String.length (a +:+ b) = (String.length a + String.length b)%nat.
Proof. induction a as [|x a IH]; [done|]. rewrite append_cons. cbn. by rewrite IH. Qed.

Definition starts_with (p s : string) : bool := String.prefix p s.

Fixpoint str_forallb (f : ascii -> bool) (s : string) : bool :=
  match s with
  | EmptyString => true
  | String c s' => f c && str_forallb f s'
  end.

Fixpoint str_map (f : ascii -> ascii) (s : string) : string :=
  match s with
  | EmptyString => EmptyString
  | String c s' => String (f c) (str_map f s')
  end.

(** [join sep parts] is [parts.join(sep)]. *)
Fixpoint join (sep : string) (parts : list string) : string :=
  match parts with
  | [] => ""
  | [p] => p
  | p :: ps => p +:+ sep +:+ join sep ps
  end.

Definition byte_of (c : ascii) : Z := Z.of_N (N_of_ascii c).

Definition ascii_lower (c : ascii) : ascii :=
  if (65 <=? byte_of c) && (byte_of c <=? 90)
  then ascii_of_N (Z.to_N (byte_of c + 32)) else c.

(** [str::to_ascii_lowercase] and [str::eq_ignore_ascii_case]. *)
Definition to_ascii_lowercase (s : string) : string := str_map ascii_lower s.
Definition eq_ignore_ascii_case (a b : string) : bool :=
  String.eqb (to_ascii_lowercase a) (to_ascii_lowercase b).

Lemma split_once_Some c s a b :
  split_once c s = Some (a, b) -> s = a +:+ String c b /\ contains_char c a = false.
Proof.
  revert a b; induction s as [|x s IH]; intros a b; simpl; [done|].
  destruct (Ascii.eqb x c) eqn:Hx.
  - intros [= <- <-]. apply Ascii.eqb_eq in Hx as ->. done.
  - destruct (split_once c s) as [[a' b']|] eqn:Hs; [|done].
    intros [= <- <-]. destruct (IH _ _ eq_refl) as [-> Hc]. simpl. by rewrite Hx.
Qed.

Lemma split_once_None c s : split_once c s = None <-> contains_char c s = false.
Proof.
  induction s as [|x s IH]; simpl; [done|].
  destruct (Ascii.eqb x c); simpl; [done|].
  rewrite <- IH. by destruct (split_once c s) as [[??]|].
Qed.

Lemma split_once_app c a b :
  contains_char c a = false -> split_once c (a +:+ String c b) = Some (a, b).
Proof.
  induction a as [|x a IH]; simpl.
  - by rewrite Ascii.eqb_refl.
  - destruct (Ascii.eqb x c); simpl; [done|]. intros H. by rewrite IH.
Qed.

(** ** Machine integers and their parsers *)

Definition u32_max : Z := 2 ^ 32 - 1.
Definition u64_max : Z := 2 ^ 64 - 1.
Definition i64_max : Z := 2 ^ 63 - 1.
Definition i64_min : Z := - 2 ^ 63.
Definition u128_max : Z := 2 ^ 128 - 1.

Definition in_u64 (n : Z) : bool := (0 <=? n) && (n <=? u64_max).
Definition in_i64 (n : Z) : bool := (i64_min <=? n) && (n <=? i64_max).

(** [usize] on the 64-bit targets the crate ships for. *)
Definition usize_max : Z := u64_max.

Definition saturating_add (a b : Z) : Z := Z.min (a + b) u64_max.
Definition saturating_sub (a b : Z) : Z := Z.max (a - b) 0.
Definition saturating_mul (a b : Z) : Z := Z.min (a * b) u64_max.

(** [char::to_digit(radix)] on a byte. *)
Definition to_digit (radix : Z) (c : ascii) : option Z :=
  let b := byte_of c in
  let d := if (48 <=? b) && (b <=? 57) then b - 48
           else if (97 <=? b) && (b <=? 122) then b - 87
           else if (65 <=? b) && (b <=? 90) then b - 55
           else radix in
  if d <? radix then Some d else None.

Fixpoint parse_digits (radix maxv acc : Z) (s : string) : option Z :=
  match s with
  | EmptyString => Some acc
  | String c s' =>
      match to_digit radix c with
      | None => None
      | Some d =>
          let acc' := acc * radix + d in
          if acc' <=? maxv then parse_digits radix maxv acc' s' else None
      end
  end.

(** [uN::from_str_radix]: an optional leading [+], then at least one digit;
    overflow and any other character are errors. *)
Definition from_str_radix (radix maxv : Z) (s : string) : option Z :=
  match s with
  | EmptyString => None
  | String c s' =>
      if Ascii.eqb c "+" then
        match s' with EmptyString => None | _ => parse_digits radix maxv 0 s' end
      else parse_digits radix maxv 0 s
  end.

Lemma to_digit_range radix c d : 0 < radix -> to_digit radix c = Some d -> 0 <= d < radix.
Proof.
  unfold to_digit. intros Hr.
  repeat match goal with |- context [if ?b then _ else _] => destruct b eqn:? end;
    intros [= <-];
    repeat match goal with H : _ && _ = true |- _ => apply andb_true_iff in H as [??] end; lia.
Qed.

Lemma parse_digits_range radix maxv s : forall acc n,
  0 < radix -> 0 <= acc <= maxv -> parse_digits radix maxv acc s = Some n -> 0 <= n <= maxv.
Proof.
  induction s as [|c s IH]; intros acc n Hr Hacc; simpl; [by intros [= <-]|].
  destruct (to_digit radix c) as [d|] eqn:Hd; [|done].
  apply to_digit_range in Hd; [|done].
  destruct (acc * radix + d <=? maxv) eqn:Hle; [|done].
  intros H. eapply IH; [done| |exact H]. nia.
Qed.

Lemma from_str_radix_range radix maxv s n :
  0 < radix -> 0 <= maxv -> from_str_radix radix maxv s = Some n -> 0 <= n <= maxv.
Proof.
  intros Hr Hm. destruct s as [|c s]; simpl; [done|].
  destruct (Ascii.eqb c "+").
  - destruct s as [|c' s']; [done|]. apply parse_digits_range; lia.
  - intros H. eapply (parse_digits_range radix maxv (String c s) 0); [lia|lia|exact H].
Qed.

(** A leading zero does not change the number. *)
Lemma parse_digits_zero radix maxv s :
  0 < radix -> 0 <= maxv -> parse_digits radix maxv 0 (String "0" s) = parse_digits radix maxv 0 s.
Proof.
  intros Hr Hm. simpl.
  assert (to_digit radix "0" = Some 0) as ->.
  { change (to_digit radix "0") with (if 0 <? radix then Some 0 else None).
    by rewrite (proj2 (Z.ltb_lt 0 radix) Hr). }
  replace (0 * radix + 0) with 0 by lia. by rewrite (proj2 (Z.leb_le 0 maxv) Hm).
Qed.

(** Rust's [Ord] on [str] is the byte-wise lexicographic order. *)
#[export] Instance string_total_cmp : TotalCmp String.compare.
Proof.
  split.
  - intros x y. by rewrite String.compare_antisym.
  - intros x y z Hxy Hyz.
    assert (forall a b, String.compare a b <> Gt <-> String.le a b) as Hle.
    { intros a b. unfold String.le, String.leb. by destruct (String.compare a b). }
    rewrite Hle in *. by etrans.
Qed.

Lemma string_cmp_eq x y : String.compare x y = Eq <-> x = y.
Proof.
  split; [apply String.compare_eq_iff|]. intros ->. apply cmp_refl, _.
Qed.

(** Numbering a list keeps its elements. *)
Lemma imap_pair_snd {A} (l : list A) : map snd (imap pair l) = l.
Proof. change (map snd) with (fmap (M:=list) (@snd nat A)). rewrite fmap_imap. induction l; cbn; by f_equal. Qed.
Lemma imap_pair_fst {A} (l : list A) : map fst (imap (fun i x => (i, x)) l) = seq 0 (length l).
Proof.
  change (map fst) with (fmap (M:=list) (@fst nat A)). rewrite fmap_imap.
  induction l as [|x l IH]; [done|]. cbn. f_equal. rewrite <- fmap_S_seq, <- IH, fmap_imap. by apply imap_ext.
Qed.

Lemma NoDup_fmap_fst_inj {A B} (l : list (A * B)) e e' :
  NoDup (map fst l) -> e ∈ l -> e' ∈ l -> fst e = fst e' -> e = e'.
Proof.
  intros Hnd [i Hi]%list_elem_of_lookup [j Hj]%list_elem_of_lookup Heq.
  assert (i = j) as <-; [|congruence].
  apply (NoDup_lookup (map fst l) i j (fst e)); [done|..]; change (map fst l) with (fst <$> l); rewrite list_lookup_fmap.
  - by rewrite Hi.
  - by rewrite Hj, Heq.
Qed.

(** ** Automation shared by the components *)

Create HintDb haex.
#[export] Hint Resolve cmp_le_refl cmp_gt_le : haex.

(** [res_inv H] takes apart [H : (x ← e; k) = Ok v]. *)
Ltac res_inv H :=
  unfold mbind, res_bind in H;
  repeat match type of H with
  | match ?e with Ok _ => _ | Err _ => _ | Panic _ => _ end = _ =>
      let E := fresh "E" in destruct e eqn:E; try discriminate H
  end.

(** [split_bool] turns boolean conjunctions in the context into facts. *)
Ltac split_bool :=
  repeat match goal with
  | H : _ && _ = true |- _ => apply andb_true_iff in H as [??]
  | H : _ || _ = false |- _ => apply orb_false_iff in H as [??]
  | H : negb _ = true |- _ => apply negb_true_iff in H
  | H : negb _ = false |- _ => apply negb_false_iff in H
  end.
