(* ===== verification/Utf8.v ===== *)
(** * UTF-8 and string replacement (the standard library's str)

    Rust strings are UTF-8. [utf8_chunks] decodes bytes the way
    [String::from_utf8_lossy] does: one chunk per character, and one
    replacement chunk per maximal invalid prefix. [chars] and
    [from_utf8_lossy] read the decoding; the Unicode tables behind
    [char::is_alphanumeric] and [str::to_lowercase] are a parameter above
    ASCII. *)

From S2P Require Import Prelude.

Inductive chunk :=
| UChar (code : Z) (bytes : string)
| UBad.

Definition byte_in (lo hi : Z) (a : ascii) : bool := (lo <=? byte_of a) && (byte_of a <=? hi).
Definition cont_bits (a : ascii) : Z := byte_of a - 128.

(** The second byte of a three- or four-byte sequence excludes overlong
    forms, surrogates and code points above U+10FFFF. *)
Definition second_of_3 (b0 : Z) (b : ascii) : bool :=
  if b0 =? 224 then byte_in 160 191 b
  else if b0 =? 237 then byte_in 128 159 b
  else byte_in 128 191 b.
Definition second_of_4 (b0 : Z) (b : ascii) : bool :=
  if b0 =? 240 then byte_in 144 191 b
  else if b0 =? 244 then byte_in 128 143 b
  else byte_in 128 191 b.

Definition str2 (a b : ascii) : string := String a (String b EmptyString).
Definition str3 (a b c : ascii) : string := String a (str2 b c).
Definition str4 (a b c d : ascii) : string := String a (str3 b c d).

Fixpoint utf8_chunks (s : string) : list chunk :=
  match s with
  | EmptyString => []
  | String a s1 =>
      let b0 := byte_of a in
      if b0 <? 128 then UChar b0 (String a EmptyString) :: utf8_chunks s1
      else if byte_in 194 223 a then
        match s1 with
        | EmptyString => [UBad]
        | String b s2 =>
            if byte_in 128 191 b
            then UChar ((b0 - 192) * 64 + cont_bits b) (str2 a b) :: utf8_chunks s2
            else UBad :: utf8_chunks s1
        end
      else if byte_in 224 239 a then
        match s1 with
        | EmptyString => [UBad]
        | String b s2 =>
            if second_of_3 b0 b then
              match s2 with
              | EmptyString => [UBad]
              | String c s3 =>
                  if byte_in 128 191 c
                  then UChar (((b0 - 224) * 64 + cont_bits b) * 64 + cont_bits c) (str3 a b c)
                         :: utf8_chunks s3
                  else UBad :: utf8_chunks s2
              end
            else UBad :: utf8_chunks s1
        end
      else if byte_in 240 244 a then
        match s1 with
        | EmptyString => [UBad]
        | String b s2 =>
            if second_of_4 b0 b then
              match s2 with
              | EmptyString => [UBad]
              | String c s3 =>
                  if byte_in 128 191 c then
                    match s3 with
                    | EmptyString => [UBad]
                    | String d s4 =>
                        if byte_in 128 191 d
                        then UChar ((((b0 - 240) * 64 + cont_bits b) * 64 + cont_bits c) * 64
                                      + cont_bits d) (str4 a b c d) :: utf8_chunks s4
                        else UBad :: utf8_chunks s3
                    end
                  else UBad :: utf8_chunks s2
              end
            else UBad :: utf8_chunks s1
        end
      else UBad :: utf8_chunks s1
  end.

(** U+FFFD and its encoding. *)
Definition replacement_code : Z := 65533.
Definition replacement_bytes : string :=
  str3 (ascii_of_nat 239) (ascii_of_nat 191) (ascii_of_nat 189).

Definition chunk_code (c : chunk) : Z :=
  match c with UChar n _ => n | UBad => replacement_code end.
Definition chunk_bytes (c : chunk) : string :=
  match c with UChar _ b => b | UBad => replacement_bytes end.

Definition chars (s : string) : list Z := map chunk_code (utf8_chunks s).
Definition from_utf8_lossy (s : string) : string :=
  foldr (fun c acc => chunk_bytes c +:+ acc) EmptyString (utf8_chunks s).
Definition valid_utf8 (s : string) : bool :=
  forallb (fun c => match c with UChar _ _ => true | UBad => false end) (utf8_chunks s).

(** The Unicode tables, above ASCII. *)
Class Unicode := {
  unicode_alphanumeric : Z -> bool;
  unicode_whitespace : Z -> bool;
  unicode_to_lowercase : string -> string;
}.

(** The ASCII tables, for the witnesses: nothing above ASCII is a letter. *)
#[export] Instance ascii_unicode : Unicode := {
  unicode_alphanumeric c := false;
  unicode_whitespace c := false;
  unicode_to_lowercase := to_ascii_lowercase;
}.

Definition is_ascii_digit (c : Z) : bool := (48 <=? c) && (c <=? 57).
Definition is_ascii_alpha (c : Z) : bool :=
  ((65 <=? c) && (c <=? 90)) || ((97 <=? c) && (c <=? 122)).
Definition is_alphanumeric `{Unicode} (c : Z) : bool :=
  if c <? 128 then is_ascii_digit c || is_ascii_alpha c else unicode_alphanumeric c.

(** [str::replace] for a non-empty pattern: non-overlapping occurrences,
    left to right. *)
Fixpoint replace_from (from to : string) (skip : nat) (s : string) : string :=
  match s with
  | EmptyString => EmptyString
  | String c s' =>
      match skip with
      | S k => replace_from from to k s'
      | O => if String.prefix from s
             then to +:+ replace_from from to (String.length from - 1) s'
             else String c (replace_from from to 0 s')
      end
  end.
Definition str_replace (from to s : string) : string := replace_from from to 0 s.

(** [str::split] at a non-empty pattern: the pieces around its non-overlapping
    occurrences; [acc] is the current piece, reversed. *)
Fixpoint string_rev_onto (s acc : string) : string :=
  match s with EmptyString => acc | String c s' => string_rev_onto s' (String c acc) end.
Fixpoint split_from (sep : string) (skip : nat) (acc s : string) : list string :=
  match s with
  | EmptyString => [string_rev_onto acc EmptyString]
  | String c s' =>
      match skip with
      | S k => split_from sep k acc s'
      | O => if String.prefix sep s
             then string_rev_onto acc EmptyString ::
                  split_from sep (String.length sep - 1) EmptyString s'
             else split_from sep 0 (String c acc) s'
      end
  end.
Definition str_split (sep s : string) : list string := split_from sep 0 EmptyString s.

(** [str::trim]: the White_Space characters at both ends. *)
Definition is_whitespace `{Unicode} (c : Z) : bool :=
  if c <? 128 then (c =? 32) || ((9 <=? c) && (c <=? 13)) else unicode_whitespace c.
Fixpoint drop_white `{Unicode} (cs : list chunk) : list chunk :=
  match cs with
  | c :: cs' => if is_whitespace (chunk_code c) then drop_white cs' else cs
  | [] => []
  end.
Definition trim `{Unicode} (s : string) : string :=
  foldr (fun c acc => chunk_bytes c +:+ acc) EmptyString
    (rev (drop_white (rev (drop_white (utf8_chunks s))))).

(** [str::to_lowercase] and [str::trim_matches] of one character. *)
Definition is_ascii (s : string) : bool := str_forallb (fun c => byte_of c <? 128) s.
Definition to_lowercase `{Unicode} (s : string) : string :=
  if is_ascii s then to_ascii_lowercase s else unicode_to_lowercase s.

Fixpoint trim_start_matches (c : ascii) (s : string) : string :=
  match s with
  | String x s' => if Ascii.eqb x c then trim_start_matches c s' else s
  | EmptyString => EmptyString
  end.
Fixpoint trim_end_matches (c : ascii) (s : string) : string :=
  match s with
  | String x s' =>
      match trim_end_matches c s' with
      | EmptyString => if Ascii.eqb x c then EmptyString else String x EmptyString
      | t => String x t
      end
  | EmptyString => EmptyString
  end.
Definition trim_matches (c : ascii) (s : string) : string := trim_end_matches c (trim_start_matches c s).

(** ** Lemmas *)

Lemma byte_of_range a : 0 <= byte_of a < 256.
Proof. unfold byte_of. pose proof (N_ascii_bounded a). lia. Qed.

Lemma byte_of_ascii_of_N n : (n < 256)%N -> byte_of (ascii_of_N n) = Z.of_N n.
Proof. intros Hn. unfold byte_of. by rewrite N_ascii_embedding. Qed.

Lemma byte_of_inj a b : byte_of a = byte_of b -> a = b.
Proof.
  unfold byte_of. intros H. rewrite <- (ascii_N_embedding a), <- (ascii_N_embedding b).
  f_equal. lia.
Qed.

Lemma byte_in_ge lo hi a : 128 <= lo -> byte_in lo hi a = true -> 128 <= byte_of a.
Proof. unfold byte_in. intros. split_bool. lia. Qed.

Lemma second_of_3_ge b0 b : second_of_3 b0 b = true -> 128 <= byte_of b.
Proof. unfold second_of_3. repeat case_match; apply byte_in_ge; lia. Qed.
Lemma second_of_4_ge b0 b : second_of_4 b0 b = true -> 128 <= byte_of b.
Proof. unfold second_of_4. repeat case_match; apply byte_in_ge; lia. Qed.
#[export] Hint Resolve second_of_3_ge second_of_4_ge : haex.

Lemma str_length_ind (P : string -> Prop) :
  (forall s, (forall s', (String.length s' < String.length s)%nat -> P s') -> P s) -> forall s, P s.
Proof.
  intros H s. remember (String.length s) as n eqn:Hn. revert s Hn.
  induction n as [n IH] using lt_wf_ind. intros s ->. apply H. intros s' Hs'. by eapply IH.
Qed.

(** [skip_bytes]: walk over the bytes of a multi-byte sequence. *)
Lemma contains_high_byte c a s :
  byte_of c < 128 -> 128 <= byte_of a ->
  contains_char c (String a s) = true -> contains_char c s = true.
Proof.
  intros Hc Ha. cbn [contains_char]. intros [Hac|Hs]%orb_true_iff; [|done].
  apply Ascii.eqb_eq in Hac as ->. lia.
Qed.

Ltac high_byte :=
  match goal with
  | H : byte_in _ _ ?a = true |- 128 <= byte_of ?a => eapply byte_in_ge; [|exact H]; lia
  | H : second_of_3 _ ?a = true |- 128 <= byte_of ?a => exact (second_of_3_ge _ _ H)
  | H : second_of_4 _ ?a = true |- 128 <= byte_of ?a => exact (second_of_4_ge _ _ H)
  | |- _ => lia
  end.

(** Every ASCII byte is a character of its own: no multi-byte sequence and no
    replacement hides one. *)
Lemma ascii_byte_chars c s :
  byte_of c < 128 -> contains_char c s = true -> In (byte_of c) (chars s).
Proof.
  intros Hc. induction s as [s IH] using str_length_ind.
  destruct s as [|a s1]; [done|]. unfold chars in *. cbn [utf8_chunks]. cbv zeta.
  destruct (byte_of a <? 128) eqn:Ha.
  { cbn [contains_char]. intros [Hac|Hs]%orb_true_iff; cbn [map chunk_code].
    - apply Ascii.eqb_eq in Hac as ->. by left.
    - right. apply IH; [cbn; lia | done]. }
  intros Hs. apply contains_high_byte in Hs; [|done|lia].
  repeat first
    [ match goal with |- context [match ?x with EmptyString => _ | String _ _ => _ end] =>
        is_var x; destruct x end
    | progress cbv iota
    | match goal with |- context [if ?b then _ else _] =>
        let H := fresh "Hb" in lazymatch type of b with bool => destruct b eqn:H end end ];
  cbn [map chunk_code]; right;
  repeat first [ discriminate Hs
               | apply IH; [cbn [String.length]; lia | exact Hs]
               | apply contains_high_byte in Hs; [|exact Hc|high_byte] ].
Qed.
