(* ===== verification/Hashing.v ===== *)
(** * HashMap grouping (std::collections::HashMap)

    Iterating over a [HashMap] yields its entries in an order the standard
    library does not specify. [HashOrder] is that order, a permutation chosen
    per map; [group_entries] is the loop
    [map.entry(key(&item)).or_default().push(item)] before any iteration. *)

From S2P Require Import Prelude.

Class HashOrder := {
  hash_order : forall (site : nat) {A : Type}, list A -> list A;
  hash_order_perm : forall site A (l : list A), Permutation (hash_order site l) l;
}.

(** Two orders, for the witnesses: insertion order and its reverse. *)
#[export] Instance insertion_order : HashOrder := {
  hash_order site A l := l;
  hash_order_perm site A l := Permutation_refl l;
}.
Definition reverse_order : HashOrder := {|
  hash_order site A l := rev l;
  hash_order_perm site A l := Permutation_sym (Permutation_rev l);
|}.

Section grouping.
Context {K T : Type} `{EqDecision K}.

Fixpoint push_group (k : K) (x : T) (groups : list (K * list T)) : list (K * list T) :=
  match groups with
  | [] => [(k, [x])]
  | (k', xs) :: rest =>
      if decide (k' = k) then (k', xs ++ [x]) :: rest else (k', xs) :: push_group k x rest
  end.

Definition group_entries (key : T -> K) (items : list T) : list (K * list T) :=
  fold_left (fun groups x => push_group (key x) x groups) items [].

(** The distinct keys, by first occurrence. *)
Definition add_key (ks : list K) (k : K) : list K := if decide (k ∈ ks) then ks else ks ++ [k].
Definition first_keys (key : T -> K) (items : list T) : list K :=
  fold_left (fun ks x => add_key ks (key x)) items [].

Definition group_of (key : T -> K) (items : list T) (k : K) : list T :=
  filter (fun x => key x = k) items.

Lemma push_group_map (f : K -> list T) k x ks :
  NoDup ks -> (k ∉ ks -> f k = []) ->
  push_group k x (map (fun k' => (k', f k')) ks) =
    map (fun k' => (k', f k' ++ (if decide (k' = k) then [x] else []))) (add_key ks k).
Proof.
  intros Hnd Hf. unfold add_key.
  assert (forall l, k ∉ l -> map (fun k' => (k', f k')) l =
            map (fun k' => (k', f k' ++ (if decide (k' = k) then [x] else []))) l) as Hout.
  { induction l as [|k0 l IH]; [done|]. rewrite not_elem_of_cons. intros [Hne Hl]. cbn [map].
    rewrite <- IH by done. rewrite decide_False by congruence. by rewrite app_nil_r. }
  destruct (decide (k ∈ ks)) as [Hin|Hin].
  - clear Hf. induction Hnd as [|k0 ks Hk0 Hnd IH]; [by apply elem_of_nil in Hin|]. cbn [map push_group].
    destruct (decide (k0 = k)) as [->|Hne].
    + f_equal. by apply Hout.
    + rewrite app_nil_r. f_equal. apply IH. apply elem_of_cons in Hin as [->|]; done.
  - rewrite map_app. cbn [map]. rewrite (Hf Hin), decide_True by done. rewrite <- Hout by done. clear -Hin.
    induction ks as [|k0 ks IH]; [done|]. apply not_elem_of_cons in Hin as [Hne Hin]. cbn [map push_group app].
    rewrite decide_False by congruence. f_equal. by apply IH.
Qed.

Lemma first_keys_spec key items :
  NoDup (first_keys key items) /\
  forall k, k ∈ first_keys key items <-> exists x, x ∈ items /\ key x = k.
Proof.
  unfold first_keys. induction items as [|x items IH] using rev_ind; cbn [fold_left].
  - split; [constructor|]. intros k. split; [by intros ?%elem_of_nil|].
    intros (x & Hx%elem_of_nil & _). done.
  - rewrite fold_left_app. cbn [fold_left]. destruct IH as [Hnd Hin]. unfold add_key.
    destruct (decide _) as [Hk|Hk].
    + split; [done|]. intros k. rewrite Hin. setoid_rewrite elem_of_app.
      setoid_rewrite list_elem_of_singleton. split; [naive_solver|].
      intros (y & [Hy| ->] & <-); [by eauto|]. by apply Hin.
    + split; [apply NoDup_app; split; [done|]; split;
               [intros y Hy ->%list_elem_of_singleton; done | apply NoDup_singleton]|].
      intros k. setoid_rewrite elem_of_app. rewrite Hin. setoid_rewrite list_elem_of_singleton.
      naive_solver.
Qed.

Lemma group_of_app key items x k :
  group_of key (items ++ [x]) k = group_of key items k ++ (if decide (k = key x) then [x] else []).
Proof.
  unfold group_of. rewrite filter_app. f_equal. rewrite filter_cons, filter_nil.
  destruct (decide (key x = k)), (decide (k = key x)); congruence.
Qed.

Lemma group_of_empty key items k : k ∉ first_keys key items -> group_of key items k = [].
Proof.
  intros Hk. unfold group_of.
  destruct (filter (fun x => key x = k) items) as [|y l] eqn:Hl; [done|].
  exfalso. apply Hk. apply first_keys_spec. exists y.
  assert (y ∈ filter (fun x => key x = k) items) as Hy by (rewrite Hl; by left).
  apply list_elem_of_filter in Hy as [??]. done.
Qed.

(** Each key once, by first occurrence, with its items in input order. *)
Lemma group_entries_eq key items :
  group_entries key items = map (fun k => (k, group_of key items k)) (first_keys key items).
Proof.
  unfold group_entries. induction items as [|x items IH] using rev_ind; [done|].
  rewrite fold_left_app. cbn [fold_left]. rewrite IH.
  rewrite push_group_map; [|apply first_keys_spec|apply group_of_empty].
  unfold first_keys at 2. rewrite fold_left_app. cbn [fold_left].
  apply map_ext. intros k. by rewrite group_of_app.
Qed.

Lemma group_entries_keys key items : map fst (group_entries key items) = first_keys key items.
Proof. rewrite group_entries_eq, map_map. cbn. apply map_id. Qed.

Lemma group_entries_elem key items k g :
  (k, g) ∈ group_entries key items -> g = group_of key items k /\ g <> [] .
Proof.
  rewrite group_entries_eq. intros (k' & [= -> ->] & Hk')%list_elem_of_fmap. split; [done|].
  apply first_keys_spec in Hk' as (x & Hx & Hk). intros Hnil.
  assert (x ∈ group_of key items k') as Hin by (by apply list_elem_of_filter).
  rewrite Hnil in Hin. by apply elem_of_nil in Hin.
Qed.

Lemma group_concat_perm key items : Permutation (concat (map snd (group_entries key items))) items.
Proof.
  induction items as [|x items IH] using rev_ind; [done|].
  unfold group_entries in *. rewrite fold_left_app. cbn [fold_left].
  rewrite <- Permutation_cons_append. etransitivity; [|by constructor; apply IH]. clear IH.
  generalize (fold_left (fun groups x0 => push_group (key x0) x0 groups) items []). intros gs.
  induction gs as [|[k xs] gs IH]; cbn [push_group]; [done|].
  destruct (decide (k = key x)); cbn [map snd concat].
  - rewrite <- app_assoc. cbn. by rewrite Permutation_middle.
  - rewrite IH. by rewrite Permutation_middle.
Qed.
End grouping.
