(* ===== verification/Names.v ===== *)
(** * Reserved names (src/table_names.rs, src/crdt/columns.rs)

    The crate's own tables, metadata columns and SQL functions, and the one
    suffix rule that keeps a table or a column out of sync. *)

From S2P Require Import Prelude.

Definition TABLE_CRDT_CONFIGS := "haex_crdt_configs_no_sync".
Definition TABLE_CRDT_DIRTY_TABLES := "haex_crdt_dirty_tables_no_sync".
Definition TABLE_CRDT_MIGRATIONS := "haex_crdt_migrations_no_sync".
Definition TABLE_APP_MIGRATIONS := "haex_app_migrations_no_sync".

Definition HLC_TIMESTAMP_COLUMN := "haex_hlc_no_sync".
Definition COLUMN_HLCS_COLUMN := "haex_column_hlcs_no_sync".
Definition COLUMN_SIGS_COLUMN := "haex_column_sigs_no_sync".
Definition DELETED_ROWS_TABLE := "haex_deleted_rows".
Definition UUID_FUNCTION_NAME := "gen_uuid".
Definition HLC_FUNCTION_NAME := "current_hlc".

Definition HLC_TIMESTAMP_TYPE := "hlc_timestamp".
Definition CONFIG_KEY_TRIGGER_VERSION := "trigger_version".
Definition CONFIG_KEY_TRIGGERS_ENABLED := "triggers_enabled".

(** The suffix rule. *)
Definition is_no_sync_name (name : string) : bool := ends_with "_no_sync" name.

(** The three columns the crate owns. *)
Definition meta_columns : list string :=
  [HLC_TIMESTAMP_COLUMN; COLUMN_HLCS_COLUMN; COLUMN_SIGS_COLUMN].
Definition is_meta_column (name : string) : bool :=
  String.eqb name HLC_TIMESTAMP_COLUMN || String.eqb name COLUMN_HLCS_COLUMN ||
  String.eqb name COLUMN_SIGS_COLUMN.

Lemma is_meta_column_spec name : is_meta_column name = true <-> In name meta_columns.
Proof.
  unfold is_meta_column, meta_columns. rewrite !orb_true_iff, !String.eqb_eq. simpl.
  intuition congruence.
Qed.

(** The metadata columns carry the suffix, so the suffix rule catches them. *)
Lemma meta_column_no_sync name : is_meta_column name = true -> is_no_sync_name name = true.
Proof. rewrite is_meta_column_spec. by intros [<-|[<-|[<-|[]]]]. Qed.
#[export] Hint Resolve meta_column_no_sync : haex.
