(* ===== verification/Json.v ===== *)
(** * JSON values (serde_json::Value, used throughout src/)

    [json] has the constructors of [serde_json::Value]. A [serde_json::Map]
    without the [preserve_order] feature is a [BTreeMap]: here a list of
    entries sorted by key, so that two equal maps are the same list. Printing
    and parsing JSON text is serde_json's own code: a class with no
    definition, whose laws state only the round trip the crate relies on. *)

From S2P Require Import Prelude.

(** ** Numbers *)

(** An [f64] is its IEEE 754 bit pattern. *)
Definition f64_is_finite (bits : Z) : bool :=
  negb (Z.land (Z.shiftr bits 52) 2047 =? 2047).
Definition f64_is_zero (bits : Z) : bool := Z.land bits (2 ^ 63 - 1) =? 0.
Definition f64_eqb (a b : Z) : bool := (a =? b) || (f64_is_zero a && f64_is_zero b).

Inductive number :=
| PosInt (u : Z)
| NegInt (i : Z)
| Float (bits : Z).

Definition number_eqb (a b : number) : bool :=
  match a, b with
  | PosInt x, PosInt y => x =? y
  | NegInt x, NegInt y => x =? y
  | Float x, Float y => f64_eqb x y
  | _, _ => false
  end.

(** [Number::from(i64)] and [Number::from_f64]. *)
Definition number_of_i64 (i : Z) : number := if i <? 0 then NegInt i else PosInt i.
Definition number_of_f64 (bits : Z) : option number :=
  if f64_is_finite bits then Some (Float bits) else None.

Definition as_i64 (n : number) : option Z :=
  match n with
  | PosInt u => if u <=? i64_max then Some u else None
  | NegInt i => Some i
  | Float _ => None
  end.
Definition as_u64 (n : number) : option Z :=
  match n with PosInt u => Some u | _ => None end.

(** ** Values *)

Inductive json :=
| JNull
| JBool (b : bool)
| JNumber (n : number)
| JString (s : string)
| JArray (l : list json)
| JObject (m : list (string * json)).

Abbreviation jmap := (list (string * json)) (only parsing).

Section json_ind.
Variable P : json -> Prop.
Hypothesis HNull : P JNull.
Hypothesis HBool : forall b, P (JBool b).
Hypothesis HNumber : forall n, P (JNumber n).
Hypothesis HString : forall s, P (JString s).
Hypothesis HArray : forall l, Forall P l -> P (JArray l).
Hypothesis HObject : forall m, Forall (fun e => P (snd e)) m -> P (JObject m).

Fixpoint json_ind' (v : json) : P v :=
  match v with
  | JNull => HNull
  | JBool b => HBool b
  | JNumber n => HNumber n
  | JString s => HString s
  | JArray l => HArray l ((fix go l : Forall P l :=
      match l with
      | [] => Forall_nil_2 P
      | x :: l' => Forall_cons_2 P x l' (json_ind' x) (go l')
      end) l)
  | JObject m => HObject m ((fix go m : Forall (fun e => P (snd e)) m :=
      match m with
      | [] => Forall_nil_2 _
      | e :: m' => Forall_cons_2 (fun e => P (snd e)) e m' (json_ind' (snd e)) (go m')
      end) m)
  end.
End json_ind.

Definition as_str (v : json) : option string :=
  match v with JString s => Some s | _ => None end.

(** [Value: PartialEq]. *)
Fixpoint json_eqb (a b : json) : bool :=
  match a, b with
  | JNull, JNull => true
  | JBool x, JBool y => Bool.eqb x y
  | JNumber x, JNumber y => number_eqb x y
  | JString x, JString y => String.eqb x y
  | JArray x, JArray y =>
      (fix go x y := match x, y with
        | [], [] => true
        | v :: x', w :: y' => json_eqb v w && go x' y'
        | _, _ => false
        end) x y
  | JObject x, JObject y =>
      (fix go x y := match x, y with
        | [], [] => true
        | (k, v) :: x', (k', w) :: y' => String.eqb k k' && json_eqb v w && go x' y'
        | _, _ => false
        end) x y
  | _, _ => false
  end.

Definition jmap_eqb (a b : jmap) : bool := json_eqb (JObject a) (JObject b).

Lemma f64_eqb_refl x : f64_eqb x x = true.
Proof. unfold f64_eqb. by rewrite Z.eqb_refl. Qed.

Lemma json_eqb_refl v : json_eqb v v = true.
Proof.
  induction v as [| | |s|l IH|m IH] using json_ind'; simpl; try done.
  - by destruct b.
  - destruct n; simpl; [apply Z.eqb_refl | apply Z.eqb_refl | apply f64_eqb_refl].
  - apply String.eqb_refl.
  - induction IH as [|v l Hv _ IHl]; [done|]. by rewrite Hv, IHl.
  - induction IH as [|[k v] m Hv _ IHm]; [done|]. simpl in Hv.
    by rewrite String.eqb_refl, Hv, IHm.
Qed.

Lemma jmap_eqb_refl m : jmap_eqb m m = true.
Proof. apply json_eqb_refl. Qed.

(** ** Maps: a [BTreeMap<String, Value>] *)

Fixpoint jget (k : string) (m : jmap) : option json :=
  match m with
  | [] => None
  | (k', v) :: m' => if String.eqb k' k then Some v else jget k m'
  end.

Fixpoint jinsert (k : string) (v : json) (m : jmap) : jmap :=
  match m with
  | [] => [(k, v)]
  | (k', v') :: m' =>
      match String.compare k k' with
      | Lt => (k, v) :: m
      | Eq => (k, v) :: m'
      | Gt => (k', v') :: jinsert k v m'
      end
  end.

Fixpoint jremove (k : string) (m : jmap) : jmap :=
  match m with
  | [] => []
  | (k', v') :: m' => if String.eqb k' k then m' else (k', v') :: jremove k m'
  end.

Definition jkeys (m : jmap) : list string := map fst m.
Definition jcontains (k : string) (m : jmap) : bool :=
  match jget k m with Some _ => true | None => false end.

Definition str_lt (a b : string) : Prop := String.compare a b = Lt.
Definition jsorted (m : jmap) : Prop := StronglySorted str_lt (jkeys m).

Lemma jget_insert_eq k v m : jget k (jinsert k v m) = Some v.
Proof.
  induction m as [|[k' v'] m IH]; simpl; [by rewrite String.eqb_refl|].
  destruct (String.compare k k') eqn:Hc; simpl; try by rewrite String.eqb_refl.
  destruct (String.eqb k' k) eqn:He; [|done].
  apply String.eqb_eq in He as ->. by rewrite (proj2 (string_cmp_eq k k)) in Hc.
Qed.

Lemma jget_insert_ne k k' v m : k <> k' -> jget k (jinsert k' v m) = jget k m.
Proof.
  intros Hne. induction m as [|[k0 v0] m IH]; simpl.
  - apply not_eq_sym, String.eqb_neq in Hne. by rewrite Hne.
  - destruct (String.compare k' k0) eqn:Hc; simpl.
    + apply string_cmp_eq in Hc as ->. apply not_eq_sym, String.eqb_neq in Hne. by rewrite Hne.
    + apply not_eq_sym, String.eqb_neq in Hne. by rewrite Hne.
    + destruct (String.eqb k0 k); [done|]. by rewrite IH.
Qed.

Lemma jkeys_insert_In k v m x : In x (jkeys (jinsert k v m)) <-> x = k \/ In x (jkeys m).
Proof.
  induction m as [|[k' v'] m IH]; simpl; [naive_solver|].
  destruct (String.compare k k') eqn:Hc; simpl.
  - apply string_cmp_eq in Hc as ->. naive_solver.
  - naive_solver.
  - unfold jkeys in IH. rewrite IH. naive_solver.
Qed.

Lemma jinsert_sorted k v m : jsorted m -> jsorted (jinsert k v m).
Proof.
  unfold jsorted. induction m as [|[k' v'] m IH]; simpl; [repeat constructor|].
  intros [Hall Hs]%StronglySorted_cons.
  destruct (String.compare k k') eqn:Hc; simpl.
  - apply string_cmp_eq in Hc as ->. by constructor.
  - constructor; [by constructor|]. constructor; [done|].
    eapply Forall_impl; [exact Hall|]. unfold str_lt. simpl. intros x Hx.
    destruct (String.compare k x) eqn:Hkx; [|done|].
    + apply string_cmp_eq in Hkx as ->. rewrite (cmp_swap _ x k') in Hx. by rewrite Hc in Hx.
    + rewrite (cmp_gt_le_trans _ _ _ k' Hkx) in Hc; [done|]. unfold cmp_le. by rewrite Hx.
  - constructor; [auto|]. rewrite List.Forall_forall in *. intros x Hx.
    apply jkeys_insert_In in Hx as [->|Hx]; [by apply (cmp_gt_lt _)|]. by apply Hall.
Qed.
#[export] Hint Resolve jinsert_sorted : haex.

Lemma jsorted_get_notin k m : ~ In k (jkeys m) -> jget k m = None.
Proof.
  induction m as [|[k' v] m IH]; simpl; [done|]. intros H.
  destruct (String.eqb k' k) eqn:He; [|tauto]. apply String.eqb_eq in He. tauto.
Qed.

Lemma jget_In k v m : jget k m = Some v -> In (k, v) m.
Proof.
  induction m as [|[k' v'] m IH]; simpl; [done|].
  destruct (String.eqb k' k) eqn:He; [|auto].
  apply String.eqb_eq in He as ->. intros [= ->]. by left.
Qed.

(** Two sorted maps with the same lookups are the same map. *)
Lemma jmap_ext m1 m2 :
  jsorted m1 -> jsorted m2 -> (forall k, jget k m1 = jget k m2) -> m1 = m2.
Proof.
  assert (forall k x, str_lt k x -> String.eqb k x = false /\ String.eqb x k = false) as Hlt.
  { intros k x H. split; apply String.eqb_neq; intros ->; unfold str_lt in H;
      by rewrite (proj2 (string_cmp_eq _ _) eq_refl) in H. }
  assert (forall k v m, jsorted ((k, v) :: m) -> jget k m = None) as Hhd.
  { intros k v m [Hall _]%StronglySorted_cons. apply jsorted_get_notin. intros Hin.
    rewrite List.Forall_forall in Hall. apply Hall, Hlt in Hin as [Hin _].
    by rewrite String.eqb_refl in Hin. }
  revert m2. induction m1 as [|[k v] m1 IH]; intros [|[k2 v2] m2] Hs1 Hs2 Heq; [done| | |].
  - specialize (Heq k2). simpl in Heq. by rewrite String.eqb_refl in Heq.
  - specialize (Heq k). simpl in Heq. by rewrite String.eqb_refl in Heq.
  - pose proof (Hhd _ _ _ Hs1) as Hn1. pose proof (Hhd _ _ _ Hs2) as Hn2.
    apply StronglySorted_cons in Hs1 as [Ha1 Hs1]. apply StronglySorted_cons in Hs2 as [Ha2 Hs2].
    assert (k = k2) as <-.
    { destruct (String.compare k k2) eqn:Hc; [by apply string_cmp_eq| |].
      - specialize (Heq k). simpl in Heq. rewrite String.eqb_refl, (proj2 (Hlt _ _ Hc)) in Heq.
        symmetry in Heq. apply jget_In, (in_map fst) in Heq. simpl in Heq.
        rewrite List.Forall_forall in Ha2. apply Ha2 in Heq. unfold str_lt in Heq.
        rewrite (cmp_swap _ k k2), Hc in Heq. done.
      - apply (cmp_gt_lt _) in Hc.
        specialize (Heq k2). simpl in Heq. rewrite String.eqb_refl, (proj2 (Hlt _ _ Hc)) in Heq.
        apply jget_In, (in_map fst) in Heq. simpl in Heq.
        rewrite List.Forall_forall in Ha1. apply Ha1 in Heq. unfold str_lt in Heq.
        rewrite (cmp_swap _ k2 k), Hc in Heq. done. }
    pose proof (Heq k) as Hk. simpl in Hk. rewrite String.eqb_refl in Hk. injection Hk as <-.
    f_equal. apply IH; [done..|]. intros x. specialize (Heq x). simpl in Heq.
    destruct (String.eqb k x) eqn:Hx; [|done]. apply String.eqb_eq in Hx as <-. congruence.
Qed.

(** ** Printing and parsing: serde_json *)

Class Serde := {
  json_to_string : json -> string;
  json_from_str : string -> option json;
}.

Definition string_map (m : jmap) : Prop :=
  Forall (fun e => exists s, snd e = JString s) m.

(** The documented behaviour the crate relies on: printing a map of strings
    and parsing it back gives the map. *)
Class SerdeLaws `{Serde} : Prop := {
  serde_string_map : forall m, jsorted m -> string_map m ->
    json_from_str (json_to_string (JObject m)) = Some (JObject m);
}.

Section serde.
Context `{Serde}.

(** [serde_json::from_str::<Map<String, Value>>]. *)
Definition from_str_map (s : string) : option jmap :=
  match json_from_str s with Some (JObject m) => Some m | _ => None end.

(** [serde_json::from_str::<HashMap<String, String>>]: every value must be
    a string. *)
Definition all_strings (m : jmap) : bool :=
  forallb (fun e => match snd e with JString _ => true | _ => false end) m.
Definition from_str_string_map (s : string) : option jmap :=
  match from_str_map s with
  | Some m => if all_strings m then Some m else None
  | None => None
  end.
End serde.
