(* ===== verification/Sql.v ===== *)
(** * The SQLite interface (rusqlite)

    SQLite and rusqlite are not part of the repository: [Rusqlite db] is the
    interface the crate calls, with no definition. Statements are values of
    [Stmt], one constructor per statement shape the crate formats; [render]
    gives the text the source formats for the shapes whose text is built from
    names. A transaction is a value of type [db] that the code threads from
    statement to statement: committing keeps it, dropping it without a commit
    discards it (rusqlite's default drop behaviour, rollback). *)

From S2P Require Import Prelude Names.

(** [rusqlite::types::Value]; a real is its IEEE bit pattern. *)
Inductive SqlValue :=
| SNull
| SInteger (i : Z)
| SReal (bits : Z)
| SText (s : string)
| SBlob (b : string).

#[export] Instance SqlValue_eq_dec : EqDecision SqlValue.
Proof. solve_decision. Defined.

(** The parts of [rusqlite::Error] the crate looks at. *)
Inductive SqlError :=
| SqliteFailure (extended_code : Z)
| QueryReturnedNoRows
| StatementChangedRows (n : nat)
| InvalidParameterName (msg : string)
| InvalidColumnType
| InvalidColumnIndex (i : nat)
| MultipleStatement
| OtherSqlError (msg : string).

#[export] Instance SqlError_eq_dec : EqDecision SqlError.
Proof. solve_decision. Defined.

Definition SQLITE_CONSTRAINT_NOTNULL : Z := 1299.
Definition SQLITE_CONSTRAINT_PRIMARYKEY : Z := 1555.
Definition SQLITE_CONSTRAINT_UNIQUE : Z := 2067.
Definition SQLITE_TOOBIG : Z := 18.
Definition SQLITE_AUTH : Z := 23.

(** [Error::sqlite_error_code]: the primary code is the low byte. *)
Definition sqlite_error_code (e : SqlError) : option Z :=
  match e with SqliteFailure c => Some (Z.land c 255) | _ => None end.

(** [PRAGMA table_info] rows: src/crdt/trigger/mod.rs [ColumnInfo]. *)
Record ColumnInfo := mkColumn {
  ci_name : string;
  ci_type : string;
  ci_is_pk : bool;
}.

(** One conjunct of the WHERE clause [build_pk_where_from_map] writes. *)
Inductive watom :=
| WEq (col : string)
| WIsNull (col : string).

#[export] Instance watom_eq_dec : EqDecision watom.
Proof. solve_decision. Defined.

Definition dquote : string := String (ascii_of_nat 34) EmptyString.
Definition quoted (s : string) : string := dquote +:+ s +:+ dquote.

Definition render_watom (a : watom) : string :=
  match a with
  | WEq c => quoted c +:+ " = ?"
  | WIsNull c => quoted c +:+ " IS NULL"
  end.
Definition render_where (w : list watom) : string := join " AND " (map render_watom w).

(** The predicates of the outbound scan. *)
Inductive scan_pred :=
| AfterHlc (n : nat)
| ColumnEq (col : string) (n : nat).

Inductive Stmt :=
| Select (cols : list string) (table : string) (w : list watom)
| Update (table : string) (set_cols : list string) (w : list watom)
| Insert (table : string) (cols : list string)
| Delete (table : string) (w : list watom)
| Scan (cols : list string) (table : string) (preds : list scan_pred)
| SelectDeleteLog
| SelectDeleteLogById
| Savepoint (name : string)
| Release (name : string)
| RollbackRelease (name : string)
| ConfigGet
| ConfigGetHlc
| ConfigUpsertHlc
| ToggleTriggers
| ConfigReplaceSystem
| PragmaForeignKeys
| SetForeignKeys (on : bool)
| DirtyTables
| MarkDirty
| ExecBatch (sql : string)
| TriggerExists
| AddColumn (table col decl : string)
| CrdtTables
| ExistsUnstamped (table : string)
| StampRows (table : string)
| MaxPrunableAll
| MaxPrunableBefore
| PruneAll
| PruneBefore
| CountRows (table : string)
| StatsTables
| CreateJournals
| ReadJournal (journal : string)
| JournalDigest (journal : string)
| JournalInsert (journal : string)
| RawSql (sql : string)
| RecordBootstrap
| TableExists
| UserTables
| TableColumns (table : string)
| RenameTable (table new_name : string)
| RenameColumn (table col new_name : string)
| LegacyConflict (legacy current key : string) (value_columns : list string)
| MergeLegacy (legacy current : string)
| DropTable (table : string).

(** The interface. [table_info] is the one pragma whose rows are typed by
    the crate ([ColumnInfo::from_row]). *)
Class Rusqlite (db : Type) := {
  prepare : db -> Stmt -> res SqlError unit;
  execute : db -> Stmt -> list SqlValue -> res SqlError (nat * db);
  query : db -> Stmt -> list SqlValue -> res SqlError (list (list SqlValue));
  table_info : db -> string -> res SqlError (list ColumnInfo);
  begin_immediate : db -> res SqlError unit;
  begin_deferred : db -> res SqlError unit;
  commit : db -> res SqlError unit;
}.

(** ** rusqlite's own combinators *)

Definition query_row {db} `{Rusqlite db} (c : db) (st : Stmt) (ps : list SqlValue)
    : res SqlError (list SqlValue) :=
  rows ← query c st ps;
  match rows with
  | [] => Err QueryReturnedNoRows
  | r :: _ => Ok r
  end.

(** [OptionalExtension::optional]. *)
Definition optional {A} (r : res SqlError A) : res SqlError (option A) :=
  match r with
  | Ok a => Ok (Some a)
  | Err QueryReturnedNoRows => Ok None
  | Err e => Err e
  | Panic m => Panic m
  end.

(** [row.get::<_, String>(i)] and [row.get::<_, Option<String>>(i)]. *)
Definition get_string (row : list SqlValue) (i : nat) : res SqlError string :=
  match row !! i with
  | Some (SText s) => Ok s
  | Some _ => Err InvalidColumnType
  | None => Err (InvalidColumnIndex i)
  end.
Definition get_opt_string (row : list SqlValue) (i : nat) : res SqlError (option string) :=
  match row !! i with
  | Some (SText s) => Ok (Some s)
  | Some SNull => Ok None
  | Some _ => Err InvalidColumnType
  | None => Err (InvalidColumnIndex i)
  end.
Definition get_int (row : list SqlValue) (i : nat) : res SqlError Z :=
  match row !! i with
  | Some (SInteger n) => Ok n
  | Some _ => Err InvalidColumnType
  | None => Err (InvalidColumnIndex i)
  end.

Definition get_bool (row : list SqlValue) (i : nat) : res SqlError bool :=
  n ← get_int row i; Ok (negb (n =? 0)).

(** ** The text of the statements built from names *)

Definition render_pred (p : scan_pred) : string :=
  match p with
  | AfterHlc n =>
      "(" +:+ quoted HLC_TIMESTAMP_COLUMN +:+ " > ?" +:+ pretty n +:+ " OR " +:+
      quoted HLC_TIMESTAMP_COLUMN +:+ " IS NULL OR " +:+ quoted HLC_TIMESTAMP_COLUMN +:+ " = '')"
  | ColumnEq c n => quoted c +:+ " = ?" +:+ pretty n
  end.

(** The metadata columns of an UPDATE are written without quotes. *)
Definition render_update (table : string) (data_cols meta_cols : list string) (w : list watom) : string :=
  "UPDATE " +:+ quoted table +:+ " SET " +:+
  join ", " (map (fun c => quoted c +:+ " = ?") data_cols ++ map (fun c => c +:+ " = ?") meta_cols) +:+
  " WHERE " +:+ render_where w.

Definition render_insert (table : string) (cols : list string) : string :=
  "INSERT INTO " +:+ quoted table +:+ " (" +:+ join ", " (map quoted cols) +:+ ") VALUES (" +:+
  join ", " (map (fun _ => "?") cols) +:+ ")".

Definition render_scan (cols : list string) (table : string) (preds : list scan_pred) : string :=
  "SELECT " +:+ join ", " (map quoted cols) +:+ " FROM " +:+ quoted table +:+
  match preds with
  | [] => ""
  | _ => " WHERE " +:+ join " AND " (map render_pred preds)
  end.

Definition render_delete (table : string) (w : list watom) : string :=
  "DELETE FROM " +:+ quoted table +:+ " WHERE " +:+ render_where w.
