(* ===== verification/Mini.v ===== *)
(** * Concrete instances, for the witnesses

    A JSON printer and parser that cover nulls, strings, arrays and objects,
    and an in-memory database. They instantiate the interfaces [Serde] and
    [Rusqlite] so that the properties can be evaluated on inputs; they are not
    models of serde_json or SQLite. *)

From S2P Require Import Prelude Names Json Sql.

(** ** JSON text *)

Definition backslash : ascii := ascii_of_nat 92.
Definition quote_char : ascii := ascii_of_nat 34.

Fixpoint escape (s : string) : string :=
  match s with
  | EmptyString => EmptyString
  | String c s' =>
      if Ascii.eqb c quote_char || Ascii.eqb c backslash
      then String backslash (String c (escape s')) else String c (escape s')
  end.

(** The characters up to the closing quote, and the rest after it. *)
Fixpoint unescape (esc : bool) (s : string) : option (string * string) :=
  match s with
  | EmptyString => None
  | String c s' =>
      if esc then
        match unescape false s' with Some (a, r) => Some (String c a, r) | None => None end
      else if Ascii.eqb c quote_char then Some (EmptyString, s')
      else if Ascii.eqb c backslash then unescape true s'
      else match unescape false s' with Some (a, r) => Some (String c a, r) | None => None end
  end.

Definition print_number (n : number) : string :=
  match n with
  | PosInt u => pretty u
  | NegInt i => pretty i
  | Float bits => "f" +:+ pretty bits
  end.

Fixpoint print_json (v : json) : string :=
  match v with
  | JNull => "null"
  | JBool b => if b then "true" else "false"
  | JNumber n => print_number n
  | JString s => String quote_char (escape s +:+ String quote_char EmptyString)
  | JArray l => "[" +:+ join "," (map print_json l) +:+ "]"
  | JObject m =>
      "{" +:+ join "," (map (fun e => String quote_char
        (escape (fst e) +:+ String quote_char (":" +:+ print_json (snd e)))) m) +:+ "}"
  end.

Fixpoint parse_json (fuel : nat) (s : string) : option (json * string) :=
  match fuel with
  | O => None
  | S fuel' =>
      match s with
      | String c s' =>
          if Ascii.eqb c quote_char then
            match unescape false s' with Some (a, r) => Some (JString a, r) | None => None end
          else if Ascii.eqb c "n" then
            if String.prefix "ull" s' then Some (JNull, substring 3 (String.length s' - 3) s') else None
          else if Ascii.eqb c "{" then
            match s' with
            | String c' r => if Ascii.eqb c' "}" then Some (JObject [], r) else
                match parse_entries fuel' s' with
                | Some (m, r) => Some (JObject m, r)
                | None => None
                end
            | EmptyString => None
            end
          else None
      | EmptyString => None
      end
  end
with parse_entries (fuel : nat) (s : string) : option (list (string * json) * string) :=
  match fuel with
  | O => None
  | S fuel' =>
      match s with
      | String q s1 =>
          if Ascii.eqb q quote_char then
            match unescape false s1 with
            | Some (k, String c s2) =>
                if Ascii.eqb c ":" then
                  match parse_json fuel' s2 with
                  | Some (v, String d s3) =>
                      if Ascii.eqb d "," then
                        match parse_entries fuel' s3 with
                        | Some (m, r) => Some ((k, v) :: m, r)
                        | None => None
                        end
                      else if Ascii.eqb d "}" then Some ([(k, v)], s3) else None
                  | _ => None
                  end
                else None
            | _ => None
            end
          else None
      | EmptyString => None
      end
  end.

Definition mini_from_str (s : string) : option json :=
  match parse_json (2 + String.length s) s with
  | Some (v, EmptyString) => Some v
  | _ => None
  end.

#[export] Instance mini_serde : Serde := {
  json_to_string := print_json;
  json_from_str := mini_from_str;
}.

Lemma unescape_escape s r :
  unescape false (escape s +:+ String quote_char r) = Some (s, r).
Proof.
  induction s as [|c s IH]; cbn [escape]; [rewrite append_empty; cbn [unescape]; by rewrite Ascii.eqb_refl|].
  destruct (Ascii.eqb c quote_char || Ascii.eqb c backslash) eqn:Hc.
  - rewrite !append_cons. cbn [unescape]. change (Ascii.eqb backslash quote_char) with false. change (Ascii.eqb backslash backslash) with true.
    cbv iota. by rewrite IH.
  - rewrite append_cons. cbn [unescape]. apply orb_false_iff in Hc as [-> ->]. by rewrite IH.
Qed.

Definition print_entry (e : string * json) : string :=
  String quote_char (escape (fst e) +:+ String quote_char (":" +:+ print_json (snd e))).

Lemma parse_json_string fuel s r :
  fuel <> 0%nat ->
  parse_json fuel (String quote_char (escape s +:+ String quote_char r)) = Some (JString s, r).
Proof.
  destruct fuel; [done|]. intros _. cbn [parse_json]. by rewrite Ascii.eqb_refl, unescape_escape.
Qed.

Lemma parse_print_entries m : forall fuel r, m <> [] -> string_map m ->
  (2 * length m <= fuel)%nat ->
  parse_entries fuel (join "," (map print_entry m) +:+ String "}" r) = Some (m, r).
Proof.
  induction m as [|[k v] m IH]; intros fuel r Hne Hm Hfuel; [done|].
  apply Forall_cons in Hm as [[s Hs] Hm]. cbn in Hs; subst v.
  destruct fuel as [|fuel]; [cbn in Hfuel; lia|].
  assert (join "," (map print_entry ((k, JString s) :: m)) +:+ String "}" r =
    String quote_char (escape k +:+ String quote_char (String ":" (String quote_char
      (escape s +:+ String quote_char
        (match m with [] => String "}" r | _ => String "," (join "," (map print_entry m) +:+ String "}" r) end)))))) as ->.
  { cbn [map]. unfold print_entry at 1. cbn [fst snd print_json].
    destruct m as [|e m]; cbn [map join]; repeat rewrite ?append_assoc_str, ?append_cons, ?append_empty; done. }
  cbn [parse_entries]. rewrite Ascii.eqb_refl, unescape_escape.
  change (Ascii.eqb ":" ":") with true. cbv iota.
  rewrite parse_json_string by (cbn in Hfuel; lia).
  destruct m as [|e m]; [reflexivity|]. change (Ascii.eqb "," ",") with true. cbv iota.
  rewrite IH; [done|done|done|cbn in *; lia].
Qed.

#[export] Instance mini_serde_laws : SerdeLaws.
Proof.
  split. intros m Hs Hm. cbn. unfold mini_from_str.
  change (map (fun e => String quote_char (escape (fst e) +:+ String quote_char (":" +:+ print_json (snd e)))) m)
    with (map print_entry m).
  destruct m as [|e m]; [reflexivity|]. set (m' := e :: m) in *.
  assert (Hlen : (2 * length m' <= String.length (join "," (map print_entry m') +:+ "}"))%nat).
  { rewrite append_length. cbn [String.length]. clear. induction m' as [|[k v] l IH]; [cbn; lia|].
    assert (2 <= String.length (print_entry (k, v)))%nat as Hpe.
    { unfold print_entry. cbn [String.length]. rewrite append_length. cbn [String.length]. lia. }
    destruct l as [|e' l]; cbn [map join length] in *; [lia|].
    rewrite !append_length. cbn [String.length]. lia. }
  cbn [Nat.add parse_json]. rewrite append_cons, append_empty.
  change (Ascii.eqb "{" quote_char) with false. change (Ascii.eqb "{" "n") with false.
  change (Ascii.eqb "{" "{") with true. cbv iota.
  destruct (join "," (map print_entry m') +:+ "}") as [|c r] eqn:Hj; [cbn in Hlen; lia|].
  assert (Ascii.eqb c "}" = false) as ->.
  { assert (c = quote_char) as ->; [|done].
    unfold m' in Hj. cbn [map] in Hj. unfold print_entry at 1 in Hj.
    destruct (map print_entry m); cbn [join] in Hj; rewrite !append_cons in Hj; congruence. }
  rewrite <- Hj, parse_print_entries; [done|done|done|].
  rewrite Hj. cbn [String.length] in *. lia.
Qed.

Example mini_json_example :
  mini_from_str (print_json (JObject [("id", JString "a"); ("k", JNull)]))
  = Some (JObject [("id", JString "a"); ("k", JNull)]).
Proof. reflexivity. Qed.

(** ** An in-memory database *)

Record MemTable := mkMemTable {
  mt_schema : list ColumnInfo;
  mt_rows : list (gmap string SqlValue);
}.

Record Mem := mkMem {
  m_tables : gmap string MemTable;
  m_config : gmap string string;
  m_savepoints : list (gmap string MemTable);
  m_fk : bool;
}.

Definition mem_get (row : gmap string SqlValue) (col : string) : SqlValue :=
  default SNull (row !! col).

(** The conjuncts, consuming a parameter for each [= ?]. *)
Fixpoint mem_match (w : list watom) (ps : list SqlValue) (row : gmap string SqlValue) : bool :=
  match w with
  | [] => true
  | WEq c :: w' =>
      match ps with
      | p :: ps' => bool_decide (mem_get row c = p) && negb (bool_decide (p = SNull)) && mem_match w' ps' row
      | [] => false
      end
  | WIsNull c :: w' => bool_decide (mem_get row c = SNull) && mem_match w' ps row
  end.

(** TEXT compares byte by byte. *)
Definition mem_pred (ps : list SqlValue) (row : gmap string SqlValue) (p : scan_pred) : bool :=
  match p with
  | AfterHlc n =>
      match mem_get row HLC_TIMESTAMP_COLUMN, ps !! (n - 1)%nat with
      | SNull, _ | SBlob _, _ => true
      | SText h, Some (SText cursor) =>
          String.eqb h EmptyString || match String.compare h cursor with Gt => true | _ => false end
      | _, _ => false
      end
  | ColumnEq c n =>
      match ps !! (n - 1)%nat with Some p => bool_decide (mem_get row c = p) | None => false end
  end.

Definition mem_table (m : Mem) (t : string) : res SqlError MemTable :=
  ok_or (m_tables m !! t) (OtherSqlError ("no such table: " +:+ t)).

Definition set_tables (m : Mem) (ts : gmap string MemTable) : Mem :=
  mkMem ts (m_config m) (m_savepoints m) (m_fk m).
Definition set_config (m : Mem) (k v : string) : Mem :=
  mkMem (m_tables m) (<[k := v]> (m_config m)) (m_savepoints m) (m_fk m).

Fixpoint mem_set (cols : list string) (ps : list SqlValue) (row : gmap string SqlValue)
    : gmap string SqlValue :=
  match cols, ps with
  | c :: cols', p :: ps' => mem_set cols' ps' (<[c := p]> row)
  | _, _ => row
  end.

Definition mem_key (schema : list ColumnInfo) (row : gmap string SqlValue) : list SqlValue :=
  map (fun c => mem_get row (ci_name c)) (List.filter ci_is_pk schema).

(** The stamping pass on one row. *)
Definition mem_unstamped (row : gmap string SqlValue) : bool :=
  match mem_get row HLC_TIMESTAMP_COLUMN with SNull => true | _ => false end.
Definition mem_stamp (hlc hlcs : string) (row : gmap string SqlValue) : gmap string SqlValue :=
  if mem_unstamped row
  then <[COLUMN_HLCS_COLUMN := SText hlcs]> (<[HLC_TIMESTAMP_COLUMN := SText hlc]> row) else row.

Definition mem_execute (m : Mem) (st : Stmt) (ps : list SqlValue) : res SqlError (nat * Mem) :=
  match st with
  | Update t set_cols w =>
      mt ← mem_table m t;
      let wps := drop (length set_cols) ps in
      let hit := List.filter (mem_match w wps) (mt_rows mt) in
      let rows := map (fun r => if mem_match w wps r then mem_set set_cols ps r else r) (mt_rows mt) in
      Ok (length hit, set_tables m (<[t := mkMemTable (mt_schema mt) rows]> (m_tables m)))
  | Insert t cols =>
      mt ← mem_table m t;
      let row := mem_set cols ps ∅ in
      if existsb (fun r => bool_decide (mem_key (mt_schema mt) r = mem_key (mt_schema mt) row)) (mt_rows mt)
      then Err (SqliteFailure SQLITE_CONSTRAINT_PRIMARYKEY)
      else Ok (1%nat, set_tables m (<[t := mkMemTable (mt_schema mt) (mt_rows mt ++ [row])]> (m_tables m)))
  | Delete t w =>
      mt ← mem_table m t;
      let keep := List.filter (fun r => negb (mem_match w ps r)) (mt_rows mt) in
      Ok ((length (mt_rows mt) - length keep)%nat,
          set_tables m (<[t := mkMemTable (mt_schema mt) keep]> (m_tables m)))
  | Savepoint _ => Ok (0%nat, mkMem (m_tables m) (m_config m) (m_tables m :: m_savepoints m) (m_fk m))
  | Release _ => Ok (0%nat, mkMem (m_tables m) (m_config m) (tail (m_savepoints m)) (m_fk m))
  | RollbackRelease _ =>
      match m_savepoints m with
      | s :: rest => Ok (0%nat, mkMem s (m_config m) rest (m_fk m))
      | [] => Err (OtherSqlError "no such savepoint")
      end
  | ToggleTriggers =>
      match ps with
      | [SText v] => Ok (1%nat, set_config m "triggers_enabled" v)
      | _ => Err (OtherSqlError "bind")
      end
  | ConfigUpsertHlc | ConfigReplaceSystem =>
      match ps with
      | [SText k; SText v] => Ok (1%nat, set_config m k v)
      | _ => Err (OtherSqlError "bind")
      end
  | StampRows t =>
      mt ← mem_table m t;
      match ps with
      | [SText h; SText hs] =>
          let rows := map (mem_stamp h hs) (mt_rows mt) in
          Ok (length (List.filter mem_unstamped (mt_rows mt)),
              set_tables m (<[t := mkMemTable (mt_schema mt) rows]> (m_tables m)))
      | _ => Err (OtherSqlError "bind")
      end
  | SetForeignKeys on => Ok (0%nat, mkMem (m_tables m) (m_config m) (m_savepoints m) on)
  | AddColumn t c _ =>
      mt ← mem_table m t;
      Ok (0%nat, set_tables m (<[t := mkMemTable (mt_schema mt ++ [mkColumn c "TEXT" false]) (mt_rows mt)]> (m_tables m)))
  | _ => Ok (0%nat, m)
  end.

(** The tables with a row-level HLC column. *)
Definition mt_synced (mt : MemTable) : bool :=
  existsb (fun c => String.eqb (ci_name c) HLC_TIMESTAMP_COLUMN) (mt_schema mt).
Definition mem_synced (ts : gmap string MemTable) : gset string :=
  dom (filter (fun e => mt_synced e.2 = true) ts).

Lemma mem_synced_same_schema ts t mt rows :
  ts !! t = Some mt -> mem_synced (<[t := mkMemTable (mt_schema mt) rows]> ts) = mem_synced ts.
Proof.
  intros Ht. unfold mem_synced. apply set_eq. intros u. rewrite !elem_of_dom. unfold is_Some.
  setoid_rewrite map_lookup_filter_Some. destruct (decide (u = t)) as [->|Hne].
  - rewrite lookup_insert_eq, Ht. split; intros (x & [= <-] & Hx); by eexists.
  - by rewrite lookup_insert_ne.
Qed.

Definition mem_query (m : Mem) (st : Stmt) (ps : list SqlValue) : res SqlError (list (list SqlValue)) :=
  match st with
  | Select cols t w =>
      mt ← mem_table m t;
      Ok (map (fun r => map (mem_get r) cols) (List.filter (mem_match w ps) (mt_rows mt)))
  | Scan cols t preds =>
      mt ← mem_table m t;
      Ok (map (fun r => map (mem_get r) cols)
            (List.filter (fun r => forallb (mem_pred ps r) preds) (mt_rows mt)))
  | SelectDeleteLog =>
      mt ← mem_table m DELETED_ROWS_TABLE;
      Ok (map (fun r => map (mem_get r) ["table_name"; "row_pks"; HLC_TIMESTAMP_COLUMN]) (mt_rows mt))
  | SelectDeleteLogById =>
      mt ← mem_table m DELETED_ROWS_TABLE;
      Ok (map (fun r => map (mem_get r) ["table_name"; "row_pks"; HLC_TIMESTAMP_COLUMN])
            (List.filter (mem_match [WEq "id"] ps) (mt_rows mt)))
  | ConfigGet | ConfigGetHlc =>
      match ps with
      | [SText k] => Ok (match m_config m !! k with Some v => [[SText v]] | None => [] end)
      | _ => Err (OtherSqlError "bind")
      end
  | ExistsUnstamped t =>
      mt ← mem_table m t;
      Ok [[SInteger (if existsb mem_unstamped (mt_rows mt) then 1 else 0)]]
  | CrdtTables =>
      Ok (map (fun t => [SText t]) (elements (mem_synced (m_tables m))))
  | PragmaForeignKeys => Ok [[SInteger (if m_fk m then 1 else 0)]]
  | _ => Ok []
  end.

#[export] Instance mini_db : Rusqlite Mem := {
  prepare m st := Ok tt;
  execute := mem_execute;
  query := mem_query;
  table_info m t := Ok (match m_tables m !! t with Some mt => mt_schema mt | None => [] end);
  begin_immediate m := Ok tt;
  begin_deferred m := Ok tt;
  commit m := Ok tt;
}.

(** A database with one synced table [items] and an empty delete log. *)
Definition mini_schema : list ColumnInfo :=
  [mkColumn "id" "TEXT" true; mkColumn "body" "TEXT" false; mkColumn "cursor_no_sync" "TEXT" false;
   mkColumn HLC_TIMESTAMP_COLUMN "TEXT" false; mkColumn COLUMN_HLCS_COLUMN "TEXT" false;
   mkColumn COLUMN_SIGS_COLUMN "TEXT" false].
Definition mini_log_schema : list ColumnInfo :=
  [mkColumn "id" "TEXT" true; mkColumn "table_name" "TEXT" false; mkColumn "row_pks" "TEXT" false;
   mkColumn HLC_TIMESTAMP_COLUMN "TEXT" false; mkColumn COLUMN_HLCS_COLUMN "TEXT" false].
Definition mini_row (id body hlc : string) : gmap string SqlValue :=
  list_to_map [("id", SText id); ("body", SText body); (HLC_TIMESTAMP_COLUMN, SText hlc);
               (COLUMN_HLCS_COLUMN, SText "{}"); (COLUMN_SIGS_COLUMN, SText "{}")].
Definition mini_mem (rows : list (gmap string SqlValue)) : Mem :=
  mkMem (list_to_map [("items", mkMemTable mini_schema rows);
                      (DELETED_ROWS_TABLE, mkMemTable mini_log_schema [])]) ∅ [] true.
