(* ===== verification/Hlc.v ===== *)
(** * The hybrid logical clock service (src/crdt/hlc.rs)

    HLC strings and their numeric comparison, the persistent clock service,
    and the interface of the uhlc crate underneath it. *)

From S2P Require Import Prelude Names Json Sql Mini.

(** ** HLC strings *)

Definition parse_u64 (s : string) : option Z := from_str_radix 10 u64_max s.

(** [parse_hlc_node_hex]: the node id, read as a number. *)
Definition parse_hlc_node_hex (node_hex : string) : option Z :=
  from_str_radix 16 u128_max node_hex.

Definition is_empty (s : string) : bool :=
  match s with EmptyString => true | _ => false end.

(** The inner [parse] of [compare_hlc_strings]. *)
Definition parse_hlc (s : string) : Z * Z :=
  let '(time_str, node_str) :=
    match split_once "/" s with
    | Some (t, n) => (t, n)
    | None => (s, EmptyString)
    end in
  let time := default 0 (parse_u64 time_str) in
  let node := if is_empty node_str then 0 else default 0 (parse_hlc_node_hex node_str) in
  (time, node).

Definition compare_hlc_strings (a b : string) : comparison :=
  let '(a_time, a_node) := parse_hlc a in
  let '(b_time, b_node) := parse_hlc b in
  then_with (Z.compare a_time b_time) (Z.compare a_node b_node).

Definition hlc_is_newer (a b : string) : bool :=
  match compare_hlc_strings a b with Gt => true | _ => false end.

Definition hlc_max (l : list string) : option string := max_by compare_hlc_strings l.
Definition hlc_min (l : list string) : option string := min_by compare_hlc_strings l.

Definition hlc_node_id_suffix (hlc : string) : option string :=
  snd <$> split_once "/" hlc.

Definition hlc_is_from_node (hlc : string) (expected_node : Z) : bool :=
  match hlc_node_id_suffix hlc ≫= parse_hlc_node_hex with
  | Some n => n =? expected_node
  | None => false
  end.

(** [u128::from_le_bytes]. *)
Fixpoint u128_from_le_bytes (bytes : list Z) : Z :=
  match bytes with
  | [] => 0
  | b :: bs => Z.lor b (Z.shiftl (u128_from_le_bytes bs) 8)
  end.

(** [device_uuid_to_hlc_node]; [Uuid::parse_str] is the uuid crate's. *)
Definition device_uuid_to_hlc_node (uuid_parse : string -> option (list Z)) (uuid_str : string)
    : option Z :=
  u128_from_le_bytes <$> uuid_parse uuid_str.

(** ** uhlc *)

(** [uhlc::Timestamp]: an NTP64 time and a 128-bit node id, which uhlc's [ID]
    type does not allow to be zero. *)
Record Timestamp := mkTs { ts_time : Z; ts_id : Z }.

#[export] Instance Timestamp_eq_dec : EqDecision Timestamp.
Proof. solve_decision. Defined.

Definition ts_compare (a b : Timestamp) : comparison :=
  then_with (Z.compare (ts_time a) (ts_time b)) (Z.compare (ts_id a) (ts_id b)).

Definition ts_valid (t : Timestamp) : Prop :=
  0 <= ts_time t <= u64_max /\ 1 <= ts_id t <= u128_max.

Class Uhlc := {
  ts_from_str : string -> res string Timestamp;
  ts_to_string : Timestamp -> string;
  uhlc_csize : Z;
  ntp_to_duration : Z -> Z;
  id_try_from : list Z -> res string Z;
  HLC : Type;
  hlc_build : option Z -> Z -> HLC;
  hlc_new_timestamp : HLC -> Z -> Timestamp * HLC;
  hlc_update_with_timestamp : HLC -> Z -> Timestamp -> res string unit * HLC;
  hlc_last : HLC -> Z;
}.

(** The documented behaviour the crate relies on: timestamps print as
    [<time>/<node>] and parse back; reading the printed parts as numbers gives
    the timestamp's own parts; a new timestamp is later than everything the
    clock has seen, and an accepted update moves the clock past its
    timestamp, a refused one leaves it. [hlc_last] observes the clock's last time. *)
Class UhlcLaws `{Uhlc} : Prop := {
  ts_round_trip : forall t, ts_valid t -> ts_from_str (ts_to_string t) = Ok t;
  ts_from_str_shape : forall s t, ts_from_str s = Ok t ->
    parse_hlc s = (ts_time t, ts_id t) /\ contains_char "/" s = true;
  ts_from_str_no_panic : forall s m, ts_from_str s <> Panic m;
  hlc_new_timestamp_later : forall h now t h', hlc_new_timestamp h now = (t, h') ->
    hlc_last h < ts_time t /\ hlc_last h' = ts_time t;
  hlc_update_no_panic : forall h now t m, fst (hlc_update_with_timestamp h now t) <> Panic m;
  hlc_update_covers : forall h now t h', hlc_update_with_timestamp h now t = (Ok tt, h') ->
    ts_time t <= hlc_last h' /\ hlc_last h <= hlc_last h';
  hlc_update_refused : forall h now t e h', hlc_update_with_timestamp h now t = (Err e, h') ->
    hlc_last h' = hlc_last h;
}.

Definition hlc_accepts `{Uhlc} (s : string) : bool := is_ok (ts_from_str s).

(** ** Configuration: one construction site *)

(** [MAX_REMOTE_HLC_DRIFT], in nanoseconds. *)
Definition MAX_REMOTE_HLC_DRIFT : Z := 12 * 60 * 60 * 1000000000.

Section service.
Context `{Uhlc}.

(** [build_hlc]. *)
Definition build_hlc (node_id : option Z) : HLC := hlc_build node_id MAX_REMOTE_HLC_DRIFT.

(** [remote_hlc_drift]; [now] is the reading of [system_time_clock]. *)
Definition mask_now (now : Z) : Z := Z.land now (Z.lnot (2 ^ uhlc_csize - 1)).

Definition remote_hlc_drift (now : Z) (hlc : string) : option Z :=
  match ts_from_str hlc with
  | Ok t =>
      let remote := ts_time t in
      let now' := mask_now now in
      if now' <? remote then Some (ntp_to_duration (remote - now')) else None
  | _ => None
  end.

(** [HlcError]; the last five variants are raised nowhere in the crate. *)
Inductive HlcError :=
| HlcDatabase (e : SqlError)
| HlcParseTimestamp (msg : string)
| HlcParse (msg : string)
| HlcParseNodeId (msg : string)
| RemoteTimestampOutOfTolerance (hlc reason : string)
| HlcMutexPoisoned
| HlcNotInitialized
| HlcDeviceStore (msg : string)
| HlcCreateNodeId (msg : string)
| HlcNoConnection
| HlcHexDecode (msg : string)
| HlcUtf8Error (msg : string)
| HlcDeviceIdProvider (msg : string).

(** [HlcService]: the shared slot behind a mutex. *)
Record HlcService := mkHlcService {
  hlc_slot : option HLC;
  hlc_poisoned : bool;
}.

Definition HlcService_new : HlcService := mkHlcService None false.
Definition HlcService_new_with_uuid (device_uuid : list Z) : HlcService :=
  mkHlcService (Some (build_hlc (match id_try_from device_uuid with Ok id => Some id | _ => None end)))
    false.

(** [self.hlc.lock()] followed by [as_mut().ok_or(NotInitialized)]. *)
Definition lock_hlc (svc : HlcService) : res HlcError HLC :=
  if hlc_poisoned svc then Err HlcMutexPoisoned else ok_or (hlc_slot svc) HlcNotInitialized.

Definition set_hlc (h : HLC) (svc : HlcService) : HlcService :=
  mkHlcService (Some h) (hlc_poisoned svc).

Definition new_timestamp (svc : HlcService) (now : Z) : res HlcError Timestamp * HlcService :=
  match lock_hlc svc with
  | Ok h => let '(t, h') := hlc_new_timestamp h now in (Ok t, set_hlc h' svc)
  | Err e => (Err e, svc)
  | Panic m => (Panic m, svc)
  end.

(** [update_with_timestamp] and [advance_past_remote] differ only in how
    they report a refusal. *)
Definition update_hlc_with (on_err : string -> HlcError) (svc : HlcService) (now : Z) (t : Timestamp)
    : res HlcError unit * HlcService :=
  match lock_hlc svc with
  | Ok h =>
      let '(r, h') := hlc_update_with_timestamp h now t in
      (map_err on_err r, set_hlc h' svc)
  | Err e => (Err e, svc)
  | Panic m => (Panic m, svc)
  end.

Definition update_with_timestamp (svc : HlcService) (now : Z) (t : Timestamp)
    : res HlcError unit * HlcService :=
  update_hlc_with (fun e => HlcParse ("Failed to update HLC: " +:+ e)) svc now t.

Definition advance_past_remote (svc : HlcService) (now : Z) (hlc_string : string)
    : res HlcError unit * HlcService :=
  if is_empty hlc_string then (Ok tt, svc)
  else match ts_from_str hlc_string with
       | Ok remote_ts =>
           update_hlc_with (RemoteTimestampOutOfTolerance hlc_string) svc now remote_ts
       | Err e => (Err (HlcParse ("Failed to parse remote HLC timestamp '" +:+ hlc_string +:+ "': " +:+ e)), svc)
       | Panic m => (Panic m, svc)
       end.
End service.

(** ** Persistence *)

Section persist.
Context `{Uhlc} {db : Type} `{Rusqlite db}.

Definition load_last_timestamp (conn : db) : res HlcError (option Timestamp) :=
  match query_row conn ConfigGetHlc [SText HLC_TIMESTAMP_TYPE] ≫= (fun row => get_string row 0) with
  | Ok state_str =>
      match ts_from_str state_str with
      | Ok t => Ok (Some t)
      | Err e => Err (HlcParseTimestamp ("Invalid timestamp format: " +:+ e))
      | Panic m => Panic m
      end
  | Err QueryReturnedNoRows => Ok None
  | Err e => Err (HlcDatabase e)
  | Panic m => Panic m
  end.

Definition persist_timestamp (tx : db) (t : Timestamp) : res HlcError db :=
  map_err HlcDatabase
    (r ← execute tx ConfigUpsertHlc [SText HLC_TIMESTAMP_TYPE; SText (ts_to_string t)];
     Ok (snd r)).

Definition new_timestamp_and_persist (svc : HlcService) (now : Z) (tx : db)
    : res HlcError (Timestamp * db) * HlcService :=
  match new_timestamp svc now with
  | (Ok t, svc') => (tx' ← persist_timestamp tx t; Ok (t, tx'), svc')
  | (Err e, svc') => (Err e, svc')
  | (Panic m, svc') => (Panic m, svc')
  end.

(** [HlcService::build_hlc_from_db]: fold the persisted timestamp in, so a
    restart cannot hand out a timestamp twice. *)
Definition build_hlc_from_db (conn : db) (now : Z) (uuid : list Z) : res HlcError HLC :=
  node_id ← map_err (fun e => HlcParseNodeId ("Invalid node ID format from device store: " +:+ e))
              (id_try_from uuid);
  let hlc := build_hlc (Some node_id) in
  last ← load_last_timestamp conn;
  match last with
  | None => Ok hlc
  | Some t =>
      match hlc_update_with_timestamp hlc now t with
      | (Ok _, h') => Ok h'
      | (Err e, _) => Err (HlcParse ("Failed to update HLC with persisted timestamp: " +:+ e))
      | (Panic m, _) => Panic m
      end
  end.

Definition initialize_in_place (svc : HlcService) (conn : db) (now : Z) (uuid : list Z)
    : res HlcError HlcService :=
  h ← build_hlc_from_db conn now uuid;
  if hlc_poisoned svc then Err HlcMutexPoisoned else Ok (set_hlc h svc).

Definition try_initialize (conn : db) (now : Z) (uuid : list Z) : res HlcError HlcService :=
  h ← build_hlc_from_db conn now uuid; Ok (mkHlcService (Some h) false).
End persist.

(** ** The order on HLC strings *)

Definition hlc_key_compare (a b : Z * Z) : comparison :=
  then_with (Z.compare (fst a) (fst b)) (Z.compare (snd a) (snd b)).

Lemma compare_hlc_strings_key a b :
  compare_hlc_strings a b = hlc_key_compare (parse_hlc a) (parse_hlc b).
Proof.
  unfold compare_hlc_strings, hlc_key_compare.
  by destruct (parse_hlc a), (parse_hlc b).
Qed.

#[export] Instance hlc_key_total_cmp : TotalCmp hlc_key_compare.
Proof.
  split.
  - intros [a1 a2] [b1 b2]. unfold hlc_key_compare, then_with; simpl.
    rewrite (Z.compare_antisym a1 b1), (Z.compare_antisym a2 b2). by destruct (a1 ?= b1).
  - intros [a1 a2] [b1 b2] [c1 c2]. unfold hlc_key_compare, then_with; simpl.
    destruct (Z.compare_spec a1 b1), (Z.compare_spec b1 c1), (Z.compare_spec a1 c1);
      try done; try lia.
    rewrite !Z.compare_gt_iff. lia.
Qed.

#[export] Instance hlc_total_cmp : TotalCmp compare_hlc_strings.
Proof.
  split; intros *; rewrite !compare_hlc_strings_key; [apply cmp_swap, _ | apply cmp_trans_le].
Qed.

#[export] Instance ts_total_cmp : TotalCmp ts_compare.
Proof.
  split; intros *; [apply (cmp_swap hlc_key_compare (ts_time x, ts_id x) (ts_time y, ts_id y))|].
  apply (cmp_trans_le (cmp := hlc_key_compare) (ts_time x, ts_id x) (ts_time y, ts_id y)
           (ts_time z, ts_id z)).
Qed.

Lemma hlc_key_compare_eq a b : hlc_key_compare a b = Eq <-> a = b.
Proof.
  destruct a as [a1 a2], b as [b1 b2]. unfold hlc_key_compare, then_with; simpl.
  destruct (Z.compare_spec a1 b1); [|split; [done|intros [= ]; lia]..].
  rewrite Z.compare_eq_iff. naive_solver.
Qed.

Lemma compare_hlc_Eq a b : compare_hlc_strings a b = Eq <-> parse_hlc a = parse_hlc b.
Proof. by rewrite compare_hlc_strings_key, hlc_key_compare_eq. Qed.

Lemma hlc_is_newer_Gt a b : hlc_is_newer a b = true <-> compare_hlc_strings a b = Gt.
Proof. unfold hlc_is_newer. by destruct (compare_hlc_strings a b). Qed.

Lemma hlc_not_newer_le a b : hlc_is_newer a b = false <-> cmp_le compare_hlc_strings a b.
Proof. unfold hlc_is_newer, cmp_le. by destruct (compare_hlc_strings a b). Qed.

Lemma hlc_is_newer_irrefl a : hlc_is_newer a a = false.
Proof. apply hlc_not_newer_le, cmp_le_refl, _. Qed.

(** Both components of a parsed HLC are unsigned machine integers. *)
Lemma parse_hlc_range s :
  0 <= fst (parse_hlc s) <= u64_max /\ 0 <= snd (parse_hlc s) <= u128_max.
Proof.
  assert (forall o m, (forall n : Z, o = Some n -> 0 <= n <= m) -> 0 <= m -> 0 <= default 0 o <= m) as Hd.
  { intros [n|] m Hn Hm; simpl; [by apply Hn | lia]. }
  assert (0 <= u64_max /\ 0 <= u128_max) as [H1 H2] by done.
  unfold parse_hlc. destruct (split_once "/" s) as [[t n]|]; simpl; split.
  - apply Hd; [|done]. intros x. by apply from_str_radix_range.
  - destruct (is_empty n); [done|]. apply Hd; [|done]. intros x. by apply from_str_radix_range.
  - apply Hd; [|done]. intros x. by apply from_str_radix_range.
  - done.
Qed.

(** A string with no usable time and node is the oldest there is. *)
Lemma hlc_ancient_le s x : parse_hlc s = (0, 0) -> cmp_le compare_hlc_strings s x.
Proof.
  intros Hs. unfold cmp_le. rewrite compare_hlc_strings_key, Hs.
  destruct (parse_hlc_range x) as [[Ht _] [Hn _]]. revert Ht Hn.
  destruct (parse_hlc x) as [t n]. cbn [fst snd]. intros Ht Hn.
  unfold hlc_key_compare, then_with; cbn [fst snd].
  destruct (Z.compare_spec 0 t); try done; try lia.

Qed.

Lemma parse_hlc_shape t n :
  contains_char "/" t = false ->
  parse_hlc (t +:+ "/" +:+ n) =
    (default 0 (parse_u64 t), if is_empty n then 0 else default 0 (parse_hlc_node_hex n)).
Proof.
  intros Ht. unfold parse_hlc. change (t +:+ "/" +:+ n) with (t +:+ String "/" n).
  by rewrite split_once_app.
Qed.

Lemma from_str_radix_zero radix maxv s :
  0 < radix -> 0 <= maxv ->
  match s with String c _ => negb (Ascii.eqb c "+") | EmptyString => false end = true ->
  from_str_radix radix maxv (String "0" s) = from_str_radix radix maxv s.
Proof.
  intros Hr Hm Hs. destruct s as [|c s]; [done|].
  unfold from_str_radix at 1. simpl Ascii.eqb. cbv iota.
  rewrite parse_digits_zero by done. unfold from_str_radix.
  destruct (Ascii.eqb c "+"); done.
Qed.

Section laws.
Context `{UhlcLaws}.

Lemma ts_from_str_compare a b ta tb :
  ts_from_str a = Ok ta -> ts_from_str b = Ok tb ->
  compare_hlc_strings a b = ts_compare ta tb.
Proof.
  intros [Ha _]%ts_from_str_shape [Hb _]%ts_from_str_shape.
  by rewrite compare_hlc_strings_key, Ha, Hb.
Qed.

Lemma new_timestamp_Ok svc now t svc' :
  new_timestamp svc now = (Ok t, svc') ->
  exists h h', hlc_slot svc = Some h /\ hlc_slot svc' = Some h' /\
    hlc_last h < ts_time t /\ hlc_last h' = ts_time t.
Proof.
  unfold new_timestamp, lock_hlc. destruct (hlc_poisoned svc); [done|].
  destruct (hlc_slot svc) as [h|]; simpl; [|done].
  destruct (hlc_new_timestamp h now) as [t0 h'] eqn:Hn. intros [= <- <-].
  exists h, h'. apply hlc_new_timestamp_later in Hn as [??]. done.
Qed.

Lemma update_hlc_with_Ok on_err svc now t svc' :
  update_hlc_with on_err svc now t = (Ok tt, svc') ->
  exists h', hlc_slot svc' = Some h' /\ ts_time t <= hlc_last h'.
Proof.
  unfold update_hlc_with, lock_hlc. destruct (hlc_poisoned svc); [done|].
  destruct (hlc_slot svc) as [h|]; simpl; [|done].
  destruct (hlc_update_with_timestamp h now t) as [[[]| |] h'] eqn:Hu; intros [= <-].
  exists h'. by apply hlc_update_covers in Hu as [??].
Qed.

(** The service's clock from one state to a later one: started, it stays
    started and does not go back. *)
Definition clock_le (svc svc' : HlcService) : Prop :=
  hlc_poisoned svc' = hlc_poisoned svc /\
  forall h, hlc_slot svc = Some h -> exists h', hlc_slot svc' = Some h' /\ hlc_last h <= hlc_last h'.

#[export] Instance clock_le_preorder : PreOrder clock_le.
Proof.
  split; [intros s; split; [done|]; intros h Hh; exists h; by split|].
  intros s1 s2 s3 [Hp1 H1] [Hp2 H2]. split; [congruence|]. intros h Hh.
  destruct (H1 h Hh) as (h2 & Hh2 & Hle). destruct (H2 h2 Hh2) as (h3 & Hh3 & Hle3). exists h3. split; [done|lia].
Qed.

Lemma set_hlc_clock svc h h' : hlc_slot svc = Some h -> hlc_last h <= hlc_last h' -> clock_le svc (set_hlc h' svc).
Proof. intros Hs Hle. split; [done|]. intros h0 Hh0. exists h'. split; [done|]. congruence. Qed.

Lemma new_timestamp_clock svc now r svc' : new_timestamp svc now = (r, svc') -> clock_le svc svc'.
Proof.
  unfold new_timestamp, lock_hlc. destruct (hlc_poisoned svc); [by intros [= <- <-]|].
  destruct (hlc_slot svc) as [h|] eqn:Hs; cbn; [|by intros [= <- <-]].
  destruct (hlc_new_timestamp h now) as [t h'] eqn:Hn. intros [= <- <-]. apply (set_hlc_clock _ h); [done|].
  apply hlc_new_timestamp_later in Hn. lia.
Qed.

Lemma update_hlc_with_clock on_err svc now t r svc' : update_hlc_with on_err svc now t = (r, svc') -> clock_le svc svc'.
Proof.
  unfold update_hlc_with, lock_hlc. destruct (hlc_poisoned svc); [by intros [= <- <-]|].
  destruct (hlc_slot svc) as [h|] eqn:Hs; cbn; [|by intros [= <- <-]].
  destruct (hlc_update_with_timestamp h now t) as [ru h'] eqn:Hu. intros [= <- <-]. apply (set_hlc_clock _ h); [done|].
  destruct ru as [[]|e|m]; [by apply hlc_update_covers in Hu as [_ ?]|apply hlc_update_refused in Hu; lia|].
  pose proof (hlc_update_no_panic h now t m) as Hno. by rewrite Hu in Hno.
Qed.

Lemma advance_past_remote_clock svc now s r svc' : advance_past_remote svc now s = (r, svc') -> clock_le svc svc'.
Proof.
  unfold advance_past_remote. destruct (is_empty s); [by intros [= <- <-]|].
  destruct (ts_from_str s); [apply update_hlc_with_clock|by intros [= <- <-]..].
Qed.
End laws.

(** ** A concrete uhlc, for the witnesses

    The decimal and hexadecimal spellings and a clock that is its last time.
    It instantiates the interface; it is not a model of the uhlc crate. *)

Definition hex_digit (d : Z) : ascii :=
  ascii_of_N (Z.to_N (if d <? 10 then 48 + d else 87 + d)).

Fixpoint print_radix (radix : Z) (fuel : nat) (n : Z) (acc : string) : string :=
  match fuel with
  | O => acc
  | S fuel' =>
      let acc' := String (hex_digit (n mod radix)) acc in
      if n / radix =? 0 then acc' else print_radix radix fuel' (n / radix) acc'
  end.

Lemma to_digit_hex_digit radix d : 0 <= d < radix -> radix <= 16 -> to_digit radix (hex_digit d) = Some d.
Proof.
  intros Hd Hr.
  assert (exists n : nat, (n < 16)%nat /\ d = Z.of_nat n) as (n & Hn & ->) by (exists (Z.to_nat d); lia).
  do 16 (destruct n as [|n];
    [ match goal with |- to_digit _ (hex_digit ?k) = _ =>
        let k' := eval vm_compute in k in change k with k' in *;
        change (to_digit radix (hex_digit k')) with (if k' <? radix then Some k' else None)
      end;
      match goal with |- (if ?b then _ else _) = _ => replace b with true; [done|] end;
      symmetry; apply Z.ltb_lt; lia |]).
  lia.
Qed.

Lemma parse_print_radix radix maxv fuel : forall n acc,
  2 <= radix <= 16 -> 0 <= n <= maxv -> n < radix ^ Z.of_nat fuel -> fuel <> O ->
  parse_digits radix maxv 0 (print_radix radix fuel n acc) = parse_digits radix maxv n acc.
Proof.
  induction fuel as [|fuel IH]; intros n acc Hr Hn Hfuel Hne; [done|]. cbn [print_radix].
  pose proof (Z.mod_pos_bound n radix ltac:(lia)) as Hmod.
  pose proof (Z.div_mod n radix ltac:(lia)) as Hdiv.
  assert (forall a, a * radix + n mod radix = n ->
    parse_digits radix maxv a (String (hex_digit (n mod radix)) acc) = parse_digits radix maxv n acc) as Hstep.
  { intros a Ha. cbn [parse_digits]. rewrite to_digit_hex_digit by lia. cbv zeta. rewrite Ha.
    by rewrite (proj2 (Z.leb_le n maxv)) by lia. }
  destruct (n / radix =? 0) eqn:Hz.
  - apply Z.eqb_eq in Hz. apply Hstep. lia.
  - apply Z.eqb_neq in Hz. rewrite IH; [by apply Hstep; lia | done | | |].
    + pose proof (Z.div_pos n radix). pose proof (Z.div_le_upper_bound n radix maxv). nia.
    + apply Z.div_lt_upper_bound; [lia|].
      rewrite Nat2Z.inj_succ, Z.pow_succ_r in Hfuel by lia. lia.
    + intros ->. simpl in Hfuel. rewrite Z.div_small in Hz by lia. lia.
Qed.

Lemma parse_digits_chars radix maxv s c : forall acc n,
  to_digit radix c = None -> parse_digits radix maxv acc s = Some n -> contains_char c s = false.
Proof.
  induction s as [|x s IH]; intros acc n Hc; [done|]. cbn [parse_digits contains_char].
  destruct (Ascii.eqb x c) eqn:Hx; [apply Ascii.eqb_eq in Hx as ->; by rewrite Hc|].
  destruct (to_digit radix x); [|done]. cbv zeta.
  destruct (_ <=? maxv); [|done]. simpl. by apply IH.
Qed.

Lemma to_digit_special radix c : 0 < radix -> c = "+"%char \/ c = "/"%char -> to_digit radix c = None.
Proof.
  intros Hr [-> | ->]; change (to_digit radix _) with (if radix <? radix then Some radix else None);
    by rewrite Z.ltb_irrefl.
Qed.

Lemma parse_digits_from_str radix maxv s n :
  0 < radix -> s <> EmptyString -> parse_digits radix maxv 0 s = Some n ->
  from_str_radix radix maxv s = Some n /\ contains_char "/" s = false.
Proof.
  intros Hr Hne Hs. split; [|eapply parse_digits_chars; [|exact Hs]; apply to_digit_special; auto].
  destruct s as [|c s]; [done|]. unfold from_str_radix.
  destruct (Ascii.eqb c "+") eqn:Hc; [|done]. apply Ascii.eqb_eq in Hc as ->.
  cbn [parse_digits] in Hs. by rewrite to_digit_special in Hs by auto.
Qed.

Definition print_u64 (n : Z) : string := print_radix 10 20 n EmptyString.
Definition print_u128_hex (n : Z) : string := print_radix 16 32 n EmptyString.

Lemma print_radix_nonempty radix fuel n acc : fuel <> O -> print_radix radix fuel n acc <> EmptyString.
Proof.
  assert (forall f m a, a <> EmptyString -> print_radix radix f m a <> EmptyString) as Hk.
  { induction f as [|f IH]; intros m a Ha; [done|]. cbn [print_radix].
    destruct (_ =? 0); [done|]. by apply IH. }
  destruct fuel; [done|]. intros _. cbn [print_radix]. destruct (_ =? 0); [done|]. by apply Hk.
Qed.

Lemma parse_print_u64 n :
  0 <= n <= u64_max -> parse_u64 (print_u64 n) = Some n /\ contains_char "/" (print_u64 n) = false.
Proof.
  intros Hn. apply parse_digits_from_str; [done | by apply print_radix_nonempty|].
  unfold print_u64. rewrite parse_print_radix; [done|lia|done| |done].
  unfold u64_max in Hn. assert (2 ^ 64 < 10 ^ Z.of_nat 20) by reflexivity. lia.
Qed.

Lemma parse_print_hex n :
  0 <= n <= u128_max ->
  parse_hlc_node_hex (print_u128_hex n) = Some n /\ contains_char "/" (print_u128_hex n) = false.
Proof.
  intros Hn. apply parse_digits_from_str; [done | by apply print_radix_nonempty|].
  unfold print_u128_hex. rewrite parse_print_radix; [done|lia|done| |done].
  unfold u128_max in Hn. change (16 ^ Z.of_nat 32) with (2 ^ 128). lia.
Qed.

(** The clock of the instance: its last time and its bound. *)
Definition mini_ts_from_str (s : string) : res string Timestamp :=
  match split_once "/" s with
  | Some (t, n) =>
      match parse_u64 t, parse_hlc_node_hex n with
      | Some time, Some id => Ok (mkTs time id)
      | _, _ => Err "invalid timestamp"
      end
  | None => Err "no separator"
  end.

#[export] Instance mini_uhlc : Uhlc := {
  ts_from_str := mini_ts_from_str;
  ts_to_string t := print_u64 (ts_time t) +:+ "/" +:+ print_u128_hex (ts_id t);
  uhlc_csize := 4;
  ntp_to_duration d := d * 1000000000 / 2 ^ 32;
  id_try_from bytes :=
    let id := u128_from_le_bytes bytes in if id =? 0 then Err "zero id" else Ok id;
  HLC := Z * Z * Z;
  hlc_build id delta := (default 1 id, delta, 0);
  hlc_new_timestamp h now :=
    let '(id, delta, last) := h in
    let t := Z.max (last + 1) now in (mkTs t id, (id, delta, t));
  hlc_update_with_timestamp h now t :=
    let '(id, delta, last) := h in
    if now + delta <? ts_time t then (Err "exceeding delta", h)
    else (Ok tt, (id, delta, Z.max last (ts_time t)));
  hlc_last h := snd h;
}.

#[export] Instance mini_uhlc_laws : UhlcLaws.
Proof.
  split; simpl.
  - intros [t n] [Ht Hn]. cbn [ts_time ts_id] in *. unfold mini_ts_from_str.
    change (print_u64 t +:+ "/" +:+ print_u128_hex n) with (print_u64 t +:+ String "/" (print_u128_hex n)).
    destruct (parse_print_u64 t Ht) as [Hp Hc]. rewrite split_once_app by done.
    rewrite Hp. by rewrite (proj1 (parse_print_hex n ltac:(lia))).
  - intros s t. unfold mini_ts_from_str, parse_hlc.
    destruct (split_once "/" s) as [[a b]|] eqn:Hs; [|done].
    destruct (parse_u64 a); [|done]. destruct (parse_hlc_node_hex b) eqn:Hb; [|done].
    intros [= <-]. split; [by destruct b|].
    destruct (contains_char "/" s) eqn:Hc; [done|]. apply split_once_None in Hc. congruence.
  - intros s m. unfold mini_ts_from_str.
    destruct (split_once "/" s) as [[a b]|]; [|done].
    destruct (parse_u64 a), (parse_hlc_node_hex b); done.
  - intros [[id delta] last] now t h' [= <- <-]. simpl. lia.
  - intros [[id delta] last] now t m. by destruct (_ <? _).
  - intros [[id delta] last] now t h'. destruct (_ <? _); intros [= <-]; simpl. lia.
  - intros [[id delta] last] now t e h'. by destruct (_ <? _); intros [= <- <-].
Qed.

(** ** Properties *)

(** C18: [compare_hlc_strings] is a total preorder on all strings: swapping
    the arguments flips the result, it is transitive, two strings tie exactly
    when they spell the same time and node, and a string without a usable time
    and node is never newer than another. *)
Theorem compare_hlc_strings_total_preorder a b c :
  compare_hlc_strings b a = CompOpp (compare_hlc_strings a b) /\
  (compare_hlc_strings a b <> Gt -> compare_hlc_strings b c <> Gt ->
   compare_hlc_strings a c <> Gt) /\
  (compare_hlc_strings a b = Eq <-> parse_hlc a = parse_hlc b) /\
  (parse_hlc a = (0, 0) -> hlc_is_newer a b = false).
Proof.
  repeat split.
  - apply cmp_swap, _.
  - apply cmp_trans_le.
  - apply compare_hlc_Eq.
  - apply compare_hlc_Eq.
  - intros Ha. by apply hlc_not_newer_le, hlc_ancient_le.
Qed.

(** Node ids compare as numbers: an HLC is from a node exactly when it has
    a separator and the hexadecimal after it spells the node, so leading zeros do
    not matter and a string without a readable node is from nobody; and the
    greatest and least of a batch bound every member. *)
Theorem hlc_node_and_extremes :
  (forall hlc n, hlc_is_from_node hlc n = true <->
     exists t s, split_once "/" hlc = Some (t, s) /\ parse_hlc_node_hex s = Some n) /\
  (forall t s n, contains_char "/" t = false ->
     match s with String c _ => negb (Ascii.eqb c "+") | EmptyString => false end = true ->
     hlc_is_from_node (t +:+ "/" +:+ String "0" s) n = hlc_is_from_node (t +:+ "/" +:+ s) n) /\
  (forall l m, hlc_max l = Some m -> In m l /\ forall x, In x l -> hlc_is_newer x m = false) /\
  (forall l m, hlc_min l = Some m -> In m l /\ forall x, In x l -> hlc_is_newer m x = false) /\
  (forall l, hlc_max l = None <-> l = []) /\ (forall l, hlc_min l = None <-> l = []).
Proof.
  split; [|split; [|split; [|split; [|split]]]].
  - intros hlc n. unfold hlc_is_from_node, hlc_node_id_suffix.
    destruct (split_once "/" hlc) as [[t s]|]; cbn; [|by split; [|intros (? & ? & ? & ?)]].
    split.
    + intros Hn. exists t, s. split; [done|]. destruct (parse_hlc_node_hex s) as [m|]; [|done].
      by apply Z.eqb_eq in Hn as ->.
    + intros (t' & s' & [= <- <-] & ->). apply Z.eqb_refl.
  - intros t s n Ht Hs. unfold hlc_is_from_node, hlc_node_id_suffix.
    change (t +:+ "/" +:+ String "0" s) with (t +:+ String "/" (String "0" s)).
    change (t +:+ "/" +:+ s) with (t +:+ String "/" s).
    rewrite !split_once_app by done. cbn [fmap option_fmap option_map snd mbind option_bind].
    unfold parse_hlc_node_hex. by rewrite from_str_radix_zero.
  - intros l m Hm. apply (max_by_spec compare_hlc_strings) in Hm as [Hin Hall]. split; [done|].
    intros x Hx. by apply hlc_not_newer_le, Hall.
  - intros l m Hm. apply (min_by_spec compare_hlc_strings) in Hm as [Hin Hall]. split; [done|].
    intros x Hx. by apply hlc_not_newer_le, Hall.
  - apply max_by_None.
  - apply min_by_None.
Qed.

(** The configuration table keeps the timestamp it was given. *)
Class HlcStore db `{Rusqlite db} : Prop := {
  hlc_stored : forall c s n c', execute c ConfigUpsertHlc [SText HLC_TIMESTAMP_TYPE; SText s] = Ok (n, c') ->
    query c' ConfigGetHlc [SText HLC_TIMESTAMP_TYPE] = Ok [[SText s]];
}.

#[export] Instance mini_hlc_store : HlcStore Mem.
Proof. split. intros c s n c' [= <- <-]. cbn. by rewrite lookup_insert_eq. Qed.

(** C19: a restart cannot hand out a timestamp twice: after a timestamp was
    issued and persisted, a clock rebuilt from that database issues only later
    ones, whatever the wall clock says. *)
Theorem restart_never_reissues `{UhlcLaws} {db} `{HlcStore db} svc now (tx tx' : db) t svc' now2 uuid h
    now3 t' svc'' :
  ts_valid t ->
  new_timestamp_and_persist svc now tx = (Ok (t, tx'), svc') ->
  build_hlc_from_db tx' now2 uuid = Ok h ->
  new_timestamp (mkHlcService (Some h) false) now3 = (Ok t', svc'') ->
  ts_time t < ts_time t'.
Proof.
  intros Hv Hp Hb Hn. unfold new_timestamp_and_persist in Hp.
  destruct (new_timestamp svc now) as [[t0| |] svc0]; [|done..].
  injection Hp as Hp <-. apply bind_Ok in Hp as (tx0 & Hp & [= -> ->]).
  unfold persist_timestamp in Hp. apply map_err_Ok, bind_Ok in Hp as ([n c] & Hex & [= <-]). cbn [snd] in *.
  apply hlc_stored in Hex.
  assert (load_last_timestamp c = Ok (Some t)) as Hload.
  { unfold load_last_timestamp, query_row. rewrite Hex. cbn. by rewrite ts_round_trip. }
  unfold build_hlc_from_db in Hb. apply bind_Ok in Hb as (node & _ & Hb). rewrite Hload in Hb. cbn in Hb.
  destruct (hlc_update_with_timestamp _ now2 t) as [[[]| |] h'] eqn:Hu; [|done..]. injection Hb as ->.
  apply hlc_update_covers in Hu as [Hle _].
  apply new_timestamp_Ok in Hn as (h0 & h1 & Hs & _ & Hlt & _). cbn in Hs. injection Hs as <-. lia.
Qed.

Abbreviation mini_store := (mkMem ∅ ∅ [] true).
Abbreviation mini_svc := (@mkHlcService mini_uhlc (Some (1, MAX_REMOTE_HLC_DRIFT, 10)) false).
Abbreviation mini_issue := (new_timestamp_and_persist mini_svc 5 mini_store).
Abbreviation mini_tx := (match fst mini_issue with Ok (_, tx) => tx | _ => mini_store end).

Lemma restart_never_reissues_witness :
  build_hlc_from_db mini_tx 1 [1] = Ok (1, MAX_REMOTE_HLC_DRIFT, 11) /\
  ts_time (mkTs 11 1) < ts_time (mkTs 12 1).
Proof.
  split; [vm_compute; reflexivity|].
  apply (restart_never_reissues (H:=mini_uhlc) (db:=Mem) mini_svc 5 mini_store mini_tx (mkTs 11 1) (snd mini_issue) 1 [1]
    (1, MAX_REMOTE_HLC_DRIFT, 11) 0 (mkTs 12 1)
    (snd (new_timestamp (@mkHlcService mini_uhlc (Some (1, MAX_REMOTE_HLC_DRIFT, 11)) false) 0))).
  - split; split; vm_compute; discriminate.
  - apply pair_Ok_result. reflexivity.
  - vm_compute; reflexivity.
  - apply pair_result. reflexivity.
Defined.
