(* ===== verification/Context.v ===== *)
(** * The transaction-scoped HLC and the change observer
    (src/db/connection_context.rs, the hooks of src/db/core/init.rs)

    The state a connection shares with its SQLite hooks: the HLC slot, the
    write-pending flag and the tables changed so far. A connection's life is a
    sequence of [event]s; [step] is what the hooks and the [current_hlc()]
    function do on each. *)

From S2P Require Import Prelude Names Json Sql Mini Hlc.

(** ** The state *)

(** [Arc<Mutex<A>>]: the shared value and whether a panicking holder poisoned
    it. *)
Record mutex (A : Type) := mkMutex { m_value : A; m_poisoned : bool }.
Arguments mkMutex {A}.
Arguments m_value {A}.
Arguments m_poisoned {A}.

Definition mutex_lock {A} (m : mutex A) : option A := if m_poisoned m then None else Some (m_value m).
(** An update under [if let Ok(mut g) = m.lock()]: a poisoned mutex is left alone. *)
Definition mutex_update {A} (f : A -> A) (m : mutex A) : mutex A :=
  if m_poisoned m then m else mkMutex (f (m_value m)) false.

(** The observer is a closure of the consumer: [true] when one is installed.
    Its calls are the reports [publish_changes] returns. *)
Record ConnectionContext := mkContext {
  tx_hlc_slot : mutex (option Timestamp);
  write_pending : mutex bool;
  changed_tables : mutex (gset string);
  observer : mutex bool;
}.

Definition ConnectionContext_new : ConnectionContext :=
  mkContext (mkMutex None false) (mkMutex false false) (mkMutex ∅ false) (mkMutex false false).

Definition set_observer (obs : bool) (ctx : ConnectionContext) : ConnectionContext :=
  mkContext (tx_hlc_slot ctx) (write_pending ctx) (changed_tables ctx)
    (mutex_update (fun _ => obs) (observer ctx)).

Definition is_bookkeeping (table : string) : bool :=
  starts_with "haex_crdt_" table || starts_with "haex_app_migrations_" table.

Definition record_change (table : string) (ctx : ConnectionContext) : ConnectionContext :=
  if is_bookkeeping table then ctx
  else mkContext (tx_hlc_slot ctx) (write_pending ctx)
         (mutex_update (fun tables => {[table]} ∪ tables) (changed_tables ctx)) (observer ctx).

(** [publish_changes]: the report handed to the observer, if any. *)
Definition publish_changes (ctx : ConnectionContext) : ConnectionContext * option (gset string) :=
  match mutex_lock (changed_tables ctx) with
  | None => (ctx, None)
  | Some changed =>
      let ctx' := mkContext (tx_hlc_slot ctx) (write_pending ctx) (mkMutex ∅ false) (observer ctx) in
      if decide (changed = ∅) then (ctx', None)
      else match mutex_lock (observer ctx) with
           | Some true => (ctx', Some changed)
           | _ => (ctx', None)
           end
  end.

Definition discard_changes (ctx : ConnectionContext) : ConnectionContext :=
  mkContext (tx_hlc_slot ctx) (write_pending ctx) (mutex_update (fun _ => ∅) (changed_tables ctx))
    (observer ctx).

Definition mark_write_pending (ctx : ConnectionContext) : ConnectionContext :=
  mkContext (tx_hlc_slot ctx) (mutex_update (fun _ => true) (write_pending ctx)) (changed_tables ctx)
    (observer ctx).

Definition reset_tx_slot (ctx : ConnectionContext) : ConnectionContext :=
  mkContext (mutex_update (fun _ => None) (tx_hlc_slot ctx))
    (mutex_update (fun _ => false) (write_pending ctx)) (changed_tables ctx) (observer ctx).

Section hlc_slot.
Context `{Uhlc}.

(** [current_or_new_tx_hlc]; [now] is the clock reading of a fresh timestamp. *)
Definition current_or_new_tx_hlc (ctx : ConnectionContext) (hlc_service : HlcService) (now : Z)
    : res HlcError Timestamp * ConnectionContext * HlcService :=
  match mutex_lock (write_pending ctx) with
  | None => (Err HlcMutexPoisoned, ctx, hlc_service)
  | Some writes =>
      match mutex_lock (tx_hlc_slot ctx) with
      | None => (Err HlcMutexPoisoned, ctx, hlc_service)
      | Some slot =>
          match (if writes then slot else None) with
          | Some existing => (Ok existing, ctx, hlc_service)
          | None =>
              match new_timestamp hlc_service now with
              | (Ok ts, svc') =>
                  (Ok ts, mkContext (mkMutex (Some ts) false) (write_pending ctx) (changed_tables ctx)
                            (observer ctx), svc')
              | (Err e, svc') => (Err e, ctx, svc')
              | (Panic m, svc') => (Panic m, ctx, svc')
              end
          end
      end
  end.

(** ** The hooks [install_tx_hlc_hooks] wires, as events *)

Inductive event :=
| EvHlc (now : Z)
| EvWrite (table : string)
| EvCommit
| EvRollback.

(** What an event lets the outside see: the value of [current_hlc()] or the
    report of a commit. *)
Inductive seen :=
| SawHlc (r : res HlcError Timestamp)
| SawReport (tables : gset string)
| SawNothing.

Definition commit_hook (ctx : ConnectionContext) : ConnectionContext * option (gset string) :=
  publish_changes (reset_tx_slot ctx).
Definition rollback_hook (ctx : ConnectionContext) : ConnectionContext :=
  discard_changes (reset_tx_slot ctx).
Definition preupdate_hook (table : string) (ctx : ConnectionContext) : ConnectionContext :=
  record_change table (mark_write_pending ctx).

Definition conn_state := (ConnectionContext * HlcService)%type.

Definition step (st : conn_state) (e : event) : conn_state * seen :=
  let '(ctx, svc) := st in
  match e with
  | EvHlc now => let '(r, ctx', svc') := current_or_new_tx_hlc ctx svc now in ((ctx', svc'), SawHlc r)
  | EvWrite table => ((preupdate_hook table ctx, svc), SawNothing)
  | EvCommit =>
      let '(ctx', report) := commit_hook ctx in
      ((ctx', svc), match report with Some r => SawReport r | None => SawNothing end)
  | EvRollback => ((rollback_hook ctx, svc), SawNothing)
  end.

Fixpoint run (st : conn_state) (evs : list event) : conn_state * list seen :=
  match evs with
  | [] => (st, [])
  | e :: rest =>
      let '(st1, o) := step st e in
      let '(st2, os) := run st1 rest in (st2, o :: os)
  end.
End hlc_slot.

(** ** Lemmas *)

Section traces.
Context `{Uhlc}.

Definition sound (ctx : ConnectionContext) : Prop :=
  m_poisoned (tx_hlc_slot ctx) = false /\ m_poisoned (write_pending ctx) = false /\
  m_poisoned (changed_tables ctx) = false /\ m_poisoned (observer ctx) = false.

Lemma run_app st evs1 evs2 :
  run st (evs1 ++ evs2) =
  let '(st1, os1) := run st evs1 in let '(st2, os2) := run st1 evs2 in (st2, os1 ++ os2).
Proof.
  revert st; induction evs1 as [|e evs1 IH]; intros st; cbn [app run]; [by destruct (run st evs2)|].
  destruct (step st e) as [st1 o]. rewrite IH. destruct (run st1 evs1) as [st2 os1].
  by destruct (run st2 evs2).
Qed.

Lemma record_change_keeps table ctx :
  tx_hlc_slot (record_change table ctx) = tx_hlc_slot ctx /\
  write_pending (record_change table ctx) = write_pending ctx /\
  observer (record_change table ctx) = observer ctx /\
  m_poisoned (changed_tables (record_change table ctx)) = m_poisoned (changed_tables ctx).
Proof.
  unfold record_change. destruct (is_bookkeeping table); [done|].
  cbn. unfold mutex_update. by destruct (m_poisoned (changed_tables ctx)) eqn:E.
Qed.

Lemma commit_hook_resets ctx :
  m_poisoned (tx_hlc_slot ctx) = false -> m_poisoned (write_pending ctx) = false ->
  tx_hlc_slot (fst (commit_hook ctx)) = mkMutex None false /\
  write_pending (fst (commit_hook ctx)) = mkMutex false false.
Proof.
  destruct ctx as [[slot ps] [w pw] [ch pch] [ob pob]]. cbn. intros -> ->.
  unfold commit_hook, publish_changes, reset_tx_slot, mutex_update, mutex_lock. cbn.
  destruct pch; [done|]. case_decide; [done|]. by destruct pob, ob.
Qed.

(** A write that has been seen pins the slot. *)
Definition pinned (t : Timestamp) (st : conn_state) : Prop :=
  write_pending (fst st) = mkMutex true false /\ tx_hlc_slot (fst st) = mkMutex (Some t) false.

Definition in_tx (e : event) : bool :=
  match e with EvHlc _ | EvWrite _ => true | _ => false end.

Definition seen_in_tx (t : Timestamp) (e : event) : seen :=
  match e with EvHlc _ => SawHlc (Ok t) | _ => SawNothing end.

Lemma pinned_step t st e :
  pinned t st -> in_tx e = true ->
  exists st', step st e = (st', seen_in_tx t e) /\ pinned t st' /\ snd st' = snd st.
Proof.
  destruct st as [ctx svc]. intros [Hw Hs] He. cbn [fst snd] in *. destruct e as [now|table| |]; try done.
  - exists (ctx, svc). cbn. unfold current_or_new_tx_hlc. by rewrite Hw, Hs.
  - exists (preupdate_hook table ctx, svc). split; [done|]. split; [|done]. unfold preupdate_hook, pinned. cbn [fst].
    destruct (record_change_keeps table (mark_write_pending ctx)) as (-> & -> & _). cbn. by rewrite Hw.
Qed.

Lemma pinned_run t st evs :
  pinned t st -> forallb in_tx evs = true ->
  exists st', run st evs = (st', map (seen_in_tx t) evs) /\ pinned t st' /\ snd st' = snd st.
Proof.
  revert st; induction evs as [|e evs IH]; intros st Hp; cbn [forallb run map]; [by exists st|].
  intros [He Hevs]%andb_true_iff. destruct (pinned_step t st e Hp He) as (st1 & -> & Hp1 & Hs1).
  destruct (IH st1 Hp1 Hevs) as (st2 & -> & Hp2 & Hs2). exists st2. split; [done|]. split; [done|]. congruence.
Qed.
End traces.

(** No event sets the clock back. *)
Section clock.
Context `{UhlcLaws}.

Lemma current_or_new_clock ctx svc now r ctx' svc' :
  current_or_new_tx_hlc ctx svc now = (r, ctx', svc') -> clock_le svc svc'.
Proof.
  unfold current_or_new_tx_hlc. destruct (mutex_lock (write_pending ctx)) as [w|]; [|by intros [= <- <- <-]].
  destruct (mutex_lock (tx_hlc_slot ctx)) as [slot|]; [|by intros [= <- <- <-]].
  destruct (if w then slot else None); [by intros [= <- <- <-]|].
  destruct (new_timestamp svc now) as [rt svc1] eqn:Hn. apply new_timestamp_clock in Hn.
  by destruct rt; intros [= <- <- <-].
Qed.

Lemma step_clock st e : clock_le (snd st) (snd (fst (step st e))).
Proof.
  destruct st as [ctx svc], e as [now|t| |]; cbn; [|done| |done].
  - destruct (current_or_new_tx_hlc ctx svc now) as [[r ctx'] svc'] eqn:Hc. by apply current_or_new_clock in Hc.
  - by destruct (commit_hook ctx).
Qed.

Lemma run_clock evs : forall st, clock_le (snd st) (snd (fst (run st evs))).
Proof.
  induction evs as [|e evs IH]; intros st; cbn [run]; [done|]. pose proof (step_clock st e) as He.
  destruct (step st e) as [st1 o]. specialize (IH st1). destruct (run st1 evs) as [st2 os]. cbn in *. by etrans.
Qed.
End clock.

(** ** Reports *)

(** The tables of a transaction's writes the observer may hear of. *)
Definition written_tables (evs : list event) : gset string :=
  list_to_set (omap (fun e => match e with
    | EvWrite t => if is_bookkeeping t then None else Some t
    | _ => None end) evs).

Definition end_of (committed : bool) : event := if committed then EvCommit else EvRollback.
Definition tx_events (tx : list event * bool) : list event := fst tx ++ [end_of (snd tx)].

Definition report_of (tx : list event * bool) : option (gset string) :=
  if snd tx then (if decide (written_tables (fst tx) = ∅) then None else Some (written_tables (fst tx)))
  else None.

Definition reports (os : list (seen)) : list (gset string) :=
  omap (fun o => match o with SawReport r => Some r | _ => None end) os.

(** ** One statement of a transaction *)

(** The events of a statement that runs inside a transaction: none of them ends
    it, or the last one is the rollback SQLite ended it with. *)
Definition orderly (ended : bool) (evs : list event) : Prop :=
  if ended then exists evs', evs = evs' ++ [EvRollback] /\ forallb in_tx evs' = true
  else forallb in_tx evs = true.

(** What only the consumer changes: whether it observes, and whether the list of
    changed tables is still usable. *)
Definition watch (ctx : ConnectionContext) : mutex bool * bool := (observer ctx, m_poisoned (changed_tables ctx)).
(** The changed tables are forgotten. *)
Definition forgotten (ctx : ConnectionContext) : Prop :=
  m_poisoned (changed_tables ctx) = false -> changed_tables ctx = mkMutex ∅ false.

(** All a read can do to the hooks: ask for the HLC. *)
Definition asks (e : event) : bool := match e with EvHlc _ => true | _ => false end.

Section statement_events.
Context `{Uhlc}.

Lemma current_or_new_watch ctx svc now r ctx' svc' :
  current_or_new_tx_hlc ctx svc now = (r, ctx', svc') ->
  watch ctx' = watch ctx /\ changed_tables ctx' = changed_tables ctx.
Proof. unfold current_or_new_tx_hlc. intros Hc. repeat case_match; by simplify_eq. Qed.

Lemma step_watch st e : watch (fst (fst (step st e))) = watch (fst st).
Proof.
  destruct st as [ctx svc], e as [now|t| |]; cbn [step fst].
  - destruct (current_or_new_tx_hlc ctx svc now) as [[r ctx'] svc'] eqn:Hc. by apply current_or_new_watch in Hc as [Hw _].
  - unfold preupdate_hook, watch. by destruct (record_change_keeps t (mark_write_pending ctx)) as (_ & _ & -> & ->).
  - unfold commit_hook, publish_changes. cbn [reset_tx_slot changed_tables]. unfold mutex_lock.
    destruct (m_poisoned (changed_tables ctx)) eqn:Hp; [done|].
    unfold watch. rewrite Hp. case_decide; [done|]. cbn. by destruct (m_poisoned (observer ctx)), (m_value (observer ctx)).
  - unfold rollback_hook, discard_changes, watch, mutex_update. cbn. destruct (m_poisoned (changed_tables ctx)) eqn:Hp; cbn; by rewrite ?Hp.
Qed.

Lemma step_in_tx_silent st e : in_tx e = true -> reports [snd (step st e)] = [].
Proof. destruct st as [ctx svc], e; try done. cbn [step]. by destruct (current_or_new_tx_hlc ctx svc now) as [[r ctx'] svc']. Qed.

Lemma run_watch st evs : watch (fst (fst (run st evs))) = watch (fst st).
Proof.
  revert st; induction evs as [|e evs IH]; intros st; cbn [run]; [done|]. pose proof (step_watch st e) as Hs.
  destruct (step st e) as [st1 o]. specialize (IH st1). destruct (run st1 evs) as [st2 os]. cbn in *. congruence.
Qed.

Lemma run_in_tx_silent st evs : forallb in_tx evs = true -> reports (snd (run st evs)) = [].
Proof.
  revert st; induction evs as [|e evs IH]; intros st; cbn [run forallb]; [done|]. intros [He Hevs]%andb_true_iff.
  pose proof (step_in_tx_silent st e He) as Hs. destruct (step st e) as [st1 o]. specialize (IH st1 Hevs).
  destruct (run st1 evs) as [st2 os]. cbn [snd] in *. change (o :: os) with ([o] ++ os).
  unfold reports in *. by rewrite omap_app, Hs.
Qed.

Lemma run_asks st evs : forallb asks evs = true ->
  observer (fst (fst (run st evs))) = observer (fst st) /\
  changed_tables (fst (fst (run st evs))) = changed_tables (fst st) /\ reports (snd (run st evs)) = [].
Proof.
  intros Hevs. assert (forallb in_tx evs = true) as Hin.
  { apply forallb_forall. intros e He. rewrite forallb_forall in Hevs. specialize (Hevs e He). by destruct e. }
  split; [by injection (run_watch st evs)|]. split; [|by apply run_in_tx_silent]. clear Hin. revert st Hevs.
  induction evs as [|e evs IH]; intros [ctx svc]; cbn [run forallb]; [done|]. intros [He Hevs]%andb_true_iff.
  destruct e as [now| | |]; try done. cbn [step]. destruct (current_or_new_tx_hlc ctx svc now) as [[r ctx'] svc'] eqn:Hc.
  apply current_or_new_watch in Hc as [_ Hch]. specialize (IH (ctx', svc') Hevs).
  destruct (run (ctx', svc') evs) as [st2 os]. cbn [fst] in *. congruence.
Qed.

(** A statement of a transaction reports nothing, and forgets the changes when
    it ends the transaction. *)
Lemma run_orderly st ended evs : orderly ended evs ->
  reports (snd (run st evs)) = [] /\ (ended = true -> forgotten (fst (fst (run st evs)))).
Proof.
  destruct ended; cbn; [|intros Hevs; split; [by apply run_in_tx_silent|done]].
  intros (evs' & -> & Hevs). rewrite run_app. pose proof (run_in_tx_silent st evs' Hevs) as Hs.
  destruct (run st evs') as [[ctx svc] os]. cbn [run step]. cbn [snd fst] in *. split.
  - unfold reports in *. by rewrite omap_app, Hs.
  - intros _. unfold forgotten, rollback_hook, discard_changes, mutex_update. cbn.
    destruct (m_poisoned (changed_tables ctx)) eqn:Hp; [congruence|done].
Qed.
End statement_events.

(** ** What the observer hears *)

Section reports.
Context `{Uhlc}.

Lemma written_tables_cons e evs :
  written_tables (e :: evs) =
  match e with
  | EvWrite t => if is_bookkeeping t then written_tables evs else {[t]} ∪ written_tables evs
  | _ => written_tables evs
  end.
Proof. unfold written_tables. destruct e as [|t| |]; cbn; [done| |done..]. by destruct (is_bookkeeping t). Qed.

(** The observer's half of the state while a transaction runs; [obs]: one is
    installed. *)
Definition collecting (obs : bool) (seen_tables : gset string) (ctx : ConnectionContext) : Prop :=
  changed_tables ctx = mkMutex seen_tables false /\ observer ctx = mkMutex obs false.

(** What a commit tells. *)
Definition announce (obs : bool) (tables : gset string) : list (gset string) :=
  if obs then (if decide (tables = ∅) then [] else [tables]) else [].

(** What the observer hears of a sequence of events, and the changes that are
    then pending. *)
Fixpoint hear (obs : bool) (s : gset string) (evs : list event) : list (gset string) * gset string :=
  match evs with
  | [] => ([], s)
  | EvHlc _ :: rest => hear obs s rest
  | EvWrite t :: rest => hear obs (if is_bookkeeping t then s else {[t]} ∪ s) rest
  | EvCommit :: rest => let '(os, s') := hear obs ∅ rest in (announce obs s ++ os, s')
  | EvRollback :: rest => hear obs ∅ rest
  end.

Lemma commit_announces obs s ctx :
  collecting obs s ctx ->
  collecting obs ∅ (fst (commit_hook ctx)) /\
  match snd (commit_hook ctx) with Some r => [r] | None => [] end = announce obs s.
Proof.
  intros [Hch Ho]. unfold commit_hook, publish_changes. cbn [reset_tx_slot changed_tables observer].
  rewrite Hch. unfold announce. cbn. rewrite Ho. cbn. destruct obs; by case_decide.
Qed.

Lemma rollback_forgets obs s ctx : collecting obs s ctx -> collecting obs ∅ (rollback_hook ctx).
Proof. intros [Hch Ho]. split; [|exact Ho]. unfold rollback_hook, discard_changes. cbn. by rewrite Hch. Qed.

Lemma write_collects obs s ctx t :
  collecting obs s ctx -> collecting obs (if is_bookkeeping t then s else {[t]} ∪ s) (preupdate_hook t ctx).
Proof.
  intros [Hch Ho]. unfold preupdate_hook, record_change. destruct (is_bookkeeping t); split; cbn; rewrite ?Hch; done.
Qed.

(** The hooks do what [hear] says, whatever the clock and the HLC slot are. *)
Lemma run_hear obs evs : forall s st,
  collecting obs s (fst st) ->
  reports (snd (run st evs)) = fst (hear obs s evs) /\ collecting obs (snd (hear obs s evs)) (fst (fst (run st evs))).
Proof.
  induction evs as [|e evs IH]; intros s [ctx svc]; cbn [fst run]; [done|]. intros Hc.
  destruct e as [now|t| |]; cbn [step hear].
  - destruct (current_or_new_tx_hlc ctx svc now) as [[r ctx1] svc1] eqn:Hcur. apply current_or_new_watch in Hcur as [Hw Hch].
    specialize (IH s (ctx1, svc1)). destruct (run (ctx1, svc1) evs) as [st2 os]. apply IH.
    split; cbn; [rewrite Hch; apply Hc|]. injection Hw as -> _. apply Hc.
  - specialize (IH _ (preupdate_hook t ctx, svc) (write_collects _ _ _ t Hc)).
    by destruct (run (preupdate_hook t ctx, svc) evs).
  - destruct (commit_announces obs s ctx Hc) as [Hc' Hr]. destruct (commit_hook ctx) as [ctx' report]. cbn [fst snd] in *.
    specialize (IH ∅ (ctx', svc) Hc'). destruct (run (ctx', svc) evs) as [st2 os], (hear obs ∅ evs) as [os' s'].
    cbn [fst snd] in *. destruct IH as [<- IH]. split; [|done]. rewrite <- Hr. by destruct report.
  - specialize (IH ∅ (rollback_hook ctx, svc) (rollback_forgets _ _ _ Hc)).
    by destruct (run (rollback_hook ctx, svc) evs).
Qed.

Lemma hear_app obs s evs1 evs2 :
  hear obs s (evs1 ++ evs2) =
  let '(os1, s1) := hear obs s evs1 in let '(os2, s2) := hear obs s1 evs2 in (os1 ++ os2, s2).
Proof.
  revert s. induction evs1 as [|e evs1 IH]; intros s; cbn [app hear]; [by destruct (hear obs s evs2)|].
  destruct e; [apply IH|apply IH| |apply IH]. rewrite IH. destruct (hear obs ∅ evs1) as [os1 s1].
  destruct (hear obs s1 evs2) as [os2 s2]. by rewrite app_assoc.
Qed.

Lemma hear_in_tx obs s evs : forallb in_tx evs = true -> hear obs s evs = ([], written_tables evs ∪ s).
Proof.
  revert s. induction evs as [|e evs IH]; intros s; cbn [forallb hear].
  - intros _. f_equal. unfold written_tables. set_solver.
  - intros [He Hevs]%andb_true_iff. rewrite written_tables_cons. destruct e as [now|t| |]; [by apply IH| |done..].
    rewrite IH by done. f_equal. destruct (is_bookkeeping t); [done|set_solver].
Qed.

(** Over a sequence of transactions an installed observer is called once for
    each committed one that wrote a table of the consumer. *)
Lemma hear_transactions obs (txs : list (list event * bool)) :
  Forall (fun tx => forallb in_tx (fst tx) = true) txs ->
  hear obs ∅ (flat_map tx_events txs) = (if obs then omap report_of txs else [], ∅).
Proof.
  induction 1 as [|[evs ok] txs Hevs _ IH]; [by destruct obs|]. cbn [flat_map]. unfold tx_events at 1. cbn [fst snd] in *.
  rewrite <- app_assoc, hear_app, hear_in_tx, union_empty_r_L by done. cbn [app]. destruct ok; cbn [end_of hear]; rewrite IH.
  - destruct obs; [|done]. change (omap report_of ((evs, true) :: txs)) with
      (match report_of (evs, true) with Some r => r :: omap report_of txs | None => omap report_of txs end).
    unfold announce, report_of at 2. cbn [fst snd]. by case_decide.
  - by destruct obs.
Qed.
End reports.

(** ** Properties *)

(** One transaction, one timestamp: the first [current_hlc()] of a
    connection with no write pending draws a fresh timestamp, every later one in
    the transaction returns the same once a row has been written, whatever else is
    written in between and without advancing the clock, and after the commit or
    the rollback the next one is strictly later. *)
Theorem tx_hlc_stable `{UhlcLaws} ctx svc h now table evs fin now' :
  sound ctx -> m_value (write_pending ctx) = false ->
  hlc_slot svc = Some h -> hlc_poisoned svc = false ->
  forallb in_tx evs = true -> In fin [EvCommit; EvRollback] ->
  exists t t' r st', run (ctx, svc) (EvHlc now :: EvWrite table :: evs ++ [fin; EvHlc now']) =
      (st', SawHlc (Ok t) :: SawNothing :: map (seen_in_tx t) evs ++ [r; SawHlc (Ok t')]) /\
    hlc_last h < ts_time t < ts_time t'.
Proof.
  intros (Hps & Hpw & _) Hw Hh Hnp Hevs Hfin.
  destruct ctx as [[slot ps] [w pw] ch ob]. cbn in Hps, Hpw, Hw. subst ps pw w.
  destruct (hlc_new_timestamp h now) as [t h1] eqn:Hn.
  cbn [run step]. unfold current_or_new_tx_hlc. cbn [mutex_lock write_pending m_poisoned m_value tx_hlc_slot].
  unfold new_timestamp, lock_hlc. rewrite Hnp, Hh. cbn [ok_or]. rewrite Hn. cbn [write_pending changed_tables observer].
  set (ctx1 := mkContext _ _ _ _). set (svc1 := set_hlc h1 svc).
  assert (pinned t (preupdate_hook table ctx1, svc1)) as Hp.
  { unfold pinned, preupdate_hook. cbn [fst].
    by destruct (record_change_keeps table (mark_write_pending ctx1)) as (-> & -> & _). }
  destruct (pinned_run t _ evs Hp Hevs) as ([ctx2 svc2] & Hrun & [Hw2 Hs2] & Hsvc). cbn [fst snd] in *. subst svc2.
  change (step (ctx1, svc1) (EvWrite table)) with ((preupdate_hook table ctx1, svc1), SawNothing). cbv iota beta. rewrite run_app, Hrun. apply hlc_new_timestamp_later in Hn as [Hlt Hlast].
  assert (forall ctx3 o, step (ctx2, svc1) fin = ((ctx3, svc1), o) ->
    write_pending ctx3 = mkMutex false false -> tx_hlc_slot ctx3 = mkMutex None false ->
    exists t' st', run (ctx2, svc1) [fin; EvHlc now'] = (st', [o; SawHlc (Ok t')]) /\ ts_time t < ts_time t') as Hend.
  { intros ctx3 o Hst Hw3 Hs3. cbn [run]. rewrite Hst. cbn [step]. unfold current_or_new_tx_hlc.
    rewrite Hw3, Hs3. cbn [mutex_lock m_poisoned m_value]. unfold new_timestamp, lock_hlc.
    unfold svc1. cbn [set_hlc hlc_poisoned hlc_slot]. rewrite Hnp. cbn [ok_or].
    destruct (hlc_new_timestamp h1 now') as [t' h2] eqn:Hn2. apply hlc_new_timestamp_later in Hn2 as [Hlt2 _].
    exists t'. eexists. split; [reflexivity|]. lia. }
  destruct Hfin as [<-|[<-|[]]].
  - destruct (commit_hook ctx2) as [ctx3 rep] eqn:Hc.
    destruct (Hend ctx3 (match rep with Some r => SawReport r | None => SawNothing end)) as (t' & st' & -> & Hlt2).
    + cbn [step]. by rewrite Hc.
    + destruct (commit_hook_resets ctx2) as [_ Hr]; [by rewrite Hs2|by rewrite Hw2|]. by rewrite Hc in Hr.
    + destruct (commit_hook_resets ctx2) as [Hr _]; [by rewrite Hs2|by rewrite Hw2|]. by rewrite Hc in Hr.
    + by exists t, t', (match rep with Some r => SawReport r | None => SawNothing end), st'.
  - destruct (Hend (rollback_hook ctx2) SawNothing) as (t' & st' & -> & Hlt2); [done|cbn; by rewrite Hw2|cbn; by rewrite Hs2|].
    by exists t, t', SawNothing, st'.
Qed.

Lemma tx_hlc_stable_witness :
  exists t t' r st', run (ConnectionContext_new, mini_svc)
      [EvHlc 20; EvWrite "items"; EvHlc 30; EvWrite "notes"; EvHlc 40; EvCommit; EvHlc 50] =
      (st', [SawHlc (Ok t); SawNothing; SawHlc (Ok t); SawNothing; SawHlc (Ok t); r; SawHlc (Ok t')]) /\
    hlc_last (1, MAX_REMOTE_HLC_DRIFT, 10) < ts_time t < ts_time t'.
Proof.
  apply (tx_hlc_stable ConnectionContext_new mini_svc (1, MAX_REMOTE_HLC_DRIFT, 10) 20 "items"
           [EvHlc 30; EvWrite "notes"; EvHlc 40] EvCommit 50); try reflexivity.
  - repeat split.
  - left. reflexivity.
Defined.

(** The hooks cannot tell a read-only probe from the first read of a
    transaction: no commit hook runs for a bare [SELECT current_hlc()], so when the
    next transaction writes a row before it reads the HLC, the flag is set over the
    probe's slot and the transaction inherits the probe's timestamp. *)
Lemma readonly_probe_inherited `{UhlcLaws} svc h now table now' :
  hlc_slot svc = Some h -> hlc_poisoned svc = false ->
  exists t st', run (ConnectionContext_new, svc) [EvHlc now; EvWrite table; EvHlc now'] =
    (st', [SawHlc (Ok t); SawNothing; SawHlc (Ok t)]).
Proof.
  intros Hh Hnp.
  destruct (tx_hlc_stable ConnectionContext_new svc h now table [EvHlc now'] EvCommit now')
    as (t & t' & r & st' & Hr & _); try done; [by left|].
  change (EvHlc now :: EvWrite table :: [EvHlc now'] ++ [EvCommit; EvHlc now'])
    with ([EvHlc now; EvWrite table; EvHlc now'] ++ [EvCommit; EvHlc now']) in Hr.
  rewrite run_app in Hr. exists t.
  destruct (run (ConnectionContext_new, svc) [EvHlc now; EvWrite table; EvHlc now']) as [st1 os1] eqn:E1.
  destruct (run st1 [EvCommit; EvHlc now']) as [st2 os2] eqn:E2. exists st1. f_equal.
  injection Hr as _ Hos. cbn [map seen_in_tx app] in Hos.
  assert (length os2 = 2%nat) as Hl.
  { cbn [run] in E2. destruct (step st1 EvCommit) as [s1 o1]. destruct (step s1 (EvHlc now')) as [s2 o2].
    by injection E2 as _ <-. }
  apply (f_equal (take 3)) in Hos. cbn [take] in Hos.
  assert (length os1 = 3%nat) as Hl1.
  { clear -E1. cbn [run] in E1. destruct (step _ (EvHlc now)) as [s1 o1]. destruct (step s1 _) as [s2 o2].
    destruct (step s2 _) as [s3 o3]. by injection E1 as _ <-. }
  by rewrite <- Hl1, take_app_length in Hos.
Qed.

(** The observer hears exactly the committed changes: over any sequence of
    transactions, it is called once for each committed one that wrote a table of the
    consumer, with exactly the set of those tables, in order, and never for a
    rolled-back transaction or for the crate's bookkeeping. *)
Theorem committed_changes_reported `{Uhlc} ctx svc (txs : list (list event * bool)) :
  collecting true ∅ ctx -> Forall (fun tx => forallb in_tx (fst tx) = true) txs ->
  reports (snd (run (ctx, svc) (flat_map tx_events txs))) = omap report_of txs.
Proof.
  intros Hc Htxs. destruct (run_hear true (flat_map tx_events txs) ∅ (ctx, svc) Hc) as [-> _].
  by rewrite hear_transactions.
Qed.

Lemma committed_changes_reported_witness :
  let txs := [([EvWrite "items"; EvHlc 5; EvWrite "haex_crdt_configs_no_sync"; EvWrite "items"], true);
              ([EvWrite "notes"], false); ([EvWrite "haex_crdt_configs_no_sync"], true)] in
  reports (snd (run (set_observer true ConnectionContext_new, mini_svc) (flat_map tx_events txs))) =
  [{["items"]}].
Proof.
  intros txs. rewrite (committed_changes_reported (set_observer true ConnectionContext_new) mini_svc txs).
  - vm_compute. reflexivity.
  - split; reflexivity.
  - repeat constructor.
Defined.
