(* ===== verification/Lww.v ===== *)
(** * Last-writer-wins registers: the specification of a column

    A column is a register: the HLC it was last written at and its value. A
    write takes effect exactly when its HLC is complete ([<time>/<node>]) and
    strictly newer. This is the abstract object the row selection of
    src/crdt/apply/row.rs implements; the lemmas here are the CRDT laws:
    writes commute, are idempotent and can be batched in any way, as long as
    two writes with the same HLC are the same write. *)

From S2P Require Import Prelude Hlc.

Section register.
Context {A : Type} (hlc_of : A -> string).

Record register := mkReg { reg_hlc : string; reg_value : option A }.

Definition complete_hlc (hlc : string) : bool := contains_char "/" hlc.

Definition lww_write (r : register) (w : A) : register :=
  if complete_hlc (hlc_of w) && hlc_is_newer (hlc_of w) (reg_hlc r)
  then mkReg (hlc_of w) (Some w) else r.

Definition lww_merge (r : register) (ws : list A) : register := fold_left lww_write ws r.

(** What a merge yields, independently of how it is computed. *)
Record lww_result (r0 : register) (ws : list A) (r : register) : Prop := {
  res_from : r = r0 \/ exists w, w ∈ ws /\ complete_hlc (hlc_of w) = true /\
    hlc_is_newer (hlc_of w) (reg_hlc r0) = true /\ r = mkReg (hlc_of w) (Some w);
  res_ge_start : cmp_le compare_hlc_strings (reg_hlc r0) (reg_hlc r);
  res_ge : forall w, w ∈ ws -> complete_hlc (hlc_of w) = true ->
    cmp_le compare_hlc_strings (hlc_of w) (reg_hlc r);
}.

Lemma lww_merge_result ws : forall r0, lww_result r0 ws (lww_merge r0 ws).
Proof.
  induction ws as [|w ws IH]; intros r0; unfold lww_merge in *; cbn [fold_left].
  - split; [by left|apply cmp_le_refl, _|]. by intros w ?%elem_of_nil.
  - destruct (IH (lww_write r0 w)) as [Hfrom Hstart Hge]. unfold lww_write in *.
    destruct (complete_hlc (hlc_of w) && hlc_is_newer (hlc_of w) (reg_hlc r0)) eqn:Hw.
    + apply andb_true_iff in Hw as [Hc Hn]. cbn [reg_hlc] in *.
      assert (cmp_le compare_hlc_strings (reg_hlc r0) (hlc_of w)) as Hle
        by (apply (cmp_gt_le _), hlc_is_newer_Gt, Hn).
      split.
      * right. destruct Hfrom as [->|(w' & Hin & Hc' & Hn' & ->)].
        -- exists w. split; [by left|]. auto.
        -- exists w'. split; [by right|]. split; [done|]. split; [|done].
           apply hlc_is_newer_Gt. apply hlc_is_newer_Gt in Hn'. by eapply cmp_gt_le_trans; [apply _| |].
      * by eapply cmp_le_trans; [apply _| |].
      * intros w' [->|Hin]%elem_of_cons Hc'; auto.
    + split; [|done|].
      * destruct Hfrom as [->|(w' & Hin & Hc' & Hn' & ->)]; [by left|right].
        exists w'. split; [by right|]. auto.
      * intros w' [->|Hin]%elem_of_cons Hc'; [|auto]. rewrite Hc' in Hw. cbn in Hw.
        apply hlc_not_newer_le in Hw. by eapply cmp_le_trans; [apply _| |].
Qed.

(** Same HLC, same write: one transaction writes a column once. *)
Definition no_ties (ws : list A) : Prop :=
  forall x y, x ∈ ws -> y ∈ ws -> compare_hlc_strings (hlc_of x) (hlc_of y) = Eq -> x = y.

Lemma lww_result_unique r0 ws ws' r r' :
  no_ties ws -> (forall w, w ∈ ws <-> w ∈ ws') ->
  lww_result r0 ws r -> lww_result r0 ws' r' -> r = r'.
Proof.
  intros Htie Heq [Hf Hs Hg] [Hf' Hs' Hg'].
  assert (forall w : A, complete_hlc (hlc_of w) = true -> hlc_is_newer (hlc_of w) (reg_hlc r0) = true ->
    ~ cmp_le compare_hlc_strings (hlc_of w) (reg_hlc r0)) as Hcon.
  { intros w _ Hn Hle. apply hlc_is_newer_Gt in Hn. done. }
  destruct Hf as [->|(w & Hw & Hc & Hn & ->)], Hf' as [->|(w' & Hw' & Hc' & Hn' & ->)]; [done| | |].
  - exfalso. apply (Hcon w'); [done|done|]. apply Hg; [by apply Heq|done].
  - exfalso. apply (Hcon w); [done|done|]. apply Hg'; [by apply Heq|done].
  - assert (w = w') as ->; [|done]. apply Htie; [done|by apply Heq|].
    specialize (Hg w' (proj2 (Heq w') Hw') Hc'). specialize (Hg' w (proj1 (Heq w) Hw) Hc).
    cbn [reg_hlc] in *. unfold cmp_le in *. rewrite (cmp_swap _ (hlc_of w) (hlc_of w')) in Hg.
    destruct (compare_hlc_strings (hlc_of w) (hlc_of w')); done.
Qed.

(** The register depends on the set of writes only: not on their order, not
    on repetition. *)
Lemma lww_merge_set r0 ws ws' :
  no_ties ws -> (forall w, w ∈ ws <-> w ∈ ws') -> lww_merge r0 ws = lww_merge r0 ws'.
Proof. intros Ht Heq. eapply lww_result_unique; eauto using lww_merge_result. Qed.

Lemma lww_merge_app r0 ws ws' : lww_merge r0 (ws ++ ws') = lww_merge (lww_merge r0 ws) ws'.
Proof. apply fold_left_app. Qed.
End register.
Arguments register : clear implicits.
Arguments mkReg {A}.

(** Forgetting part of the writes commutes with merging. *)
Definition reg_map {A B} (f : A -> B) (r : register A) : register B :=
  mkReg (reg_hlc r) (f <$> reg_value r).

Lemma lww_merge_map {A B} (f : A -> B) (hlc_a : A -> string) (hlc_b : B -> string) ws :
  (forall w, hlc_b (f w) = hlc_a w) -> forall r,
  lww_merge hlc_b (reg_map f r) (map f ws) = reg_map f (lww_merge hlc_a r ws).
Proof.
  intros Hf. unfold lww_merge. induction ws as [|w ws IH]; intros r; cbn [map fold_left]; [done|].
  rewrite <- IH. f_equal. unfold lww_write. rewrite Hf. cbn [reg_map reg_hlc].
  by destruct (_ && _).
Qed.

(** The value a register starts with does not influence what wins. *)
Lemma lww_merge_initial {A} (hlc_of : A -> string) h ws : forall x,
  lww_merge hlc_of (mkReg h x) ws =
    match reg_value (lww_merge hlc_of (mkReg h None) ws) with
    | Some _ => lww_merge hlc_of (mkReg h None) ws
    | None => mkReg h x
    end.
Proof.
  unfold lww_merge. induction ws as [|w ws IH] using rev_ind; intros x; [done|].
  rewrite !fold_left_app. cbn [fold_left]. rewrite (IH x).
  set (m := fold_left (lww_write hlc_of) ws (mkReg h None)) in *.
  destruct (reg_value m) as [p|] eqn:Hm.
  - assert (exists p', reg_value (lww_write hlc_of m w) = Some p') as [p' ->]; [|done].
    unfold lww_write. destruct (_ && _); cbn [reg_value]; eauto.
  - assert (m = mkReg h None) as -> by (pose proof (IH None) as IH'; fold m in IH'; congruence).
    unfold lww_write. cbn [reg_hlc]. by destruct (_ && _).
Qed.
