(* ===== verification/Trigger.v ===== *)
(** * Table schemas and CRDT triggers (src/crdt/trigger/mod.rs)

    The identifier gate, the schema reader, the text of the three triggers
    and the operations that install, drop and complete them. The effect of a
    trigger's SQL is SQLite's; what is modelled is which tables get triggers,
    which columns they track, and the text they are created from. *)

From S2P Require Import Prelude Utf8 Names Sql Mini.

(** ** The identifier gate *)

Section identifiers.
Context `{Unicode}.

Definition identifier_char (c : Z) : bool := is_alphanumeric c || (c =? 95) || (c =? 45).

Definition is_safe_identifier (name : string) : bool :=
  negb (String.eqb name EmptyString) && forallb identifier_char (chars name).

Lemma safe_identifier_ascii name c :
  is_safe_identifier name = true -> byte_of c < 128 -> contains_char c name = true ->
  identifier_char (byte_of c) = true.
Proof.
  unfold is_safe_identifier. intros [_ Hall]%andb_true_iff Hc Hin.
  rewrite forallb_forall in Hall. by apply Hall, ascii_byte_chars.
Qed.

Lemma safe_identifier_no_quote name c :
  is_safe_identifier name = true ->
  In c [ascii_of_nat 34; "'"%char; ";"%char; " "%char; "/"%char; "("%char; ascii_of_nat 0] ->
  contains_char c name = false.
Proof.
  intros Hs Hc. destruct (contains_char c name) eqn:Hin; [|done]. exfalso.
  apply (safe_identifier_ascii name c Hs) in Hin;
    repeat (destruct Hc as [<-|Hc]; [first [discriminate Hin | reflexivity]|]); done.
Qed.
End identifiers.

(** ** Errors and results *)

Inductive CrdtSetupError :=
| CrdtSetupDatabase (e : SqlError)
| HlcColumnMissing (table_name column_name : string)
| PrimaryKeyMissing (table_name : string)
| UnsafeIdentifier (name : string).

Inductive TriggerSetupResult := Success | TableNotFound.

(** ** Trigger text *)

Definition INSERT_TRIGGER_TPL := "z_dirty_{TABLE_NAME}_insert".
Definition UPDATE_TRIGGER_TPL := "z_dirty_{TABLE_NAME}_update".
Definition DELETE_TRIGGER_TPL := "z_dirty_{TABLE_NAME}_delete".
Definition BLOB_HEX_TAG := "$blob_hex".

Definition trigger_name (template table_name : string) : string :=
  str_replace "{TABLE_NAME}" table_name template.

Definition single_quoted (s : string) : string := "'" +:+ s +:+ "'".
Definition newline : string := String (ascii_of_nat 10) EmptyString.
(** The source continues its SQL on lines indented by twelve blanks. *)
Definition nl12 : string := newline +:+ "            ".
Definition nl16 : string := newline +:+ "                ".

Definition pk_where_clause (primary_key_columns : list string) : string :=
  match primary_key_columns with
  | [] => "rowid = NEW.rowid"
  | _ => join " AND " (map (fun pk => quoted pk +:+ " = NEW." +:+ quoted pk) primary_key_columns)
  end.

Definition triggers_gate : string :=
  "COALESCE((SELECT value FROM " +:+ TABLE_CRDT_CONFIGS +:+
  " WHERE key = 'triggers_enabled'), '1') = '1'".

Definition generate_insert_trigger_sql (table_name : string)
    (cols_to_track primary_key_columns : list string) : string :=
  let json_pairs := map (fun col => single_quoted col +:+ ", NEW." +:+ quoted HLC_TIMESTAMP_COLUMN)
                      cols_to_track in
  let json_object := match json_pairs with
                     | [] => "'{}'"
                     | _ => "json_object(" +:+ join ", " json_pairs +:+ ")"
                     end in
  "CREATE TRIGGER IF NOT EXISTS " +:+ quoted (trigger_name INSERT_TRIGGER_TPL table_name) +:+
  nl12 +:+ "AFTER INSERT ON " +:+ quoted table_name +:+
  nl12 +:+ "FOR EACH ROW" +:+
  nl12 +:+ "WHEN NEW." +:+ HLC_TIMESTAMP_COLUMN +:+ " IS NOT NULL" +:+
  nl16 +:+ "AND " +:+ triggers_gate +:+
  nl12 +:+ "BEGIN" +:+
  nl12 +:+ "UPDATE " +:+ quoted table_name +:+
  nl12 +:+ "SET " +:+ COLUMN_HLCS_COLUMN +:+ " = " +:+ json_object +:+
  nl12 +:+ "WHERE " +:+ pk_where_clause primary_key_columns +:+ ";" +:+ newline +:+
  nl12 +:+ "INSERT INTO " +:+ TABLE_CRDT_DIRTY_TABLES +:+ " (table_name, last_modified)" +:+
  nl12 +:+ "VALUES (" +:+ single_quoted table_name +:+ ", datetime('now'))" +:+
  nl12 +:+ "ON CONFLICT (table_name) DO UPDATE SET last_modified = excluded.last_modified;" +:+
  nl12 +:+ "END;".

Definition drop_trigger_sql (name : string) : string :=
  "DROP TRIGGER IF EXISTS " +:+ quoted name +:+ ";".

Definition column_changed (col : string) : string :=
  "NEW." +:+ quoted col +:+ " IS NOT OLD." +:+ quoted col.

Definition generate_update_trigger_sql (table_name : string)
    (cols_to_track primary_key_columns : list string) : string :=
  let pk_where := pk_where_clause primary_key_columns in
  let update_statements := map (fun col =>
    "UPDATE " +:+ quoted table_name +:+
    nl12 +:+ "SET " +:+ COLUMN_HLCS_COLUMN +:+ " = json_set(COALESCE(" +:+ COLUMN_HLCS_COLUMN +:+
    ", '{}'), '$." +:+ col +:+ "', NEW." +:+ quoted HLC_TIMESTAMP_COLUMN +:+ ")" +:+
    nl12 +:+ "WHERE " +:+ pk_where +:+ " AND " +:+ column_changed col +:+ ";") cols_to_track in
  let all_updates := join nl12 update_statements in
  let any_tracked_changed := match cols_to_track with
                             | [] => "0"
                             | _ => join " OR " (map column_changed cols_to_track)
                             end in
  let update_of_clause := match cols_to_track with
                          | [] => "AFTER UPDATE ON " +:+ quoted table_name
                          | _ => "AFTER UPDATE OF " +:+ join ", " (map quoted cols_to_track) +:+
                                 " ON " +:+ quoted table_name
                          end in
  "CREATE TRIGGER IF NOT EXISTS " +:+ quoted (trigger_name UPDATE_TRIGGER_TPL table_name) +:+
  nl12 +:+ update_of_clause +:+
  nl12 +:+ "FOR EACH ROW" +:+
  nl12 +:+ "WHEN NEW." +:+ HLC_TIMESTAMP_COLUMN +:+ " IS NOT NULL" +:+
  nl16 +:+ "AND " +:+ triggers_gate +:+
  nl12 +:+ "BEGIN" +:+
  nl12 +:+ all_updates +:+ newline +:+
  nl12 +:+ "INSERT INTO " +:+ TABLE_CRDT_DIRTY_TABLES +:+ " (table_name, last_modified)" +:+
  nl12 +:+ "SELECT " +:+ single_quoted table_name +:+ ", datetime('now')" +:+
  nl12 +:+ "WHERE (" +:+ any_tracked_changed +:+ ")" +:+
  nl12 +:+ "ON CONFLICT (table_name) DO UPDATE SET last_modified = excluded.last_modified;" +:+
  nl12 +:+ "END;".

Definition delete_trigger_pk_json (name : string) : string :=
  single_quoted name +:+ ", CASE WHEN typeof(OLD." +:+ quoted name +:+ ") = 'blob' " +:+
  "THEN json_object(" +:+ single_quoted BLOB_HEX_TAG +:+ ", lower(hex(OLD." +:+ quoted name +:+ "))) " +:+
  "ELSE OLD." +:+ quoted name +:+ " END".

Definition generate_delete_trigger_sql (table_name : string) (pks : list string) : string :=
  let row_pks_json := join ", " (map delete_trigger_pk_json pks) in
  "CREATE TRIGGER IF NOT EXISTS " +:+ quoted (trigger_name DELETE_TRIGGER_TPL table_name) +:+
  nl12 +:+ "BEFORE DELETE ON " +:+ quoted table_name +:+
  nl12 +:+ "FOR EACH ROW" +:+
  nl12 +:+ "WHEN " +:+ triggers_gate +:+
  nl12 +:+ "BEGIN" +:+
  nl12 +:+ "INSERT INTO " +:+ DELETED_ROWS_TABLE +:+ " (id, table_name, row_pks, " +:+
    HLC_TIMESTAMP_COLUMN +:+ ", " +:+ COLUMN_HLCS_COLUMN +:+ ")" +:+
  nl12 +:+ "VALUES (" +:+ UUID_FUNCTION_NAME +:+ "(), " +:+ single_quoted table_name +:+
    ", json_object(" +:+ row_pks_json +:+ "), " +:+ HLC_FUNCTION_NAME +:+ "(), '{}');" +:+
  nl12 +:+ "INSERT INTO " +:+ TABLE_CRDT_DIRTY_TABLES +:+ " (table_name, last_modified)" +:+
  nl12 +:+ "VALUES (" +:+ single_quoted DELETED_ROWS_TABLE +:+ ", datetime('now'))" +:+
  nl12 +:+ "ON CONFLICT (table_name) DO UPDATE SET last_modified = excluded.last_modified;" +:+
  nl12 +:+ "END;".

(** ** Schema helpers *)

Definition has_column (name : string) (schema : list ColumnInfo) : bool :=
  existsb (fun c => String.eqb (ci_name c) name) schema.
Definition pk_names (schema : list ColumnInfo) : list string :=
  map ci_name (filter (fun c => ci_is_pk c = true) schema).

(** The columns the triggers track: neither a key nor [_no_sync]. *)
Definition cols_to_track (schema : list ColumnInfo) : list string :=
  map ci_name (filter (fun c => negb (ci_is_pk c) && negb (is_no_sync_name (ci_name c)) = true) schema).

Section operations.
Context `{Unicode} {db : Type} `{Rusqlite db}.

Definition invalid_table_name (table_name : string) : SqlError :=
  InvalidParameterName ("Invalid or unsafe table name provided: " +:+ table_name).

Definition get_table_schema (conn : db) (table_name : string) : res SqlError (list ColumnInfo) :=
  if negb (is_safe_identifier table_name) then Err (invalid_table_name table_name)
  else table_info conn table_name.

Definition exec_batch (tx : db) (sql : string) : res SqlError db :=
  r ← execute tx (ExecBatch sql) []; Ok (snd r).

Definition drop_triggers_for_table (tx : db) (table_name : string) : res CrdtSetupError db :=
  if negb (is_safe_identifier table_name)
  then Err (CrdtSetupDatabase (invalid_table_name table_name))
  else
    let drop_insert := drop_trigger_sql (trigger_name INSERT_TRIGGER_TPL table_name) in
    let drop_update := drop_trigger_sql (trigger_name UPDATE_TRIGGER_TPL table_name) in
    let drop_delete := drop_trigger_sql (trigger_name DELETE_TRIGGER_TPL table_name) in
    let sql_batch := drop_insert +:+ newline +:+ drop_update +:+ newline +:+ drop_delete in
    map_err CrdtSetupDatabase (exec_batch tx sql_batch).

Definition first_unsafe (names : list string) : option string :=
  List.find (fun n => negb (is_safe_identifier n)) names.

Definition setup_triggers_for_table (tx : db) (table_name : string) (recreate : bool)
    : res CrdtSetupError (TriggerSetupResult * db) :=
  columns ← map_err CrdtSetupDatabase (get_table_schema tx table_name);
  match columns with
  | [] => Ok (TableNotFound, tx)
  | _ =>
      if negb (has_column HLC_TIMESTAMP_COLUMN columns)
      then Err (HlcColumnMissing table_name HLC_TIMESTAMP_COLUMN)
      else
        match pk_names columns with
        | [] => Err (PrimaryKeyMissing table_name)
        | pks =>
            let tracked := cols_to_track columns in
            match first_unsafe (pks ++ tracked) with
            | Some name => Err (UnsafeIdentifier name)
            | None =>
                tx1 ← (if recreate then drop_triggers_for_table tx table_name else Ok tx);
                tx2 ← map_err CrdtSetupDatabase
                        (exec_batch tx1 (generate_insert_trigger_sql table_name tracked pks));
                tx3 ← map_err CrdtSetupDatabase
                        (exec_batch tx2 (generate_update_trigger_sql table_name tracked pks));
                tx4 ← (if negb (String.eqb table_name DELETED_ROWS_TABLE)
                       then map_err CrdtSetupDatabase
                              (exec_batch tx3 (generate_delete_trigger_sql table_name pks))
                       else Ok tx3);
                Ok (Success, tx4)
            end
        end
  end.

Definition add_column (tx : db) (table_name column decl : string) : res CrdtSetupError db :=
  map_err CrdtSetupDatabase (r ← execute tx (AddColumn table_name column decl) []; Ok (snd r)).

Definition ensure_crdt_columns (tx : db) (table_name : string) : res CrdtSetupError (bool * db) :=
  columns ← map_err CrdtSetupDatabase (get_table_schema tx table_name);
  match columns with
  | [] => Ok (false, tx)
  | _ =>
      let has_hlc := has_column HLC_TIMESTAMP_COLUMN columns in
      let has_column_hlcs := has_column COLUMN_HLCS_COLUMN columns in
      let has_column_sigs := has_column COLUMN_SIGS_COLUMN columns in
      tx1 ← (if has_hlc then Ok tx else add_column tx table_name HLC_TIMESTAMP_COLUMN "TEXT");
      tx2 ← (if has_column_hlcs then Ok tx1
             else add_column tx1 table_name COLUMN_HLCS_COLUMN "TEXT NOT NULL DEFAULT '{}'");
      tx3 ← (if has_column_sigs then Ok tx2
             else add_column tx2 table_name COLUMN_SIGS_COLUMN "TEXT NOT NULL DEFAULT '{}'");
      Ok (negb has_hlc || negb has_column_hlcs || negb has_column_sigs, tx3)
  end.

(** The triggers a table must have: the delete log has no DELETE trigger. *)
Definition required_triggers (table_name : string) : list string :=
  if String.eqb table_name DELETED_ROWS_TABLE
  then [INSERT_TRIGGER_TPL; UPDATE_TRIGGER_TPL]
  else [INSERT_TRIGGER_TPL; UPDATE_TRIGGER_TPL; DELETE_TRIGGER_TPL].

Definition trigger_exists (tx : db) (name : string) : bool :=
  match query_row tx TriggerExists [SText name] ≫= (fun row => get_int row 0) with
  | Ok n => negb (n =? 0)
  | _ => false
  end.

Definition ensure_crdt_columns_and_triggers (tx : db) (table_name : string)
    : res CrdtSetupError ((bool * bool) * db) :=
  r ← ensure_crdt_columns tx table_name;
  let '(columns_added, tx1) := r in
  let has_all_triggers :=
    forallb (fun template => trigger_exists tx1 (trigger_name template table_name))
      (required_triggers table_name) in
  if negb has_all_triggers then
    r2 ← setup_triggers_for_table tx1 table_name false;
    let '(outcome, tx2) := r2 in
    Ok ((columns_added, match outcome with Success => true | TableNotFound => false end), tx2)
  else Ok ((columns_added, false), tx1).
End operations.

(** ** Trigger names *)

Lemma trigger_name_shapes t :
  trigger_name INSERT_TRIGGER_TPL t = "z_dirty_" +:+ t +:+ "_insert" /\
  trigger_name UPDATE_TRIGGER_TPL t = "z_dirty_" +:+ t +:+ "_update" /\
  trigger_name DELETE_TRIGGER_TPL t = "z_dirty_" +:+ t +:+ "_delete".
Proof. split; [|split]; reflexivity. Qed.

Lemma append_inj_r (a b s s' : string) :
  String.length s = String.length s' -> a +:+ s = b +:+ s' -> a = b /\ s = s'.
Proof.
  intros Hl. revert b; induction a as [|x a IH]; intros [|y b]; rewrite ?append_cons, ?append_empty.
  - done.
  - intros ->. cbn in Hl. rewrite append_length in Hl. lia.
  - intros <-. cbn in Hl. rewrite append_length in Hl. lia.
  - intros [= -> [-> ->]%IH]. done.
Qed.

(** ** Properties *)

(** A trigger belongs to one table and one event: two trigger names are
    equal only when both the template and the table are. *)
Theorem trigger_names_unique k k' t t' :
  In k [INSERT_TRIGGER_TPL; UPDATE_TRIGGER_TPL; DELETE_TRIGGER_TPL] ->
  In k' [INSERT_TRIGGER_TPL; UPDATE_TRIGGER_TPL; DELETE_TRIGGER_TPL] ->
  trigger_name k t = trigger_name k' t' -> k = k' /\ t = t'.
Proof.
  destruct (trigger_name_shapes t) as (Hi & Hu & Hd), (trigger_name_shapes t') as (Hi' & Hu' & Hd').
  assert (forall s s', String.length s = String.length s' ->
            "z_dirty_" +:+ t +:+ s = "z_dirty_" +:+ t' +:+ s' -> t = t' /\ s = s') as Hn.
  { intros s s' Hl He. rewrite !append_cons in He. rewrite !append_empty in He.
    apply append_inj_r; [done|]. congruence. }
  intros Hk Hk' He.
  repeat destruct Hk as [<-|Hk]; repeat destruct Hk' as [<-|Hk']; try done;
    rewrite ?Hi, ?Hu, ?Hd, ?Hi', ?Hu', ?Hd' in He; apply Hn in He as [-> He]; try done.
Qed.

Lemma trigger_names_unique_witness :
  In INSERT_TRIGGER_TPL [INSERT_TRIGGER_TPL; UPDATE_TRIGGER_TPL; DELETE_TRIGGER_TPL] /\
  "notes" = "notes".
Proof.
  split; [by left|].
  exact (proj2 (trigger_names_unique INSERT_TRIGGER_TPL INSERT_TRIGGER_TPL "notes" "notes"
    (or_introl eq_refl) (or_introl eq_refl) eq_refl)).
Defined.

Lemma first_unsafe_None `{Unicode} names :
  first_unsafe names = None -> forall n, In n names -> is_safe_identifier n = true.
Proof.
  unfold first_unsafe. intros Hf n Hn. apply find_none with (x := n) in Hf; [|done].
  by destruct (is_safe_identifier n).
Qed.

Lemma cols_to_track_In schema name :
  In name (cols_to_track schema) <->
  exists c, In c schema /\ ci_name c = name /\ ci_is_pk c = false /\ is_no_sync_name name = false.
Proof.
  unfold cols_to_track. rewrite in_map_iff. split; intros (c & H1 & H2); exists c.
  - apply list_elem_of_In, list_elem_of_filter in H2 as [Hf Hin%list_elem_of_In]. rewrite <- H1.
    apply andb_true_iff in Hf as [Hp%negb_true_iff Hn%negb_true_iff]. done.
  - destruct H2 as (<- & Hp & Hn). split; [done|]. apply list_elem_of_In, list_elem_of_filter.
    split; [by rewrite Hp, Hn|by apply list_elem_of_In].
Qed.

(** C38: triggers are only created from names that cannot break out of their
    quotes, and track exactly the columns meant to sync: a successful installation
    ran the INSERT and UPDATE trigger texts, and the DELETE text except on the delete
    log, over a table with an HLC column and a key, whose name, keys and tracked
    columns contain no quote, separator, blank or NUL; a column is tracked exactly
    when it is neither a key nor [_no_sync]. *)
Theorem setup_triggers_installs `{Unicode} {db} `{Rusqlite db} (tx : db) t recreate tx' :
  setup_triggers_for_table tx t recreate = Ok (Success, tx') ->
  exists columns tx1 tx2 tx3,
    table_info tx t = Ok columns /\ has_column HLC_TIMESTAMP_COLUMN columns = true /\
    pk_names columns <> [] /\
    (if recreate then drop_triggers_for_table tx t = Ok tx1 else tx1 = tx) /\
    exec_batch tx1 (generate_insert_trigger_sql t (cols_to_track columns) (pk_names columns)) = Ok tx2 /\
    exec_batch tx2 (generate_update_trigger_sql t (cols_to_track columns) (pk_names columns)) = Ok tx3 /\
    (if String.eqb t DELETED_ROWS_TABLE then tx' = tx3
     else exec_batch tx3 (generate_delete_trigger_sql t (pk_names columns)) = Ok tx') /\
    (forall n c, In n (t :: pk_names columns ++ cols_to_track columns) ->
       In c [ascii_of_nat 34; "'"%char; ";"%char; " "%char; "/"%char; "("%char; ascii_of_nat 0] ->
       contains_char c n = false) /\
    (forall name, In name (cols_to_track columns) <->
       exists c, In c columns /\ ci_name c = name /\ ci_is_pk c = false /\ is_no_sync_name name = false).
Proof.
  unfold setup_triggers_for_table. intros Hs. apply bind_Ok in Hs as (columns & Hg & Hs).
  apply map_err_Ok in Hg. unfold get_table_schema in Hg.
  destruct (is_safe_identifier t) eqn:Ht; [cbn [negb] in Hg|done].
  destruct columns as [|c0 cs] eqn:Hc; [done|]. rewrite <- Hc in *.
  destruct (has_column HLC_TIMESTAMP_COLUMN columns) eqn:Hh; [cbn [negb] in Hs|done].
  destruct (pk_names columns) as [|p0 ps] eqn:Hp; [done|]. rewrite <- Hp in *.
  destruct (first_unsafe _) eqn:Hf; [done|].
  apply bind_Ok in Hs as (tx1 & H1 & Hs). apply bind_Ok in Hs as (tx2 & H2%map_err_Ok & Hs).
  apply bind_Ok in Hs as (tx3 & H3%map_err_Ok & Hs). apply bind_Ok in Hs as (tx4 & H4 & [= <-]).
  exists columns, tx1, tx2, tx3. split; [done|]. split; [done|]. split; [by rewrite Hp|].
  split; [by destruct recreate; [|injection H1]|]. split; [done|]. split; [done|]. split.
  { destruct (String.eqb t DELETED_ROWS_TABLE); cbn [negb] in H4; [by injection H4|by apply map_err_Ok in H4]. }
  split.
  - intros n c Hn Hc'. apply safe_identifier_no_quote; [|done].
    destruct Hn as [<-|Hn]; [done|]. by apply (first_unsafe_None _ Hf).
  - apply cols_to_track_In.
Qed.

Lemma setup_triggers_installs_witness :
  setup_triggers_for_table (mini_mem []) "items" true = Ok (Success, mini_mem []) /\
  exists columns, table_info (mini_mem []) "items" = Ok columns.
Proof.
  assert (setup_triggers_for_table (mini_mem []) "items" true = Ok (Success, mini_mem [])) as E
    by (vm_compute; reflexivity).
  split; [exact E|]. apply setup_triggers_installs in E as (columns & _ & _ & _ & Hc & _).
  exists columns. exact Hc.
Defined.

(** What ALTER TABLE ADD COLUMN does to the schema it is read back from. *)
Class SchemaLaws db `{Rusqlite db} : Prop := {
  add_column_schema : forall (c : db) t col decl ps n c' schema,
    execute c (AddColumn t col decl) ps = Ok (n, c') -> table_info c t = Ok schema -> schema <> [] ->
    exists ty, table_info c' t = Ok (schema ++ [mkColumn col ty false]);
}.

#[export] Instance mini_schema_laws : SchemaLaws Mem.
Proof.
  split. intros c t col decl ps n c' schema Hex Hti Hne. cbn in *. unfold mem_table in Hex.
  destruct (m_tables c !! t) as [mt|]; cbn in Hex; [|done].
  injection Hex as <- <-. injection Hti as <-. exists "TEXT". cbn. by rewrite lookup_insert_eq.
Qed.

Lemma has_column_app name s1 s2 : has_column name (s1 ++ s2) = has_column name s1 || has_column name s2.
Proof. apply existsb_app. Qed.

Lemma cols_to_track_meta schema extra :
  Forall (fun c => is_meta_column (ci_name c) = true /\ ci_is_pk c = false) extra ->
  cols_to_track (schema ++ extra) = cols_to_track schema /\ pk_names (schema ++ extra) = pk_names schema.
Proof.
  intros He. unfold cols_to_track, pk_names. rewrite !filter_app, !map_app.
  assert (filter (fun c => negb (ci_is_pk c) && negb (is_no_sync_name (ci_name c)) = true) extra = [] /\
          filter (fun c => ci_is_pk c = true) extra = []) as [-> ->]; [|by rewrite !app_nil_r].
  induction He as [|c l [Hm Hp] _ [IH1 IH2]]; [done|].
  rewrite !filter_cons. apply meta_column_no_sync in Hm. by rewrite Hm, Hp, andb_false_r.
Qed.

(** One guarded ALTER: afterwards the column is there, and nothing but metadata
    columns was added. *)
Lemma ensure_one_column `{Unicode} {db} `{SchemaLaws db} (tx tx' : db) t name decl schema (has : bool) :
  table_info tx t = Ok schema -> schema <> [] -> is_meta_column name = true ->
  has = has_column name schema ->
  (if has then Ok tx else add_column tx t name decl) = Ok tx' ->
  exists extra, table_info tx' t = Ok (schema ++ extra) /\
    Forall (fun c => is_meta_column (ci_name c) = true /\ ci_is_pk c = false) extra /\
    (forall n, has_column n (schema ++ extra) = has_column n schema || String.eqb name n) /\
    (has = true -> extra = []).
Proof.
  intros Hti Hne Hm -> Ha. destruct (has_column name schema) eqn:Hh.
  - injection Ha as <-. exists []. rewrite app_nil_r. split; [done|]. split; [done|]. split; [|done].
    intros n. destruct (String.eqb_spec name n) as [<-|]; [by rewrite Hh | by rewrite orb_false_r].
  - apply map_err_Ok, bind_Ok in Ha as ([k c'] & Hex & [= <-]).
    destruct (add_column_schema _ _ _ _ _ _ _ _ Hex Hti Hne) as [ty Hty].
    exists [mkColumn name ty false]. split; [done|]. split; [by repeat constructor|]. split; [|done].
    intros n. rewrite has_column_app. cbn. by rewrite orb_false_r.
Qed.

(** [ensure_crdt_columns] completes a table and is idempotent: on a table
    that exists, success means all three metadata columns are there, the keys and
    the tracked columns are what they were, columns were added exactly when it says
    so, and a second run adds nothing. *)
Theorem ensure_crdt_columns_complete `{Unicode} {db} `{SchemaLaws db} (tx : db) t schema added tx' :
  table_info tx t = Ok schema -> schema <> [] ->
  ensure_crdt_columns tx t = Ok (added, tx') ->
  exists schema', table_info tx' t = Ok schema' /\
    (forall n, In n meta_columns -> has_column n schema' = true) /\
    cols_to_track schema' = cols_to_track schema /\ pk_names schema' = pk_names schema /\
    (added = false <-> forall n, In n meta_columns -> has_column n schema = true) /\
    (added = false -> tx' = tx) /\
    ensure_crdt_columns tx' t = Ok (false, tx').
Proof.
  intros Hti Hne He. unfold ensure_crdt_columns in He. apply bind_Ok in He as (s0 & Hg%map_err_Ok & He).
  unfold get_table_schema in Hg. destruct (is_safe_identifier t) eqn:Ht; [cbn [negb] in Hg|done].
  rewrite Hti in Hg. injection Hg as <-. destruct schema as [|c0 cs] eqn:Hsch; [done|]. rewrite <- Hsch in *.
  cbv zeta in He. apply bind_Ok in He as (tx1 & Hx1 & He). apply bind_Ok in He as (tx2 & Hx2 & He).
  apply bind_Ok in He as (tx3 & Hx3 & [= <- <-]).
  destruct (ensure_one_column _ _ _ HLC_TIMESTAMP_COLUMN _ schema _ Hti Hne eq_refl eq_refl Hx1) as (e1 & Ht1 & Hf1 & Hn1 & Ho1).
  destruct (ensure_one_column _ _ _ COLUMN_HLCS_COLUMN _ (schema ++ e1) _ Ht1 ltac:(by subst) eq_refl
    ltac:(by rewrite Hn1, orb_false_r) Hx2) as (e2 & Ht2 & Hf2 & Hn2 & Ho2).
  destruct (ensure_one_column _ _ _ COLUMN_SIGS_COLUMN _ ((schema ++ e1) ++ e2) _ Ht2 ltac:(by subst) eq_refl
    ltac:(by rewrite Hn2, Hn1, !orb_false_r) Hx3) as (e3 & Ht3 & Hf3 & Hn3 & Ho3).
  exists (((schema ++ e1) ++ e2) ++ e3). split; [done|].
  assert (forall n, In n meta_columns -> has_column n (((schema ++ e1) ++ e2) ++ e3) = true) as Hall.
  { intros n Hn. rewrite Hn3, Hn2, Hn1. destruct Hn as [<-|[<-|[<-|[]]]];
      rewrite String.eqb_refl, ?orb_true_r; done. }
  split; [done|]. rewrite <- !app_assoc.
  destruct (cols_to_track_meta schema (e1 ++ e2 ++ e3)) as [Hc Hp]; [by repeat apply Forall_app_2|].
  split; [done|]. split; [done|]. rewrite !orb_false_iff, !negb_false_iff.
  split; [|split].
  - split; [intros [[??]?] n [<-|[<-|[<-|[]]]]; done | intros Hn; repeat split; apply Hn; cbn; auto].
  - intros [[Ha Hb] Hc']. rewrite Ha in Hx1. injection Hx1 as <-. rewrite Hb in Hx2. injection Hx2 as <-.
    rewrite Hc' in Hx3. by injection Hx3.
  - unfold ensure_crdt_columns, get_table_schema. rewrite Ht. cbn [negb]. rewrite Ht3. cbn [map_err mbind res_bind].
    rewrite !Hall by (cbn; auto). destruct (((schema ++ e1) ++ e2) ++ e3) eqn:Hnil; [by subst schema|]. done.
Qed.

(** A table the application has just created. *)
Definition mini_plain : Mem :=
  mkMem {["notes" := mkMemTable [mkColumn "id" "TEXT" true; mkColumn "body" "TEXT" false] []]} ∅ [] true.

Lemma ensure_crdt_columns_complete_witness :
  exists tx', ensure_crdt_columns mini_plain "notes" = Ok (true, tx') /\
    exists schema', table_info tx' "notes" = Ok schema' /\ cols_to_track schema' = ["body"].
Proof.
  destruct (ensure_crdt_columns mini_plain "notes") as [[added tx']|e|m] eqn:E;
    [|exfalso; vm_compute in E; discriminate E..].
  assert (added = true) as -> by (vm_compute in E; congruence).
  exists tx'. split; [reflexivity|].
  apply (ensure_crdt_columns_complete mini_plain "notes"
    [mkColumn "id" "TEXT" true; mkColumn "body" "TEXT" false]) in E as (schema' & Hs & _ & Hc & _).
  - exists schema'. split; [exact Hs|]. rewrite Hc. reflexivity.
  - reflexivity.
  - discriminate.
Defined.
