(* ===== verification/Report.v ===== *)
(** * The apply outcome (src/crdt/apply/report.rs)

    The counters of one [apply_remote_changes] call and the indexed list of
    the changes it skipped. *)

From S2P Require Import Prelude.

Record ApplyReport := mkReport {
  applied : nat;
  skipped_stale : nat;
  skipped_shadowed_by_delete : nat;
  skipped_unknown_table : nat;
  skipped_unknown_column : nat;
  skipped_no_sync_column : nat;
  skipped_reserved_column : nat;
  skipped_delete_target_newer : nat;
  skipped_policy : nat;
  skipped_insert_constraint : nat;
  skipped_superseded_in_batch : nat;
}.
Definition default_report : ApplyReport := mkReport 0 0 0 0 0 0 0 0 0 0 0.

Inductive SkipReason :=
| MissingTable
| MissingCrdtMetadata
| InvalidRowIdentity
| UnknownColumn
| ReservedColumn
| NoSyncColumn
| Stale
| SupersededInBatch
| ShadowedByDelete
| PolicySkip
| InsertNotNull
| InsertUnique
| InsertPrimaryKey.

#[export] Instance SkipReason_eq_dec : EqDecision SkipReason.
Proof. solve_decision. Defined.

Record SkippedChange := mkSkipped { sk_input_index : nat; sk_reason : SkipReason }.

Record ApplyOutcome := mkOutcome { report : ApplyReport; skipped : list SkippedChange }.
Definition default_outcome : ApplyOutcome := mkOutcome default_report [].

(** ** Counter updates: [report.<field> += n] *)

Definition add_applied (n : nat) (r : ApplyReport) : ApplyReport :=
  let '(mkReport a b c d e f g h i j k) := r in mkReport (a + n) b c d e f g h i j k.
Definition add_stale (n : nat) (r : ApplyReport) : ApplyReport :=
  let '(mkReport a b c d e f g h i j k) := r in mkReport a (b + n) c d e f g h i j k.
Definition add_shadowed (n : nat) (r : ApplyReport) : ApplyReport :=
  let '(mkReport a b c d e f g h i j k) := r in mkReport a b (c + n) d e f g h i j k.
Definition add_unknown_table (n : nat) (r : ApplyReport) : ApplyReport :=
  let '(mkReport a b c d e f g h i j k) := r in mkReport a b c (d + n) e f g h i j k.
Definition add_unknown_column (n : nat) (r : ApplyReport) : ApplyReport :=
  let '(mkReport a b c d e f g h i j k) := r in mkReport a b c d (e + n) f g h i j k.
Definition add_no_sync_column (n : nat) (r : ApplyReport) : ApplyReport :=
  let '(mkReport a b c d e f g h i j k) := r in mkReport a b c d e (f + n) g h i j k.
Definition add_reserved_column (n : nat) (r : ApplyReport) : ApplyReport :=
  let '(mkReport a b c d e f g h i j k) := r in mkReport a b c d e f (g + n) h i j k.
Definition add_delete_target_newer (n : nat) (r : ApplyReport) : ApplyReport :=
  let '(mkReport a b c d e f g h i j k) := r in mkReport a b c d e f g (h + n) i j k.
Definition add_policy (n : nat) (r : ApplyReport) : ApplyReport :=
  let '(mkReport a b c d e f g h i j k) := r in mkReport a b c d e f g h (i + n) j k.
Definition add_insert_constraint (n : nat) (r : ApplyReport) : ApplyReport :=
  let '(mkReport a b c d e f g h i j k) := r in mkReport a b c d e f g h i (j + n) k.
Definition add_superseded (n : nat) (r : ApplyReport) : ApplyReport :=
  let '(mkReport a b c d e f g h i j k) := r in mkReport a b c d e f g h i j (k + n).

(** The counter a reason is documented to fold into. *)
Definition counter_of (reason : SkipReason) (r : ApplyReport) : nat :=
  match reason with
  | MissingTable | MissingCrdtMetadata | InvalidRowIdentity => skipped_unknown_table r
  | UnknownColumn => skipped_unknown_column r
  | ReservedColumn => skipped_reserved_column r
  | NoSyncColumn => skipped_no_sync_column r
  | Stale => skipped_stale r
  | SupersededInBatch => skipped_superseded_in_batch r
  | ShadowedByDelete => skipped_shadowed_by_delete r
  | PolicySkip => skipped_policy r
  | InsertNotNull | InsertUnique | InsertPrimaryKey => skipped_insert_constraint r
  end.

(** [skip_all reason idxs outcome] pushes one entry per index. *)
Definition push_skipped (reason : SkipReason) (idxs : list nat) (l : list SkippedChange)
    : list SkippedChange :=
  l ++ map (fun i => mkSkipped i reason) idxs.

(** ** The counters agree with the list *)

(** The counters, keyed by the class of reasons each one counts. *)
Inductive counter :=
| CUnknownTable | CUnknownColumn | CReserved | CNoSync | CStale | CSuperseded | CShadowed | CPolicy
| CConstraint.

#[export] Instance counter_eq_dec : EqDecision counter.
Proof. solve_decision. Defined.

Definition reason_counter (reason : SkipReason) : counter :=
  match reason with
  | MissingTable | MissingCrdtMetadata | InvalidRowIdentity => CUnknownTable
  | UnknownColumn => CUnknownColumn
  | ReservedColumn => CReserved
  | NoSyncColumn => CNoSync
  | Stale => CStale
  | SupersededInBatch => CSuperseded
  | ShadowedByDelete => CShadowed
  | PolicySkip => CPolicy
  | InsertNotNull | InsertUnique | InsertPrimaryKey => CConstraint
  end.

Definition read_counter (c : counter) (r : ApplyReport) : nat :=
  match c with
  | CUnknownTable => skipped_unknown_table r
  | CUnknownColumn => skipped_unknown_column r
  | CReserved => skipped_reserved_column r
  | CNoSync => skipped_no_sync_column r
  | CStale => skipped_stale r
  | CSuperseded => skipped_superseded_in_batch r
  | CShadowed => skipped_shadowed_by_delete r
  | CPolicy => skipped_policy r
  | CConstraint => skipped_insert_constraint r
  end.

Definition count_reason (c : counter) (l : list SkippedChange) : nat :=
  length (filter (fun s => reason_counter (sk_reason s) = c) l).

Definition report_agrees (o : ApplyOutcome) : Prop :=
  forall c, read_counter c (report o) = count_reason c (skipped o).

Lemma count_reason_app c l1 l2 : count_reason c (l1 ++ l2) = (count_reason c l1 + count_reason c l2)%nat.
Proof. unfold count_reason. by rewrite filter_app, length_app. Qed.

Lemma count_reason_push c reason idxs :
  count_reason c (map (fun i => mkSkipped i reason) idxs) =
    if decide (reason_counter reason = c) then length idxs else 0%nat.
Proof.
  unfold count_reason. induction idxs as [|i idxs IH]; cbn [map].
  - by destruct (decide _).
  - rewrite filter_cons. cbn [sk_reason]. destruct (decide (reason_counter reason = c)); cbn; by rewrite IH.
Qed.

Lemma count_reason_one c reason i :
  count_reason c [mkSkipped i reason] = if decide (reason_counter reason = c) then 1%nat else 0%nat.
Proof. exact (count_reason_push c reason [i]). Qed.

Lemma counter_of_spec reason r : counter_of reason r = read_counter (reason_counter reason) r.
Proof. by destruct reason. Qed.

Lemma default_outcome_agrees : report_agrees default_outcome.
Proof. by intros []. Qed.
#[export] Hint Resolve default_outcome_agrees : haex.

(** ** Counter updates, read back *)

Definition counts (k : counter) (f : nat -> ApplyReport -> ApplyReport) : Prop :=
  forall n r c, read_counter c (f n r) = (read_counter c r + if decide (k = c) then n else 0)%nat /\
    applied (f n r) = applied r /\ skipped_delete_target_newer (f n r) = skipped_delete_target_newer r.

Ltac solve_counts :=
  intros n [] c; split; [|done]; case_decide; [subst c; cbn; lia|]; destruct c; cbn; try congruence; lia.
Lemma add_stale_counts : counts CStale add_stale. Proof. solve_counts. Qed.
Lemma add_shadowed_counts : counts CShadowed add_shadowed. Proof. solve_counts. Qed.
Lemma add_unknown_table_counts : counts CUnknownTable add_unknown_table. Proof. solve_counts. Qed.
Lemma add_unknown_column_counts : counts CUnknownColumn add_unknown_column. Proof. solve_counts. Qed.
Lemma add_no_sync_counts : counts CNoSync add_no_sync_column. Proof. solve_counts. Qed.
Lemma add_reserved_counts : counts CReserved add_reserved_column. Proof. solve_counts. Qed.
Lemma add_policy_counts : counts CPolicy add_policy. Proof. solve_counts. Qed.
Lemma add_constraint_counts : counts CConstraint add_insert_constraint. Proof. solve_counts. Qed.
Lemma add_superseded_counts : counts CSuperseded add_superseded. Proof. solve_counts. Qed.
#[export] Hint Resolve add_stale_counts add_shadowed_counts add_unknown_table_counts
  add_unknown_column_counts add_no_sync_counts add_reserved_counts add_policy_counts
  add_constraint_counts add_superseded_counts : haex.
