(* ===== verification/Errors.v ===== *)
(** * Error types (src/db/error.rs, src/error.rs)

    The variants the modelled code raises and tests; a [source] that comes
    from a library is its message. What they say is in ErrorText. *)

From S2P Require Import Prelude Sql Hlc Trigger Report.

Inductive DatabaseError :=
| ParseError (sql source : string)
| EmptyStatement (sql : string)
| StatementError (reason : string)
| DbSqlite (e : SqlError)
| SqliteStep (step : string) (e : SqlError)
| ExecutionError (sql : string) (table : option string) (e : SqlError)
| InvalidTable (table reason : string)
| UnsupportedStatement (reason sql : string)
| DbHlc (e : HlcError)
| InvalidHlc (reason : string)
| ConnectionError (reason : string)
| SerializationError (context source : string)
| MutexPoisoned (reason : string)
| ConnectionFailed (path : string) (e : SqlError)
| PragmaFailed (pragma : string) (e : SqlError)
| PragmaError (pragma reason : string)
| IoError (path source : string)
| CrdtSetup (e : CrdtSetupError)
| VaultAlreadyOpenElsewhere (path source : string)
| ValidationError (reason : string)
| TransactionTooLarge (bytes limit : Z)
| CrdtMetaColumnWriteForbidden (column : string)
| MultipleStatements (sql : string)
| SqlGuardDenied (sql : string) (e : SqlError)
| SqlGuardInterrupted (sql : string)
| ValueTooLarge (sql : string)
| TransactionAborted (reason : string)
| ForeignKeyCheckFailed (tables : list string).

(** [DatabaseError::sqlite_error]. *)
Definition db_sqlite_error (e : DatabaseError) : option SqlError :=
  match e with
  | DbSqlite source | SqliteStep _ source | ExecutionError _ _ source
  | SqlGuardDenied _ source | ConnectionFailed _ source | PragmaFailed _ source
  | DbHlc (HlcDatabase source) | CrdtSetup (CrdtSetupDatabase source) => Some source
  | _ => None
  end.

Inductive MigrationJournal := CrateOwned | ConsumerOwned.

(** [crate::Error]. *)
Inductive Error :=
| Sqlite (e : SqlError)
| Io (msg : string)
| HlcErr (msg : string)
| SignatureVerificationFailed (first_failed_change : nat)
| UnexpectedSignatureUnderNoop
| RemoteHlcDriftTooLarge (hlc : string) (drift limit : Z)
| MigrationMissingFromSource (journal : MigrationJournal) (name : string)
| MigrationContentDrift (name expected found : string)
| MigrationCompatibility (reason : string)
| CrdtAlreadyInstalled (table : string)
| PostCommitClockAdvance (outcome : ApplyOutcome) (source : HlcError)
| Database (e : DatabaseError)
| Consumer (msg : string).

(** [Error::sqlite_error]. *)
Definition sqlite_error (e : Error) : option SqlError :=
  match e with
  | Sqlite source => Some source
  | Database err => db_sqlite_error err
  | _ => None
  end.

(** [?] on a [DatabaseError] or a [rusqlite::Error] in a function that
    returns [crate::Result]. *)
Definition from_db {A} (r : res DatabaseError A) : res Error A := map_err Database r.
Definition from_sql {A} (r : res SqlError A) : res Error A := map_err Sqlite r.
Definition db_from_sql {A} (r : res SqlError A) : res DatabaseError A := map_err DbSqlite r.
