(* ===== verification/Lock.v ===== *)
(** * The database file lock (src/db/lock.rs)

    Path normalization and the advisory lock. The file system is a parameter
    with a state of its own; paths are Rust's [std::path::Path] by
    components. *)

From S2P Require Import Prelude Names Sql Hlc Trigger Report Errors.

(** ** Paths *)

(** Components after normalization by [Path::components]; [.] can only come
    first. *)
Record Path := mkPath { is_absolute : bool; components : list string }.

#[export] Instance Path_eq_dec : EqDecision Path.
Proof. solve_decision. Defined.

Definition parent (p : Path) : option Path :=
  match components p with
  | [] => None
  | _ => Some (mkPath (is_absolute p) (removelast (components p)))
  end.
Definition file_name (p : Path) : option string :=
  match last (components p) with
  | Some c => if String.eqb c ".." || String.eqb c "." then None else Some c
  | None => None
  end.
Definition is_empty_path (p : Path) : bool :=
  negb (is_absolute p) && match components p with [] => true | _ => false end.
Definition path_join (p q : Path) : Path :=
  if is_absolute q then q else mkPath (is_absolute p) (components p ++ components q).
Definition path_push_name (p : Path) (name : string) : Path :=
  mkPath (is_absolute p) (components p ++ [name]).
Definition set_file_name (p : Path) (name : string) : Path :=
  match file_name p with
  | Some _ => mkPath (is_absolute p) (removelast (components p) ++ [name])
  | None => path_push_name p name
  end.
Definition display (p : Path) : string :=
  (if is_absolute p then "/" else EmptyString) +:+ join "/" (components p).
Definition cur_dir : Path := mkPath false ["."].

(** ** The file system *)

Record IoErr := mkIoErr { raw_os_error : option Z; io_kind : string }.

Class FileSystem := {
  fs : Type;
  handle : Type;
  canonicalize : fs -> Path -> res IoErr Path;
  read_link : fs -> Path -> res IoErr Path;
  create_dir_all : fs -> Path -> res IoErr fs;
  open_lock_file : fs -> Path -> res IoErr (handle * fs);
  try_lock_exclusive : fs -> handle -> res IoErr fs;
  unlock : fs -> handle -> fs;
  lock_contended_error : IoErr;
}.

Inductive DatabaseLockError :=
| AlreadyHeld (path : string) (source : IoErr)
| LockIo (path : string) (source : IoErr).

Definition LOCK_SUFFIX := ".lock".

Definition lock_path_for (database_path : Path) : Path :=
  set_file_name database_path (default EmptyString (file_name database_path) +:+ LOCK_SUFFIX).

Definition invalid_input (msg : string) : IoErr := mkIoErr None ("InvalidInput: " +:+ msg).

Section lock.
Context `{FileSystem}.

Definition lock_io {A} (path : Path) (r : res IoErr A) : res DatabaseLockError A :=
  map_err (LockIo (display path)) r.

(** [normalize_database_path_inner]; [None] is running out of fuel, one unit
    for each link followed. *)
Fixpoint normalize_database_path_inner (fuel : nat) (f : fs) (database_path : Path)
    (visited : list Path) : option (res DatabaseLockError Path) :=
  match fuel with
  | O => None
  | S fuel' =>
      match canonicalize f database_path with
      | Ok canonical => Some (Ok canonical)
      | Panic m => Some (Panic m)
      | Err _ =>
          match parent database_path, file_name database_path with
          | None, _ => Some (Err (LockIo (display database_path)
                                    (invalid_input "database path has no parent directory")))
          | _, None => Some (Err (LockIo (display database_path)
                                    (invalid_input "database path has no file name")))
          | Some par, Some name =>
              let parent_for_canon := if is_empty_path par then cur_dir else par in
              match lock_io parent_for_canon (canonicalize f parent_for_canon) with
              | Err e => Some (Err e)
              | Panic m => Some (Panic m)
              | Ok parent_canonical =>
                  let normalized := path_push_name parent_canonical name in
                  if bool_decide (normalized ∈ visited)
                  then Some (Err (LockIo (display database_path) (invalid_input "symbolic link loop")))
                  else
                    match read_link f database_path with
                    | Ok target =>
                        normalize_database_path_inner fuel' f (path_join parent_canonical target)
                          (visited ++ [normalized])
                    | Err _ => Some (Ok normalized)
                    | Panic m => Some (Panic m)
                    end
              end
          end
      end
  end.

Definition classify_try_lock_error (lock_path : Path) (source : IoErr) : DatabaseLockError :=
  let contended := lock_contended_error in
  let is_contended :=
    match raw_os_error source, raw_os_error contended with
    | Some actual, Some expected => actual =? expected
    | _, _ => String.eqb (io_kind source) (io_kind contended)
    end in
  if is_contended then AlreadyHeld (display lock_path) source else LockIo (display lock_path) source.

Record DatabaseLock := mkLock { lk_handle : handle; lock_path : Path; database_path : Path }.

(** [try_acquire] from the normalized path on. *)
Definition acquire_normalized (f : fs) (normalized : Path) : res DatabaseLockError DatabaseLock * fs :=
  let lp := lock_path_for normalized in
  match (match parent lp with
         | Some par => lock_io par (create_dir_all f par)
         | None => Ok f
         end) with
  | Err e => (Err e, f)
  | Panic m => (Panic m, f)
  | Ok f1 =>
      match lock_io lp (open_lock_file f1 lp) with
      | Err e => (Err e, f1)
      | Panic m => (Panic m, f1)
      | Ok (h, f2) =>
          match try_lock_exclusive f2 h with
          | Ok f3 => (Ok (mkLock h lp normalized), f3)
          | Err source => (Err (classify_try_lock_error lp source), f2)
          | Panic m => (Panic m, f2)
          end
      end
  end.

Definition try_acquire (fuel : nat) (f : fs) (p : Path) : option (res DatabaseLockError DatabaseLock * fs) :=
  match normalize_database_path_inner fuel f p [] with
  | None => None
  | Some (Err e) => Some (Err e, f)
  | Some (Panic m) => Some (Panic m, f)
  | Some (Ok normalized) => Some (acquire_normalized f normalized)
  end.

Definition matches (fuel : nat) (f : fs) (lk : DatabaseLock) (p : Path) : option bool :=
  match normalize_database_path_inner fuel f p [] with
  | None => None
  | Some (Ok normalized) => Some (bool_decide (database_path lk = normalized))
  | Some _ => Some false
  end.

(** [Drop]: the lock file stays. *)
Definition drop_lock (f : fs) (lk : DatabaseLock) : fs := unlock f (lk_handle lk).

(** [map_lock_error] (src/database/mod.rs). *)
Definition map_lock_error (err : DatabaseLockError) : Error :=
  match err with
  | AlreadyHeld path source => Database (VaultAlreadyOpenElsewhere path (io_kind source))
  | LockIo path source => Database (IoError path (io_kind source))
  end.

(** What is relied on: finitely many symbolic links, each known by its
    canonical place; a lock file is held by one handle at a time, contention has
    its own error, and creating directories or opening a file takes no lock. *)
Class FsLaws := {
  links : fs -> list Path;
  read_link_is_link : forall f p par name pc target,
    parent p = Some par -> file_name p = Some name ->
    canonicalize f (if is_empty_path par then cur_dir else par) = Ok pc ->
    read_link f p = Ok target -> path_push_name pc name ∈ links f;
  held : fs -> Path -> bool;
  handle_path : handle -> Path;
  dirs_take_no_lock : forall f p f', create_dir_all f p = Ok f' -> forall q, held f' q = held f q;
  open_takes_no_lock : forall f p h f', open_lock_file f p = Ok (h, f') ->
    handle_path h = p /\ forall q, held f' q = held f q;
  locked : forall f h f', try_lock_exclusive f h = Ok f' ->
    held f (handle_path h) = false /\
    forall q, held f' q = (bool_decide (q = handle_path h) || held f q);
  contended : forall f h, held f (handle_path h) = true ->
    try_lock_exclusive f h = Err lock_contended_error;
  unlocked : forall f h q, held (unlock f h) q = (negb (bool_decide (q = handle_path h)) && held f q);
}.

Lemma classify_contended lp :
  classify_try_lock_error lp lock_contended_error = AlreadyHeld (display lp) lock_contended_error.
Proof.
  unfold classify_try_lock_error. destruct (raw_os_error lock_contended_error); [by rewrite Z.eqb_refl|].
  by rewrite String.eqb_refl.
Qed.

Lemma normalize_fuel `{!FsLaws} fuel f p visited :
  NoDup visited -> visited ⊆ links f -> (length (links f) < fuel + length visited)%nat ->
  exists r, forall k, normalize_database_path_inner (fuel + k) f p visited = Some r.
Proof.
  revert p visited; induction fuel as [|fuel IH]; intros p visited Hnd Hsub Hlen.
  { pose proof (submseteq_length _ _ (NoDup_submseteq _ _ Hnd Hsub)). lia. }
  cbn [Nat.add normalize_database_path_inner].
  destruct (canonicalize f p) as [c| |]; [by eexists| |by eexists].
  destruct (parent p) as [par|] eqn:Hpar; [|by eexists]. destruct (file_name p) as [name|] eqn:Hname; [|by eexists].
  destruct (canonicalize f (if is_empty_path par then cur_dir else par)) as [pc| |] eqn:Hpc; cbn; [|by eexists..].
  case_bool_decide as Hvis; [by eexists|]. destruct (read_link f p) as [target| |] eqn:Hl; [|by eexists..].
  pose proof (read_link_is_link _ _ _ _ _ _ Hpar Hname Hpc Hl) as Hin.
  apply IH.
  - apply NoDup_app. split; [done|]. split; [|apply NoDup_singleton].
    intros x Hx ->%list_elem_of_singleton. done.
  - intros x [Hx|Hx%list_elem_of_singleton]%elem_of_app; [by apply Hsub | by subst].
  - rewrite length_app. cbn. lia.
Qed.
End lock.

(** ** Properties *)

(** C37: normalizing a path terminates on every file system: following dangling
    aliases never takes more steps than there are symbolic links, so that much fuel
    always gives an answer, and more fuel the same one. *)
Theorem normalize_terminates `{FileSystem} `{!FsLaws} f p fuel :
  (length (links f) < fuel)%nat ->
  exists r, forall k, normalize_database_path_inner (fuel + k) f p [] = Some r.
Proof.
  intros Hf. apply normalize_fuel; [constructor | by intros x ?%elem_of_nil | cbn; lia].
Qed.

(** C36: a database has one owner at a time, whatever it is called: an acquired
    lock holds the lock file of the normalized path; while it is held no other
    acquisition of a path with the same normal form succeeds, and one that reaches
    the lock file says the database is open elsewhere; once dropped the lock file
    is free, and the other locks are untouched. *)
Theorem lock_excludes_aliases `{FileSystem} `{!FsLaws} fuel f p lk f1 :
  try_acquire fuel f p = Some (Ok lk, f1) ->
  held f1 (lock_path lk) = true /\ lock_path lk = lock_path_for (database_path lk) /\
  normalize_database_path_inner fuel f p [] = Some (Ok (database_path lk)) /\
  (forall fuel2 f2 q, held f2 (lock_path lk) = true -> matches fuel2 f2 lk q = Some true ->
     exists r f3, try_acquire fuel2 f2 q = Some (r, f3) /\ is_ok r = false /\
       held f3 (lock_path lk) = true /\
       (forall f4 h f5, (match parent (lock_path lk) with Some par => create_dir_all f2 par | None => Ok f2 end) = Ok f4 ->
          open_lock_file f4 (lock_path lk) = Ok (h, f5) ->
          r = Err (AlreadyHeld (display (lock_path lk)) lock_contended_error))) /\
  (forall f2 q, held (drop_lock f2 lk) q = (negb (bool_decide (q = lock_path lk)) && held f2 q)).
Proof.
  unfold try_acquire. destruct (normalize_database_path_inner fuel f p []) as [[n| |]|] eqn:Hn; [|done..].
  intros [= Ha]. unfold acquire_normalized in Ha.
  destruct (match parent (lock_path_for n) with Some par => lock_io par (create_dir_all f par) | None => Ok f end)
    as [fa| |]; [|done..].
  destruct (open_lock_file fa (lock_path_for n)) as [[h fb]| |] eqn:Ho; cbn [lock_io map_err] in Ha; [|done..].
  destruct (try_lock_exclusive fb h) as [fc| |] eqn:Hl; [|done..]. injection Ha as <- <-. cbn [lock_path database_path].
  apply open_takes_no_lock in Ho as [Hh _]. apply locked in Hl as [_ Hheld].
  split; [rewrite Hheld, Hh; by rewrite bool_decide_eq_true_2|]. split; [done|]. split; [done|]. split.
  - intros fuel2 f2 q Hf2 Hm. unfold matches in Hm. cbn [database_path] in Hm.
    destruct (normalize_database_path_inner fuel2 f2 q []) as [[n2| |]|]; [|done..].
    injection Hm as Hm. apply bool_decide_eq_true in Hm as <-.
    destruct (acquire_normalized f2 n) as [r f3] eqn:Ha. exists r, f3. split; [done|].
    unfold acquire_normalized in Ha.
    destruct (parent (lock_path_for n)) as [par|].
    + destruct (create_dir_all f2 par) as [f4| |] eqn:Hd; cbn [lock_io map_err] in Ha;
        [|injection Ha as <- <-; repeat split; done..].
      pose proof (dirs_take_no_lock _ _ _ Hd) as Hh4.
      destruct (open_lock_file f4 (lock_path_for n)) as [[h2 f5]| |] eqn:Ho2; cbn [lock_io map_err] in Ha;
        [|injection Ha as <- <-; split; [done|]; split; [by rewrite Hh4|]; intros ? ? ? [= <-]; congruence..].
      pose proof (open_takes_no_lock _ _ _ _ Ho2) as [Hhp Hh5].
      rewrite contended in Ha by (by rewrite Hhp, Hh5, Hh4). injection Ha as <- <-.
      split; [done|]. split; [by rewrite Hh5, Hh4|]. intros ? ? ? _ _. by rewrite classify_contended.
    + destruct (open_lock_file f2 (lock_path_for n)) as [[h2 f5]| |] eqn:Ho2; cbn [lock_io map_err] in Ha;
        [|injection Ha as <- <-; split; [done|]; split; [done|]; intros ? ? ? [= <-]; congruence..].
      pose proof (open_takes_no_lock _ _ _ _ Ho2) as [Hhp Hh5].
      rewrite contended in Ha by (by rewrite Hhp, Hh5). injection Ha as <- <-.
      split; [done|]. split; [by rewrite Hh5|]. intros ? ? ? _ _. by rewrite classify_contended.
  - intros f2 q. unfold drop_lock. cbn [lk_handle]. by rewrite unlocked, Hh.
Qed.

(** A file system for the witnesses: no database file exists yet, [alias.db] is
    a dangling link to [real.db], and a lock is its path in the held set. *)
Definition mini_real : Path := mkPath true ["d"; "real.db"].
Definition mini_alias : Path := mkPath true ["d"; "alias.db"].
Definition mini_missing : IoErr := mkIoErr (Some 2) "NotFound".

Definition mini_canonicalize (f : list Path) (p : Path) : res IoErr Path :=
  match components p with [c] => Ok p | _ => Err mini_missing end.
Definition mini_read_link (f : list Path) (p : Path) : res IoErr Path :=
  if bool_decide (p = mini_alias) then Ok (mkPath false ["real.db"]) else Err mini_missing.
Definition mini_try_lock (f : list Path) (h : Path) : res IoErr (list Path) :=
  if bool_decide (h ∈ f) then Err (mkIoErr (Some 11) "WouldBlock") else Ok (h :: f).
Definition mini_unlock (f : list Path) (h : Path) : list Path :=
  List.filter (fun q => negb (bool_decide (q = h))) f.

#[export] Instance mini_fs : FileSystem := {|
  fs := list Path;
  handle := Path;
  canonicalize := mini_canonicalize;
  read_link := mini_read_link;
  create_dir_all f p := Ok f;
  open_lock_file f p := Ok (p, f);
  try_lock_exclusive := mini_try_lock;
  unlock := mini_unlock;
  lock_contended_error := mkIoErr (Some 11) "WouldBlock";
|}.

#[export] Instance mini_fs_laws : FsLaws.
Proof.
  refine (@Build_FsLaws mini_fs (fun _ => [mini_alias]) _ (fun f q => bool_decide (q ∈@{list Path} f)) (fun h => h)
    _ _ _ _ _).
  - intros f p par name pc target Hp Hn Hc Hl. cbn in Hl. unfold mini_read_link in Hl. case_bool_decide as Ha; [|done]. subst p.
    injection Hp as <-. injection Hn as <-. cbn in Hc. injection Hc as <-. cbn. by left.
  - by intros f p f' [= <-].
  - by intros f p h f' [= <- <-].
  - intros f h f'. cbn. unfold mini_try_lock. case_bool_decide as Hin; [done|]. intros [= <-]. split; [done|]. intros q.
    destruct (decide (q = h)) as [->|Hne].
    + rewrite (bool_decide_eq_true_2 (h = h)) by done. apply bool_decide_eq_true_2. by left.
    + rewrite (bool_decide_eq_false_2 (q = h)) by done. apply bool_decide_ext. rewrite elem_of_cons. naive_solver.
  - intros f h Hh. cbn in *. unfold mini_try_lock. by rewrite Hh.
  - intros f h q. cbn. unfold mini_unlock. destruct (decide (q = h)) as [->|Hne].
    + rewrite (bool_decide_eq_true_2 (h = h)) by done. apply bool_decide_eq_false_2.
      rewrite list_elem_of_In, filter_In. intros [_ Hn]. by rewrite bool_decide_eq_true_2 in Hn.
    + rewrite (bool_decide_eq_false_2 (q = h)) by done. cbn. apply bool_decide_ext.
      rewrite !list_elem_of_In, filter_In. rewrite bool_decide_eq_false_2 by done. naive_solver.
Defined.

Lemma normalize_terminates_witness :
  (length [mini_alias] < 2)%nat /\
  exists r, forall k, normalize_database_path_inner (2 + k) [] mini_alias [] = Some r.
Proof.
  split; [cbn; lia|]. apply (normalize_terminates (H := mini_fs) [] mini_alias 2). cbn. lia.
Defined.

Lemma lock_excludes_aliases_witness :
  exists lk f1, try_acquire 2 [] mini_real = Some (Ok lk, f1) /\
    exists r f3, try_acquire 2 f1 mini_alias = Some (r, f3) /\ is_ok r = false.
Proof.
  eexists _, _. split; [vm_compute; reflexivity|].
  destruct (lock_excludes_aliases (H := mini_fs) 2 [] mini_real
    (@mkLock mini_fs (mkPath true ["d"; "real.db.lock"]) (mkPath true ["d"; "real.db.lock"]) mini_real)
    [mkPath true ["d"; "real.db.lock"]] ltac:(vm_compute; reflexivity)) as (Hh & _ & _ & Hex & _).
  destruct (Hex 2%nat [mkPath true ["d"; "real.db.lock"]] mini_alias Hh ltac:(vm_compute; reflexivity))
    as (r & f3 & Ha & Hr & _).
  exists r, f3. split; [exact Ha | exact Hr].
Defined.
