(* ===== verification/ErrorText.v ===== *)
(** * What errors say (src/error.rs, src/db/error.rs, crdt/hlc.rs, crdt/trigger/mod.rs, db/lock.rs)

    The [Display] of the error types, which [thiserror] derives from their error
    attributes, with the [Debug] forms of the standard library they use. The text of a foreign error is a parameter. *)

From S2P Require Import Prelude Utf8 Sql Mini Hlc Trigger Report Errors Lock.

(** ** The [Debug] forms of the standard library *)

(** The Unicode tables of [char::escape_debug], above ASCII. *)
Class Printable := {
  unicode_printable : Z -> bool;
  unicode_grapheme_extend : Z -> bool;
}.

Section debug.
Context `{Printable}.

Definition is_printable (c : Z) : bool :=
  if c <? 128 then (32 <=? c) && (c <=? 126)
  else unicode_printable c && negb (unicode_grapheme_extend c).

(** One character of a quoted string. *)
Definition debug_char (c : chunk) : string :=
  let n := chunk_code c in
  if n =? 0 then "\0"
  else if n =? 9 then "\t"
  else if n =? 10 then "\n"
  else if n =? 13 then "\r"
  else if n =? 34 then "\" +:+ String (ascii_of_nat 34) EmptyString
  else if n =? 92 then "\\"
  else if is_printable n then chunk_bytes c
  else "\u{" +:+ print_radix 16 6 n EmptyString +:+ "}".

Definition quote : string := String (ascii_of_nat 34) EmptyString.
Definition debug_str (s : string) : string :=
  quote +:+ foldr (fun c acc => debug_char c +:+ acc) EmptyString (utf8_chunks s) +:+ quote.

Definition debug_option_str (o : option string) : string :=
  match o with None => "None" | Some s => "Some(" +:+ debug_str s +:+ ")" end.

Fixpoint join (sep : string) (l : list string) : string :=
  match l with
  | [] => EmptyString
  | [s] => s
  | s :: rest => s +:+ sep +:+ join sep rest
  end.
Definition debug_strs (l : list string) : string := "[" +:+ join ", " (map debug_str l) +:+ "]".
End debug.

(** The decimals of [frac] in units of ten times [divisor], without trailing zeros:
    the loop of [Duration]'s [fmt_decimal]. *)
Fixpoint fraction_digits (fuel : nat) (frac divisor : Z) : string :=
  match fuel with
  | O => EmptyString
  | S fuel' =>
      if 0 <? frac
      then String (hex_digit (frac / divisor)) (fraction_digits fuel' (frac mod divisor) (divisor / 10))
      else EmptyString
  end.

Definition fmt_decimal (integer frac divisor : Z) (unit : string) : string :=
  let digits := fraction_digits 9 frac divisor in
  (if String.eqb digits EmptyString then print_u64 integer else print_u64 integer +:+ "." +:+ digits) +:+ unit.

(** [Duration], in nanoseconds. *)
Definition debug_duration (ns : Z) : string :=
  let secs := ns / 1000000000 in
  let nanos := ns mod 1000000000 in
  if 0 <? secs then fmt_decimal secs nanos 100000000 "s"
  else if 1000000 <=? nanos then fmt_decimal (nanos / 1000000) (nanos mod 1000000) 100000 "ms"
  else if 1000 <=? nanos then fmt_decimal (nanos / 1000) (nanos mod 1000) 100 "µs"
  else fmt_decimal nanos 0 1 "ns".

Definition debug_journal (j : MigrationJournal) : string :=
  match j with CrateOwned => "CrateOwned" | ConsumerOwned => "ConsumerOwned" end.

(** ** [Display] *)

(** What rusqlite's and the system's errors say. *)
Class ForeignText := {
  sql_error_text : SqlError -> string;
  io_error_text : IoErr -> string;
}.

Section display.
Context `{Printable} `{ForeignText}.

Definition display_hlc_error (e : HlcError) : string :=
  match e with
  | HlcDatabase e => "Database error: " +:+ sql_error_text e
  | HlcParseTimestamp msg => "Failed to parse persisted HLC timestamp: " +:+ msg
  | HlcParse msg => "Failed to parse persisted HLC state: " +:+ msg
  | HlcParseNodeId msg => "Failed to parse HLC Node ID: " +:+ msg
  | RemoteTimestampOutOfTolerance hlc reason =>
      "Remote HLC '" +:+ hlc +:+ "' is outside the local clock's drift tolerance: " +:+ reason
  | HlcMutexPoisoned => "HLC mutex was poisoned"
  | HlcNotInitialized => "HLC service not initialized"
  | HlcDeviceStore msg => "Device store error: " +:+ msg
  | HlcCreateNodeId msg => "Failed to create node ID: " +:+ msg
  | HlcNoConnection => "No database connection available"
  | HlcHexDecode msg => "Hex decode error: " +:+ msg
  | HlcUtf8Error msg => "UTF-8 conversion error: " +:+ msg
  | HlcDeviceIdProvider msg => "Device id provider error: " +:+ msg
  end.

Definition display_setup_error (e : CrdtSetupError) : string :=
  match e with
  | CrdtSetupDatabase e => "database error: " +:+ sql_error_text e
  | HlcColumnMissing table_name column_name =>
      "table '" +:+ table_name +:+ "' is missing the required hlc column '" +:+ column_name +:+ "'"
  | PrimaryKeyMissing table_name => "table '" +:+ table_name +:+ "' has no primary key"
  | UnsafeIdentifier name => "column '" +:+ name +:+ "' is not a safe SQL identifier"
  end.

Definition display_lock_error (e : DatabaseLockError) : string :=
  match e with
  | AlreadyHeld path _ => "database is already open in another instance (lock at '" +:+ path +:+ "')"
  | LockIo path source => "failed to prepare lock file at '" +:+ path +:+ "': " +:+ io_error_text source
  end.

Definition display_db_error (e : DatabaseError) : string :=
  match e with
  | ParseError sql source => "Failed to parse SQL: " +:+ source +:+ " - SQL: " +:+ sql
  | EmptyStatement sql => "No SQL statement found - SQL: " +:+ sql
  | StatementError reason => "Statement Error: " +:+ reason
  | DbSqlite e => "SQLite error: " +:+ sql_error_text e
  | SqliteStep step source => step +:+ ": " +:+ sql_error_text source
  | ExecutionError sql table source =>
      "Execution error on table " +:+ debug_option_str table +:+ ": " +:+ sql_error_text source +:+ " - SQL: " +:+ sql
  | InvalidTable table reason => "Table '" +:+ table +:+ "' is not usable for CRDT: " +:+ reason
  | UnsupportedStatement reason sql => "Unsupported statement. '" +:+ reason +:+ "'. - SQL: " +:+ sql
  | DbHlc e => "HLC error: " +:+ display_hlc_error e
  | InvalidHlc reason => "Invalid HLC: " +:+ reason
  | ConnectionError reason => "Connection error: " +:+ reason
  | SerializationError context source => "Serialization error (" +:+ context +:+ "): " +:+ source
  | MutexPoisoned reason => "Mutex Poisoned error: " +:+ reason
  | ConnectionFailed path source =>
      "Datenbankverbindung fehlgeschlagen für Pfad '" +:+ path +:+ "': " +:+ sql_error_text source
  | PragmaFailed pragma source =>
      "PRAGMA-Befehl '" +:+ pragma +:+ "' konnte nicht gesetzt werden: " +:+ sql_error_text source
  | PragmaError pragma reason => "PRAGMA-Befehl '" +:+ pragma +:+ "' konnte nicht gesetzt werden: " +:+ reason
  | IoError path source => "Datei-I/O-Fehler für Pfad '" +:+ path +:+ "': " +:+ source
  | CrdtSetup e => "CRDT setup failed: " +:+ display_setup_error e
  | VaultAlreadyOpenElsewhere path _ => "Vault at '" +:+ path +:+ "' is already open in another instance"
  | ValidationError reason => "Validation error: " +:+ reason
  | TransactionTooLarge bytes limit =>
      "CRDT transaction too large: " +:+ print_u64 bytes +:+ " bytes exceeds the " +:+ print_u64 limit +:+
      " byte limit; use file storage for large payloads"
  | CrdtMetaColumnWriteForbidden column =>
      "CRDT meta column write is forbidden: '" +:+ column +:+
      "' is managed by the CRDT layer and must not be set by callers"
  | MultipleStatements sql => "Only one SQL statement is allowed - SQL: " +:+ sql
  | SqlGuardDenied sql source => "Statement not authorized: " +:+ sql_error_text source +:+ " - SQL: " +:+ sql
  | SqlGuardInterrupted sql => "Statement interrupted by the progress callback - SQL: " +:+ sql
  | ValueTooLarge sql => "Value or row larger than the length limit - SQL: " +:+ sql
  | TransactionAborted reason => "Transaction aborted: " +:+ reason
  | ForeignKeyCheckFailed tables => "Foreign key check failed in tables " +:+ debug_strs tables
  end.

(** [crate::Error]; the database layer's and the consumer's errors speak for
    themselves. *)
Definition display_error (e : Error) : string :=
  match e with
  | Sqlite e => "sqlite error: " +:+ sql_error_text e
  | Io msg => "i/o error: " +:+ msg
  | HlcErr msg => "uhlc error: " +:+ msg
  | SignatureVerificationFailed i => "signature verification failed at change #" +:+ print_u64 (Z.of_nat i)
  | UnexpectedSignatureUnderNoop => "unexpected non-empty signature under NoopSignatureProvider"
  | RemoteHlcDriftTooLarge hlc drift limit =>
      "remote HLC `" +:+ hlc +:+ "` lies " +:+ debug_duration drift +:+ " beyond local now, past the " +:+
      debug_duration limit +:+ " tolerance; the batch was refused before any write"
  | MigrationMissingFromSource journal name =>
      "migration `" +:+ name +:+ "` missing from " +:+ debug_journal journal +:+ " source"
  | MigrationContentDrift name expected found =>
      "migration `" +:+ name +:+ "` content drifted; expected " +:+ expected +:+ ", found " +:+ found
  | MigrationCompatibility reason => "legacy CRDT schema is incompatible: " +:+ reason
  | CrdtAlreadyInstalled table => "crdt already installed on `" +:+ table +:+ "`"
  | PostCommitClockAdvance _ source =>
      "apply_remote_changes committed but the post-commit clock advance failed: " +:+ display_hlc_error source
  | Database e => display_db_error e
  | Consumer msg => msg
  end.

(** ** Properties *)

(** The text [t] is part of [s]. *)
Definition mentions (t s : string) : Prop := exists before after, s = before +:+ t +:+ after.

Lemma mentions_refl t : mentions t t.
Proof. exists EmptyString, EmptyString. by rewrite append_nil_str. Qed.
Lemma mentions_after t s pre : mentions t s -> mentions t (pre +:+ s).
Proof. intros (b & a & ->). exists (pre +:+ b), a. by rewrite append_assoc_str. Qed.
Lemma mentions_before t s post : mentions t s -> mentions t (s +:+ post).
Proof. intros (b & a & ->). exists b, (a +:+ post). by rewrite !append_assoc_str. Qed.

(** An error that has an SQLite error behind it says what that error says. *)
Theorem sqlite_error_is_told e source :
  sqlite_error e = Some source -> mentions (sql_error_text source) (display_error e).
Proof.
  assert (forall x post, mentions x (x +:+ post)) as Hpost by (intros x post; apply mentions_before, mentions_refl).
  assert (forall x pre, mentions x (pre +:+ x)) as Hpre by (intros x pre; apply mentions_after, mentions_refl).
  destruct e as [e| | | | | | | | | | |e|]; cbn [sqlite_error]; [|done..| |done].
  - intros [= ->]. apply Hpre.
  - destruct e as [| | |e| | | | |he| | | | | | | | |se| | | | | | | | | |]; cbn [db_sqlite_error]; try done;
      [|..|destruct he; try done| | |destruct se; try done|];
      intros [= ->]; cbn [display_error display_db_error display_hlc_error display_setup_error];
      repeat first [apply Hpre | apply Hpost | apply mentions_after].
Qed.
End display.

(** The decimals of a duration lose nothing: read back, they are the fraction. *)
Fixpoint decimals (s : string) (divisor : Z) : Z :=
  match s with
  | EmptyString => 0
  | String c rest => default 0 (to_digit 10 c) * divisor + decimals rest (divisor / 10)
  end.

Lemma fraction_digits_step fuel frac divisor :
  fraction_digits (S fuel) frac divisor =
  if 0 <? frac then String (hex_digit (frac / divisor)) (fraction_digits fuel (frac mod divisor) (divisor / 10)) else EmptyString.
Proof. done. Qed.

Lemma fraction_digits_exact n : forall frac, 0 <= frac < 10 ^ Z.of_nat (S n) ->
  decimals (fraction_digits (S n) frac (10 ^ Z.of_nat n)) (10 ^ Z.of_nat n) = frac.
Proof.
  induction n as [|n IH]; intros frac Hf; rewrite fraction_digits_step;
    (destruct (Z.ltb_spec 0 frac) as [Hp|Hp]; [cbn [decimals]|cbn; lia]).
  - change (10 ^ Z.of_nat 0) with 1 in *. rewrite Z.div_1_r, to_digit_hex_digit by lia. cbn. lia.
  - assert (0 < 10 ^ Z.of_nat n) as Hn by (apply Z.pow_pos_nonneg; lia).
    assert (forall i, 10 ^ Z.of_nat (S i) = 10 * 10 ^ Z.of_nat i) as Hs
      by (intros i; rewrite Nat2Z.inj_succ, Z.pow_succ_r by lia; lia).
    rewrite (Hs (S n)) in Hf. set (d := 10 ^ Z.of_nat (S n)) in *. pose proof (Hs n) as Hd. fold d in Hd.
    assert (0 <= frac / d < 10) as Hq by (split; [apply Z.div_pos; lia|apply Z.div_lt_upper_bound; lia]).
    rewrite to_digit_hex_digit by lia. cbn [default from_option id].
    assert (d / 10 = 10 ^ Z.of_nat n) as -> by (rewrite Hd, Z.mul_comm, Z.div_mul; lia).
    rewrite IH by (apply Z.mod_pos_bound; lia). pose proof (Z.div_mod frac d). unfold id. lia.
Qed.

Lemma debug_duration_examples :
  debug_duration 1500000000 = "1.5s" /\ debug_duration 60000000000 = "60s" /\ debug_duration 2050000 = "2.05ms" /\
  debug_duration 7 = "7ns" /\ debug_duration MAX_REMOTE_HLC_DRIFT = "43200s".
Proof. vm_compute. done. Qed.
