(* ===== verification/Value.v ===== *)
(** * Values between JSON and SQLite (src/db/core/value.rs)

    [json_to_rusqlite_value] and [convert_value_ref_to_json], the hexadecimal
    BLOB tag, and the round trips between them. *)

From S2P Require Import Prelude Utf8 Json Sql Mini Hlc Trigger Report Errors.

(** ** Hexadecimal *)

(** [encode_hex]: lowercase, two digits per byte. *)
Fixpoint encode_hex (bytes : string) : string :=
  match bytes with
  | EmptyString => EmptyString
  | String b bs =>
      String (hex_digit (byte_of b / 16)) (String (hex_digit (byte_of b mod 16)) (encode_hex bs))
  end.

Definition nibble (c : ascii) : option Z :=
  let b := byte_of c in
  if (48 <=? b) && (b <=? 57) then Some (b - 48)
  else if (97 <=? b) && (b <=? 102) then Some (b - 97 + 10)
  else None.

(** [decode_hex]: [None] for an odd length or any character outside
    [0-9a-f], upper case included. *)
Fixpoint decode_hex (s : string) : option string :=
  match s with
  | EmptyString => Some EmptyString
  | String _ EmptyString => None
  | String hi (String lo s') =>
      match nibble hi, nibble lo with
      | Some h, Some l =>
          match decode_hex s' with
          | Some bs => Some (String (ascii_of_N (Z.to_N (Z.lor (Z.shiftl h 4) l))) bs)
          | None => None
          end
      | _, _ => None
      end
  end.

Definition bad_blob_tag : DatabaseError :=
  ValidationError ("'" +:+ BLOB_HEX_TAG +:+ "' must hold an even-length lowercase hex string").

Definition decode_blob_tag (payload : json) : res DatabaseError SqlValue :=
  ok_or (SBlob <$> (as_str payload ≫= decode_hex)) bad_blob_tag.

(** [Number::to_string], reached only for integers. *)
Definition number_to_string (n : number) : string :=
  match n with
  | PosInt u => pretty u
  | NegInt i => pretty i
  | Float _ => EmptyString
  end.

(** ** Conversions *)

Definition number_to_sql (n : number) : SqlValue :=
  match as_i64 n with
  | Some i => SInteger i
  | None =>
      match as_u64 n with
      | Some u => if u <=? i64_max then SInteger u else SText (number_to_string n)
      | None =>
          match n with
          | Float bits => SReal bits
          | _ => SText (number_to_string n)
          end
      end
  end.

Section convert.
Context `{Serde}.

(** [serde_json::to_string] of a [Value] cannot fail, so its error branch
    is not reachable. *)
Definition json_to_rusqlite_value (v : json) : res DatabaseError SqlValue :=
  match v with
  | JNull => Ok SNull
  | JBool b => Ok (SInteger (if b then 1 else 0))
  | JNumber n => Ok (number_to_sql n)
  | JString s => Ok (SText s)
  | JObject [(k, payload)] =>
      if String.eqb k BLOB_HEX_TAG then decode_blob_tag payload
      else Ok (SText (json_to_string v))
  | JArray _ | JObject _ => Ok (SText (json_to_string v))
  end.

Definition convert_params (params : list json) : res DatabaseError (list SqlValue) :=
  try_map json_to_rusqlite_value params.
End convert.

Definition convert_value_ref_to_json (value : SqlValue) : json :=
  match value with
  | SNull => JNull
  | SInteger i => JNumber (number_of_i64 i)
  | SReal f => JNumber (default (number_of_i64 0) (number_of_f64 f))
  | SText t => JString (from_utf8_lossy t)
  | SBlob b => JObject (jinsert BLOB_HEX_TAG (JString (encode_hex b)) [])
  end.
Definition rusqlite_value_to_json (value : SqlValue) : json := convert_value_ref_to_json value.

(** ** Lemmas *)

Lemma hex_digit_nibble d : 0 <= d < 16 -> nibble (hex_digit d) = Some d.
Proof.
  intros Hd. assert (exists n : nat, (n < 16)%nat /\ d = Z.of_nat n) as (n & Hn & ->)
    by (exists (Z.to_nat d); lia).
  do 16 (destruct n as [|n]; [reflexivity|]). lia.
Qed.

Lemma nibble_hex_digit c d : nibble c = Some d -> 0 <= d < 16 /\ c = hex_digit d.
Proof.
  unfold nibble. intros H.
  assert (0 <= d < 16 /\ byte_of c = if d <? 10 then 48 + d else 87 + d) as [Hd Hc].
  { repeat case_match; split_bool; simplify_eq; try lia;
      match goal with H : (_ <? _) = _ |- _ => idtac | _ => idtac end; lia. }
  split; [done|]. apply byte_of_inj. unfold hex_digit. rewrite Hc.
  destruct (d <? 10) eqn:?; rewrite byte_of_ascii_of_N; lia.
Qed.

Lemma lor_nibbles h l : 0 <= h < 16 -> 0 <= l < 16 -> Z.lor (Z.shiftl h 4) l = h * 16 + l.
Proof.
  intros Hh Hl.
  assert (exists n m : nat, (n < 16)%nat /\ (m < 16)%nat /\ h = Z.of_nat n /\ l = Z.of_nat m)
    as (n & m & Hn & Hm & -> & ->) by (exists (Z.to_nat h), (Z.to_nat l); lia).
  clear Hh Hl.
  do 16 (destruct n as [|n]; [do 16 (destruct m as [|m]; [reflexivity|]); lia|]). lia.
Qed.

Lemma decode_encode_hex b : decode_hex (encode_hex b) = Some b.
Proof.
  induction b as [|c b IH]; [done|]. cbn [encode_hex decode_hex].
  pose proof (byte_of_range c) as Hc.
  pose proof (Z.mod_pos_bound (byte_of c) 16 ltac:(lia)) as Hm.
  assert (0 <= byte_of c / 16 < 16) as Hq
    by (split; [apply Z.div_pos; lia | apply Z.div_lt_upper_bound; lia]).
  rewrite !hex_digit_nibble by done. rewrite IH, lor_nibbles by done.
  do 2 f_equal. apply byte_of_inj.
  pose proof (Z.div_mod (byte_of c) 16 ltac:(lia)).
  rewrite byte_of_ascii_of_N; lia.
Qed.

Lemma encode_decode_hex s : forall b, decode_hex s = Some b -> s = encode_hex b.
Proof.
  induction s as [s IH] using str_length_ind. intros b.
  destruct s as [|hi [|lo s]]; cbn [decode_hex]; [by intros [= <-]|done|].
  destruct (nibble hi) as [h|] eqn:Hh; [|done]. destruct (nibble lo) as [l|] eqn:Hl; [|done].
  apply nibble_hex_digit in Hh as [Hh ->]. apply nibble_hex_digit in Hl as [Hl ->].
  destruct (decode_hex s) as [bs|] eqn:Hs; [|done]. intros [= <-].
  apply IH in Hs as ->; [|cbn; lia]. cbn [encode_hex].
  rewrite lor_nibbles by done. rewrite byte_of_ascii_of_N by lia.
  rewrite Z2N.id by lia.
  rewrite Z.div_add_l, (Z.div_small l), Z.add_0_r by lia.
  by rewrite Z.add_comm, Z.mod_add, Z.mod_small by lia.
Qed.

Lemma from_utf8_lossy_valid s : valid_utf8 s = true -> from_utf8_lossy s = s.
Proof.
  unfold valid_utf8, from_utf8_lossy.
  induction s as [s IH] using str_length_ind.
  destruct s as [|a s1]; [done|]. cbn [utf8_chunks]. cbv zeta.
  repeat first
    [ match goal with |- context [match ?x with EmptyString => _ | String _ _ => _ end] =>
        is_var x; destruct x end
    | progress cbv iota
    | match goal with |- context [if ?b then _ else _] =>
        lazymatch type of b with bool => let H := fresh "Hb" in destruct b eqn:H end end ];
  cbn [forallb foldr chunk_bytes andb]; try done; intros Hs;
  unfold str4, str3, str2; cbn [String.append]; rewrite IH; try done; cbn [String.length]; lia.
Qed.

(** What SQLite can store: 64-bit integers, finite reals and valid text. *)
Definition storable (v : SqlValue) : bool :=
  match v with
  | SNull | SBlob _ => true
  | SInteger i => in_i64 i
  | SReal bits => f64_is_finite bits
  | SText s => valid_utf8 s
  end.

Lemma number_of_i64_to_sql i : in_i64 i = true -> number_to_sql (number_of_i64 i) = SInteger i.
Proof.
  unfold in_i64, number_of_i64, number_to_sql. intros Hi. split_bool.
  destruct (i <? 0) eqn:Hn; cbn [as_i64]; [done|].
  by rewrite (proj2 (Z.leb_le i i64_max)) by lia.
Qed.

Section value_properties.
Context `{Serde}.

Lemma json_to_blob b : json_to_rusqlite_value (rusqlite_value_to_json (SBlob b)) = Ok (SBlob b).
Proof.
  cbn -[decode_hex encode_hex]. unfold decode_blob_tag. cbn [as_str mbind option_bind].
  by rewrite decode_encode_hex.
Qed.

Lemma json_to_value_no_panic v : no_panic (json_to_rusqlite_value v).
Proof.
  destruct v as [| | | | |[|[k p] [|]]]; cbn; try done.
  destruct (String.eqb _ _); [|done]. apply no_panic_ok_or.
Qed.

Lemma convert_params_no_panic ps : no_panic (convert_params ps).
Proof. apply no_panic_try_map. intros v _. apply json_to_value_no_panic. Qed.

Lemma convert_round_trip v :
  storable v = true -> json_to_rusqlite_value (convert_value_ref_to_json v) = Ok v.
Proof.
  intros Hv. destruct v as [|i|bits|s|b]; cbn [storable] in Hv.
  - done.
  - cbn. by rewrite number_of_i64_to_sql.
  - cbn. unfold number_of_f64. by rewrite Hv.
  - cbn. by rewrite from_utf8_lossy_valid.
  - apply json_to_blob.
Qed.

(** C34: every value SQLite can store survives the trip through JSON: NULL,
    64-bit integers, finite reals, text and BLOBs come back, as a list of
    parameters, as the same values of the same storage class; in particular two
    different values never share a JSON form. *)
Theorem sql_json_round_trip vs :
  forallb storable vs = true ->
  convert_params (map rusqlite_value_to_json vs) = Ok vs /\
  forall v w, v ∈ vs -> w ∈ vs -> rusqlite_value_to_json v = rusqlite_value_to_json w -> v = w.
Proof.
  intros Hvs. assert (forall v, v ∈ vs -> json_to_rusqlite_value (rusqlite_value_to_json v) = Ok v) as Hrt.
  { intros v Hv%list_elem_of_In. rewrite forallb_forall in Hvs. by apply convert_round_trip, Hvs. }
  split.
  - unfold convert_params. apply try_map_Ok, Forall2_fmap_l, Forall_Forall2_diag, Forall_forall. done.
  - intros v w Hv%Hrt Hw%Hrt Heq. rewrite Heq, Hw in Hv. by injection Hv.
Qed.

(** One BLOB has exactly one JSON spelling, and the tag is the only JSON
    that is refused: a conversion fails exactly for a single-entry object under
    the BLOB tag whose payload is not the lowercase hexadecimal of some bytes. *)
Theorem blob_tag_one_spelling :
  (forall s b, decode_blob_tag (JString s) = Ok (SBlob b) <-> s = encode_hex b) /\
  (forall v, is_ok (json_to_rusqlite_value v) = false <->
     exists payload, v = JObject [(BLOB_HEX_TAG, payload)] /\
       forall b, payload <> JString (encode_hex b)).
Proof.
  assert (forall s b, decode_blob_tag (JString s) = Ok (SBlob b) <-> s = encode_hex b) as Hs.
  { intros s b. unfold decode_blob_tag. cbn. split.
    - destruct (decode_hex s) as [b'|] eqn:Hd; [|done]. intros [= <-]. by apply encode_decode_hex.
    - intros ->. by rewrite decode_encode_hex. }
  split; [exact Hs|]. intros v. split.
  - destruct v as [| | | | |[|[k p] [|]]]; cbn; try done.
    destruct (String.eqb k BLOB_HEX_TAG) eqn:Hk; [|done]. apply String.eqb_eq in Hk as ->.
    intros Hp. exists p. split; [done|]. intros b ->.
    by rewrite (proj2 (Hs (encode_hex b) b) eq_refl) in Hp.
  - intros (p & -> & Hp). cbn. unfold decode_blob_tag.
    destruct p as [| | |s| |]; try done. cbn.
    destruct (decode_hex s) as [b|] eqn:Hd; [|done].
    apply encode_decode_hex in Hd as ->. by specialize (Hp b).
Qed.
End value_properties.

Lemma sql_json_round_trip_witness :
  forallb storable [SBlob "key"; SNull; SText "key"] = true /\
  convert_params (map rusqlite_value_to_json [SBlob "key"; SNull; SText "key"]) = Ok [SBlob "key"; SNull; SText "key"].
Proof.
  split; [reflexivity|]. exact (proj1 (sql_json_round_trip [SBlob "key"; SNull; SText "key"] eq_refl)).
Defined.
