(* ===== verification/Scanner.v ===== *)
(** * The outbound scanner (src/crdt/scanner/mod.rs, emit.rs)

    The change record, the split of a schema into key and data columns, the
    per-row emission, the scan of one table since a cursor, and the packing of
    changes into pages of whole transactions. *)

From S2P Require Import Prelude Utf8 Hashing Names Json Sql Mini Hlc Trigger Report Errors Value.

Record ColumnChange := mkChange {
  table_name : string;
  row_pks : string;
  column_name : string;
  hlc_timestamp : string;
  value : json;
  device_id : string;
  sig : option json;
}.

(** [MAX_CRDT_TRANSACTION_BYTES] and [PULL_PAGE_BUDGET]. *)
Definition MAX_CRDT_TRANSACTION_BYTES : Z := 100 * 1024 * 1024.
Definition PULL_PAGE_BUDGET : Z := MAX_CRDT_TRANSACTION_BYTES.

(** [Paginable]: the transaction HLC of a change and the size of a serialized
    group, [serde_json::to_vec(&group).map(len)]. *)
Class Paginable (T : Type) := {
  transaction_hlc : T -> string;
  serialized_len : list T -> option Z;
}.

(** ** Columns *)

Definition is_data_column (c : ColumnInfo) : bool :=
  negb (ci_is_pk c) && negb (is_no_sync_name (ci_name c)).
Definition partition_columns (schema : list ColumnInfo) : list ColumnInfo * list ColumnInfo :=
  let pk_columns := filter (fun c => ci_is_pk c = true) schema in
  let data_columns := filter (fun c => is_data_column c = true) schema in
  (pk_columns, data_columns).

(** ** Emission *)

Record ScanFilters := mkFilters {
  origin_node : option Z;
  filter_row_pks : option (gset string);
  column_eq : option (string * string);
}.
Definition default_filters : ScanFilters := mkFilters None None None.

Section scanner.
Context `{Unicode} `{Serde}.

(** [row_map.insert(col_name, ...)] for each selected column, in order. *)
Fixpoint read_row (row : list SqlValue) (i : nat) (select_columns : list string)
    (row_map : gmap string json) : res DatabaseError (gmap string json) :=
  match select_columns with
  | [] => Ok row_map
  | col_name :: rest =>
      value_ref ← ok_or (row !! i) (DbSqlite (InvalidColumnIndex i));
      read_row row (S i) rest (<[col_name := convert_value_ref_to_json value_ref]> row_map)
  end.

(** The canonical key JSON, in schema-declaration order. *)
Definition pk_entry (row_map : gmap string json) (pk : ColumnInfo) : string :=
  let val := default JNull (row_map !! ci_name pk) in
  json_to_string (JString (ci_name pk)) +:+ ":" +:+ json_to_string val.
Definition pk_json (row_map : gmap string json) (pk_columns : list ColumnInfo) : string :=
  "{" +:+ join "," (map (pk_entry row_map) pk_columns) +:+ "}".

Definition non_empty (s : string) : option string := if is_empty s then None else Some s.

Definition column_hlcs_of (row_map : gmap string json) : jmap :=
  match row_map !! COLUMN_HLCS_COLUMN with
  | Some (JString s) => default [] (from_str_string_map s)
  | _ => []
  end.
Definition column_sigs_of (row_map : gmap string json) : jmap :=
  match (row_map !! COLUMN_SIGS_COLUMN ≫= as_str) ≫= json_from_str with
  | Some (JObject m) => m
  | _ => []
  end.
Definition row_hlc_of (row_map : gmap string json) : option string :=
  match row_map !! HLC_TIMESTAMP_COLUMN with
  | Some (JString s) => non_empty s
  | _ => None
  end.

(** The HLC a column is judged by: its own, else the row's. *)
Definition hlc_to_use (row_map : gmap string json) (col : string) : option string :=
  match (jget col (column_hlcs_of row_map) ≫= as_str) ≫= non_empty with
  | Some h => Some h
  | None => row_hlc_of row_map
  end.

Definition passes_hlc (after_hlc : option string) (hlc : string) : bool :=
  match after_hlc with Some threshold => hlc_is_newer hlc threshold | None => true end.
Definition passes_origin (origin : option Z) (hlc : string) : bool :=
  match origin with Some our_node => hlc_is_from_node hlc our_node | None => true end.

Definition emit_column (table pk : string) (row_map : gmap string json) (after_hlc : option string)
    (device : string) (origin : option Z) (col : ColumnInfo) : list ColumnChange :=
  match hlc_to_use row_map (ci_name col) with
  | None => []
  | Some h =>
      if passes_hlc after_hlc h && passes_origin origin h then
        [mkChange table pk (ci_name col) h (default JNull (row_map !! ci_name col)) device
           (jget (ci_name col) (column_sigs_of row_map))]
      else []
  end.

Definition emit_row_changes (row : list SqlValue) (select_columns : list string)
    (pk_columns data_columns : list ColumnInfo) (table : string) (after_hlc : option string)
    (device : string) (origin : option Z) (row_pks_filter : option (gset string))
    : res DatabaseError (list ColumnChange) :=
  row_map ← read_row row 0 select_columns ∅;
  let pk := pk_json row_map pk_columns in
  match row_pks_filter with
  | Some wanted =>
      if negb (bool_decide (pk ∈ wanted)) then Ok []
      else Ok (flat_map (emit_column table pk row_map after_hlc device origin) data_columns)
  | None => Ok (flat_map (emit_column table pk row_map after_hlc device origin) data_columns)
  end.

(** ** The scan *)

Section scan.
Context {db : Type} `{Rusqlite db}.

Definition scan_dirty_tables (conn : db) : res DatabaseError (list string) :=
  db_from_sql (rows ← query conn DirtyTables []; try_map (fun row => get_string row 0) rows).

Definition missing_columns (schema : list ColumnInfo) : list string :=
  filter (fun c => has_column c schema = false) [HLC_TIMESTAMP_COLUMN; COLUMN_HLCS_COLUMN].

Definition select_columns_of (schema : list ColumnInfo) : list string :=
  let '(pk_columns, data_columns) := partition_columns schema in
  map ci_name pk_columns ++ map ci_name data_columns ++
  [HLC_TIMESTAMP_COLUMN; COLUMN_HLCS_COLUMN] ++
  (if has_column COLUMN_SIGS_COLUMN schema then [COLUMN_SIGS_COLUMN] else []).

(** The predicates and their bound values, built together. *)
Definition scan_predicates (after_hlc : option string) (column_eq : option (string * string))
    : list scan_pred * list SqlValue :=
  let '(predicates, params) :=
    match after_hlc with Some h => ([AfterHlc 1], [SText h]) | None => ([], []) end in
  match column_eq with
  | Some (filter_column, filter_value) =>
      let params' := params ++ [SText filter_value] in
      (predicates ++ [ColumnEq filter_column (length params')], params')
  | None => (predicates, params)
  end.

Definition unsafe_filter (table filter_column : string) : DatabaseError :=
  ValidationError ("Unsafe filter column name '" +:+ filter_column +:+ "' for table '" +:+ table +:+ "'").

Definition scan_rows (conn : db) (table : string) (schema : list ColumnInfo)
    (after_hlc : option string) (device : string) (filters : ScanFilters)
    : res DatabaseError (list ColumnChange) :=
  let '(pk_columns, data_columns) := partition_columns schema in
  let select_columns := select_columns_of schema in
  let '(predicates, params) := scan_predicates after_hlc (column_eq filters) in
  rows ← db_from_sql (query conn (Scan select_columns table predicates) params);
  changes ← try_map (fun row => emit_row_changes row select_columns pk_columns data_columns table
                       after_hlc device (origin_node filters) (filter_row_pks filters)) rows;
  Ok (concat changes).

Definition scan_table_for_local_changes (conn : db) (table : string) (after_hlc : option string)
    (device : string) (filters : ScanFilters) : res DatabaseError (list ColumnChange) :=
  match column_eq filters with
  | Some (filter_column, _) =>
      if negb (is_safe_identifier filter_column) then Err (unsafe_filter table filter_column)
      else Ok tt
  | None => Ok tt
  end ≫= fun _ =>
  schema ← db_from_sql (get_table_schema conn table);
  match schema with
  | [] => Ok []
  | _ =>
      match fst (partition_columns schema) with
      | [] => Err (InvalidTable table "no primary key")
      | _ =>
          match missing_columns schema with
          | [] =>
              match column_eq filters with
              | Some (filter_column, _) =>
                  if negb (has_column filter_column schema) then Ok []
                  else scan_rows conn table schema after_hlc device filters
              | None => scan_rows conn table schema after_hlc device filters
              end
          | missing =>
              Err (InvalidTable table ("missing required CRDT metadata column(s): " +:+ join ", " missing))
          end
      end
  end.
End scan.
End scanner.

(** ** Pagination *)

Section paginate.
Context {T : Type} `{Paginable T} `{HashOrder}.

Definition ordered_groups (site : nat) (hlc_of : T -> string) (items : list T)
    : list (string * list T) :=
  sort_by (fun a b => compare_hlc_strings (fst a) (fst b))
    (hash_order site (group_entries hlc_of items)).

Definition group_size (group : list T) : Z := default usize_max (serialized_len group).

Fixpoint pack_groups (page_budget : Z) (first : bool) (page : list T) (running : Z)
    (groups : list (string * list T)) : list T * bool :=
  match groups with
  | [] => (page, false)
  | (_, group) :: rest =>
      let fits := saturating_add running (group_size group) <=? page_budget in
      if fits || first
      then pack_groups page_budget false (page ++ group)
             (saturating_add running (group_size group)) rest
      else (page, true)
  end.

Definition paginate_changes (changes : list T) (page_budget : Z) : list T * bool :=
  match changes with
  | [] => ([], false)
  | _ => pack_groups page_budget true [] 0 (ordered_groups 0 transaction_hlc changes)
  end.
End paginate.

(** ** Lemmas *)

Section ordered_groups_lemmas.
Context {T : Type} {ho : HashOrder} (site : nat) (hlc_of : T -> string) (items : list T).

Definition key_cmp (a b : string * list T) : comparison := compare_hlc_strings (fst a) (fst b).

#[local] Instance key_cmp_total : TotalCmp key_cmp.
Proof. split; intros *; [apply (cmp_flip (TotalCmp := hlc_total_cmp)) | apply (cmp_trans_le (TotalCmp := hlc_total_cmp))]. Qed.

Lemma ordered_groups_perm_entries :
  Permutation (ordered_groups site hlc_of items) (group_entries hlc_of items).
Proof. unfold ordered_groups. rewrite sort_by_perm. apply hash_order_perm. Qed.

Lemma ordered_groups_perm :
  Permutation (concat (map snd (ordered_groups site hlc_of items))) items.
Proof. rewrite ordered_groups_perm_entries. apply group_concat_perm. Qed.

Lemma ordered_groups_sorted :
  StronglySorted (cmp_le key_cmp) (ordered_groups site hlc_of items).
Proof. apply sort_by_sorted, _. Qed.

Lemma ordered_groups_keys : NoDup (map fst (ordered_groups site hlc_of items)).
Proof. rewrite ordered_groups_perm_entries, group_entries_keys. apply first_keys_spec. Qed.

Lemma ordered_groups_elem k g :
  (k, g) ∈ ordered_groups site hlc_of items -> g = group_of hlc_of items k /\ g <> [].
Proof. rewrite ordered_groups_perm_entries. apply group_entries_elem. Qed.

Lemma ordered_groups_member x g k :
  (k, g) ∈ ordered_groups site hlc_of items -> x ∈ g -> hlc_of x = k.
Proof. intros [-> _]%ordered_groups_elem Hx. by apply list_elem_of_filter in Hx as [? _]. Qed.

(** Without distinct spellings of one HLC the order is determined by the
    items alone. *)
Lemma ordered_groups_deterministic (h2 : HashOrder) site2 :
  (forall x y, x ∈ items -> y ∈ items ->
     compare_hlc_strings (hlc_of x) (hlc_of y) = Eq -> hlc_of x = hlc_of y) ->
  @ordered_groups T ho site hlc_of items = @ordered_groups T h2 site2 hlc_of items.
Proof.
  intros Htie. unfold ordered_groups. apply (sort_by_unique key_cmp).
  - intros [k1 g1] [k2 g2] H1 H2 Heq. unfold key_cmp in Heq; cbn [fst] in Heq.
    apply list_elem_of_In in H1, H2. rewrite hash_order_perm in H1, H2.
    pose proof (group_entries_elem _ _ _ _ H1) as [Hg1 Hne1].
    pose proof (group_entries_elem _ _ _ _ H2) as [Hg2 Hne2].
    destruct g1 as [|x g1]; [done|]. destruct g2 as [|y g2]; [done|].
    assert (x ∈ group_of hlc_of items k1) as [Hx1 Hx2]%list_elem_of_filter by (rewrite <- Hg1; by left).
    assert (y ∈ group_of hlc_of items k2) as [Hy1 Hy2]%list_elem_of_filter by (rewrite <- Hg2; by left).
    assert (k1 = k2) as -> by (subst k1 k2; by apply Htie). congruence.
  - etransitivity; [apply (@hash_order_perm ho)|]. symmetry. apply (@hash_order_perm h2).
Qed.
End ordered_groups_lemmas.

Section pack_lemmas.
Context {T : Type} `{Paginable T} `{HashOrder}.

Definition packed_size (running : Z) (groups : list (string * list T)) : Z :=
  fold_left (fun r g => saturating_add r (group_size (snd g))) groups running.

(** A page is a prefix of the groups: at least the first one, and never over
    budget unless it is that one alone. *)
Lemma pack_groups_take budget gs : forall first page running, exists n,
  (n <= length gs)%nat /\
  pack_groups budget first page running gs =
    (page ++ concat (map snd (take n gs)), bool_decide (n < length gs)%nat) /\
  (first = true -> gs <> [] -> n <> 0%nat) /\
  (n = 0%nat \/ (first = true /\ n = 1%nat) \/ packed_size running (take n gs) <= budget).
Proof.
  induction gs as [|[k g] gs IH]; intros first page running; cbn [pack_groups length].
  - exists 0%nat. cbn. rewrite app_nil_r. split; [lia|]. split; [done|]. auto.
  - destruct ((saturating_add running (group_size g) <=? budget) || first) eqn:Hfit.
    + destruct (IH false (page ++ g) (saturating_add running (group_size g))) as (n & Hn & -> & _ & Hsz).
      exists (S n). split; [lia|]. split; [|split; [done|]].
      * cbn. rewrite <- app_assoc. f_equal. apply bool_decide_ext. lia.
      * right. destruct Hsz as [->|[[? _]|Hsz]]; [|done|by right].
        apply orb_true_iff in Hfit as [Hfit| ->]; [right|by left].
        unfold packed_size. cbn [take fold_left snd]. rewrite take_0. cbn [fold_left]. lia.
    + apply orb_false_iff in Hfit as [_ ->]. exists 0%nat. cbn. rewrite app_nil_r.
      split; [lia|]. split; [f_equal; symmetry; apply bool_decide_eq_true; lia|]. auto.
Qed.
End pack_lemmas.

Lemma StronglySorted_app_le {A} (R : A -> A -> Prop) l1 l2 :
  StronglySorted R (l1 ++ l2) -> forall x y, x ∈ l1 -> y ∈ l2 -> R x y.
Proof.
  induction l1 as [|a l1 IH]; [by intros ? x y ?%elem_of_nil|]. cbn.
  intros [Hall Hs]%StronglySorted_cons x y [->|Hx]%elem_of_cons Hy; [|by eapply IH].
  rewrite Forall_forall in Hall. apply Hall, elem_of_app. by right.
Qed.

(** ** Scanned changes *)

Section scan_lemmas.
Context `{Unicode} `{Serde}.

(** What the scanner may put into a change. *)
Record change_ok (schema : list ColumnInfo) (table : string) (after_hlc : option string)
    (device : string) (filters : ScanFilters) (c : ColumnChange) : Prop := {
  ok_column : exists col, col ∈ schema /\ ci_name col = column_name c /\ is_data_column col = true;
  ok_table : table_name c = table;
  ok_device : device_id c = device;
  ok_hlc : is_empty (hlc_timestamp c) = false;
  ok_after : passes_hlc after_hlc (hlc_timestamp c) = true;
  ok_origin : passes_origin (origin_node filters) (hlc_timestamp c) = true;
  ok_pks : forall wanted, filter_row_pks filters = Some wanted -> row_pks c ∈ wanted;
}.

Lemma hlc_to_use_non_empty row_map col h : hlc_to_use row_map col = Some h -> is_empty h = false.
Proof.
  unfold hlc_to_use, row_hlc_of, non_empty.
  destruct (jget col _ ≫= as_str) as [s|]; cbn; [destruct (is_empty s) eqn:?|];
    repeat case_match; naive_solver.
Qed.

Lemma emit_column_ok schema table pk row_map after device filters col c :
  col ∈ schema -> is_data_column col = true ->
  (forall wanted, filter_row_pks filters = Some wanted -> pk ∈ wanted) ->
  c ∈ emit_column table pk row_map after device (origin_node filters) col ->
  change_ok schema table after device filters c.
Proof.
  intros Hcol Hdata Hpk. unfold emit_column.
  destruct (hlc_to_use row_map (ci_name col)) as [h|] eqn:Hh; [|by intros ?%elem_of_nil].
  destruct (_ && _) eqn:Hp; [|by intros ?%elem_of_nil]. split_bool.
  intros ->%list_elem_of_singleton. apply hlc_to_use_non_empty in Hh. split; cbn; eauto.
Qed.

Lemma emit_row_ok schema row select table after device filters cs c :
  emit_row_changes row select (fst (partition_columns schema)) (snd (partition_columns schema))
    table after device (origin_node filters) (filter_row_pks filters) = Ok cs ->
  c ∈ cs -> change_ok schema table after device filters c.
Proof.
  unfold emit_row_changes. rewrite bind_Ok. intros (row_map & _ & Hcs) Hc.
  set (pk := pk_json row_map (fst (partition_columns schema))) in *.
  assert (forall cs', @Ok DatabaseError _ cs' = Ok cs ->
    (forall wanted, filter_row_pks filters = Some wanted -> pk ∈ wanted) ->
    cs' = flat_map (emit_column table pk row_map after device (origin_node filters))
      (snd (partition_columns schema)) -> change_ok schema table after device filters c) as Hgo.
  { intros cs' [= ->] Hpk ->. apply list_elem_of_In, in_flat_map in Hc as (col & Hcol & Hc).
    apply list_elem_of_In in Hcol, Hc. apply list_elem_of_filter in Hcol as [Hd Hcol].
    by eapply emit_column_ok. }
  destruct (filter_row_pks filters) as [wanted|].
  - destruct (negb (bool_decide (pk ∈ wanted))) eqn:Hn.
    + injection Hcs as <-. by apply elem_of_nil in Hc.
    + apply negb_false_iff, bool_decide_eq_true in Hn.
      eapply Hgo; [exact Hcs | by intros ? [= <-] | done].
  - by eapply Hgo.
Qed.

Lemma scan_rows_ok {db} `{Rusqlite db} (conn : db) table schema after device filters cs c :
  scan_rows conn table schema after device filters = Ok cs -> c ∈ cs ->
  change_ok schema table after device filters c.
Proof.
  unfold scan_rows. destruct (partition_columns schema) as [pks datas] eqn:Hp.
  destruct (scan_predicates _ _) as [preds params].
  rewrite bind_Ok. intros (rows & _ & Hr). apply bind_Ok in Hr as (css & Hcss & [= <-]).
  intros Hc. apply list_elem_of_In, in_concat in Hc as (cs & Hcs & Hc).
  apply try_map_Ok in Hcss. apply list_elem_of_In in Hcs, Hc.
  apply list_elem_of_lookup in Hcs as [i Hi].
  destruct (Forall2_lookup_r _ _ _ _ _ Hcss Hi) as (row & _ & Hrow).
  eapply emit_row_ok; [|exact Hc]. rewrite Hp. exact Hrow.
Qed.
End scan_lemmas.

(** C31: a successful scan ships only what may travel: every change names a
    column of the table that is neither a key nor [_no_sync] (so none of the
    crate's metadata columns), carries a non-empty HLC strictly newer than the
    cursor, was written by the wanted node, and belongs to an allow-listed row;
    and nothing is emitted from a table or filtered by a column whose name is not
    a safe identifier. *)
Theorem scan_ships_only_syncable `{Unicode} `{Serde} {db} `{Rusqlite db} (conn : db) table after
    device filters changes c :
  scan_table_for_local_changes conn table after device filters = Ok changes -> c ∈ changes ->
  exists schema, get_table_schema conn table = Ok schema /\
    change_ok schema table after device filters c /\
    is_meta_column (column_name c) = false /\
    is_safe_identifier table = true /\
    (forall f, column_eq filters = Some f -> is_safe_identifier (fst f) = true).
Proof.
  unfold scan_table_for_local_changes. rewrite bind_Ok. intros ([] & Hf & Hs) Hc.
  apply bind_Ok in Hs as (schema & Hschema & Hs). apply map_err_Ok in Hschema.
  destruct schema as [|col0 schema]; [injection Hs as <-; by apply elem_of_nil in Hc|].
  destruct (fst (partition_columns (col0 :: schema))) eqn:Hpk; [done|].
  destruct (missing_columns (col0 :: schema)) eqn:Hmiss; [|done].
  assert (scan_rows conn table (col0 :: schema) after device filters = Ok changes) as Hscan.
  { destruct (column_eq filters) as [[fc fv]|]; [|done].
    destruct (negb (has_column fc (col0 :: schema))); [|done]. injection Hs as <-. by apply elem_of_nil in Hc. }
  pose proof (scan_rows_ok _ _ _ _ _ _ _ _ Hscan Hc) as Hok.
  exists (col0 :: schema). split; [done|]. split; [done|]. split; [|split].
  - destruct Hok as [(col & _ & <- & Hd) _ _ _ _ _ _]. unfold is_data_column in Hd. split_bool.
    destruct (is_meta_column (ci_name col)) eqn:Hm; [|done]. apply meta_column_no_sync in Hm. congruence.
  - unfold get_table_schema in Hschema. destruct (is_safe_identifier table); done.
  - intros [fc fv] Hfe. rewrite Hfe in Hf. cbn [fst]. by destruct (is_safe_identifier fc).
Qed.

Lemma scan_ships_only_syncable_witness :
  let conn := mini_mem [mini_row "a" "v" "9/b"; mini_row "b" "w" "5/b"] in
  let c := mkChange "items" (pk_json {["id" := JString "a"]} [mkColumn "id" "TEXT" true]) "body" "9/b"
             (JString "v") "dev" None in
  scan_table_for_local_changes conn "items" (Some "6/b") "dev" default_filters = Ok [c] /\
  exists schema, get_table_schema conn "items" = Ok schema /\
    change_ok schema "items" (Some "6/b") "dev" default_filters c /\
    is_meta_column (column_name c) = false /\ is_safe_identifier "items" = true /\
    (forall f, column_eq default_filters = Some f -> is_safe_identifier (fst f) = true).
Proof.
  intros conn c. split; [vm_compute; reflexivity|].
  apply (scan_ships_only_syncable conn "items" (Some "6/b") "dev" default_filters [c]);
    [vm_compute; reflexivity | apply list_elem_of_singleton; reflexivity].
Defined.

(** The SQL prefilter compares the row HLC as text, the cursor contract
    compares it as numbers: the row at 10 is newer than the cursor at 9 but is
    not scanned. *)
Lemma scan_prefilter_is_lexicographic :
  hlc_is_newer "10/b" "9/b" = true /\
  scan_table_for_local_changes (mini_mem [mini_row "a" "v" "10/b"]) "items" (Some "9/b") "dev"
    default_filters = Ok [] /\
  (exists c, scan_table_for_local_changes (mini_mem [mini_row "a" "v" "10/b"]) "items" None "dev"
    default_filters = Ok [c]).
Proof. split; [reflexivity|]. split; [vm_compute; reflexivity|]. eexists. vm_compute; reflexivity. Qed.

(** A paginable change for the witnesses: ten bytes per change. *)
#[export] Instance mini_paginable : Paginable ColumnChange := {
  transaction_hlc := hlc_timestamp;
  serialized_len l := Some (10 * Z.of_nat (length l));
}.
Definition mini_change (pk col hlc : string) : ColumnChange :=
  mkChange "items" pk col hlc (JString "v") "dev" None.
