(* ===== verification/Paging.v ===== *)
(** * Pages of changes (src/crdt/scanner/mod.rs, [paginate_changes])

    What one page is, and what a client obtains that asks for page after page,
    resuming each time at the newest HLC of the page it has just received. *)

From S2P Require Import Prelude Hashing Json Hlc Scanner.

Section pages.
Context {T : Type} `{Paginable T} `{HashOrder}.

Implicit Types (changes page rest : list T) (budget : Z).

(** A list of changes cut between two transactions. *)
Record cut (changes page rest : list T) : Prop := {
  cut_perm : Permutation (page ++ rest) changes;
  cut_nonempty : page <> [];
  cut_apart : forall x y, x ∈ page -> y ∈ rest ->
    transaction_hlc x <> transaction_hlc y /\
    cmp_le compare_hlc_strings (transaction_hlc x) (transaction_hlc y);
}.

Section groups.
Context (changes : list T).
Let gs := ordered_groups 0 transaction_hlc changes.

Lemma groups_concat_nonempty (l : list (string * list T)) : l ⊆ gs -> l <> [] -> concat (map snd l) <> [].
Proof.
  destruct l as [|[k g] l]; [done|]. intros Hin _. cbn. intros [Hg _]%app_nil.
  assert ((k, g) ∈ gs) as Hk by (apply Hin; by left).
  by apply ordered_groups_elem in Hk as [_ ?].
Qed.

Lemma take_groups n : take n gs ⊆ gs.
Proof. intros p Hp. rewrite <- (take_drop n gs). apply elem_of_app. by left. Qed.
Lemma drop_groups n : drop n gs ⊆ gs.
Proof. intros p Hp. rewrite <- (take_drop n gs). apply elem_of_app. by right. Qed.

Lemma in_groups (l : list (string * list T)) (x : T) : x ∈ concat (map snd l) -> exists k g, (k, g) ∈ l /\ x ∈ g.
Proof.
  intros (g & Hg & Hx)%list_elem_of_In%in_concat. apply in_map_iff in Hg as ([k g'] & <- & Hg).
  apply list_elem_of_In in Hg, Hx. by exists k, g'.
Qed.

Lemma groups_apart n x y :
  x ∈ concat (map snd (take n gs)) -> y ∈ concat (map snd (drop n gs)) ->
  transaction_hlc x <> transaction_hlc y /\
  cmp_le compare_hlc_strings (transaction_hlc x) (transaction_hlc y).
Proof.
  intros (k1 & g1 & Hg1 & Hx)%in_groups (k2 & g2 & Hg2 & Hy)%in_groups.
  pose proof (ordered_groups_sorted 0 transaction_hlc changes) as Hsort.
  pose proof (ordered_groups_keys 0 transaction_hlc changes) as Hnd. fold gs in Hsort, Hnd.
  rewrite <- (take_drop n gs) in Hsort, Hnd. rewrite map_app in Hnd.
  apply NoDup_app in Hnd as (_ & Hdis & _).
  rewrite (ordered_groups_member _ _ _ _ _ _ (take_groups n _ Hg1) Hx).
  rewrite (ordered_groups_member _ _ _ _ _ _ (drop_groups n _ Hg2) Hy).
  split; [|by apply (StronglySorted_app_le _ _ _ Hsort _ _ Hg1 Hg2)].
  intros Hk. apply (Hdis k1); [exact (list_elem_of_fmap_2 fst _ _ Hg1)|].
  rewrite Hk. exact (list_elem_of_fmap_2 fst _ _ Hg2).
Qed.

Lemma groups_cut n :
  (0 < n <= length gs)%nat ->
  cut changes (concat (map snd (take n gs))) (concat (map snd (drop n gs))).
Proof.
  intros Hn. split; [|apply groups_concat_nonempty; [apply take_groups|]|apply groups_apart].
  - rewrite <- concat_app, <- map_app, take_drop. apply ordered_groups_perm.
  - intros Ht. apply (f_equal length) in Ht. rewrite length_take in Ht. cbn in Ht. lia.
Qed.

Lemma groups_rest n : (n < length gs)%nat <-> concat (map snd (drop n gs)) <> [].
Proof.
  split.
  - intros Hn. apply groups_concat_nonempty; [apply drop_groups|].
    intros Hd. apply (f_equal length) in Hd. rewrite length_drop in Hd. cbn in Hd. lia.
  - intros Hd. destruct (decide (n < length gs)%nat); [done|]. by rewrite drop_ge in Hd by lia.
Qed.
End groups.

(** A page is a positive number of whole groups. *)
Lemma paginate_take changes budget page has_more :
  let gs := ordered_groups 0 transaction_hlc changes in
  changes <> [] -> paginate_changes changes budget = (page, has_more) ->
  exists n, (0 < n <= length gs)%nat /\ page = concat (map snd (take n gs)) /\
    has_more = bool_decide (n < length gs)%nat /\
    (n = 1%nat \/ packed_size 0 (take n gs) <= budget).
Proof.
  intros gs Hne Hp.
  replace (paginate_changes changes budget) with (pack_groups budget true [] 0 gs) in Hp by (by destruct changes).
  assert (gs <> []) as Hgs.
  { intros Hg. pose proof (ordered_groups_perm 0 transaction_hlc changes) as Hperm.
    fold gs in Hperm. rewrite Hg in Hperm. by apply Permutation_nil in Hperm. }
  destruct (pack_groups_take budget gs true [] 0) as (n & Hn & Hpk & Hpos & Hsz).
  specialize (Hpos eq_refl Hgs). rewrite Hpk in Hp. injection Hp as <- <-.
  exists n. split; [lia|]. split; [done|]. split; [done|]. naive_solver.
Qed.

Lemma paginate_cut changes budget page has_more :
  changes <> [] -> paginate_changes changes budget = (page, has_more) ->
  exists rest, cut changes page rest /\ (has_more = true <-> rest <> []).
Proof.
  intros Hne Hp. destruct (paginate_take _ _ _ _ Hne Hp) as (n & Hn & -> & -> & _).
  eexists. split; [by apply groups_cut|]. rewrite bool_decide_eq_true. apply groups_rest.
Qed.

(** A page is made of whole transactions in HLC order: it is never empty,
    page and remainder together are the input, no remaining change shares an HLC
    with the page or is older than any of it, [has_more] says whether anything
    remains, and the page is within the budget unless it is one transaction. *)
Theorem paginate_changes_pages changes budget page has_more :
  changes <> [] -> paginate_changes changes budget = (page, has_more) ->
  exists groups rest,
    page = concat (map snd groups) /\ cut changes page rest /\
    (has_more = true <-> rest <> []) /\
    (length groups = 1%nat \/ packed_size 0 groups <= budget).
Proof.
  intros Hne Hp. destruct (paginate_take _ _ _ _ Hne Hp) as (n & Hn & -> & -> & Hsz).
  eexists (take n _), _. split; [done|]. split; [by apply groups_cut|].
  split; [rewrite bool_decide_eq_true; apply groups_rest|].
  destruct Hsz as [-> |?]; [left; rewrite length_take; lia|by right].
Qed.

(** ** A client that resumes

    The server answers with a page of the changes newer than the cursor; the
    client moves its cursor to the newest HLC of the page. *)
Definition newer_than (cursor : option string) (changes : list T) : list T :=
  List.filter (fun c => passes_hlc cursor (transaction_hlc c)) changes.

Definition next_cursor (page : list T) : option string := hlc_max (map transaction_hlc page).

Fixpoint pull (rounds : nat) (budget : Z) (changes : list T) (cursor : option string) : list (list T) * bool :=
  match rounds with
  | O => ([], false)
  | S rounds =>
      let '(page, has_more) := paginate_changes (newer_than cursor changes) budget in
      if has_more : bool then
        let '(pages, done) := pull rounds budget changes (next_cursor page) in (page :: pages, done)
      else ([page], true)
  end.

(** The transactions the changes come from. *)
Definition transactions (changes : list T) : gset string := list_to_set (map transaction_hlc changes).

(** Two spellings of one HLC would be two transactions that no cursor can tell
    apart. *)
Definition one_spelling (changes : list T) : Prop :=
  forall x y, x ∈ changes -> y ∈ changes ->
    compare_hlc_strings (transaction_hlc x) (transaction_hlc y) = Eq -> transaction_hlc x = transaction_hlc y.

Lemma elem_of_newer c cursor changes :
  c ∈ newer_than cursor changes <-> c ∈ changes /\ passes_hlc cursor (transaction_hlc c) = true.
Proof. unfold newer_than. rewrite !list_elem_of_In. apply filter_In. Qed.

Lemma newer_perm cursor l l' : Permutation l l' -> Permutation (newer_than cursor l) (newer_than cursor l').
Proof. intros Hp. unfold newer_than. induction Hp; cbn; repeat case_match; eauto using perm_swap, perm_trans. Qed.

Lemma elem_of_transactions h changes : h ∈ transactions changes <-> exists c, c ∈ changes /\ transaction_hlc c = h.
Proof.
  unfold transactions. rewrite elem_of_list_to_set, list_elem_of_In, in_map_iff.
  setoid_rewrite list_elem_of_In. naive_solver.
Qed.

Lemma next_cursor_spec page :
  page <> [] -> exists m x, next_cursor page = Some m /\ x ∈ page /\ transaction_hlc x = m /\
    forall y, y ∈ page -> hlc_is_newer (transaction_hlc y) m = false.
Proof.
  intros Hp. unfold next_cursor, hlc_max. destruct (max_by _ _) as [m|] eqn:Hm.
  - apply (max_by_spec _) in Hm as [Hin Hall]. apply in_map_iff in Hin as (x & Hx & Hin).
    exists m, x. split; [done|]. split; [by apply list_elem_of_In|]. split; [done|].
    intros y Hy%list_elem_of_In. by apply hlc_not_newer_le, Hall, in_map.
  - apply max_by_None, map_eq_nil in Hm. done.
Qed.

Lemma newer_trans a b c : hlc_is_newer a b = true -> hlc_is_newer b c = true -> hlc_is_newer a c = true.
Proof. rewrite !hlc_is_newer_Gt. intros Hab Hbc. apply (cmp_gt_le_trans _ _ _ _ Hab), cmp_gt_le; [apply _|done]. Qed.

Lemma filter_true {A} (p : A -> bool) l : (forall x, x ∈ l -> p x = true) -> List.filter p l = l.
Proof. induction l as [|a l IH]; intros Hp; cbn; [done|]. rewrite Hp by (by left). f_equal. apply IH. intros x Hx. apply Hp. by right. Qed.

Lemma filter_false {A} (p : A -> bool) l : (forall x, x ∈ l -> p x = false) -> List.filter p l = [].
Proof. induction l as [|a l IH]; intros Hp; cbn; [done|]. rewrite Hp by (by left). apply IH. intros x Hx. apply Hp. by right. Qed.

(** Filtering by a stronger predicate needs only one pass. *)
Lemma filter_implied {A} (p q : A -> bool) l :
  (forall x, x ∈ l -> p x = true -> q x = true) -> List.filter p (List.filter q l) = List.filter p l.
Proof.
  induction l as [|a l IH]; intros Hpq; cbn; [done|]. pose proof (Hpq a ltac:(by left)) as Ha.
  assert (List.filter p (List.filter q l) = List.filter p l) as IH' by (apply IH; intros x Hx; apply Hpq; by right).
  destruct (p a) eqn:Hp; [rewrite Ha by done; cbn; by rewrite Hp, IH'|].
  destruct (q a); cbn; rewrite ?Hp; done.
Qed.

Section resume.
Context (cs : list T) (Hone : one_spelling cs) (cursor : option string) (page rest : list T).
Hypothesis (Hcut : cut (newer_than cursor cs) page rest).

Lemma cut_elem x : x ∈ newer_than cursor cs <-> x ∈ page \/ x ∈ rest.
Proof. rewrite <- (cut_perm _ _ _ Hcut). apply elem_of_app. Qed.

Lemma cut_newer x y : x ∈ page -> y ∈ rest -> hlc_is_newer (transaction_hlc y) (transaction_hlc x) = true.
Proof.
  intros Hx Hy. destruct (cut_apart _ _ _ Hcut x y Hx Hy) as [Hne Hle].
  destruct (hlc_is_newer _ _) eqn:Hn; [done|]. exfalso. apply Hne, Hone.
  - assert (x ∈ newer_than cursor cs) as [? _]%elem_of_newer by (apply cut_elem; by left). done.
  - assert (y ∈ newer_than cursor cs) as [? _]%elem_of_newer by (apply cut_elem; by right). done.
  - apply hlc_not_newer_le in Hn. by apply (cmp_le_antisym _).
Qed.

(** What is newer than the cursor of a page is exactly what the page left. *)
Lemma resume_rest : Permutation (newer_than (next_cursor page) cs) rest.
Proof.
  destruct (next_cursor_spec page (cut_nonempty _ _ _ Hcut)) as (m & x & -> & Hx & <- & Hmax).
  transitivity (newer_than (Some (transaction_hlc x)) (newer_than cursor cs)).
  - unfold newer_than at 2. unfold newer_than. rewrite filter_implied; [done|]. intros c Hc Hn.
    assert (x ∈ newer_than cursor cs) as [_ Hpx]%elem_of_newer by (apply cut_elem; by left).
    destruct cursor as [cur|]; [|done]. exact (newer_trans _ _ _ Hn Hpx).
  - rewrite <- (newer_perm _ _ _ (cut_perm _ _ _ Hcut)). unfold newer_than. rewrite List.filter_app.
    rewrite (filter_false _ page), (filter_true _ rest); [done| |].
    + intros y Hy. by apply cut_newer.
    + intros y Hy. by apply Hmax.
Qed.

Lemma resume_shrinks : (size (transactions rest) < size (transactions (newer_than cursor cs)))%nat.
Proof.
  apply subset_size. split.
  - intros h (c & Hc & <-)%elem_of_transactions. apply elem_of_transactions. exists c. split; [|done].
    apply cut_elem. by right.
  - intros Hsub. destruct (next_cursor_spec page (cut_nonempty _ _ _ Hcut)) as (_ & x & _ & Hx & _).
    assert (transaction_hlc x ∈ transactions rest) as (y & Hy & Heq)%elem_of_transactions.
    { apply Hsub, elem_of_transactions. exists x. split; [|done]. apply cut_elem. by left. }
    by destruct (cut_apart _ _ _ Hcut x y Hx Hy) as [[] _].
Qed.
End resume.

(** Each page is older than everything after it. *)
Definition older_page (page later : list T) : Prop :=
  forall x y, x ∈ page -> y ∈ later -> hlc_is_newer (transaction_hlc y) (transaction_hlc x) = true.

Lemma transactions_pos l : l <> [] -> (0 < size (transactions l))%nat.
Proof.
  destruct l as [|y l]; [done|]. intros _.
  assert (transaction_hlc y ∈ transactions (y :: l)) as Hy
    by (apply elem_of_transactions; exists y; split; [by left|done]).
  assert (size (transactions (y :: l)) <> 0)%nat; [|lia].
  intros Hz%size_empty_inv. by apply (Hz (transaction_hlc y)) in Hy.
Qed.

Lemma transactions_perm l l' : Permutation l l' -> transactions l = transactions l'.
Proof. intros Hp. apply list_to_set_perm_L. by rewrite Hp. Qed.

(** C20: a client that keeps resuming at the newest HLC it has received obtains
    every change exactly once, whatever the budget - also when a transaction
    exceeds it - in pages that are each older than the next, within at most as many
    rounds as there are transactions newer than its cursor, provided that no two
    transactions spell one HLC in two ways. *)
Theorem paging_delivers_everything cs budget : forall rounds cursor,
  one_spelling cs -> (0 < rounds)%nat -> (size (transactions (newer_than cursor cs)) <= rounds)%nat ->
  exists pages, pull rounds budget cs cursor = (pages, true) /\
    Permutation (concat pages) (newer_than cursor cs) /\
    (length pages <= rounds)%nat /\ StronglySorted older_page pages.
Proof.
  intros rounds. induction rounds as [|rounds IH]; intros cursor Hone Hpos Hsize; [lia|]. cbn [pull].
  destruct (paginate_changes _ _) as [page has_more] eqn:Hp.
  destruct (decide (newer_than cursor cs = [])) as [Hnil|Hne].
  { rewrite Hnil in Hp |- *. injection Hp as <- <-. exists [[]].
    split; [done|]. split; [done|]. split; [cbn; lia|]. repeat constructor. }
  destruct (paginate_cut _ _ _ _ Hne Hp) as (rest & Hcut & Hmore).
  pose proof (resume_shrinks cs cursor page rest Hcut) as Hshrink.
  pose proof (resume_rest cs Hone cursor page rest Hcut) as Hrest.
  destruct has_more.
  - destruct (IH (next_cursor page) Hone) as (pages & -> & Hperm & Hlen & Hsort).
    { pose proof (transactions_pos rest ltac:(by apply Hmore)). lia. }
    { rewrite (transactions_perm _ _ Hrest). lia. }
    exists (page :: pages). split; [done|]. cbn [concat length].
    split; [by rewrite Hperm, Hrest, (cut_perm _ _ _ Hcut)|]. split; [lia|].
    constructor; [done|]. apply List.Forall_forall. intros q Hq x y Hx Hy.
    apply (cut_newer cs Hone cursor page rest Hcut); [done|].
    rewrite <- Hrest, <- Hperm. apply list_elem_of_In, in_concat. exists q. split; [done|by apply list_elem_of_In].
  - assert (rest = []) as -> by (destruct rest; [done|]; by discriminate (proj2 Hmore)).
    exists [page]. split; [done|]. cbn. rewrite app_nil_r.
    split; [by rewrite <- (cut_perm _ _ _ Hcut), app_nil_r|]. split; [lia|]. repeat constructor.
Qed.
End pages.


Definition mini_changes : list ColumnChange :=
  [mini_change "r" "a" "2/b"; mini_change "r" "b" "1/b"; mini_change "s" "a" "1/b"].
Definition mini_page : list ColumnChange := [mini_change "r" "b" "1/b"; mini_change "s" "a" "1/b"].

Lemma paginate_changes_pages_witness :
  exists groups rest, mini_page = concat (map snd groups) /\ cut mini_changes mini_page rest /\
    (true = true <-> rest <> []) /\ (length groups = 1%nat \/ packed_size 0 groups <= 15).
Proof. apply (paginate_changes_pages mini_changes 15); [discriminate | vm_compute; reflexivity]. Defined.

(** Three rounds suffice for two transactions, though neither fits the budget. *)
Lemma paging_delivers_everything_witness :
  exists pages, pull 3 1 mini_changes None = (pages, true) /\
    Permutation (concat pages) (newer_than None mini_changes) /\ (length pages <= 3)%nat /\
    StronglySorted older_page pages.
Proof.
  apply (paging_delivers_everything mini_changes 1 3 None); [|lia|vm_compute; lia].
  intros x y Hx Hy. repeat first [apply elem_of_cons in Hx as [->|Hx] | apply elem_of_nil in Hx as []];
    repeat first [apply elem_of_cons in Hy as [->|Hy] | apply elem_of_nil in Hy as []]; vm_compute; congruence.
Defined.

(** The proviso matters: of two spellings of one HLC the second never arrives,
    because the cursor left by the first is not older than it. *)
Lemma respelled_transaction_lost :
  let cs := [mini_change "r" "a" "1/b"; mini_change "r" "b" "01/b"] in
  pull 9 1 cs None = ([[mini_change "r" "a" "1/b"]; []], true).
Proof. reflexivity. Qed.
