(* ===== verification/Preimage.v ===== *)
(** * Signature preimages (src/crdt/apply/preimage.rs)

    The canonical bytes a column signature covers: the five signed fields,
    length-prefixed, with the value as canonical JSON. base64 is another
    crate's. *)

From S2P Require Import Prelude Utf8 Json Sql Mini Hlc Trigger Report Errors Value Scanner.

Class Base64 := { base64_encode : string -> string }.

(** For the witnesses: bytes as they are. *)
#[export] Instance mini_base64 : Base64 := { base64_encode s := s }.

(** [(n as u32).to_be_bytes()]: the cast keeps the low 32 bits. *)
Definition byte_ascii (b : Z) : ascii := ascii_of_N (Z.to_N (b mod 256)).
Definition u32_be_bytes (n : Z) : string :=
  let m := n mod 2 ^ 32 in
  str4 (byte_ascii (m / 2 ^ 24)) (byte_ascii (m / 2 ^ 16)) (byte_ascii (m / 2 ^ 8)) (byte_ascii m).

Definition str_len (s : string) : Z := Z.of_nat (String.length s).

Fixpoint length_prefixed (parts : list string) : string :=
  match parts with
  | [] => EmptyString
  | p :: rest => u32_be_bytes (str_len p) +:+ p +:+ length_prefixed rest
  end.

(** [canonicalize_json]: the keys sorted, each value canonicalised, inserted
    into a fresh map. *)
Definition canonical_object (entries : list (string * json)) : list (string * json) :=
  fold_left (fun canonical key =>
    match jget key entries with
    | Some v => jinsert key v canonical
    | None => canonical
    end) (sort_by String.compare (jkeys entries)) [].

Fixpoint canonicalize_json (v : json) : json :=
  match v with
  | JObject object => JObject (canonical_object (map (fun e => (fst e, canonicalize_json (snd e))) object))
  | JArray values => JArray (map canonicalize_json values)
  | scalar => scalar
  end.

Section preimage.
Context `{Serde}.

Definition column_sig_preimage_from_parts (table row_pks_json column hlc : string) (v : json) : string :=
  let canonical_value := canonicalize_json v in
  length_prefixed [table; row_pks_json; column; hlc; json_to_string canonical_value].

Definition column_sig_preimage (change : ColumnChange) : string :=
  let v := canonicalize_json (value change) in
  length_prefixed [table_name change; row_pks change; column_name change; hlc_timestamp change;
                   json_to_string v].

Context `{Base64}.

Definition legacy_blob_value (v : json) : option json :=
  match json_to_rusqlite_value v with
  | Ok (SBlob bytes) => Some (JString (base64_encode bytes))
  | _ => None
  end.

Definition legacy_replacement (v : json) : option (string * string) :=
  match legacy_blob_value v with
  | Some legacy => Some (json_to_string v, json_to_string legacy)
  | None => None
  end.

Definition legacy_blob_row_pks (pks : string) : option string :=
  match json_from_str pks with
  | Some (JObject values) =>
      match omap legacy_replacement (map snd values) with
      | [] => None
      | replacements =>
          Some (fold_left (fun legacy r => str_replace (fst r) (snd r) legacy) replacements pks)
      end
  | _ => None
  end.

Definition legacy_column_sig_preimage (change : ColumnChange) : option string :=
  let legacy_value := legacy_blob_value (value change) in
  let legacy_row_pks := legacy_blob_row_pks (row_pks change) in
  match legacy_value, legacy_row_pks with
  | None, None => None
  | _, _ =>
      Some (column_sig_preimage_from_parts (table_name change)
              (default (row_pks change) legacy_row_pks) (column_name change)
              (hlc_timestamp change) (default (value change) legacy_value))
  end.
End preimage.

(** ** Canonical objects *)

Lemma fold_canonical_get entries keys : forall acc k,
  jget k (fold_left (fun canonical key =>
    match jget key entries with Some v => jinsert key v canonical | None => canonical end) keys acc)
  = if bool_decide (k ∈ keys) then
      match jget k entries with Some v => Some v | None => jget k acc end
    else jget k acc.
Proof.
  induction keys as [|k0 keys IH]; intros acc k; cbn [fold_left]; [done|].
  rewrite IH. destruct (decide (k = k0)) as [->|Hne].
  - rewrite (bool_decide_eq_true_2 (k0 ∈ k0 :: keys)) by (by left).
    destruct (jget k0 entries) eqn:Hk; [|by destruct (bool_decide _)].
    rewrite jget_insert_eq. by destruct (bool_decide _).
  - assert (bool_decide (k ∈ k0 :: keys) = bool_decide (k ∈ keys)) as ->.
    { apply bool_decide_ext. rewrite elem_of_cons. tauto. }
    destruct (jget k0 entries) eqn:Hk0; [|done]. by rewrite jget_insert_ne.
Qed.

Lemma fold_canonical_sorted entries keys : forall acc, jsorted acc ->
  jsorted (fold_left (fun canonical key =>
    match jget key entries with Some v => jinsert key v canonical | None => canonical end) keys acc).
Proof.
  induction keys as [|k0 keys IH]; intros acc Hacc; cbn [fold_left]; [done|].
  apply IH. destruct (jget k0 entries); [by apply jinsert_sorted|done].
Qed.

Lemma jget_in_keys k m v : jget k m = Some v -> k ∈ jkeys m.
Proof. intros Hk%jget_In. apply list_elem_of_In. by apply (in_map fst) in Hk. Qed.

Lemma canonical_object_get entries k : jget k (canonical_object entries) = jget k entries.
Proof.
  unfold canonical_object. rewrite fold_canonical_get. case_bool_decide as Hk.
  - by destruct (jget k entries).
  - destruct (jget k entries) eqn:Hg; [|done]. exfalso. apply Hk.
    rewrite sort_by_perm. by eapply jget_in_keys.
Qed.

Lemma canonical_object_sorted entries : jsorted (canonical_object entries).
Proof. apply fold_canonical_sorted. constructor. Qed.

Lemma jget_perm m1 m2 : NoDup (jkeys m1) -> Permutation m1 m2 -> forall k, jget k m1 = jget k m2.
Proof.
  intros Hnd Hp. induction Hp as [|[k0 v0] m1 m2 Hp IH|[k1 v1] [k2 v2] m|m1 m2 m3 H1 IH1 H2 IH2];
    intros k; cbn [jget]; [done| | |].
  - apply NoDup_cons in Hnd as [_ Hnd]. by rewrite IH.
  - apply NoDup_cons in Hnd as [Hnin _]. destruct (String.eqb k1 k) eqn:E1, (String.eqb k2 k) eqn:E2; try done.
    apply String.eqb_eq in E1 as <-, E2 as ->. exfalso. apply Hnin. by left.
  - rewrite IH1 by done. apply IH2. unfold jkeys in *. by rewrite <- H1.
Qed.

Lemma canonical_object_perm m1 m2 :
  NoDup (jkeys m1) -> Permutation m1 m2 -> canonical_object m1 = canonical_object m2.
Proof.
  intros Hnd Hp. apply jmap_ext; [apply canonical_object_sorted..|].
  intros k. rewrite !canonical_object_get. by apply jget_perm.
Qed.

(** Two values that differ in the order of object entries, at any depth. *)
Inductive json_equiv : json -> json -> Prop :=
| equiv_refl v : json_equiv v v
| equiv_array l1 l2 : Forall2 json_equiv l1 l2 -> json_equiv (JArray l1) (JArray l2)
| equiv_object m1 m2 : NoDup (jkeys m1) ->
    Forall2 (fun e1 e2 => fst e1 = fst e2 /\ json_equiv (snd e1) (snd e2)) m1 m2 ->
    json_equiv (JObject m1) (JObject m2)
| equiv_perm m1 m2 : NoDup (jkeys m1) -> Permutation m1 m2 -> json_equiv (JObject m1) (JObject m2)
| equiv_trans v1 v2 v3 : json_equiv v1 v2 -> json_equiv v2 v3 -> json_equiv v1 v3.

Definition canon_entry (e : string * json) : string * json := (fst e, canonicalize_json (snd e)).

Lemma canon_entry_keys m : jkeys (map canon_entry m) = jkeys m.
Proof. unfold jkeys. by rewrite map_map. Qed.

Lemma canonicalize_equiv : forall v w, json_equiv v w -> canonicalize_json v = canonicalize_json w.
Proof.
  fix IH 3. intros v w Hvw. destruct Hvw as [v|l1 l2 Hl|m1 m2 Hnd Hm|m1 m2 Hnd Hp|v1 v2 v3 H1 H2].
  - done.
  - cbn [canonicalize_json]. f_equal. induction Hl as [|x y l1 l2 Hxy Hl IHl]; cbn [map]; [done|].
    rewrite (IH _ _ Hxy). by f_equal.
  - cbn [canonicalize_json]. do 2 f_equal. clear Hnd.
    induction Hm as [|[k1 x] [k2 y] m1 m2 [Hk Hxy] Hm IHm]; cbn [map fst snd]; [done|].
    cbn in Hk, Hxy. rewrite Hk, (IH _ _ Hxy). by f_equal.
  - cbn [canonicalize_json]. f_equal. apply (canonical_object_perm (map canon_entry m1) (map canon_entry m2)).
    + by rewrite canon_entry_keys.
    + by apply Permutation_map.
  - rewrite (IH _ _ H1). by apply IH.
Qed.

(** ** Length prefixes *)

Lemma byte_ascii_of b : byte_of (byte_ascii b) = b mod 256.
Proof.
  unfold byte_ascii. pose proof (Z.mod_pos_bound b 256 ltac:(lia)).
  rewrite byte_of_ascii_of_N; lia.
Qed.

Lemma u32_be_bytes_inj m n :
  0 <= m < 2 ^ 32 -> 0 <= n < 2 ^ 32 -> u32_be_bytes m = u32_be_bytes n -> m = n.
Proof.
  intros Hm Hn. unfold u32_be_bytes. rewrite !Z.mod_small by done. cbv zeta.
  intros [= H1 H2 H3 H4].
  apply (f_equal byte_of) in H1, H2, H3, H4. rewrite !byte_ascii_of in *.
  assert (forall x, 0 <= x < 2 ^ 32 -> x =
    2 ^ 24 * (x / 2 ^ 24 mod 256) + 2 ^ 16 * (x / 2 ^ 16 mod 256) + 2 ^ 8 * (x / 2 ^ 8 mod 256) + x mod 256) as Hx.
  { clear. intros x Hx. change (2 ^ 24) with (256 * 256 * 256). change (2 ^ 16) with (256 * 256).
    change (2 ^ 8) with 256. change (2 ^ 32) with (256 * 256 * 256 * 256) in Hx.
    rewrite <- !Z.div_div by lia. set (y := x / 256). set (z := y / 256). set (w := z / 256).
    pose proof (Z.div_mod x 256 ltac:(lia)). pose proof (Z.div_mod y 256 ltac:(lia)).
    pose proof (Z.div_mod z 256 ltac:(lia)). rewrite (Z.mod_small w 256); [lia|].
    unfold w, z, y. rewrite !Z.div_div by lia. split; [apply Z.div_pos; lia|apply Z.div_lt_upper_bound; lia]. }
  rewrite (Hx m Hm), (Hx n Hn). congruence.
Qed.

Lemma append_inj_len (a b c d : string) :
  String.length a = String.length b -> a +:+ c = b +:+ d -> a = b /\ c = d.
Proof.
  revert b. induction a as [|x a IH]; intros [|y b] Hl Heq; cbn in Hl; try lia; [done|].
  rewrite !append_cons in Heq. injection Heq as -> Heq. destruct (IH b) as [-> ->]; [lia|done|done].
Qed.

Lemma length_prefixed_inj ps : forall qs,
  Forall (fun p => str_len p < 2 ^ 32) ps -> Forall (fun p => str_len p < 2 ^ 32) qs ->
  length ps = length qs -> length_prefixed ps = length_prefixed qs -> ps = qs.
Proof.
  induction ps as [|p ps IH]; intros [|q qs] Hps Hqs Hlen Heq; try done.
  apply Forall_cons in Hps as [Hp Hps]. apply Forall_cons in Hqs as [Hq Hqs].
  cbn [length_prefixed] in Heq. apply append_inj_len in Heq as [Hl Heq]; [|done].
  apply u32_be_bytes_inj in Hl; [|unfold str_len in *; lia..].
  apply append_inj_len in Heq as [-> Heq]; [|unfold str_len in Hl; lia].
  f_equal. apply IH; try done. cbn in Hlen. lia.
Qed.

(** ** Properties *)

Section preimage_properties.
Context `{Serde}.

(** C32: the preimage is unambiguous: as long as every field is shorter than
    4 GiB, two changes with the same preimage agree on the four signed strings and
    on the canonical text of the value, so no bytes move between fields. *)
Theorem column_sig_preimage_injective c d :
  Forall (fun p => str_len p < 2 ^ 32)
    [table_name c; row_pks c; column_name c; hlc_timestamp c; json_to_string (canonicalize_json (value c))] ->
  Forall (fun p => str_len p < 2 ^ 32)
    [table_name d; row_pks d; column_name d; hlc_timestamp d; json_to_string (canonicalize_json (value d))] ->
  column_sig_preimage c = column_sig_preimage d ->
  table_name c = table_name d /\ row_pks c = row_pks d /\ column_name c = column_name d /\
  hlc_timestamp c = hlc_timestamp d /\
  json_to_string (canonicalize_json (value c)) = json_to_string (canonicalize_json (value d)).
Proof.
  intros Hc Hd Heq. apply length_prefixed_inj in Heq; [|done..]. by injection Heq.
Qed.

(** The preimage does not depend on the order of object entries: values
    that differ only by permuting the entries of objects at any depth have the
    same preimage, from a change or from its parts. *)
Theorem column_sig_preimage_order_insensitive table pks col hlc dev sg v w :
  json_equiv v w ->
  column_sig_preimage (mkChange table pks col hlc v dev sg) =
    column_sig_preimage (mkChange table pks col hlc w dev sg) /\
  column_sig_preimage (mkChange table pks col hlc v dev sg) =
    column_sig_preimage_from_parts table pks col hlc w.
Proof.
  intros Hvw%canonicalize_equiv. unfold column_sig_preimage, column_sig_preimage_from_parts.
  cbn [value table_name row_pks column_name hlc_timestamp]. by rewrite Hvw.
Qed.
End preimage_properties.

Lemma column_sig_preimage_injective_witness :
  let c := mkChange "t" "r" "c" "1/a" (JString "v") "dev" None in
  let d := mkChange "t" "r" "c" "1/a" (JString "v") "other" (Some JNull) in
  column_sig_preimage c = column_sig_preimage d /\ table_name c = table_name d.
Proof.
  intros c d. assert (column_sig_preimage c = column_sig_preimage d) as Heq by (vm_compute; reflexivity).
  split; [exact Heq|].
  refine (proj1 (column_sig_preimage_injective c d _ _ Heq));
    repeat constructor; vm_compute; reflexivity.
Defined.

Lemma column_sig_preimage_order_insensitive_witness :
  let v := JObject [("b", JNull); ("a", JBool true)] in
  let w := JObject [("a", JBool true); ("b", JNull)] in
  v <> w /\
  column_sig_preimage (mkChange "t" "r" "c" "1/a" v "dev" None) =
    column_sig_preimage (mkChange "t" "r" "c" "1/a" w "dev" None).
Proof.
  intros v w. split; [discriminate|].
  refine (proj1 (column_sig_preimage_order_insensitive "t" "r" "c" "1/a" "dev" None v w _)).
  apply equiv_perm; [|apply Permutation_swap].
  apply NoDup_cons. split; [intros [E|E%elem_of_nil]%elem_of_cons; [discriminate E | exact E]|].
  apply NoDup_cons. split; [intros E; exact (proj1 (elem_of_nil _) E) | apply NoDup_nil_2].
Defined.
