(* ===== verification/Grouping.v ===== *)
(** * Batch grouping and row identity (src/crdt/apply/grouping.rs)

    The two groupings of a batch, by transaction HLC and by row, and the
    all-or-nothing WHERE clause built from a row's key map. *)

From Stdlib Require Import Sorted.
From S2P Require Import Prelude Utf8 Hashing Names Json Sql Hlc Trigger Report Errors Value Scanner.

(** ** By transaction HLC *)

Definition group_by_hlc_key {T} `{HashOrder} (items : list T) (hlc_of : T -> string)
    : list (string * list T) :=
  ordered_groups 1 hlc_of items.

(** ** By row *)

Definition pair_compare (a b : string * string) : comparison :=
  then_with (String.compare (fst a) (fst b)) (String.compare (snd a) (snd b)).

Definition opt_hlc_compare (a b : option string) : comparison :=
  match a, b with
  | Some am, Some bm => compare_hlc_strings am bm
  | Some _, None => Lt
  | None, Some _ => Gt
  | None, None => Eq
  end.

Section rows.
Context {T : Type} (key_of : T -> string * string) (hlc_of : T -> string).

Definition row_group_compare (a b : (string * string) * list T) : comparison :=
  let a_min := hlc_min (map hlc_of (snd a)) in
  let b_min := hlc_min (map hlc_of (snd b)) in
  then_with (opt_hlc_compare a_min b_min) (pair_compare (fst a) (fst b)).

Definition group_by_row_key_hlc_ordered `{HashOrder} (items : list T)
    : list ((string * string) * list T) :=
  sort_by row_group_compare (hash_order 2 (group_entries key_of items)).
End rows.

(** ** Row identity *)

Section where_clause.
Context `{Unicode}.

Fixpoint pk_where_loop (entries : jmap) (where_parts : list watom) (values : list json)
    : option (list watom * list json) :=
  match entries with
  | [] => Some (where_parts, values)
  | (col_name, v) :: rest =>
      if negb (is_safe_identifier col_name) then None
      else match v with
           | JNull => pk_where_loop rest (where_parts ++ [WIsNull col_name]) values
           | _ => pk_where_loop rest (where_parts ++ [WEq col_name]) (values ++ [v])
           end
  end.

Definition build_pk_where_from_map (row_pks : jmap) : option (list watom * list json) :=
  match row_pks with
  | [] => None
  | _ => pk_where_loop row_pks [] []
  end.
End where_clause.

(** ** Lemmas *)

Lemma then_with_total {A} (c d : A -> A -> comparison) :
  TotalCmp c -> TotalCmp d -> TotalCmp (fun x y => then_with (c x y) (d x y)).
Proof.
  intros Hc Hd. split.
  - intros x y. rewrite (cmp_swap c x y), (cmp_swap d x y). by destruct (c x y).
  - intros x y z Hxy Hyz.
    assert (cmp_le c x y) as Hcxy by (unfold cmp_le; by destruct (c x y)).
    assert (cmp_le c y z) as Hcyz by (unfold cmp_le; by destruct (c y z)).
    pose proof (cmp_le_trans c _ _ _ Hcxy Hcyz) as Hcxz. unfold cmp_le in *.
    destruct (c x z) eqn:Exz; [|done|done]. cbn.
    assert (c x y = Eq) as Exy.
    { destruct (c x y) eqn:E; [done| |done]. apply (cmp_gt_lt c) in E.
      assert (cmp_le c z x) as Hzx by (unfold cmp_le; rewrite (cmp_swap c x z), Exz; done).
      specialize (cmp_gt_le_trans c y x z E Hzx). congruence. }
    assert (c y z = Eq) as Eyz.
    { destruct (c y z) eqn:E; [done| |done]. apply (cmp_gt_lt c) in E.
      assert (cmp_le c x y) as Hle by (unfold cmp_le; congruence).
      assert (c z x = Gt) as Hzx' by (by apply (cmp_gt_le_trans c z y x)).
      apply (cmp_gt_lt c) in Hzx'. congruence. }
    rewrite Exy in Hxy. rewrite Eyz in Hyz. cbn in *. by apply (cmp_trans_le x y z).
Qed.

#[export] Instance pair_total_cmp : TotalCmp pair_compare.
Proof.
  apply (then_with_total (fun a b : string * string => String.compare (fst a) (fst b))
                         (fun a b => String.compare (snd a) (snd b)));
    split; intros *; first [apply (cmp_flip (TotalCmp := string_total_cmp))
                           | apply (cmp_trans_le (TotalCmp := string_total_cmp))].
Qed.

#[export] Instance opt_hlc_total_cmp : TotalCmp opt_hlc_compare.
Proof.
  split.
  - intros [x|] [y|]; cbn; try done. apply (cmp_flip (TotalCmp := hlc_total_cmp)).
  - intros [x|] [y|] [z|]; cbn; try done. apply (cmp_trans_le (TotalCmp := hlc_total_cmp)).
Qed.

Lemma pull_total_cmp {A B} (f : A -> B) (c : B -> B -> comparison) :
  TotalCmp c -> TotalCmp (fun x y => c (f x) (f y)).
Proof. intros Hc. split; intros *; [apply (cmp_flip (TotalCmp := Hc)) | apply (cmp_trans_le (TotalCmp := Hc))]. Qed.

#[export] Instance row_group_total_cmp {T} hlc_of : TotalCmp (@row_group_compare T hlc_of).
Proof.
  apply (then_with_total
    (fun a b : (string * string) * list T =>
       opt_hlc_compare (hlc_min (map hlc_of (snd a))) (hlc_min (map hlc_of (snd b))))
    (fun a b => pair_compare (fst a) (fst b))).
  - apply (pull_total_cmp (fun a => hlc_min (map hlc_of (snd a))) opt_hlc_compare), _.
  - apply (pull_total_cmp fst pair_compare), _.
Qed.

Lemma pair_compare_eq a b : pair_compare a b = Eq -> a = b.
Proof.
  destruct a as [a1 a2], b as [b1 b2]. unfold pair_compare, then_with; cbn.
  destruct (String.compare a1 b1) eqn:H1; try done. intros H2.
  apply string_cmp_eq in H1, H2. congruence.
Qed.

Section row_groups.
Context {T : Type} (key_of : T -> string * string) (hlc_of : T -> string).

Lemma row_groups_entries (ho : HashOrder) items :
  Permutation (group_by_row_key_hlc_ordered key_of hlc_of items) (group_entries key_of items).
Proof. unfold group_by_row_key_hlc_ordered. rewrite sort_by_perm. apply hash_order_perm. Qed.

Lemma row_groups_perm (ho : HashOrder) items :
  Permutation (concat (map snd (group_by_row_key_hlc_ordered key_of hlc_of items))) items.
Proof. rewrite row_groups_entries. apply group_concat_perm. Qed.

(** Grouping by row is deterministic: whatever order the hash maps
    iterate in, the batch splits into the same rows in the same order; each row
    appears once with all of its changes in their input order, and rows ascend by
    earliest HLC. *)
Theorem row_grouping_deterministic (h1 h2 : HashOrder) items :
  let groups := @group_by_row_key_hlc_ordered T key_of hlc_of h1 items in
  groups = @group_by_row_key_hlc_ordered T key_of hlc_of h2 items /\
  NoDup (map fst groups) /\
  (forall key g, (key, g) ∈ groups <->
     g = filter (fun x => key_of x = key) items /\ g <> []) /\
  StronglySorted (fun a b => opt_hlc_compare (hlc_min (map hlc_of (snd a)))
                               (hlc_min (map hlc_of (snd b))) <> Gt) groups.
Proof.
  cbv zeta. split; [|split; [|split]].
  - unfold group_by_row_key_hlc_ordered. apply (sort_by_unique (row_group_compare hlc_of)).
    + intros [k1 g1] [k2 g2] H1 H2 Heq. apply list_elem_of_In in H1, H2.
      rewrite hash_order_perm in H1, H2.
      assert (k1 = k2) as ->.
      { apply pair_compare_eq. unfold row_group_compare in Heq. cbn [fst] in Heq.
        by destruct (opt_hlc_compare _ _). }
      apply group_entries_elem in H1 as [-> _], H2 as [-> _]. done.
    + etransitivity; [apply (@hash_order_perm h1)|]. symmetry. apply (@hash_order_perm h2).
  - rewrite (row_groups_entries h1), group_entries_keys. apply first_keys_spec.
  - intros key g. rewrite (row_groups_entries h1). split; [apply group_entries_elem|].
    intros [-> Hne]. rewrite group_entries_eq. apply list_elem_of_fmap. exists key. split; [done|].
    destruct (filter _ items) as [|x l] eqn:Hf; [done|].
    assert (x ∈ filter (fun x => key_of x = key) items) as [? ?]%list_elem_of_filter
      by (rewrite Hf; by left).
    apply first_keys_spec. eauto.
  - unfold group_by_row_key_hlc_ordered.
    eapply StronglySorted_weaken; [|apply (sort_by_sorted (row_group_compare hlc_of))].
    intros a b Hb. unfold cmp_le, row_group_compare in Hb. by destruct (opt_hlc_compare _ _).
Qed.
End row_groups.

(** The groups by HLC are determined by the batch unless two of its HLC
    strings spell the same timestamp differently. *)
Lemma hlc_grouping_deterministic {T} (h1 h2 : HashOrder) (hlc_of : T -> string) items :
  (forall x y, x ∈ items -> y ∈ items ->
     compare_hlc_strings (hlc_of x) (hlc_of y) = Eq -> hlc_of x = hlc_of y) ->
  @group_by_hlc_key T h1 items hlc_of = @group_by_hlc_key T h2 items hlc_of.
Proof. apply ordered_groups_deterministic. Qed.

(** Two spellings of one timestamp tie, and the order of their groups is the
    hash map's. *)
Lemma hlc_grouping_spelling_order :
  compare_hlc_strings "01/a" "1/a" = Eq /\
  @group_by_hlc_key string insertion_order ["01/a"; "1/a"] id <>
  @group_by_hlc_key string reverse_order ["01/a"; "1/a"] id.
Proof. split; [reflexivity|]. vm_compute. discriminate. Qed.

(** ** The WHERE clause *)

Section where_properties.
Context `{Unicode}.

Definition where_atom (e : string * json) : watom :=
  match snd e with JNull => WIsNull (fst e) | _ => WEq (fst e) end.
Definition where_value (e : string * json) : option json :=
  match snd e with JNull => None | v => Some v end.

Lemma pk_where_loop_spec entries : forall parts values,
  pk_where_loop entries parts values =
    if forallb is_safe_identifier (jkeys entries)
    then Some (parts ++ map where_atom entries, values ++ omap where_value entries) else None.
Proof.
  induction entries as [|[c v] rest IH]; intros parts values; cbn [pk_where_loop jkeys map forallb fst].
  - by rewrite !app_nil_r.
  - destruct (is_safe_identifier c); cbn [negb andb fst]; [|done].
    destruct v; rewrite IH; cbn; rewrite <- !app_assoc; done.
Qed.

Lemma build_pk_where_Some row_pks w values :
  build_pk_where_from_map row_pks = Some (w, values) ->
  w = map where_atom row_pks /\ values = omap where_value row_pks.
Proof.
  unfold build_pk_where_from_map. destruct row_pks as [|e rest]; [done|].
  rewrite pk_where_loop_spec. destruct (forallb _ _); [|done]. by intros [= <- <-].
Qed.

(** The WHERE clause of a row is all or nothing: it is built exactly when
    the key map is non-empty and every column name is safe, it then constrains
    every key column of the map once, by equality to a bound value or by IS NULL,
    and a single unsafe name yields no clause at all. *)
Theorem build_pk_where_all_or_nothing row_pks :
  (build_pk_where_from_map row_pks = None <->
     row_pks = [] \/ exists k, k ∈ jkeys row_pks /\ is_safe_identifier k = false) /\
  (forall w values, build_pk_where_from_map row_pks = Some (w, values) ->
     w = map where_atom row_pks /\ length w = length row_pks /\
     values = omap where_value row_pks /\ JNull ∉ values /\
     forall k v, (k, v) ∈ row_pks -> (if json_eqb v JNull then WIsNull k else WEq k) ∈ w).
Proof.
  assert (build_pk_where_from_map row_pks = None <->
     row_pks = [] \/ exists k, k ∈ jkeys row_pks /\ is_safe_identifier k = false) as Hnone.
  { unfold build_pk_where_from_map. destruct row_pks as [|e row_pks]; [tauto|].
    rewrite pk_where_loop_spec. destruct (forallb _ _) eqn:Hall.
    - split; [done|]. intros [|(k & Hk & Hu)]; [done|]. rewrite forallb_forall in Hall.
      apply list_elem_of_In, Hall in Hk. congruence.
    - split; [intros _|done]. right.
      apply not_true_iff_false in Hall. rewrite forallb_forall in Hall.
      destruct (List.existsb (fun k => negb (is_safe_identifier k)) (jkeys (e :: row_pks))) eqn:Hex.
      + apply existsb_exists in Hex as (k & Hk & Hu%negb_true_iff). exists k.
        split; [by apply list_elem_of_In|done].
      + exfalso. apply Hall. intros k Hk. destruct (is_safe_identifier k) eqn:Hs; [done|].
        assert (existsb (fun k => negb (is_safe_identifier k)) (jkeys (e :: row_pks)) = true); [|congruence].
        apply existsb_exists. exists k. by rewrite Hs. }
  split; [exact Hnone|]. intros w values Hb.
  apply build_pk_where_Some in Hb as [-> ->].
  split; [done|]. split; [by rewrite length_map|]. split; [done|]. split.
  - intros ([k v] & Hin & Hv)%list_elem_of_omap. by destruct v.
  - intros k v Hin. apply list_elem_of_fmap. exists (k, v). split; [|done].
    unfold where_atom. by destruct v.
Qed.
End where_properties.
