(* ===== verification/Policy.v ===== *)
(** * The apply policy and the signature provider
    (src/crdt/apply/policy_types.rs, policy.rs, src/signature.rs)

    The types that cross the policy boundary and the two traits as records of
    operations. A hook takes and returns the policy's own state and, inside the
    transaction, the database value. *)

From S2P Require Import Prelude Json Sql Hlc Trigger Report Errors Value Scanner.

Abbreviation RemoteChanges := (list ColumnChange) (only parsing).

(** ** Policy types *)

Record IndexedChange := mkIndexed { ic_input_index : nat; ic_change : ColumnChange }.

Record RowInput := mkRowInput {
  ri_table_name : string;
  ri_row_pks_json : string;
  ri_row_pks : list (string * json);
  ri_schema : list ColumnInfo;
  ri_exists : bool;
  ri_changes : list IndexedChange;
  ri_eligible_indices : list nat;
}.

Inductive SignatureWrite := Keep | Replace (sig : option json).

Inductive ColumnDecision :=
| ColumnSkip
| Accept (value : SqlValue) (signature : SignatureWrite).

Inductive RowDecision :=
| RowSkip
| Columns (decisions : list ColumnDecision).

Record WrittenColumn := mkWritten {
  wc_input_index : nat;
  wc_change : ColumnChange;
  wc_value : SqlValue;
}.

Record RowWrite := mkRowWrite {
  rw_table_name : string;
  rw_row_pks_json : string;
  rw_row_pks : list (string * json);
  rw_schema : list ColumnInfo;
  rw_columns : list WrittenColumn;
  rw_row_hlc : string;
}.

Inductive ConstraintDecision := SkipRow | AbortBatch.

(** ** The trait *)

Record ApplyPolicy (db P : Type) := mkPolicy {
  preflight : P -> RemoteChanges -> res Error P;
  begin : P -> db -> RemoteChanges -> res Error (P * db);
  prepare_row : P -> db -> RowInput -> res Error (RowDecision * P * db);
  after_row : P -> db -> RowWrite -> res Error (P * db);
  on_insert_constraint : P -> db -> RowWrite -> SqlError -> res Error (ConstraintDecision * P * db);
  before_commit : P -> db -> RemoteChanges -> ApplyOutcome -> res Error (P * db);
}.
Arguments preflight {db P}.
Arguments begin {db P}.
Arguments prepare_row {db P}.
Arguments after_row {db P}.
Arguments on_insert_constraint {db P}.
Arguments before_commit {db P}.

(** The default method bodies. *)
Definition default_begin {db P} (p : P) (tx : db) (changes : RemoteChanges) : res Error (P * db) :=
  Ok (p, tx).
Definition default_after_row {db P} (p : P) (tx : db) (written : RowWrite) : res Error (P * db) :=
  Ok (p, tx).
Definition default_on_insert_constraint {db P} (p : P) (tx : db) (attempted : RowWrite) (error : SqlError)
    : res Error (ConstraintDecision * P * db) :=
  Ok (AbortBatch, p, tx).
Definition default_before_commit {db P} (p : P) (tx : db) (changes : RemoteChanges) (o : ApplyOutcome)
    : res Error (P * db) :=
  Ok (p, tx).

(** ** Signatures *)

Definition AuthorId := string.
Definition anonymous : AuthorId := EmptyString.

Record SignatureProvider := mkProvider {
  sign_column : string -> res Error string;
  verify_column : string -> json -> res Error unit;
  author_id : AuthorId;
  on_before_apply : RemoteChanges -> res Error unit;
}.

Definition default_on_before_apply (changes : RemoteChanges) : res Error unit := Ok tt.

Definition is_null (v : json) : bool := match v with JNull => true | _ => false end.

Definition noop_verify_column (preimage : string) (sig : json) : res Error unit :=
  if is_null sig then Ok tt else Err UnexpectedSignatureUnderNoop.

Definition NoopSignatureProvider : SignatureProvider :=
  mkProvider (fun _ => Ok EmptyString) noop_verify_column anonymous default_on_before_apply.
