(* ===== verification/Preflight.v ===== *)
(** * The pre-transaction phase
    (src/crdt/apply/preflight.rs, src/crdt/apply/signature_policy.rs)

    Every check that can refuse a batch before a transaction exists: the
    identifier gate, HLC validity and clock drift per change in batch order,
    then the policy's own preflight; and the policy that wraps a signature
    provider. The clock is read once per change: [now i] is the reading for the
    change at position [i]. *)

From S2P Require Import Prelude Utf8 Json Sql Mini Hlc Trigger Report Errors Value Scanner Preimage Policy.

Section preflight.
Context `{Unicode} `{Uhlc}.

Definition invalid_table (change : ColumnChange) : Error :=
  Database (ValidationError ("Invalid table name '" +:+ table_name change +:+ "' in remote change")).
Definition invalid_column (change : ColumnChange) : Error :=
  Database (ValidationError ("Invalid column name '" +:+ column_name change +:+ "' in table '" +:+
                             table_name change +:+ "'")).
Definition invalid_hlc (change : ColumnChange) (error : string) : Error :=
  HlcErr ("Invalid remote HLC timestamp '" +:+ hlc_timestamp change +:+ "': " +:+ error).

(** The body of the loop of [check_identifiers_and_drift]. *)
Definition check_change (now : Z) (change : ColumnChange) : res Error unit :=
  if negb (is_safe_identifier (table_name change)) then Err (invalid_table change)
  else if negb (is_safe_identifier (column_name change)) then Err (invalid_column change)
  else
    (if contains_char "/" (hlc_timestamp change)
     then _ ← map_err (invalid_hlc change) (ts_from_str (hlc_timestamp change)); Ok tt
     else Ok tt) ≫= fun _ =>
    match remote_hlc_drift now (hlc_timestamp change) with
    | Some drift =>
        if MAX_REMOTE_HLC_DRIFT <? drift
        then Err (RemoteHlcDriftTooLarge (hlc_timestamp change) drift MAX_REMOTE_HLC_DRIFT)
        else Ok tt
    | None => Ok tt
    end.

Definition check_identifiers_and_drift (now : nat -> Z) (changes : list ColumnChange) : res Error unit :=
  for_each (fun i change => check_change (now i) change) 0 changes.

Definition preflight_batch {db P} (now : nat -> Z) (changes : list ColumnChange)
    (policy : ApplyPolicy db P) (p : P) : res Error P :=
  _ ← check_identifiers_and_drift now changes;
  preflight policy p changes.
End preflight.

Section verify.
Context `{Serde} `{Base64}.

(** The [is_ok] of a call; a panic of the call goes on. *)
Definition accepted {A} (r : res Error A) : res Error bool :=
  match r with Ok _ => Ok true | Err _ => Ok false | Panic m => Panic m end.

Definition verifies (provider : SignatureProvider) (change : ColumnChange) (sg : json) : res Error bool :=
  verified ← accepted (verify_column provider (column_sig_preimage change) sg);
  if verified : bool then Ok true
  else match legacy_column_sig_preimage change with
       | Some legacy => accepted (verify_column provider legacy sg)
       | None => Ok false
       end.

Definition verify_change (provider : SignatureProvider) (idx : nat) (change : ColumnChange) : res Error unit :=
  match sig change with
  | None => Ok tt
  | Some sg =>
      verified ← verifies provider change sg;
      if verified : bool then Ok tt else Err (SignatureVerificationFailed idx)
  end.
Definition verify_all_signatures (changes : list ColumnChange) (provider : SignatureProvider)
    : res Error unit :=
  for_each (verify_change provider) 0 changes.

(** [SignatureApplyPolicy]; its state is the provider, which never changes. *)
Definition signature_preflight (provider : SignatureProvider) (p : unit) (changes : list ColumnChange)
    : res Error unit :=
  _ ← on_before_apply provider changes;
  _ ← verify_all_signatures changes provider;
  Ok tt.

Definition signature_decision (row : RowInput) (idx : nat) : res Error ColumnDecision :=
  ic ← expect (ri_changes row !! idx) "index out of bounds";
  v ← from_db (json_to_rusqlite_value (value (ic_change ic)));
  Ok (Accept v (Replace (sig (ic_change ic)))).

Definition signature_prepare_row {db} (p : unit) (tx : db) (row : RowInput)
    : res Error (RowDecision * unit * db) :=
  decisions ← try_map (signature_decision row) (ri_eligible_indices row);
  Ok (Columns decisions, tt, tx).

Definition SignatureApplyPolicy {db} (provider : SignatureProvider) : ApplyPolicy db unit :=
  mkPolicy db unit (signature_preflight provider) default_begin signature_prepare_row
    default_after_row default_on_insert_constraint default_before_commit.
End verify.

(** ** Lemmas *)

Section check_lemmas.
Context `{Unicode} `{UhlcLaws}.

(** *** What the core checks ask of a change, and how they refuse it *)

(** How far ahead of the clock's reading a timestamp is. *)
Definition ahead (now : Z) (t : Timestamp) (drift : Z) : Prop :=
  mask_now now < ts_time t /\ drift = ntp_to_duration (ts_time t - mask_now now).

Record plausible (now : Z) (c : ColumnChange) : Prop := {
  pl_table : is_safe_identifier (table_name c) = true;
  pl_column : is_safe_identifier (column_name c) = true;
  pl_hlc : contains_char "/" (hlc_timestamp c) = true -> exists t, ts_from_str (hlc_timestamp c) = Ok t;
  pl_drift : forall t drift, ts_from_str (hlc_timestamp c) = Ok t -> ahead now t drift -> drift <= MAX_REMOTE_HLC_DRIFT;
}.

(** The error a change is refused with, in the order the checks are made. *)
Inductive refused (now : Z) (c : ColumnChange) : Error -> Prop :=
| refused_table : is_safe_identifier (table_name c) = false -> refused now c (invalid_table c)
| refused_column :
    is_safe_identifier (table_name c) = true -> is_safe_identifier (column_name c) = false ->
    refused now c (invalid_column c)
| refused_hlc error :
    is_safe_identifier (table_name c) = true -> is_safe_identifier (column_name c) = true ->
    contains_char "/" (hlc_timestamp c) = true -> ts_from_str (hlc_timestamp c) = Err error ->
    refused now c (invalid_hlc c error)
| refused_drift t drift :
    is_safe_identifier (table_name c) = true -> is_safe_identifier (column_name c) = true ->
    ts_from_str (hlc_timestamp c) = Ok t -> ahead now t drift -> MAX_REMOTE_HLC_DRIFT < drift ->
    refused now c (RemoteHlcDriftTooLarge (hlc_timestamp c) drift MAX_REMOTE_HLC_DRIFT).

Lemma refused_implausible now c e : refused now c e -> ~ plausible now c.
Proof.
  intros Hr [Ht Hc Hh Hd]. destruct Hr as [|?|error _ _ Hs He|t drift _ _ Hp Ha Hm]; [congruence..| |].
  - destruct (Hh Hs) as [t Hp]. congruence.
  - specialize (Hd t drift Hp Ha). lia.
Qed.

Lemma ts_from_str_np s : no_panic (ts_from_str s).
Proof. destruct (ts_from_str s) as [| |m] eqn:Hm; try done. exfalso. by apply (ts_from_str_no_panic s m). Qed.

(** The drift gate alone, on a string that passed the validity check. *)
Lemma remote_hlc_drift_ahead now s drift :
  remote_hlc_drift now s = Some drift <-> exists t, ts_from_str s = Ok t /\ ahead now t drift.
Proof.
  unfold remote_hlc_drift, ahead. destruct (ts_from_str s) as [t| |]; [|naive_solver..].
  destruct (mask_now now <? ts_time t) eqn:Hlt; split.
  - intros [= <-]. exists t. split; [done|]. split; [lia|done].
  - by intros (t' & [= <-] & _ & ->).
  - done.
  - intros (t' & [= <-] & ? & _). lia.
Qed.

Lemma check_change_spec now c :
  (plausible now c /\ check_change now c = Ok tt) \/ exists e, refused now c e /\ check_change now c = Err e.
Proof.
  unfold check_change. destruct (is_safe_identifier (table_name c)) eqn:Ht; cbn [negb]; [|right; eexists; split; [by apply refused_table|done]].
  destruct (is_safe_identifier (column_name c)) eqn:Hc; cbn [negb]; [|right; eexists; split; [by apply refused_column|done]].
  destruct (contains_char "/" (hlc_timestamp c)) eqn:Hs.
  1: destruct (ts_from_str (hlc_timestamp c)) as [t|error|m] eqn:Hp; cbn [map_err res_bind];
    [|right; eexists; split; [by apply refused_hlc|done]|by apply ts_from_str_no_panic in Hp].
  all: cbn [res_bind mbind]; destruct (remote_hlc_drift now (hlc_timestamp c)) as [drift|] eqn:Hd.
  1, 3: apply remote_hlc_drift_ahead in Hd as (t' & Hp' & Ha); destruct (MAX_REMOTE_HLC_DRIFT <? drift) eqn:Hm;
    [right; eexists; split; [by eapply refused_drift; [..|exact Hp'|exact Ha|lia]|done]|].
  all: left; split; [split; [done|done|intros ?; first [congruence|by eauto]|]|done].
  1, 2: intros t2 d2 Hp2 [_ ->]; assert (t2 = t') as -> by congruence; destruct Ha as [_ ->]; lia.
  all: intros t2 d2 Hp2 Ha2; assert (remote_hlc_drift now (hlc_timestamp c) = Some d2) by (apply remote_hlc_drift_ahead; by exists t2);
    congruence.
Qed.

Lemma check_change_Ok now c : check_change now c = Ok tt <-> plausible now c.
Proof.
  destruct (check_change_spec now c) as [[Hp He]|(e & Hr & He)]; [done|]. rewrite He. split; [done|].
  intros Hp. by apply refused_implausible in Hr.
Qed.

Lemma check_change_no_panic now c : no_panic (check_change now c).
Proof. by destruct (check_change_spec now c) as [[_ ->]|(e & _ & ->)]. Qed.

(** The core checks over a batch. *)
Lemma check_batch_spec now changes :
  ((forall i c, changes !! i = Some c -> plausible (now i) c) /\ check_identifiers_and_drift now changes = Ok tt) \/
  exists i c e, changes !! i = Some c /\ refused (now i) c e /\
    (forall j d, (j < i)%nat -> changes !! j = Some d -> plausible (now j) d) /\
    check_identifiers_and_drift now changes = Err e.
Proof.
  unfold check_identifiers_and_drift.
  destruct (for_each_first (fun i change => check_change (now i) change) changes 0) as [[Hall Hr]|(i & c & Hi & Hne & Hr & Hb)].
  - left. split; [|exact Hr]. intros i c Hi. by apply check_change_Ok, Hall.
  - right. destruct (check_change_spec (now i) c) as [[_ He]|(e & Href & He)]; [done|]. exists i, c, e.
    split; [done|]. split; [done|]. split; [|by rewrite Hr, <- He]. intros j d Hj Hd. by apply check_change_Ok, Hb.
Qed.

Lemma check_batch_no_panic now changes : no_panic (check_identifiers_and_drift now changes).
Proof. by destruct (check_batch_spec now changes) as [[_ ->]|(i & c & e & _ & _ & _ & ->)]. Qed.

Lemma preflight_batch_plausible {db P} now changes (policy : ApplyPolicy db P) p p' :
  preflight_batch now changes policy p = Ok p' -> forall i c, changes !! i = Some c -> plausible (now i) c.
Proof.
  unfold preflight_batch. by destruct (check_batch_spec now changes) as [[Hall ->]|(i & c & e & _ & _ & _ & ->)].
Qed.
End check_lemmas.

(** ** Properties *)

(** C33: preflight judges a batch in order and names the first offender: either
    every change is plausible at the clock reading made for it - safe table and
    column names, a complete HLC that parses, and no timestamp more than the
    tolerance ahead of the clock - and the policy's own preflight decides; or the
    error is that of the first implausible change, for its first fault in that
    order - the table, the column, the malformed HLC with uhlc's reason, or the drift
    with its size and the limit - whatever the policy is: it is not consulted. *)
Theorem preflight_first_refusal `{Unicode} `{UhlcLaws} {db P} now changes (policy : ApplyPolicy db P) p :
  ((forall i c, changes !! i = Some c -> plausible (now i) c) /\
   preflight_batch now changes policy p = preflight policy p changes) \/
  exists i c e, changes !! i = Some c /\ refused (now i) c e /\
    (forall j d, (j < i)%nat -> changes !! j = Some d -> plausible (now j) d) /\
    forall Q (policy' : ApplyPolicy db Q) q, preflight_batch now changes policy' q = Err e.
Proof.
  unfold preflight_batch. destruct (check_batch_spec now changes) as [[Hall Hr]|(i & c & e & Hi & Href & Hb & Hr)].
  - left. split; [done|]. by rewrite Hr.
  - right. exists i, c, e. split; [done|]. split; [done|]. split; [done|]. intros Q policy' q. by rewrite Hr.
Qed.

(** A batch whose second change is days ahead of the clock. *)
Definition mini_ahead : list ColumnChange :=
  [mkChange "items" "{}" "body" "900/a" JNull "dev" None;
   mkChange "items" "{}" "body" "900000000000000/c" JNull "dev" None].

Lemma preflight_first_refusal_witness :
  exists i c e, mini_ahead !! i = Some c /\ refused 1000 c e /\
    forall Q (policy : ApplyPolicy Mem Q) q, preflight_batch (fun _ => 1000) mini_ahead policy q = Err e.
Proof.
  destruct (preflight_first_refusal (fun _ => 1000) mini_ahead (SignatureApplyPolicy (db := Mem) NoopSignatureProvider) tt)
    as [[Hall _]|(i & c & e & Hi & Hr & _ & He)]; [|by exists i, c, e].
  exfalso. specialize (Hall 1%nat _ eq_refl). apply check_change_Ok in Hall. vm_compute in Hall. discriminate Hall.
Defined.

(** Signatures are verified in batch order: either every carried signature
    verifies against the change's preimage or its legacy form, and the batch passes;
    or the first that does not decides, and the error names its position in the
    whole batch; a panic of the provider goes on. Unsigned changes are never shown
    to the provider. *)
Theorem verify_all_signatures_first_failure `{Serde} `{Base64} changes provider :
  ((forall i c sg, changes !! i = Some c -> sig c = Some sg -> verifies provider c sg = Ok true) /\
   verify_all_signatures changes provider = Ok tt) \/
  exists i c sg, changes !! i = Some c /\ sig c = Some sg /\
    (forall j d s, (j < i)%nat -> changes !! j = Some d -> sig d = Some s -> verifies provider d s = Ok true) /\
    ((verifies provider c sg = Ok false /\ verify_all_signatures changes provider = Err (SignatureVerificationFailed i)) \/
     exists m, verifies provider c sg = Panic m /\ verify_all_signatures changes provider = Panic m).
Proof.
  assert (forall i c, verify_change provider i c = Ok tt <-> forall sg, sig c = Some sg -> verifies provider c sg = Ok true) as Hok.
  { intros i c. unfold verify_change. destruct (sig c) as [sg|]; [|done].
    destruct (verifies provider c sg) as [[]| |] eqn:Hv; cbn; split; try done.
    1: by intros _ s [= <-].
    all: intros Hall; specialize (Hall sg eq_refl); congruence. }
  unfold verify_all_signatures.
  destruct (for_each_first (verify_change provider) changes 0) as [[Hall Hr]|(i & c & Hi & Hne & Hr & Hb)].
  - left. split; [|done]. intros i c sg Hi. exact (proj1 (Hok i c) (Hall i c Hi) sg).
  - right. rewrite Hr. revert Hne. cbn [Nat.add]. unfold verify_change. destruct (sig c) as [sg|] eqn:Hs; [|done].
    intros Hne. exists i, c, sg. split; [done|]. split; [done|].
    split; [intros j d s Hj Hd; exact (proj1 (Hok j d) (Hb j d Hj Hd) s)|].
    destruct (verifies provider c sg) as [[]|e|m] eqn:Hv; [done|by left| |by right; exists m].
    exfalso. revert Hv. unfold verifies, accepted. destruct (verify_column _ _ _); cbn; [done| |done].
    destruct (legacy_column_sig_preimage c); [|done]. by destruct (verify_column _ _ _).
Qed.

Lemma verify_all_signatures_no_panic `{Serde} `{Base64} changes provider :
  (forall preimage sg, no_panic (verify_column provider preimage sg)) -> no_panic (verify_all_signatures changes provider).
Proof.
  intros Hp. apply no_panic_for_each. intros i c. unfold verify_change. destruct (sig c) as [sg|]; [|done].
  assert (forall preimage, no_panic (accepted (verify_column provider preimage sg))) as Ha.
  { intros preimage. specialize (Hp preimage sg). by destruct (verify_column _ _ _). }
  apply no_panic_bind; [|by intros [] _]. unfold verifies. apply no_panic_bind; [done|]. intros [] _; [done|].
  by destruct (legacy_column_sig_preimage c).
Qed.
