(* ===== verification/Row.v ===== *)
(** * Row selection (src/crdt/apply/row.rs)

    Eligibility of a column, LWW selection with same-batch supersession over
    the columns a policy accepted, the delete-shadow check of an insert, and the
    HLCs of a stored row. *)

From S2P Require Import Prelude Utf8 Hashing Names Json Sql Mini Hlc Lww Trigger Report Errors Value Scanner Policy Grouping.

Record StagedColumn := mkStaged {
  sc_input_index : nat;
  sc_change : ColumnChange;
  sc_value : SqlValue;
  sc_signature : SignatureWrite;
}.

Definition sc_column (s : StagedColumn) : string := column_name (sc_change s).
Definition sc_hlc (s : StagedColumn) : string := hlc_timestamp (sc_change s).

(** ** Eligibility *)

Definition classify_eligibility (column : string) (existing_columns expected_pks : gset string)
    : option SkipReason :=
  if negb (bool_decide (column ∈ existing_columns)) then Some UnknownColumn
  else if String.eqb column HLC_TIMESTAMP_COLUMN || String.eqb column COLUMN_HLCS_COLUMN ||
          String.eqb column COLUMN_SIGS_COLUMN || bool_decide (column ∈ expected_pks)
  then Some ReservedColumn
  else if is_no_sync_name column then Some NoSyncColumn
  else None.

(** ** Selection *)

(** [staged.iter().find(...)] and [staged.remove(position)]. *)
Definition find_staged (col : string) (staged : list StagedColumn) : option StagedColumn :=
  List.find (fun s => String.eqb (sc_column s) col) staged.
Fixpoint remove_staged (col : string) (staged : list StagedColumn) : list StagedColumn :=
  match staged with
  | [] => []
  | s :: rest => if String.eqb (sc_column s) col then rest else s :: remove_staged col rest
  end.

Definition stored_hlc (column_hlcs : jmap) (col : string) : string :=
  default EmptyString (jget col column_hlcs ≫= as_str).

Definition running_hlc (staged : list StagedColumn) (column_hlcs : jmap) (col : string) : string :=
  match find_staged col staged with
  | Some s => sc_hlc s
  | None => stored_hlc column_hlcs col
  end.

Record Selection := mkSelection {
  sel_staged : list StagedColumn;
  sel_report : ApplyReport;
  sel_skipped : list SkippedChange;
}.

Definition push_skip (i : nat) (reason : SkipReason) (l : list SkippedChange) : list SkippedChange :=
  l ++ [mkSkipped i reason].

(** One iteration of the loop over decisions and eligible changes. *)
Definition select_step (column_hlcs : jmap) (acc : Selection) (decision : ColumnDecision)
    (ic : IndexedChange) : Selection :=
  let '(mkSelection staged report skipped) := acc in
  let change := ic_change ic in
  match decision with
  | ColumnSkip =>
      mkSelection staged (add_policy 1 report) (push_skip (ic_input_index ic) PolicySkip skipped)
  | Accept v signature =>
      let running := running_hlc staged column_hlcs (column_name change) in
      if negb (contains_char "/" (hlc_timestamp change)) ||
         negb (hlc_is_newer (hlc_timestamp change) running) then
        match find_staged (column_name change) staged with
        | Some _ =>
            mkSelection staged (add_superseded 1 report)
              (push_skip (ic_input_index ic) SupersededInBatch skipped)
        | None =>
            mkSelection staged (add_stale 1 report) (push_skip (ic_input_index ic) Stale skipped)
        end
      else
        let new := mkStaged (ic_input_index ic) change v signature in
        match find_staged (column_name change) staged with
        | Some evicted =>
            mkSelection (remove_staged (column_name change) staged ++ [new]) (add_superseded 1 report)
              (push_skip (sc_input_index evicted) SupersededInBatch skipped)
        | None => mkSelection (staged ++ [new]) report skipped
        end
  end.

Fixpoint select_loop (column_hlcs : jmap) (row : RowInput) (pairs : list (ColumnDecision * nat))
    (acc : Selection) : res Error Selection :=
  match pairs with
  | [] => Ok acc
  | (decision, changes_idx) :: rest =>
      ic ← expect (ri_changes row !! changes_idx) "index out of bounds";
      select_loop column_hlcs row rest (select_step column_hlcs acc decision ic)
  end.

Definition decision_count_mismatch (table : string) (decisions eligible : nat) : Error :=
  Database (ValidationError ("policy returned " +:+ pretty decisions +:+ " column decisions for " +:+
    pretty eligible +:+ " eligible columns in table '" +:+ table +:+ "'")).

Definition select_staged_columns (table : string) (decisions : list ColumnDecision) (row : RowInput)
    (column_hlcs : jmap) (rep : ApplyReport) (skip : list SkippedChange) : res Error Selection :=
  if negb (length decisions =? length (ri_eligible_indices row))%nat
  then Err (decision_count_mismatch table (length decisions) (length (ri_eligible_indices row)))
  else select_loop column_hlcs row (combine decisions (ri_eligible_indices row))
         (mkSelection [] rep skip).

(** ** The rest of the row decision *)

Abbreviation DeleteShadowMap := (gmap string (list (list (string * json) * string))) (only parsing).

Definition should_propagate_delete (delete_log_hlc : string) (target_row_hlc : option string) : bool :=
  match target_row_hlc with
  | None => true
  | Some target =>
      match compare_hlc_strings target delete_log_hlc with Gt => false | _ => true end
  end.

Definition delete_shadows_insert (delete_hlc insert_hlc : string) : bool :=
  match compare_hlc_strings insert_hlc delete_hlc with Gt => false | _ => true end.

Definition insert_suppressed_by_deletes (insert_pks : jmap) (insert_hlc : string)
    (candidates : list (list (string * json) * string)) : bool :=
  existsb (fun c => jmap_eqb (fst c) insert_pks && delete_shadows_insert (snd c) insert_hlc) candidates.

Definition insert_shadowed (table : string) (row_pks : jmap) (max_hlc_for_row : string)
    (shadow : DeleteShadowMap) : bool :=
  insert_suppressed_by_deletes row_pks max_hlc_for_row (default [] (shadow !! table)).

Definition max_hlc (staged : list StagedColumn) : res Error string :=
  expect (hlc_max (map sc_hlc staged)) "staged must be non-empty".

Definition skip_whole_group (o : ApplyOutcome) (group : list (nat * ColumnChange)) (reason : SkipReason)
    : ApplyOutcome :=
  mkOutcome (add_unknown_table (length group) (report o))
    (skipped o ++ map (fun e => mkSkipped (fst e) reason) group).

Section fetch.
Context `{Serde} {db : Type} `{Rusqlite db}.

Definition fetch_existing_hlcs (tx : db) (table : string) (w : list watom) (pk_values : list json)
    : res Error (option (string * jmap)) :=
  sql_params ← from_db (convert_params pk_values);
  match query_row tx (Select [COLUMN_HLCS_COLUMN; HLC_TIMESTAMP_COLUMN] table w) sql_params ≫=
        (fun row => hlcs ← get_opt_string row 0; row_hlc ← get_opt_string row 1; Ok (hlcs, row_hlc)) with
  | Ok (hlcs_str, row_hlc) =>
      Ok (Some (default EmptyString row_hlc, default [] (hlcs_str ≫= from_str_map)))
  | Err QueryReturnedNoRows => Ok None
  | Err e => Err (Sqlite e)
  | Panic m => Panic m
  end.
End fetch.

(** ** Lemmas on selection *)

Lemma find_staged_None col staged :
  find_staged col staged = None <-> forall s, s ∈ staged -> sc_column s <> col.
Proof.
  unfold find_staged. induction staged as [|s staged IH]; cbn.
  - split; [intros _ s Hs; by apply elem_of_nil in Hs|done].
  - destruct (String.eqb (sc_column s) col) eqn:E.
    + apply String.eqb_eq in E. split; [done|]. intros Hall. exfalso. by apply (Hall s); [left|].
    + apply String.eqb_neq in E. rewrite IH. split.
      * intros Hall s' [->|Hs']%elem_of_cons; auto.
      * intros Hall s' Hs'. apply Hall. by right.
Qed.

Lemma find_staged_Some col staged s :
  find_staged col staged = Some s -> s ∈ staged /\ sc_column s = col.
Proof. intros [Hin Hc]%find_some. split; [by apply list_elem_of_In|by apply String.eqb_eq]. Qed.

Lemma remove_staged_perm col staged s :
  find_staged col staged = Some s -> Permutation staged (s :: remove_staged col staged).
Proof.
  unfold find_staged. induction staged as [|s0 staged IH]; cbn; [done|].
  destruct (String.eqb (sc_column s0) col); [by intros [= ->]|].
  intros Hs. rewrite (IH Hs) at 1. apply Permutation_swap.
Qed.

Lemma NoDup_staged_unique staged s1 s2 :
  NoDup (map sc_column staged) -> s1 ∈ staged -> s2 ∈ staged -> sc_column s1 = sc_column s2 -> s1 = s2.
Proof.
  induction staged as [|s staged IH]; cbn [map]; [by intros _ ?%elem_of_nil|].
  rewrite NoDup_cons. intros [Hnin Hnd] [->|H1]%elem_of_cons [->|H2]%elem_of_cons Heq; [done| | |by apply IH].
  - exfalso. apply Hnin. rewrite Heq. by apply list_elem_of_fmap_2.
  - exfalso. apply Hnin. rewrite <- Heq. by apply list_elem_of_fmap_2.
Qed.

Lemma find_staged_unique staged s :
  NoDup (map sc_column staged) -> s ∈ staged -> find_staged (sc_column s) staged = Some s.
Proof.
  intros Hnd Hs. destruct (find_staged (sc_column s) staged) as [s'|] eqn:Hf.
  - apply find_staged_Some in Hf as [Hs' Hc]. f_equal. by eapply NoDup_staged_unique.
  - by apply (proj1 (find_staged_None _ _) Hf) in Hs.
Qed.

(** ** Selection refines the LWW registers *)

Abbreviation candidate := (ColumnDecision * IndexedChange)%type (only parsing).

(** The decisions paired with the changes they are about. *)
Definition paired (row : RowInput) (pairs : list (ColumnDecision * nat)) (cands : list candidate) : Prop :=
  Forall2 (fun p c => fst c = fst p /\ ri_changes row !! snd p = Some (snd c)) pairs cands.

Definition select_fold (column_hlcs : jmap) (cands : list candidate) (acc : Selection) : Selection :=
  fold_left (fun acc c => select_step column_hlcs acc (fst c) (snd c)) cands acc.

Lemma select_loop_fold column_hlcs row pairs : forall acc sel,
  select_loop column_hlcs row pairs acc = Ok sel <->
  exists cands, paired row pairs cands /\ sel = select_fold column_hlcs cands acc.
Proof.
  induction pairs as [|[d i] pairs IH]; intros acc sel; cbn [select_loop].
  - split.
    + intros [= <-]. exists []. split; [constructor|done].
    + by intros (cands & Hp%Forall2_nil_inv_l & ->); subst.
  - rewrite bind_Ok. split.
    + intros (ic & Hic & Hsel). apply IH in Hsel as (cands & Hp & ->).
      exists ((d, ic) :: cands). split; [constructor; [|done]|done]. cbn.
      by destruct (ri_changes row !! i); simplify_eq/=.
    + intros (cands & Hp & ->). apply Forall2_cons_inv_l in Hp as ([d' ic] & cands' & [Hd Hi] & Hp & ->).
      cbn in Hd, Hi. subst d'. exists ic. rewrite Hi. split; [done|]. apply IH. by exists cands'.
Qed.

(** The accepted candidates for one column, as the writes they propose. *)
Definition proposed (col : string) (c : candidate) : option StagedColumn :=
  match fst c with
  | ColumnSkip => None
  | Accept v signature =>
      if String.eqb (column_name (ic_change (snd c))) col
      then Some (mkStaged (ic_input_index (snd c)) (ic_change (snd c)) v signature) else None
  end.

(** The register a selection holds for a column. *)
Definition column_register (column_hlcs : jmap) (staged : list StagedColumn) (col : string)
    : register StagedColumn :=
  match find_staged col staged with
  | Some s => mkReg (sc_hlc s) (Some s)
  | None => mkReg (stored_hlc column_hlcs col) None
  end.

Lemma column_register_hlc column_hlcs staged col :
  reg_hlc (column_register column_hlcs staged col) = running_hlc staged column_hlcs col.
Proof. unfold column_register, running_hlc. by destruct (find_staged col staged). Qed.

Lemma find_staged_app col l1 l2 :
  find_staged col (l1 ++ l2) =
    match find_staged col l1 with Some s => Some s | None => find_staged col l2 end.
Proof.
  unfold find_staged. induction l1 as [|s l1 IH]; cbn; [done|]. by destruct (String.eqb _ _).
Qed.

Lemma find_staged_remove col c staged :
  NoDup (map sc_column staged) ->
  find_staged col (remove_staged c staged) =
    if String.eqb c col then None else find_staged col staged.
Proof.
  induction staged as [|s staged IH]; cbn [map remove_staged].
  - intros _. by destruct (String.eqb c col).
  - rewrite NoDup_cons. intros [Hnin Hnd]. destruct (String.eqb (sc_column s) c) eqn:E.
    + apply String.eqb_eq in E. destruct (String.eqb c col) eqn:E'.
      * apply String.eqb_eq in E' as <-. apply find_staged_None. intros s' Hs' Heq.
        apply Hnin. rewrite E, <- Heq. by apply list_elem_of_fmap_2.
      * unfold find_staged. cbn. by rewrite E, E'.
    + unfold find_staged in *. cbn. destruct (String.eqb (sc_column s) col) eqn:E'; [|by apply IH].
      apply String.eqb_eq in E' as <-. rewrite String.eqb_sym in E. by rewrite E.
Qed.

Lemma remove_staged_NoDup c staged :
  NoDup (map sc_column staged) ->
  NoDup (map sc_column (remove_staged c staged)) /\ c ∉ map sc_column (remove_staged c staged).
Proof.
  intros Hnd. split.
  - destruct (find_staged c staged) as [s|] eqn:Hf.
    + rewrite (Permutation_map sc_column (remove_staged_perm _ _ _ Hf)) in Hnd.
      by apply NoDup_cons in Hnd as [_ ?].
    + assert (remove_staged c staged = staged) as ->; [|done].
      clear Hnd. revert Hf. rewrite find_staged_None.
      induction staged as [|s staged IH]; cbn; [done|]. intros Hall.
      assert (String.eqb (sc_column s) c = false) as ->.
      { apply String.eqb_neq, Hall. by left. }
      f_equal. apply IH. intros s' Hs'. apply Hall. by right.
  - intros (s & Heq & Hs)%list_elem_of_fmap.
    pose proof (find_staged_remove c c staged Hnd) as Hf. rewrite String.eqb_refl in Hf.
    by apply (proj1 (find_staged_None _ _) Hf s Hs).
Qed.

(** One candidate: the loop invariant. *)
Record selection_inv (column_hlcs : jmap) (cands : list candidate) (skip0 : list SkippedChange)
    (rep0 : ApplyReport) (sel : Selection) : Prop := {
  inv_nodup : NoDup (map sc_column (sel_staged sel));
  inv_register : forall col, column_register column_hlcs (sel_staged sel) col =
    lww_merge sc_hlc (mkReg (stored_hlc column_hlcs col) None) (omap (proposed col) cands);
  inv_skipped : exists new, sel_skipped sel = skip0 ++ new /\
    Permutation (map sc_input_index (sel_staged sel) ++ map sk_input_index new)
                (map (fun c => ic_input_index (snd c)) cands) /\
    (forall c, read_counter c (sel_report sel) = (read_counter c rep0 + count_reason c new)%nat) /\
    applied (sel_report sel) = applied rep0 /\
    skipped_delete_target_newer (sel_report sel) = skipped_delete_target_newer rep0;
}.

Lemma selection_inv_start column_hlcs rep0 skip0 :
  selection_inv column_hlcs [] skip0 rep0 (mkSelection [] rep0 skip0).
Proof.
  split; [constructor|done|]. exists []. rewrite app_nil_r. split; [done|]. split; [done|].
  split; [|done]. intros c. cbn. lia.
Qed.

(** Skipping the candidate under some reason. *)
Lemma selection_inv_skip column_hlcs cands skip0 rep0 sel c reason f :
  selection_inv column_hlcs cands skip0 rep0 sel ->
  counts (reason_counter reason) f ->
  (forall col, column_register column_hlcs (sel_staged sel) col =
     lww_merge sc_hlc (column_register column_hlcs (sel_staged sel) col) (omap (proposed col) [c])) ->
  selection_inv column_hlcs (cands ++ [c]) skip0 rep0
    (mkSelection (sel_staged sel) (f 1%nat (sel_report sel))
       (push_skip (ic_input_index (snd c)) reason (sel_skipped sel))).
Proof.
  intros [Hnd Hreg (new & Hs & Hp & Hc & Ha & Hd)] Hf Hsame. split; cbn [sel_staged sel_skipped sel_report]; [done| |].
  - intros col. rewrite omap_app, lww_merge_app, <- Hreg. apply Hsame.
  - exists (new ++ [mkSkipped (ic_input_index (snd c)) reason]). unfold push_skip.
    rewrite Hs, app_assoc. split; [done|]. rewrite !map_app. split.
    + rewrite app_assoc, Hp. done.
    + destruct (Hf 1%nat (sel_report sel) CPolicy) as (_ & -> & ->). split; [|done].
      intros k. destruct (Hf 1%nat (sel_report sel) k) as (-> & _).
      rewrite Hc, count_reason_app, count_reason_one. lia.
Qed.

Lemma lww_write_rejected column_hlcs staged col c v sg i change :
  c = (Accept v sg, mkIndexed i change) ->
  negb (contains_char "/" (hlc_timestamp change)) ||
    negb (hlc_is_newer (hlc_timestamp change) (running_hlc staged column_hlcs (column_name change))) = true ->
  column_register column_hlcs staged col =
    lww_merge sc_hlc (column_register column_hlcs staged col) (omap (proposed col) [c]).
Proof.
  intros -> Hrej. cbn. unfold proposed; cbn [fst snd ic_change ic_input_index].
  destruct (String.eqb (column_name change) col) eqn:E; [|done].
  apply String.eqb_eq in E as <-. cbn. unfold lww_write.
  rewrite column_register_hlc. unfold sc_hlc at 1 2, complete_hlc. cbn [sc_change].
  by rewrite <- negb_andb, negb_true_iff in Hrej; rewrite Hrej.
Qed.

(** Staging an accepted change is one write to its column's register. *)
Lemma column_register_stage column_hlcs staged staged' v sg i change :
  let w := mkStaged i change v sg in
  negb (contains_char "/" (hlc_timestamp change)) ||
    negb (hlc_is_newer (hlc_timestamp change) (running_hlc staged column_hlcs (column_name change))) = false ->
  (forall col, col <> column_name change -> find_staged col staged' = find_staged col staged) ->
  find_staged (column_name change) staged' = None -> forall col,
  column_register column_hlcs (staged' ++ [w]) col =
    lww_merge sc_hlc (column_register column_hlcs staged col) (omap (proposed col) [(Accept v sg, mkIndexed i change)]).
Proof.
  set (col0 := column_name change). intros w Hacc Hoth Hnone col.
  cbn. unfold proposed. cbn [fst snd ic_change ic_input_index]. fold col0.
  unfold column_register at 1. rewrite find_staged_app.
  destruct (String.eqb col0 col) eqn:E.
  - apply String.eqb_eq in E as <-. rewrite Hnone. unfold find_staged. cbn [List.find].
    unfold sc_column, w at 1. cbn [sc_change]. fold col0. rewrite String.eqb_refl. cbn. unfold lww_write.
    rewrite column_register_hlc. unfold sc_hlc, complete_hlc. cbn [sc_change].
    rewrite <- negb_andb, negb_false_iff in Hacc. unfold w. cbn [sc_change]. fold col0 in Hacc. by rewrite Hacc.
  - cbn. rewrite Hoth by (apply String.eqb_neq in E; congruence). unfold column_register.
    destruct (find_staged col staged); [done|]. unfold find_staged. cbn.
    unfold sc_column, w. cbn [sc_change]. fold col0. by rewrite E.
Qed.

(** Staging the candidate, after evicting the staged change it supersedes. *)
Lemma selection_inv_stage column_hlcs cands skip0 rep0 sel v sg i change :
  selection_inv column_hlcs cands skip0 rep0 sel ->
  negb (contains_char "/" (hlc_timestamp change)) ||
    negb (hlc_is_newer (hlc_timestamp change)
            (running_hlc (sel_staged sel) column_hlcs (column_name change))) = false ->
  selection_inv column_hlcs (cands ++ [(Accept v sg, mkIndexed i change)]) skip0 rep0
    match find_staged (column_name change) (sel_staged sel) with
    | Some evicted =>
        mkSelection (remove_staged (column_name change) (sel_staged sel) ++ [mkStaged i change v sg])
          (add_superseded 1 (sel_report sel))
          (push_skip (sc_input_index evicted) SupersededInBatch (sel_skipped sel))
    | None => mkSelection (sel_staged sel ++ [mkStaged i change v sg]) (sel_report sel) (sel_skipped sel)
    end.
Proof.
  set (w := mkStaged i change v sg). set (col0 := column_name change).
  intros [Hnd Hreg (new & Hs & Hp & Hc & Ha & Hd)] Hacc.
  pose proof (fun staged' => column_register_stage column_hlcs _ staged' v sg i change Hacc) as Hnew. cbv zeta in Hnew. fold col0 in Hnew. fold w in Hnew.
  destruct (find_staged col0 (sel_staged sel)) as [ev|] eqn:Hf.
  - destruct (remove_staged_NoDup col0 _ Hnd) as [Hnd' Hnin].
    split; cbn [sel_staged sel_skipped sel_report].
    + rewrite map_app. apply NoDup_app. split; [done|]. split; [|apply NoDup_singleton].
      by intros x Hx ->%list_elem_of_singleton.
    + intros col. rewrite omap_app, lww_merge_app, <- Hreg. apply Hnew.
      * intros col' Hne. rewrite find_staged_remove by done.
        destruct (String.eqb col0 col') eqn:E; [|done]. apply String.eqb_eq in E. congruence.
      * rewrite find_staged_remove by done. by rewrite String.eqb_refl.
    + exists (new ++ [mkSkipped (sc_input_index ev) SupersededInBatch]). unfold push_skip.
      rewrite Hs, app_assoc. split; [done|]. split.
      * rewrite !map_app, <- Hp. rewrite (Permutation_map sc_input_index (remove_staged_perm _ _ _ Hf)).
        cbn. rewrite <- app_assoc. solve_Permutation.
      * destruct (add_superseded_counts 1%nat (sel_report sel) CPolicy) as (_ & -> & ->). split; [|done].
        intros k. destruct (add_superseded_counts 1%nat (sel_report sel) k) as (-> & _).
        rewrite Hc, count_reason_app.
        rewrite count_reason_one. cbn [reason_counter]. lia.
  - split; cbn [sel_staged sel_skipped sel_report].
    + rewrite map_app. apply NoDup_app. split; [done|]. split; [|apply NoDup_singleton].
      intros x (s & -> & Hin)%list_elem_of_fmap Heq%list_elem_of_singleton.
      by apply (proj1 (find_staged_None _ _) Hf s Hin).
    + intros col. rewrite omap_app, lww_merge_app, <- Hreg. by apply Hnew.
    + exists new. split; [done|]. split; [|done]. rewrite !map_app, <- Hp. cbn. solve_Permutation.
Qed.

Lemma selection_inv_step column_hlcs cands skip0 rep0 sel c :
  selection_inv column_hlcs cands skip0 rep0 sel ->
  selection_inv column_hlcs (cands ++ [c]) skip0 rep0 (select_step column_hlcs sel (fst c) (snd c)).
Proof.
  intros Hinv. destruct c as [[|v sg] [i change]]; cbn [fst snd]; destruct sel as [staged rep skip].
  - cbn [select_step ic_input_index].
    apply (selection_inv_skip _ _ _ _ _ (ColumnSkip, mkIndexed i change) PolicySkip add_policy Hinv); [auto with haex|done].
  - cbn [select_step ic_input_index ic_change].
    destruct (negb (contains_char "/" (hlc_timestamp change)) || _) eqn:Hrej.
    + pose proof (fun col => lww_write_rejected column_hlcs staged col _ v sg i change eq_refl Hrej) as Hsame.
      destruct (find_staged _ staged);
        [apply (selection_inv_skip _ _ _ _ _ (Accept v sg, mkIndexed i change) SupersededInBatch add_superseded Hinv) |
         apply (selection_inv_skip _ _ _ _ _ (Accept v sg, mkIndexed i change) Stale add_stale Hinv)]; auto with haex.
    + exact (selection_inv_stage _ _ _ _ _ v sg i change Hinv Hrej).
Qed.

Lemma selection_inv_fold column_hlcs cands2 skip0 rep0 : forall cands1 sel,
  selection_inv column_hlcs cands1 skip0 rep0 sel ->
  selection_inv column_hlcs (cands1 ++ cands2) skip0 rep0 (select_fold column_hlcs cands2 sel).
Proof.
  induction cands2 as [|c cands2 IH]; intros cands1 sel Hinv; [by rewrite app_nil_r|].
  change (c :: cands2) with ([c] ++ cands2). rewrite app_assoc.
  apply IH, selection_inv_step, Hinv.
Qed.

Lemma select_staged_inv table decisions row column_hlcs rep0 skip0 sel :
  select_staged_columns table decisions row column_hlcs rep0 skip0 = Ok sel ->
  exists cands, paired row (combine decisions (ri_eligible_indices row)) cands /\
    length decisions = length (ri_eligible_indices row) /\
    selection_inv column_hlcs cands skip0 rep0 sel.
Proof.
  unfold select_staged_columns. destruct (negb _) eqn:Hlen; [done|].
  intros (cands & Hp & ->)%select_loop_fold. exists cands. split; [done|]. split.
  - apply negb_false_iff, Nat.eqb_eq in Hlen. done.
  - apply (selection_inv_fold _ _ _ _ []), selection_inv_start.
Qed.

(** ** The row after a batch *)

(** The column-HLC map written with the row (src/crdt/apply/engine.rs). *)
Definition column_hlcs_after (column_hlcs : jmap) (staged : list StagedColumn) : jmap :=
  fold_left (fun m s => jinsert (sc_column s) (JString (sc_hlc s)) m) staged column_hlcs.

(** The values the staged columns overwrite. *)
Definition values_after (values : gmap string SqlValue) (staged : list StagedColumn)
    : gmap string SqlValue :=
  fold_left (fun m s => <[sc_column s := sc_value s]> m) staged values.

Lemma find_staged_cons_last col s staged :
  NoDup (map sc_column (s :: staged)) ->
  find_staged col (s :: staged) =
    match find_staged col staged with
    | Some s' => Some s'
    | None => if String.eqb (sc_column s) col then Some s else None
    end.
Proof.
  cbn [map]. rewrite NoDup_cons. intros [Hnin Hnd]. unfold find_staged at 1. cbn.
  destruct (String.eqb (sc_column s) col) eqn:E.
  - apply String.eqb_eq in E as <-.
    assert (find_staged (sc_column s) staged = None) as ->; [|done].
    apply find_staged_None. intros s' Hs' Heq. apply Hnin. rewrite <- Heq. by apply list_elem_of_fmap_2.
  - fold (find_staged col staged). by destruct (find_staged col staged).
Qed.

Lemma column_hlcs_after_get staged : forall column_hlcs col,
  NoDup (map sc_column staged) ->
  stored_hlc (column_hlcs_after column_hlcs staged) col =
    match find_staged col staged with Some s => sc_hlc s | None => stored_hlc column_hlcs col end.
Proof.
  unfold column_hlcs_after. induction staged as [|s staged IH]; intros ch col Hnd; [done|].
  cbn [fold_left]. rewrite IH by (by apply NoDup_cons in Hnd as [_ ?]).
  rewrite find_staged_cons_last by done. destruct (find_staged col staged); [done|].
  unfold stored_hlc. destruct (String.eqb (sc_column s) col) eqn:E.
  - apply String.eqb_eq in E as <-. by rewrite jget_insert_eq.
  - apply String.eqb_neq in E. by rewrite jget_insert_ne by congruence.
Qed.

Lemma values_after_get staged : forall values col,
  NoDup (map sc_column staged) ->
  values_after values staged !! col =
    match find_staged col staged with Some s => Some (sc_value s) | None => values !! col end.
Proof.
  unfold values_after. induction staged as [|s staged IH]; intros vs col Hnd; [done|].
  cbn [fold_left]. rewrite IH by (by apply NoDup_cons in Hnd as [_ ?]).
  rewrite find_staged_cons_last by done. destruct (find_staged col staged); [done|].
  destruct (String.eqb (sc_column s) col) eqn:E.
  - apply String.eqb_eq in E as <-. by rewrite lookup_insert_eq.
  - apply String.eqb_neq in E. by rewrite lookup_insert_ne.
Qed.

(** One row through a sequence of batches. *)
Definition row_state := (list (string * json) * gmap string SqlValue)%type.
Definition batch_step (st : row_state) (cands : list candidate) : row_state :=
  let staged := sel_staged (select_fold (fst st) cands (mkSelection [] default_report [])) in
  (column_hlcs_after (fst st) staged, values_after (snd st) staged).
Definition apply_batches (st : row_state) (batches : list (list candidate)) : row_state :=
  fold_left batch_step batches st.

Definition written (s : StagedColumn) : string * SqlValue := (sc_hlc s, sc_value s).
Definition column_writes (col : string) (cands : list candidate) : list (string * SqlValue) :=
  map written (omap (proposed col) cands).

(** The register a row state holds for a column, given its initial values. *)
Definition state_register (st : row_state) (col : string) (r : register (string * SqlValue))
    (initial : option SqlValue) : Prop :=
  stored_hlc (fst st) col = reg_hlc r /\
  snd st !! col = match reg_value r with Some w => Some (snd w) | None => initial end.

(** What a selection stages leaves every column as the merge of its
    register with the accepted changes. *)
Lemma selection_register st cands skip0 rep0 sel col r initial :
  state_register st col r initial -> selection_inv (fst st) cands skip0 rep0 sel ->
  state_register (column_hlcs_after (fst st) (sel_staged sel), values_after (snd st) (sel_staged sel))
    col (lww_merge fst r (column_writes col cands)) initial.
Proof.
  intros [Hh Hv] [Hnd Hreg _]. unfold state_register. cbn [fst snd].
  set (staged := sel_staged _) in *.
  rewrite column_hlcs_after_get, values_after_get by done.
  specialize (Hreg col). unfold column_register in Hreg.
  assert (lww_merge fst r (column_writes col cands) =
    match find_staged col staged with Some s => mkReg (sc_hlc s) (Some (written s)) | None => r end) as ->.
  { unfold column_writes.
    pose proof (lww_merge_map written sc_hlc fst (omap (proposed col) cands) (fun _ => eq_refl)
                 (mkReg (stored_hlc (fst st) col) None)) as Hmap.
    rewrite <- Hreg in Hmap. unfold reg_map in Hmap. cbn [reg_hlc reg_value fmap option_fmap option_map] in Hmap.
    rewrite Hh in Hmap.
    destruct r as [h x]. cbn [reg_hlc] in *. rewrite lww_merge_initial, Hmap.
    destruct (find_staged col staged); done. }
  destruct (find_staged col staged); done.
Qed.

Lemma batch_step_register st cands col r initial :
  state_register st col r initial ->
  state_register (batch_step st cands) col (lww_merge fst r (column_writes col cands)) initial.
Proof.
  intros Hst. eapply selection_register; [done|].
  apply (selection_inv_fold (fst st) cands [] default_report []), selection_inv_start.
Qed.

Lemma apply_batches_register batches : forall st col r initial,
  state_register st col r initial ->
  state_register (apply_batches st batches) col
    (lww_merge fst r (column_writes col (concat batches))) initial.
Proof.
  unfold apply_batches. induction batches as [|b batches IH]; intros st col r initial Hst; [done|].
  cbn [fold_left concat]. unfold column_writes. rewrite omap_app, map_app, lww_merge_app.
  apply IH. by apply batch_step_register.
Qed.

(** ** Properties *)

(** C5: selection implements the LWW register of every column: what is
    staged for a column, with its value and its signature decision, is the result
    of writing the accepted changes of that column, in batch order, to the
    register the stored column HLC describes; so the winner is strictly newer than
    what is stored, at least as new as every accepted complete change, and there
    is one winner per column. *)
Theorem select_staged_refines_lww table decisions row column_hlcs rep skip sel :
  select_staged_columns table decisions row column_hlcs rep skip = Ok sel ->
  exists cands, paired row (combine decisions (ri_eligible_indices row)) cands /\
    NoDup (map sc_column (sel_staged sel)) /\
    forall col,
      column_register column_hlcs (sel_staged sel) col =
        lww_merge sc_hlc (mkReg (stored_hlc column_hlcs col) None) (omap (proposed col) cands) /\
      (forall s, s ∈ sel_staged sel -> sc_column s = col ->
         hlc_is_newer (sc_hlc s) (stored_hlc column_hlcs col) = true /\
         forall w, w ∈ omap (proposed col) cands -> complete_hlc (sc_hlc w) = true ->
           cmp_le compare_hlc_strings (sc_hlc w) (sc_hlc s)).
Proof.
  intros (cands & Hp & _ & [Hnd Hreg _])%select_staged_inv. exists cands.
  split; [done|]. split; [done|]. intros col. split; [apply Hreg|].
  intros s Hs <-.
  pose proof (lww_merge_result sc_hlc (omap (proposed (sc_column s)) cands)
               (mkReg (stored_hlc column_hlcs (sc_column s)) None)) as [Hf _ Hg].
  rewrite <- Hreg in Hf, Hg. unfold column_register in Hf, Hg.
  rewrite (find_staged_unique _ _ Hnd Hs) in Hf, Hg. cbn [reg_hlc] in *. split; [|done].
  destruct Hf as [Hf|(w & _ & _ & Hn & Hw)]; [done|]. by injection Hw as _ <-.
Qed.

(** No silent drops: of the eligible changes of a row, each is either
    staged or recorded as skipped under its own batch index, exactly once; every
    counter of the report grows by the number of skips of its kind; and a policy
    that answers with the wrong number of decisions aborts the batch. *)
Theorem select_staged_accounts table decisions row column_hlcs rep skip :
  (length decisions <> length (ri_eligible_indices row) ->
     exists e, select_staged_columns table decisions row column_hlcs rep skip = Err (Database (ValidationError e))) /\
  (forall sel, select_staged_columns table decisions row column_hlcs rep skip = Ok sel ->
     exists cands new, paired row (combine decisions (ri_eligible_indices row)) cands /\
       sel_skipped sel = skip ++ new /\
       Permutation (map sc_input_index (sel_staged sel) ++ map sk_input_index new)
                   (map (fun c => ic_input_index (snd c)) cands) /\
       (forall reason, counter_of reason (sel_report sel) =
          (counter_of reason rep + count_reason (reason_counter reason) new)%nat) /\
       applied (sel_report sel) = applied rep).
Proof.
  split.
  - intros Hlen. unfold select_staged_columns. apply Nat.eqb_neq in Hlen. rewrite Hlen. cbn [negb].
    unfold decision_count_mismatch. eauto.
  - intros sel (cands & Hp & _ & [_ _ (new & Hs & Hperm & Hc & Ha & _)])%select_staged_inv.
    exists cands, new. split; [done|]. split; [done|]. split; [done|]. split; [|done].
    intros reason. rewrite !counter_of_spec. apply Hc.
Qed.

(** Apply accepts exactly what the scanner ships: a column is eligible
    exactly when it is one of the table's data columns, and otherwise it is
    refused as unknown, reserved or unsynced, in that order of precedence. *)
Theorem classify_eligibility_matches_scanner schema col :
  let names := list_to_set (map ci_name schema) : gset string in
  let pks := list_to_set (pk_names schema) : gset string in
  NoDup (map ci_name schema) ->
  (classify_eligibility col names pks = None <->
     col ∈ map ci_name (snd (partition_columns schema))) /\
  (classify_eligibility col names pks = Some UnknownColumn <-> col ∉ map ci_name schema) /\
  (classify_eligibility col names pks = Some ReservedColumn <->
     col ∈ map ci_name schema /\ (is_meta_column col = true \/ col ∈ pk_names schema)) /\
  (classify_eligibility col names pks = Some NoSyncColumn <->
     col ∈ map ci_name schema /\ is_meta_column col = false /\ col ∉ pk_names schema /\
     is_no_sync_name col = true).
Proof.
  intros names pks Hnd.
  assert (classify_eligibility col names pks =
    if bool_decide (col ∈ map ci_name schema) then
      if is_meta_column col || bool_decide (col ∈ pk_names schema) then Some ReservedColumn
      else if is_no_sync_name col then Some NoSyncColumn else None
    else Some UnknownColumn) as ->.
  { unfold classify_eligibility, is_meta_column, names, pks.
    rewrite (bool_decide_ext _ _ (elem_of_list_to_set _ (map ci_name schema))).
    rewrite (bool_decide_ext _ _ (elem_of_list_to_set _ (pk_names schema))).
    by destruct (bool_decide (col ∈ map ci_name schema)). }
  assert (col ∈ map ci_name (snd (partition_columns schema)) <->
    col ∈ map ci_name schema /\ col ∉ pk_names schema /\ is_no_sync_name col = false) as ->.
  { unfold partition_columns, pk_names. cbn [snd]. split.
    - intros (c & -> & [Hd Hc]%list_elem_of_filter)%list_elem_of_fmap.
      unfold is_data_column in Hd. split_bool. split; [by apply list_elem_of_fmap_2|]. split; [|done].
      intros (c' & Heq & [Hpk Hc']%list_elem_of_filter)%list_elem_of_fmap.
      assert (c = c') as ->; [|congruence].
      apply list_elem_of_lookup in Hc as [i Hi], Hc' as [j Hj].
      assert (i = j) as ->; [|congruence].
      eapply (NoDup_lookup _ i j (ci_name c) Hnd); rewrite list_lookup_fmap;
        [by rewrite Hi | rewrite Hj; cbn; by rewrite Heq].
    - intros ((c & -> & Hc)%list_elem_of_fmap & Hpk & Hns). apply list_elem_of_fmap. exists c.
      split; [done|]. apply list_elem_of_filter. split; [|done]. unfold is_data_column. rewrite Hns.
      destruct (ci_is_pk c) eqn:Hp; [|done]. exfalso. apply Hpk. apply list_elem_of_fmap. exists c.
      split; [done|]. by apply list_elem_of_filter. }
  pose proof (meta_column_no_sync col) as Hmeta.
  repeat case_bool_decide; destruct (is_meta_column col), (is_no_sync_name col); cbn [orb];
    try specialize (Hmeta eq_refl); try discriminate; naive_solver.
Qed.

(** Replicas converge, selection by selection: two replicas that start from the same row and
    receive the same accepted changes of a column - split into any batches, in any
    order, with any repetition - hold the same column HLC and the same value,
    as long as changes with one timestamp are the same write. *)
Theorem replicas_converge st1 st2 batches1 batches2 col r initial :
  state_register st1 col r initial -> state_register st2 col r initial ->
  no_ties fst (column_writes col (concat batches1)) ->
  (forall w, w ∈ column_writes col (concat batches1) <-> w ∈ column_writes col (concat batches2)) ->
  stored_hlc (fst (apply_batches st1 batches1)) col = stored_hlc (fst (apply_batches st2 batches2)) col /\
  snd (apply_batches st1 batches1) !! col = snd (apply_batches st2 batches2) !! col.
Proof.
  intros H1 H2 Htie Heq.
  apply (apply_batches_register batches1) in H1 as [-> ->].
  apply (apply_batches_register batches2) in H2 as [-> ->].
  by rewrite (lww_merge_set fst r _ _ Htie Heq).
Qed.

(** ** Witnesses *)

Definition mini_row_input (changes : list ColumnChange) : RowInput :=
  mkRowInput "items" "{}" [] mini_schema true (imap mkIndexed changes) (seq 0 (length changes)).
Definition mini_accept (v : string) : ColumnDecision := Accept (SText v) Keep.

Lemma select_staged_refines_lww_witness :
  let row := mini_row_input [mini_change "r" "body" "2/b"; mini_change "r" "body" "3/b"] in
  exists sel cands,
    select_staged_columns "items" [mini_accept "x"; mini_accept "y"] row [("body", JString "1/b")]
      default_report [] = Ok sel /\
    map sc_input_index (sel_staged sel) = [1%nat] /\
    paired row (combine [mini_accept "x"; mini_accept "y"] (ri_eligible_indices row)) cands.
Proof.
  intros row. eexists.
  destruct (select_staged_refines_lww "items" [mini_accept "x"; mini_accept "y"] row
              [("body", JString "1/b")] default_report [] _ eq_refl) as (cands & Hp & _).
  exists cands. split; [reflexivity|]. split; [vm_compute; reflexivity | exact Hp].
Defined.

Lemma classify_eligibility_matches_scanner_witness :
  NoDup (map ci_name mini_schema) /\
  (classify_eligibility "body" (list_to_set (map ci_name mini_schema))
     (list_to_set (pk_names mini_schema)) = None <->
   "body" ∈ map ci_name (snd (partition_columns mini_schema))).
Proof.
  assert (NoDup (map ci_name mini_schema)) as Hnd
    by (apply (bool_decide_unpack (NoDup (map ci_name mini_schema))); vm_compute; exact I).
  split; [exact Hnd|]. exact (proj1 (classify_eligibility_matches_scanner mini_schema "body" Hnd)).
Defined.

Definition mini_cand (i : nat) (col hlc v : string) : candidate :=
  (mini_accept v, mkIndexed i (mini_change "r" col hlc)).

Lemma replicas_converge_witness :
  let st : row_state := ([("body", JString "1/b")], ∅) in
  let b1 := [[mini_cand 0 "body" "2/b" "x"]; [mini_cand 0 "body" "3/b" "y"]] in
  let b2 := [[mini_cand 0 "body" "3/b" "y"; mini_cand 1 "body" "2/b" "x"]] in
  snd (apply_batches st b1) !! "body" = Some (SText "y") /\
  snd (apply_batches st b1) !! "body" = snd (apply_batches st b2) !! "body".
Proof.
  intros st b1 b2. split; [vm_compute; reflexivity|].
  refine (proj2 (replicas_converge st st b1 b2 "body" (mkReg "1/b" None) None _ _ _ _)).
  - split; reflexivity.
  - split; reflexivity.
  - change (no_ties fst [("2/b", SText "x"); ("3/b", SText "y")]).
    intros x y Hx Hy. rewrite !elem_of_cons, !elem_of_nil in Hx, Hy.
    destruct Hx as [->|[->|[]]], Hy as [->|[->|[]]]; vm_compute; congruence.
  - change (forall w, w ∈ [("2/b", SText "x"); ("3/b", SText "y")] <->
                      w ∈ [("3/b", SText "y"); ("2/b", SText "x")]).
    intros w. rewrite !elem_of_cons. tauto.
Defined.
