(* ===== verification/Write.v ===== *)
(** * The row writers (src/crdt/apply/write.rs)

    The UPDATE and INSERT a row ends in, each inside a savepoint, the
    classification of an INSERT failure, and the signature map written with the
    row. A statement that fails leaves the database value unchanged; one that
    changes another number of rows than one leaves its effect in place for the
    caller to abort. *)

From S2P Require Import Prelude Utf8 Hashing Names Json Sql Hlc Lww Trigger Report Errors Value Scanner Policy Grouping Row.

Inductive WriteOutcome (db : Type) :=
| Written (tx : db)
| SqlFailure (e : SqlError) (tx : db).
Arguments Written {db} tx.
Arguments SqlFailure {db} e tx.

Definition ROW_SAVEPOINT := "haex_apply_row".

Section writers.
Context `{Serde} {db : Type} `{Rusqlite db}.

Definition in_row_savepoint (tx : db) (write_fn : db -> res SqlError (nat * db))
    : res DatabaseError (WriteOutcome db) :=
  r ← db_from_sql (execute tx (Savepoint ROW_SAVEPOINT) []);
  let tx1 := snd r in
  match write_fn tx1 with
  | Ok (1%nat, tx2) =>
      r2 ← db_from_sql (execute tx2 (Release ROW_SAVEPOINT) []);
      Ok (Written (snd r2))
  | Ok (changed, tx2) => Ok (SqlFailure (StatementChangedRows changed) tx2)
  | Err source => Ok (SqlFailure source tx1)
  | Panic m => Panic m
  end.

Definition rollback_row_savepoint (tx : db) : res DatabaseError db :=
  r ← db_from_sql (execute tx (RollbackRelease ROW_SAVEPOINT) []); Ok (snd r).

Definition classify_insert_constraint (err : SqlError) : option SkipReason :=
  match err with
  | SqliteFailure extended_code =>
      if extended_code =? SQLITE_CONSTRAINT_NOTNULL then Some InsertNotNull
      else if extended_code =? SQLITE_CONSTRAINT_UNIQUE then Some InsertUnique
      else if extended_code =? SQLITE_CONSTRAINT_PRIMARYKEY then Some InsertPrimaryKey
      else None
  | _ => None
  end.

(** The last step of both writers: an oversized value is its own error. *)
Definition write_result (sql : string) (r : res DatabaseError (WriteOutcome db))
    : res DatabaseError (WriteOutcome db) :=
  o ← r;
  match o with
  | Written tx => Ok (Written tx)
  | SqlFailure source tx =>
      if bool_decide (sqlite_error_code source = Some SQLITE_TOOBIG) then Err (ValueTooLarge sql)
      else Ok (SqlFailure source tx)
  end.

(** ** Signature maps *)

Definition is_replace (sg : SignatureWrite) : bool :=
  match sg with Replace _ => true | Keep => false end.

Definition build_sigs_json_for_insert (staged : list StagedColumn) : string :=
  json_to_string (JObject (fold_left (fun m s =>
    match sc_signature s with
    | Replace (Some sg) => jinsert (sc_column s) sg m
    | _ => m
    end) staged [])).

Definition merge_sigs (staged : list StagedColumn) (m : jmap) : jmap :=
  fold_left (fun m s =>
    match sc_signature s with
    | Replace (Some sg) => jinsert (sc_column s) sg m
    | Replace None => jremove (sc_column s) m
    | Keep => m
    end) staged m.

Definition merge_sigs_json (tx : db) (table : string) (w : list watom) (pk_values : list json)
    (staged : list StagedColumn) : res DatabaseError string :=
  sql_params ← convert_params pk_values;
  let st := Select [COLUMN_SIGS_COLUMN] table w in
  _ ← db_from_sql (prepare tx st);
  let existing := match query_row tx st sql_params ≫= (fun row => get_string row 0) with
                  | Ok s => s
                  | _ => "{}"
                  end in
  Ok (json_to_string (JObject (merge_sigs staged (default [] (from_str_map existing))))).

(** ** UPDATE *)

Definition write_update (tx : db) (table : string) (staged : list StagedColumn)
    (column_hlcs_json max_hlc_for_row : string) (w : list watom) (pk_values : list json)
    (has_sigs_column : bool) : res DatabaseError (WriteOutcome db) :=
  let write_sigs := has_sigs_column && existsb (fun s => is_replace (sc_signature s)) staged in
  let meta := [COLUMN_HLCS_COLUMN; HLC_TIMESTAMP_COLUMN] ++
              (if write_sigs then [COLUMN_SIGS_COLUMN] else []) in
  let sql := render_update table (map sc_column staged) meta w in
  sigs ← (if write_sigs
          then j ← merge_sigs_json tx table w pk_values staged; Ok [SText j] else Ok []);
  pks ← convert_params pk_values;
  let params := map sc_value staged ++ [SText column_hlcs_json; SText max_hlc_for_row] ++ sigs ++ pks in
  write_result sql
    (in_row_savepoint tx (fun tx' => execute tx' (Update table (map sc_column staged ++ meta) w) params)).

(** ** INSERT *)

Definition pk_value (row_pks : jmap) (c : string) : res DatabaseError json :=
  expect (jget c row_pks) "no entry found for key".

Definition write_insert (tx : db) (table : string) (schema : list ColumnInfo) (row_pks : jmap)
    (staged : list StagedColumn) (column_hlcs_json max_hlc_for_row : string)
    (has_sigs_column : bool) : res DatabaseError (WriteOutcome db) :=
  let pk_columns := pk_names schema in
  pk_json_values ← try_map (pk_value row_pks) pk_columns;
  pk_sql_values ← convert_params pk_json_values;
  let columns := pk_columns ++ map sc_column staged ++ [COLUMN_HLCS_COLUMN; HLC_TIMESTAMP_COLUMN] ++
                 (if has_sigs_column then [COLUMN_SIGS_COLUMN] else []) in
  let values := pk_sql_values ++ map sc_value staged ++
                [SText column_hlcs_json; SText max_hlc_for_row] ++
                (if has_sigs_column then [SText (build_sigs_json_for_insert staged)] else []) in
  write_result (render_insert table columns)
    (in_row_savepoint tx (fun tx' => execute tx' (Insert table columns) values)).
End writers.
