(* ===== verification/DeleteProp.v ===== *)
(** * Delete propagation (src/crdt/apply/delete_propagation.rs)

    The snapshot of the delete log and the fan-out of inbound delete-log
    entries into their target tables. *)

From S2P Require Import Prelude Utf8 Hashing Names Json Sql Mini Hlc Lww Trigger Report Errors Value Scanner Policy Grouping Row.

Section delete_log.
Context `{Unicode} `{Serde} {db : Type} `{Rusqlite db}.

Definition shadow_row (row : list SqlValue) : res DatabaseError (string * string * option string) :=
  db_from_sql (t ← get_string row 0; pks ← get_string row 1; h ← get_opt_string row 2; Ok (t, pks, h)).

(** Entries without an HLC or with an unreadable key map are left out. *)
Definition add_shadow (m : DeleteShadowMap) (entry : string * string * option string)
    : DeleteShadowMap :=
  let '(table, pks_str, del_hlc) := entry in
  match del_hlc, from_str_map pks_str with
  | Some h, Some pks_map => <[table := default [] (m !! table) ++ [(pks_map, h)]]> m
  | _, _ => m
  end.

Definition load_delete_shadow_map (tx : db) : res DatabaseError DeleteShadowMap :=
  rows ← db_from_sql (query tx SelectDeleteLog []);
  entries ← try_map shadow_row rows;
  Ok (fold_left add_shadow entries ∅).

(** The row identity checks shared by the propagation of one entry: [None]
    is a [continue]. *)
Definition same_names (a b : list string) : bool :=
  bool_decide (list_to_set a =@{gset string} list_to_set b).

Definition delete_target (tx : db) (target_table row_pks_json : string)
    : option (list watom * list SqlValue) :=
  if negb (is_safe_identifier target_table) then None
  else match from_str_map row_pks_json with
  | None => None
  | Some row_pks =>
      match get_table_schema tx target_table with
      | Ok schema =>
          if negb (has_column HLC_TIMESTAMP_COLUMN schema) || negb (has_column COLUMN_HLCS_COLUMN schema)
          then None
          else
            let expected_pks := pk_names schema in
            match expected_pks with
            | [] => None
            | _ =>
                if negb (same_names expected_pks (jkeys row_pks)) then None
                else match build_pk_where_from_map row_pks with
                | None => None
                | Some (w, values) =>
                    match convert_params values with
                    | Ok sql_params => Some (w, sql_params)
                    | _ => None
                    end
                end
            end
      | _ => None
      end
  end.

Definition target_row_hlc (tx : db) (table : string) (w : list watom) (ps : list SqlValue)
    : res DatabaseError (option string) :=
  match query_row tx (Select [HLC_TIMESTAMP_COLUMN] table w) ps ≫= (fun row => get_opt_string row 0) with
  | Ok h => Ok h
  | Err QueryReturnedNoRows => Ok None
  | Err e => Err (DbSqlite e)
  | Panic m => Panic m
  end.

Definition propagate_one (tx : db) (rep : ApplyReport) (id : string)
    : res DatabaseError (db * ApplyReport) :=
  match query_row tx SelectDeleteLogById [SText id] ≫=
        (fun row => t ← get_string row 0; pks ← get_string row 1; h ← get_opt_string row 2;
                    Ok (t, pks, h)) with
  | Err QueryReturnedNoRows => Ok (tx, rep)
  | Err e => Err (DbSqlite e)
  | Panic m => Panic m
  | Ok (target_table, row_pks_json, None) => Ok (tx, rep)
  | Ok (target_table, row_pks_json, Some delete_hlc) =>
      match delete_target tx target_table row_pks_json with
      | None => Ok (tx, rep)
      | Some (w, sql_params) =>
          target ← target_row_hlc tx target_table w sql_params;
          if negb (should_propagate_delete delete_hlc target)
          then Ok (tx, add_delete_target_newer 1 rep)
          else
            r ← db_from_sql (execute tx (Delete target_table w) sql_params);
            Ok (snd r, rep)
      end
  end.

Fixpoint propagate_deleted_rows_to_target_tables (tx : db) (delete_log_ids : list string)
    (rep : ApplyReport) : res DatabaseError (db * ApplyReport) :=
  match delete_log_ids with
  | [] => Ok (tx, rep)
  | id :: ids =>
      r ← propagate_one tx rep id;
      propagate_deleted_rows_to_target_tables (fst r) ids (snd r)
  end.
End delete_log.

(** ** Properties *)

(** The outcome of a delete does not depend on arrival order: an insert at
    HLC [h] is suppressed by a delete already in the log exactly when that delete,
    arriving later, would remove a row at [h]; ties go to the delete; a newer delete
    suppresses whatever an older one does; and an insert is suppressed exactly when
    some logged delete of the same key map is at least as new. *)
Theorem delete_order_irrelevant :
  (forall d h, delete_shadows_insert d h = should_propagate_delete d (Some h)) /\
  (forall d h, delete_shadows_insert d h = true <-> hlc_is_newer h d = false) /\
  (forall d d' h, cmp_le compare_hlc_strings d d' -> delete_shadows_insert d h = true ->
     delete_shadows_insert d' h = true) /\
  (forall d, should_propagate_delete d None = true) /\
  (forall pks h candidates, insert_suppressed_by_deletes pks h candidates = true <->
     exists pks' d, (pks', d) ∈ candidates /\ jmap_eqb pks' pks = true /\ hlc_is_newer h d = false).
Proof.
  assert (forall d h, delete_shadows_insert d h = true <-> hlc_is_newer h d = false) as Hs.
  { intros d h. unfold delete_shadows_insert, hlc_is_newer. by destruct (compare_hlc_strings h d). }
  split; [done|]. split; [exact Hs|]. split; [|split; [done|]].
  - intros d d' h Hle. rewrite !Hs, !hlc_not_newer_le. intros Hh. by eapply cmp_le_trans; [apply _| |].
  - intros pks h cands. unfold insert_suppressed_by_deletes. rewrite existsb_exists. split.
    + intros ([pks' d] & Hin%list_elem_of_In & [Hp Hd]%andb_true_iff). cbn in *. exists pks', d.
      rewrite <- Hs. auto.
    + intros (pks' & d & Hin%list_elem_of_In & Hp & Hd). exists (pks', d). split; [done|]. cbn.
      by rewrite (proj2 (Hs d h) Hd), andb_true_r.
Qed.

Lemma same_names_elem a b k : same_names a b = true -> k ∈ a <-> k ∈ b.
Proof.
  unfold same_names. intros Heq%bool_decide_eq_true.
  rewrite <- (elem_of_list_to_set (C := gset string)), Heq. apply elem_of_list_to_set.
Qed.

(** A propagated delete can hit one row identity only: a target is formed
    only for a safely named table with the CRDT metadata whose primary key is
    non-empty and is exactly the set of names in the log entry, and its WHERE
    clause constrains every one of them. *)
Theorem delete_target_exact `{Unicode} `{Serde} {db} `{Rusqlite db} (tx : db) table pks_json w ps :
  delete_target tx table pks_json = Some (w, ps) ->
  exists schema row_pks values,
    is_safe_identifier table = true /\ get_table_schema tx table = Ok schema /\
    has_column HLC_TIMESTAMP_COLUMN schema = true /\ has_column COLUMN_HLCS_COLUMN schema = true /\
    from_str_map pks_json = Some row_pks /\
    (forall k, k ∈ pk_names schema <-> k ∈ jkeys row_pks) /\ pk_names schema <> [] /\
    w = map where_atom row_pks /\ values = omap where_value row_pks /\ convert_params values = Ok ps /\
    (forall k, k ∈ pk_names schema -> WEq k ∈ w \/ WIsNull k ∈ w).
Proof.
  unfold delete_target. destruct (is_safe_identifier table) eqn:Hsafe; [cbn [negb]|done].
  destruct (from_str_map pks_json) as [row_pks|] eqn:Hmap; [|done].
  destruct (get_table_schema tx table) as [schema| |] eqn:Hsch; [|done..].
  destruct (has_column HLC_TIMESTAMP_COLUMN schema) eqn:Hh; [cbn [negb orb]|done].
  destruct (has_column COLUMN_HLCS_COLUMN schema) eqn:Hc; [cbn [negb]|done].
  destruct (pk_names schema) as [|pk0 pks0] eqn:Hpk; [done|].
  destruct (same_names (pk0 :: pks0) (jkeys row_pks)) eqn:Hsame; [cbn [negb]|done].
  destruct (build_pk_where_from_map row_pks) as [[w' values]|] eqn:Hw; [|done].
  destruct (convert_params values) as [ps'| |] eqn:Hps; [|done..].
  intros [= -> ->].
  pose proof (fun k => same_names_elem _ _ k Hsame) as Hk.
  apply build_pk_where_Some in Hw as [Hwm Hvm].
  exists schema, row_pks, values. rewrite Hpk. repeat split; try done; [by apply Hk..|].
  intros k Hkk%Hk. unfold jkeys in Hkk. rewrite Hwm. apply list_elem_of_fmap in Hkk as ([k' v] & -> & Hin).
  apply (list_elem_of_fmap_2 where_atom) in Hin. cbn [fst].
  unfold where_atom in Hin. cbn [fst snd] in Hin. destruct v; auto.
Qed.

Lemma delete_target_exact_witness :
  exists w ps, delete_target (mini_mem [mini_row "a" "v" "2/b"]) "items"
      (print_json (JObject [("id", JString "a")])) = Some (w, ps) /\
    w = [WEq "id"] /\ is_safe_identifier "items" = true.
Proof.
  exists [WEq "id"], [SText "a"].
  assert (delete_target (mini_mem [mini_row "a" "v" "2/b"]) "items"
      (print_json (JObject [("id", JString "a")])) = Some ([WEq "id"], [SText "a"])) as E
    by (vm_compute; reflexivity).
  split; [exact E|]. split; [reflexivity|].
  destruct (delete_target_exact _ _ _ _ _ E) as (schema & row_pks & values & Hs & _). exact Hs.
Defined.
