(* ===== verification/Cleanup.v ===== *)
(** * Foreign keys, delete-log retention and statistics (src/crdt/cleanup/mod.rs) *)

From S2P Require Import Prelude Names Json Sql Mini Hlc Trigger Report Errors.

(** ** Transactions and the foreign-key pragma *)

Section connection.
Context {db : Type} `{Rusqlite db}.

(** [let tx = conn.transaction..()?; body; tx.commit()?]: the connection keeps
    the working value exactly when the commit succeeds. *)
Definition run_tx {E A} (on_sql : SqlError -> E) (begin_tx : db -> res SqlError unit) (conn : db)
    (body : db -> res E (A * db)) : res E A * db :=
  match begin_tx conn with
  | Ok _ =>
      match body conn with
      | Ok (a, tx) =>
          match commit tx with
          | Ok _ => (Ok a, tx)
          | Err e => (Err (on_sql e), conn)
          | Panic m => (Panic m, conn)
          end
      | Err e => (Err e, conn)
      | Panic m => (Panic m, conn)
      end
  | Err e => (Err (on_sql e), conn)
  | Panic m => (Panic m, conn)
  end.

Lemma run_tx_cases {E A} (on_sql : SqlError -> E) begin_tx (conn : db) body (r : res E A) conn' :
  run_tx on_sql begin_tx conn body = (r, conn') ->
  (exists a, r = Ok a /\ body conn = Ok (a, conn')) \/ (is_ok r = false /\ conn' = conn).
Proof.
  unfold run_tx. destruct (begin_tx conn); [|intros [= <- <-]; by right..].
  destruct (body conn) as [[x tx]| |]; [|intros [= <- <-]; by right..].
  destruct (commit tx); intros [= <- <-]; [left; by exists x | by right..].
Qed.

Lemma run_tx_Ok {E A} (on_sql : SqlError -> E) (bg : db -> res SqlError unit) conn
    (body : db -> res E (A * db)) a conn' :
  run_tx on_sql bg conn body = (Ok a, conn') -> body conn = Ok (a, conn').
Proof. unfold run_tx. repeat case_match; naive_solver. Qed.

Lemma run_tx_fail {E A} (on_sql : SqlError -> E) (bg : db -> res SqlError unit) conn
    (body : db -> res E (A * db)) r conn' :
  run_tx on_sql bg conn body = (r, conn') -> is_ok r = false -> conn' = conn.
Proof. unfold run_tx. repeat case_match; naive_solver. Qed.

Definition foreign_keys_enabled (conn : db) : res SqlError bool :=
  row ← query_row conn PragmaForeignKeys [];
  v ← get_int row 0;
  Ok (negb (v =? 0)).

Definition restore_foreign_keys (conn : db) (enabled : bool) : res SqlError db :=
  r ← execute conn (SetForeignKeys enabled) []; Ok (snd r).

(** [ForeignKeyGuard]: [disable] and the [Drop] that restores the setting. *)
Definition ForeignKeyGuard_disable (conn : db) : res SqlError (bool * db) :=
  was_enabled ← foreign_keys_enabled conn;
  r ← execute conn (SetForeignKeys false) [];
  Ok (was_enabled, snd r).
Definition ForeignKeyGuard_drop (conn : db) (was_enabled : bool) : db :=
  match restore_foreign_keys conn was_enabled with Ok c => c | _ => conn end.

(** [with_fk_disabled]: the closure's result, an error or a panic, is passed
    on after the pragma is restored. *)
Definition with_fk_disabled {E R} (from : SqlError -> E) (conn : db) (f : db -> res E R * db)
    : res E R * db :=
  match foreign_keys_enabled conn with
  | Ok was_enabled =>
      match execute conn (SetForeignKeys false) [] with
      | Ok (_, conn1) =>
          let '(result, conn2) := f conn1 in
          let conn3 := match restore_foreign_keys conn2 was_enabled with Ok c => c | _ => conn2 end in
          (result, conn3)
      | Err e => (Err (from e), conn)
      | Panic m => (Panic m, conn)
      end
  | Err e => (Err (from e), conn)
  | Panic m => (Panic m, conn)
  end.
End connection.

(** ** Retention *)

Inductive RetentionPolicy := TimeBasedDays (days : Z) | All.
Record CleanupResult := mkCleanup { rows_deleted : nat; max_pruned_hlc : option string }.

(** [compute_cutoff_hlc_num]. *)
Definition ns_per_day : Z := 24 * 60 * 60 * 1000000000.
Definition compute_cutoff_hlc_num (current_hlc_num retention_days : Z) : option Z :=
  let retention_ns := saturating_mul retention_days ns_per_day in
  let cutoff := saturating_sub current_hlc_num retention_ns in
  if cutoff <=? i64_max then Some cutoff else None.

Section cleanup.
Context `{Uhlc} {db : Type} `{Rusqlite db}.

Definition cutoff_invalid (s e : string) : DatabaseError :=
  InvalidHlc ("cleanup: invalid HLC in config '" +:+ s +:+ "': " +:+ e).

Definition compute_cutoff (tx : db) (policy : RetentionPolicy) : res DatabaseError (option Z) :=
  match policy with
  | All => Ok None
  | TimeBasedDays days =>
      current ← db_from_sql (optional (query_row tx ConfigGetHlc [SText HLC_TIMESTAMP_TYPE] ≫=
                                       (fun row => get_string row 0)));
      match current with
      | None => Ok None
      | Some s =>
          t ← map_err (cutoff_invalid s) (ts_from_str s);
          Ok (compute_cutoff_hlc_num (ts_time t) days)
      end
  end.

Definition read_max_prunable_hlc (tx : db) (policy : RetentionPolicy) (cutoff : option Z)
    : res DatabaseError (option string) :=
  match policy with
  | All =>
      db_from_sql (optional (query_row tx MaxPrunableAll [] ≫= (fun row => get_string row 0)))
  | TimeBasedDays _ =>
      match cutoff with
      | None => Ok None
      | Some c =>
          db_from_sql (optional (query_row tx MaxPrunableBefore [SInteger c] ≫=
                                 (fun row => get_string row 0)))
      end
  end.

(** The body of the transaction; [before_prune] is the consumer's hook. *)
Definition cleanup_body (policy : RetentionPolicy)
    (before_prune : db -> option string -> res DatabaseError db) (tx : db)
    : res DatabaseError (CleanupResult * db) :=
  cutoff ← compute_cutoff tx policy;
  max_pruned ← read_max_prunable_hlc tx policy cutoff;
  tx1 ← before_prune tx max_pruned;
  match policy, cutoff with
  | All, _ =>
      r ← db_from_sql (execute tx1 PruneAll []);
      Ok (mkCleanup (fst r) max_pruned, snd r)
  | TimeBasedDays _, None => Ok (mkCleanup 0 None, tx1)
  | TimeBasedDays _, Some c =>
      r ← db_from_sql (execute tx1 PruneBefore [SInteger c]);
      Ok (mkCleanup (fst r) max_pruned, snd r)
  end.

Definition cleanup_deleted_rows (conn : db) (policy : RetentionPolicy)
    (before_prune : db -> option string -> res DatabaseError db) : res DatabaseError CleanupResult * db :=
  with_fk_disabled DbSqlite conn (fun conn =>
    run_tx DbSqlite begin_deferred conn (cleanup_body policy before_prune)).

(** ** Statistics *)

Record CrdtStats := mkStats {
  live_row_count : Z;
  crdt_table_count : Z;
  delete_log_row_count : Z;
}.

Definition count_rows (conn : db) (table : string) : res SqlError Z :=
  row ← query_row conn (CountRows table) []; get_int row 0.

Fixpoint count_tables (conn : db) (tables : list string) (live n : Z) : res DatabaseError (Z * Z) :=
  match tables with
  | [] => Ok (live, n)
  | t :: rest => c ← db_from_sql (count_rows conn t); count_tables conn rest (live + c) (n + 1)
  end.

Definition get_crdt_stats (conn : db) : res DatabaseError CrdtStats :=
  rows ← db_from_sql (query conn StatsTables [SText DELETED_ROWS_TABLE]);
  table_names ← db_from_sql (try_map (fun row => get_string row 0) rows);
  r ← count_tables conn table_names 0 0;
  Ok (mkStats (fst r) (snd r)
        match count_rows conn DELETED_ROWS_TABLE with Ok n => n | _ => 0 end).
End cleanup.

(** ** Properties *)

(** The cutoff is computed without wrap-around on machine integers: it is
    never above the current time, is zero once the window reaches back before
    time zero, is exactly the difference when nothing saturates, and is absent
    exactly when it would not fit a signed 64-bit SQLite integer. *)
Theorem compute_cutoff_bounds now days :
  0 <= now <= u64_max -> 0 <= days <= u32_max ->
  (forall c, compute_cutoff_hlc_num now days = Some c ->
     0 <= c <= now /\ c <= i64_max /\ c = Z.max 0 (now - days * ns_per_day)) /\
  (compute_cutoff_hlc_num now days = None <-> i64_max < now - days * ns_per_day).
Proof.
  intros Hnow Hdays.
  assert (days * ns_per_day <= u64_max \/ u64_max < days * ns_per_day) as Hcase by lia.
  unfold compute_cutoff_hlc_num, saturating_mul, saturating_sub.
  assert (0 <= days * ns_per_day) by (unfold ns_per_day; lia).
  assert (0 < i64_max < u64_max) by done.
  destruct (Z.max _ _ <=? i64_max) eqn:Hc.
  - split; [intros c [= <-]; lia|]. split; [done|]. lia.
  - split; [done|]. split; [lia|done].
Qed.

Lemma compute_cutoff_bounds_witness :
  compute_cutoff_hlc_num 1000000000000000 3 = Some 740800000000000 /\
  (0 <= 740800000000000 <= 1000000000000000 /\ 740800000000000 <= i64_max /\
   740800000000000 = Z.max 0 (1000000000000000 - 3 * ns_per_day)).
Proof.
  split; [reflexivity|].
  apply (proj1 (compute_cutoff_bounds 1000000000000000 3 ltac:(split; vm_compute; discriminate)
                 ltac:(split; vm_compute; discriminate))). reflexivity.
Defined.

(** The window is subtracted from an NTP64 time in units of 2^-32 s, but is
    computed in nanoseconds: thirty days of retention keep less than seven. *)
Lemma cutoff_window_is_not_days :
  let now := 7500000000 * 2 ^ 30 in
  exists c, compute_cutoff_hlc_num now 30 = Some c /\
    ntp_to_duration (now - c) < 7 * ns_per_day /\ 7 * ns_per_day < 30 * ns_per_day.
Proof. eexists. split; [vm_compute; reflexivity|]. split; vm_compute; reflexivity. Qed.

(** Foreign keys: what the pragma does. *)
Class FkLaws db `{Rusqlite db} : Prop := {
  fk_set : forall c on n c', execute c (SetForeignKeys on) [] = Ok (n, c') ->
    foreign_keys_enabled c' = Ok on;
  fk_set_total : forall c on, exists n c', execute c (SetForeignKeys on) [] = Ok (n, c');
}.

#[export] Instance mini_fk_laws : FkLaws Mem.
Proof.
  split.
  - intros c on n c' [= <- <-]. by destruct on.
  - intros c on. eauto.
Qed.

Lemma with_fk_disabled_spec {db E R} `{FkLaws db} (from : SqlError -> E) (conn : db)
    (f : db -> res E R * db) was :
  foreign_keys_enabled conn = Ok was ->
  exists conn1, foreign_keys_enabled conn1 = Ok false /\
    fst (with_fk_disabled from conn f) = fst (f conn1) /\
    foreign_keys_enabled (snd (with_fk_disabled from conn f)) = Ok was.
Proof.
  intros Hwas. unfold with_fk_disabled. rewrite Hwas.
  destruct (fk_set_total conn false) as (n & conn1 & Hoff). rewrite Hoff.
  exists conn1. split; [by eapply fk_set|].
  destruct (f conn1) as [r conn2]. cbn [fst snd]. split; [done|].
  destruct (fk_set_total conn2 was) as (n2 & conn3 & Hon).
  unfold restore_foreign_keys. rewrite Hon. cbn. by eapply fk_set.
Qed.

(** Foreign-key enforcement is always given back: whatever the closure
    does - succeed, fail, panic, or change the pragma itself - the connection
    ends with the setting it started with, and the closure's own result is what
    the caller sees. *)
Theorem with_fk_disabled_restores {db E R} `{FkLaws db} (from : SqlError -> E) (conn : db)
    (f : db -> res E R * db) was :
  foreign_keys_enabled conn = Ok was ->
  exists conn1, foreign_keys_enabled conn1 = Ok false /\
    fst (with_fk_disabled from conn f) = fst (f conn1) /\
    foreign_keys_enabled (snd (with_fk_disabled from conn f)) = Ok was.
Proof. apply with_fk_disabled_spec. Qed.

Lemma with_fk_disabled_restores_witness :
  let f := fun m : Mem => (@Panic SqlError unit "boom", m) in
  foreign_keys_enabled (mini_mem []) = Ok true /\
  exists conn1, foreign_keys_enabled conn1 = Ok false /\
    fst (with_fk_disabled id (mini_mem []) f) = fst (f conn1) /\
    foreign_keys_enabled (snd (with_fk_disabled id (mini_mem []) f)) = Ok true.
Proof.
  intros f. split; [reflexivity|].
  apply (with_fk_disabled_restores id (mini_mem []) f true). reflexivity.
Defined.
