(* ===== verification/Init.v ===== *)
(** * Trigger bootstrap (src/db/init.rs)

    The trigger version kept in the configuration table and the passes that
    install triggers on every CRDT table. *)

From S2P Require Import Prelude Utf8 Names Sql Mini Hlc Trigger Report Errors Cleanup.

(** ** [i32] as text *)

Definition i32_max : Z := 2 ^ 31 - 1.

(** [str::parse::<i32>] and [i32::to_string]. *)
Definition parse_i32 (s : string) : option Z :=
  match s with
  | String c s' =>
      if Ascii.eqb c "-"
      then match s' with EmptyString => None | _ => Z.opp <$> parse_digits 10 (i32_max + 1) 0 s' end
      else from_str_radix 10 i32_max s
  | EmptyString => None
  end.
Definition i32_to_string (n : Z) : string :=
  if n <? 0 then String "-" (print_radix 10 10 (- n) EmptyString) else print_radix 10 10 n EmptyString.

Lemma parse_i32_to_string n : - (i32_max + 1) <= n <= i32_max -> parse_i32 (i32_to_string n) = Some n.
Proof.
  unfold i32_to_string, i32_max. intros Hn. assert (2 ^ 31 < 10 ^ Z.of_nat 10) as Hb by reflexivity.
  destruct (n <? 0) eqn:Hneg.
  - cbn [parse_i32 Ascii.eqb]. change (Ascii.eqb "-" "-") with true. cbv iota.
    destruct (print_radix 10 10 (- n) EmptyString) as [|c s] eqn:Hp; [by apply print_radix_nonempty in Hp|].
    rewrite <- Hp, parse_print_radix by (unfold i32_max; lia). cbn. f_equal. lia.
  - destruct (parse_digits_from_str 10 (2 ^ 31 - 1) (print_radix 10 10 n EmptyString) n) as [Hf _]; [done| | |].
    + by apply print_radix_nonempty.
    + rewrite parse_print_radix by lia. done.
    + unfold parse_i32. destruct (print_radix 10 10 n EmptyString) as [|c s] eqn:Hp; [done|].
      destruct (Ascii.eqb_spec c "-") as [->|]; [|exact Hf]. exfalso. cbn in Hf. done.
Qed.

Section init.
Context `{Unicode} {db : Type} `{Rusqlite db}.

Definition discover_crdt_tables (conn : db) : res DatabaseError (list string) :=
  db_from_sql (rows ← query conn CrdtTables []; try_map (fun row => get_string row 0) rows).

(** The stored version: [.ok()] turns every failure to read it into none, and
    text that is no number counts as version 1. *)
Definition stored_trigger_version (tx : db) : option Z :=
  match query_row tx ConfigGet [SText CONFIG_KEY_TRIGGER_VERSION] ≫= (fun row => get_string row 0) with
  | Ok val => Some (default 1 (parse_i32 val))
  | _ => None
  end.

(** INSERT OR REPLACE of a ['system'] key. *)
Definition replace_config (tx : db) (key value : string) : res DatabaseError db :=
  r ← db_from_sql (execute tx ConfigReplaceSystem [SText key; SText value]); Ok (snd r).

Definition setup_table (tx : db) (table_name : string) (recreate : bool)
    : res DatabaseError (TriggerSetupResult * db) :=
  map_err CrdtSetup (setup_triggers_for_table tx table_name recreate).

Fixpoint setup_all (tx : db) (tables : list string) (recreate : bool) : res DatabaseError db :=
  match tables with
  | [] => Ok tx
  | t :: rest => r ← setup_table tx t recreate; setup_all (snd r) rest recreate
  end.

Definition ensure_triggers_body (trigger_version : Z) (tx : db) : res DatabaseError (bool * db) :=
  let current_version := stored_trigger_version tx in
  tx1 ← replace_config tx CONFIG_KEY_TRIGGERS_ENABLED "1";
  let install needs_update :=
    crdt_tables ← discover_crdt_tables tx1;
    tx2 ← setup_all tx1 crdt_tables needs_update;
    tx3 ← replace_config tx2 CONFIG_KEY_TRIGGER_VERSION (i32_to_string trigger_version);
    Ok (false, tx3) in
  match current_version with
  | Some v => if trigger_version <=? v then Ok (true, tx1) else install true
  | None => install false
  end.

Definition ensure_triggers_initialized (trigger_version : Z) : conn_io db DatabaseError bool := fun conn =>
  run_tx DbSqlite begin_deferred conn (ensure_triggers_body trigger_version).

(** The incremental pass: only tables without the INSERT trigger. *)
Fixpoint setup_missing (tx : db) (tables : list string) (triggers_created : nat)
    : res DatabaseError (nat * db) :=
  match tables with
  | [] => Ok (triggers_created, tx)
  | t :: rest =>
      if trigger_exists tx ("z_dirty_" +:+ t +:+ "_insert") then setup_missing tx rest triggers_created
      else
        r ← setup_table tx t false;
        setup_missing (snd r) rest (match fst r with Success => S triggers_created | TableNotFound => triggers_created end)
  end.

Definition ensure_triggers_for_all_tables : conn_io db DatabaseError nat := fun conn =>
  run_tx DbSqlite begin_deferred conn (fun tx =>
    crdt_tables ← discover_crdt_tables tx; setup_missing tx crdt_tables 0).
End init.

(** ** The configuration table as a map *)

Class ConfigLaws (db : Type) `{Rusqlite db} := {
  config : db -> gmap string string;
  config_get : forall c k, query c ConfigGet [SText k] =
    Ok (match config c !! k with Some v => [[SText v]] | None => [] end);
  config_replace : forall c k v n c', execute c ConfigReplaceSystem [SText k; SText v] = Ok (n, c') ->
    config c' = <[k := v]> (config c);
}.

Section versions.
Context `{Unicode} {db : Type} `{HR : Rusqlite db} `{!ConfigLaws db}.

Definition version_in (cfg : gmap string string) : option Z :=
  (fun s => default 1 (parse_i32 s)) <$> cfg !! CONFIG_KEY_TRIGGER_VERSION.

Lemma stored_trigger_version_spec (c : db) : stored_trigger_version c = version_in (config c).
Proof.
  unfold stored_trigger_version, version_in, query_row. rewrite config_get.
  by destruct (config c !! CONFIG_KEY_TRIGGER_VERSION).
Qed.

Lemma replace_config_Ok (c c' : db) k v :
  replace_config c k v = Ok c' -> config c' = <[k := v]> (config c).
Proof.
  intros ([n c1] & Hex%map_err_Ok & [= <-])%bind_Ok. cbn [snd]. by eapply config_replace.
Qed.

(** Installing a table's triggers leaves the configuration rows alone. *)
Definition triggers_spare_config : Prop := forall (c c' : db) t recreate r,
  setup_triggers_for_table c t recreate = Ok (r, c') -> config c' = config c.

Lemma setup_all_config (c c' : db) tables recreate :
  triggers_spare_config -> setup_all c tables recreate = Ok c' -> config c' = config c.
Proof.
  intros Hsp. revert c; induction tables as [|t tables IH]; intros c; cbn [setup_all]; [by intros [= <-]|].
  intros ([r c1] & Hs%map_err_Ok & Hr)%bind_Ok. cbn [snd] in Hr. rewrite (IH _ Hr). by eapply Hsp.
Qed.
End versions.

(** ** Properties *)

(** The trigger version only moves forward: a successful bootstrap enables
    the triggers; it says "already there" exactly when a version at least as high as
    the requested one is stored (unreadable text counting as 1), and then keeps it;
    otherwise every discovered table was set up, with its triggers recreated exactly
    when some version was stored, and the requested version is stored; a second run
    finds the work done, and a failed run leaves the database as it was. *)
Theorem trigger_version_forward `{Unicode} {db} `{HR : Rusqlite db} `{!ConfigLaws db} (conn conn' : db) v r :
  triggers_spare_config (db := db) -> - (i32_max + 1) <= v <= i32_max ->
  ensure_triggers_initialized v conn = (r, conn') ->
  match r with
  | Ok already =>
      config conn' !! CONFIG_KEY_TRIGGERS_ENABLED = Some "1" /\
      (already = true <-> exists stored, version_in (config conn) = Some stored /\ v <= stored) /\
      (already = true -> version_in (config conn') = version_in (config conn)) /\
      (already = false -> version_in (config conn') = Some v /\
         exists tx tables tx', discover_crdt_tables tx = Ok tables /\
           setup_all tx tables (bool_decide (is_Some (version_in (config conn)))) = Ok tx') /\
      (forall again conn2, ensure_triggers_initialized v conn' = (Ok again, conn2) -> again = true)
  | _ => conn' = conn
  end.
Proof.
  intros Hsp Hv Hr. pose proof (run_tx_cases _ _ _ _ _ _ Hr) as [(a & -> & Hb)|[Hf ->]]; [|by destruct r].
  assert (config conn' !! CONFIG_KEY_TRIGGERS_ENABLED = Some "1" /\
    (a = true <-> exists stored, version_in (config conn) = Some stored /\ v <= stored) /\
    (a = true -> version_in (config conn') = version_in (config conn)) /\
    (a = false -> version_in (config conn') = Some v /\
       exists tx tables tx', discover_crdt_tables tx = Ok tables /\
         setup_all tx tables (bool_decide (is_Some (version_in (config conn)))) = Ok tx')) as (H1 & H2 & H3 & H4).
  { unfold ensure_triggers_body in Hb. rewrite stored_trigger_version_spec in Hb.
    apply bind_Ok in Hb as (tx1 & He & Hb). apply replace_config_Ok in He.
    assert (forall b, (crdt_tables ← discover_crdt_tables tx1; tx2 ← setup_all tx1 crdt_tables b;
      tx3 ← replace_config tx2 CONFIG_KEY_TRIGGER_VERSION (i32_to_string v); Ok (false, tx3)) = Ok (a, conn') ->
      a = false /\ config conn' !! CONFIG_KEY_TRIGGERS_ENABLED = Some "1" /\ version_in (config conn') = Some v /\
      exists tables tx', discover_crdt_tables tx1 = Ok tables /\ setup_all tx1 tables b = Ok tx') as Hinst.
    { intros b (tables & Ht & Hb2)%bind_Ok. apply bind_Ok in Hb2 as (tx2 & Hs & Hb2).
      apply bind_Ok in Hb2 as (tx3 & Hrc & [= <- <-]). apply replace_config_Ok in Hrc.
      pose proof (setup_all_config _ _ _ _ Hsp Hs) as Hcs. rewrite Hcs, He in Hrc. split; [done|]. split.
      { rewrite Hrc, lookup_insert_ne by done. apply lookup_insert_eq. }
      split; [|by exists tables, tx2].
      unfold version_in. rewrite Hrc, lookup_insert_eq. cbn. by rewrite parse_i32_to_string. }
    destruct (version_in (config conn)) as [stored|] eqn:Hst.
    - destruct (v <=? stored) eqn:Hle.
      + injection Hb as <- <-. rewrite He, lookup_insert_eq. split; [done|]. split.
        { split; [|done]. intros _. exists stored. split; [done|]. lia. }
        split; [|done]. intros _. unfold version_in. rewrite lookup_insert_ne by done. done.
      + apply Hinst in Hb as (-> & Hen & Hver & tables & tx' & Ht & Hs). split; [done|]. split.
        { split; [done|]. intros (s & [= <-] & Hs'). lia. }
        split; [done|]. intros _. split; [done|]. exists tx1, tables, tx'. done.
    - apply Hinst in Hb as (-> & Hen & Hver & tables & tx' & Ht & Hs). split; [done|]. split.
      { split; [done|]. by intros (s & ? & _). }
      split; [done|]. intros _. split; [done|]. exists tx1, tables, tx'. done. }
  split; [done|]. split; [done|]. split; [done|]. split; [done|].
  intros again conn2 Hr2. pose proof (run_tx_cases _ _ _ _ _ _ Hr2) as [(a2 & [= <-] & Hb2)|[? _]]; [|done].
  assert (exists stored, version_in (config conn') = Some stored /\ v <= stored) as (stored & Hst & Hle).
  { destruct a; [rewrite H3 by done; by apply H2|]. exists v. split; [by apply H4|done]. }
  unfold ensure_triggers_body in Hb2. rewrite stored_trigger_version_spec, Hst in Hb2.
  apply bind_Ok in Hb2 as (tx1 & _ & Hb2). rewrite (proj2 (Z.leb_le _ _) Hle) in Hb2. by injection Hb2 as <-.
Qed.

#[export] Instance mini_config : ConfigLaws Mem.
Proof.
  refine {| config := m_config |}; [done|]. by intros c k v n c' [= <- <-].
Defined.

Lemma mini_spares_config : triggers_spare_config (db := Mem).
Proof.
  intros c c' t recreate r Hs. apply bind_Ok in Hs as (columns & _ & Hs).
  destruct columns; [by injection Hs as <- <-|]. destruct (negb _); [done|].
  destruct (pk_names _) as [|pk pks]; [done|]. cbv zeta in Hs. destruct (first_unsafe _); [done|].
  apply bind_Ok in Hs as (c1 & H1 & Hs). assert (c1 = c) as ->.
  { destruct recreate; [|by injection H1]. unfold drop_triggers_for_table in H1.
    destruct (negb _); [done|]. by injection H1. }
  apply bind_Ok in Hs as (c2 & [= <-] & Hs). apply bind_Ok in Hs as (c3 & [= <-] & Hs).
  apply bind_Ok in Hs as (c4 & H4 & [= <- <-]). destruct (negb _); by injection H4 as <-.
Qed.

Lemma trigger_version_forward_witness :
  fst (ensure_triggers_initialized 7 (mini_mem [])) = Ok false /\
  config (snd (ensure_triggers_initialized 7 (mini_mem []))) !! CONFIG_KEY_TRIGGERS_ENABLED = Some "1".
Proof.
  assert (fst (ensure_triggers_initialized 7 (mini_mem [])) = Ok false) as E by (vm_compute; reflexivity).
  split; [exact E|].
  exact (proj1 (trigger_version_forward (mini_mem []) (snd (ensure_triggers_initialized 7 (mini_mem []))) 7 (Ok false)
    mini_spares_config ltac:(unfold i32_max; lia) (pair_result _ _ E))).
Defined.
