(* ===== verification/Compat.v ===== *)
(** * Databases from before the current names (src/db/migrations/compat.rs,
    src/db/migrations/bootstrap.rs) *)

From S2P Require Import Prelude Names Sql Mini Hlc Trigger Report Errors Value Cleanup.

(** [Sha256::digest]: the 32 bytes. *)
Class Sha256 := { sha256 : string -> string }.
Definition sha256_hex `{Sha256} (bytes : string) : string := encode_hex (sha256 bytes).

(** ** The crate's own migrations *)

Definition bootstrap_sql : string :=
"CREATE TABLE haex_crdt_configs_no_sync (
    key TEXT PRIMARY KEY NOT NULL,
    type TEXT NOT NULL,
    value TEXT NOT NULL
);
--> statement-breakpoint
CREATE TABLE haex_crdt_dirty_tables_no_sync (
    table_name TEXT PRIMARY KEY NOT NULL,
    last_modified TEXT
);
--> statement-breakpoint
CREATE TABLE haex_deleted_rows (
    id TEXT PRIMARY KEY NOT NULL,
    table_name TEXT NOT NULL,
    row_pks TEXT NOT NULL,
    haex_hlc_no_sync TEXT,
    haex_column_hlcs_no_sync TEXT NOT NULL DEFAULT '{}',
    haex_column_sigs_no_sync TEXT NOT NULL DEFAULT '{}'
);
".

Definition CRATE_MIGRATIONS : list (string * string) := [("0001_crdt_bootstrap", bootstrap_sql)].

(** ** Renaming the legacy schema *)

Definition LEGACY_COLUMNS : list string := ["haex_hlc"; "haex_column_hlcs"; "haex_column_sigs"].
Definition current_columns : list string :=
  [HLC_TIMESTAMP_COLUMN; COLUMN_HLCS_COLUMN; COLUMN_SIGS_COLUMN].

Definition LEGACY_TABLES : list (string * string) :=
  [("haex_crdt_configs", TABLE_CRDT_CONFIGS);
   ("haex_crdt_dirty_tables", TABLE_CRDT_DIRTY_TABLES);
   ("haex_crdt_migrations", TABLE_CRDT_MIGRATIONS);
   ("haex_app_migrations", TABLE_APP_MIGRATIONS)].

Definition compatibility_error (reason : string) : Error := MigrationCompatibility reason.

Section compat.
Context `{Sha256} {db : Type} `{Rusqlite db}.

Definition table_exists (conn : db) (table : string) : res Error bool :=
  from_sql (row ← query_row conn TableExists [SText table]; get_bool row 0).

Definition list_user_tables (conn : db) : res Error (list string) :=
  from_sql (rows ← query conn UserTables []; try_map (fun row => get_string row 0) rows).

Definition table_columns (conn : db) (table : string) : res Error (list string) :=
  from_sql (rows ← query conn (TableColumns table) []; try_map (fun row => get_string row 1) rows).

(** The legacy names of one table, with the columns tracked across renames. *)
Fixpoint rename_columns (conn : db) (table : string) (pairs : list (string * string))
    (columns : list string) : res Error db :=
  match pairs with
  | [] => Ok conn
  | (legacy, current) :: rest =>
      let has_legacy := bool_decide (legacy ∈ columns) in
      let has_current := bool_decide (current ∈ columns) in
      if has_legacy && has_current
      then Err (compatibility_error ("table '" +:+ table +:+ "' contains both legacy column '" +:+
                  legacy +:+ "' and current column '" +:+ current +:+ "'"))
      else if has_legacy then
        r ← from_sql (execute conn (RenameColumn table legacy current) []);
        rename_columns (snd r) table rest
          (List.filter (fun c => negb (String.eqb c legacy)) columns ++ [current])
      else rename_columns conn table rest columns
  end.

Fixpoint rename_tables_columns (conn : db) (tables : list string) : res Error db :=
  match tables with
  | [] => Ok conn
  | table :: rest =>
      columns ← table_columns conn table;
      conn1 ← rename_columns conn table (zip LEGACY_COLUMNS current_columns) columns;
      rename_tables_columns conn1 rest
  end.

Definition migrate_legacy_metadata_columns (conn : db) : res Error db :=
  tables ← list_user_tables conn; rename_tables_columns conn tables.

(** The key and value columns of the bookkeeping tables. *)
Definition legacy_columns_of (current : string) : option (string * list string) :=
  if String.eqb current TABLE_CRDT_CONFIGS then Some ("key", ["type"; "value"])
  else if String.eqb current TABLE_CRDT_DIRTY_TABLES then Some ("table_name", ["last_modified"])
  else if String.eqb current TABLE_CRDT_MIGRATIONS || String.eqb current TABLE_APP_MIGRATIONS
  then Some ("migration_name", ["sha256_digest"; "applied_at"])
  else None.

Definition merge_legacy_table (tx : db) (legacy current : string) : res Error db :=
  match legacy_columns_of current with
  | None => Err (compatibility_error ("unknown legacy CRDT table '" +:+ legacy +:+ "'"))
  | Some (key_column, value_columns) =>
      match query_row tx (LegacyConflict legacy current key_column value_columns) [] with
      | Ok _ => Err (compatibility_error ("legacy table '" +:+ legacy +:+
                  "' conflicts with current table '" +:+ current +:+ "'"))
      | Panic m => Panic m
      | Err _ =>
          r1 ← from_sql (execute tx (MergeLegacy legacy current) []);
          r2 ← from_sql (execute (snd r1) (DropTable legacy) []);
          Ok (snd r2)
      end
  end.

Fixpoint migrate_table_pairs (tx : db) (pairs : list (string * string)) : res Error db :=
  match pairs with
  | [] => Ok tx
  | (legacy, current) :: rest =>
      has_legacy ← table_exists tx legacy;
      if negb has_legacy then migrate_table_pairs tx rest
      else
        has_current ← table_exists tx current;
        tx1 ← (if negb has_current
               then r ← from_sql (execute tx (RenameTable legacy current) []); Ok (snd r)
               else merge_legacy_table tx legacy current);
        migrate_table_pairs tx1 rest
  end.
Definition migrate_legacy_table_names (tx : db) : res Error db := migrate_table_pairs tx LEGACY_TABLES.

Definition bootstrap_tables : list string :=
  [TABLE_CRDT_CONFIGS; TABLE_CRDT_DIRTY_TABLES; "haex_deleted_rows"].

Fixpoint count_present (tx : db) (tables : list string) (present : nat) : res Error nat :=
  match tables with
  | [] => Ok present
  | t :: rest => b ← table_exists tx t; count_present tx rest (if b : bool then S present else present)
  end.

Definition prepare_legacy_body (tx : db) : res Error (bool * db) :=
  tx1 ← migrate_legacy_table_names tx;
  tx2 ← migrate_legacy_metadata_columns tx1;
  present ← count_present tx2 bootstrap_tables 0;
  if negb (Nat.eqb present 0) && negb (Nat.eqb present (length bootstrap_tables))
  then Err (compatibility_error
         "only part of the CRDT bootstrap schema exists; refusing to replay or discard it")
  else Ok (Nat.eqb present (length bootstrap_tables), tx2).

Definition prepare_legacy_schema : conn_io db Error bool := fun conn =>
  run_tx Sqlite begin_immediate conn prepare_legacy_body.

Definition released_digest : string :=
  "9dd00af288cfadffd5e982fa4ea2f72827816e781406b984fd6092a76ed7bcdf".

Definition record_legacy_bootstrap : conn_io db Error unit := io_exec (fun conn =>
  first ← expect (head CRATE_MIGRATIONS) "CRATE_MIGRATIONS must contain the bootstrap migration";
  let '(name, content) := first in
  r ← from_sql (execute conn RecordBootstrap [SText name; SText (sha256_hex content); SText released_digest]);
  Ok (tt, snd r)).
End compat.

(** ** The renaming as a function on column lists *)

Definition rename_one (x : string) (pair : string * string) : string :=
  if String.eqb x (fst pair) then snd pair else x.
Definition rename_all (pairs : list (string * string)) (x : string) : string :=
  fold_left rename_one pairs x.
Definition current_name (x : string) : string := rename_all (zip LEGACY_COLUMNS current_columns) x.

Lemma current_name_not_legacy x : current_name x ∉ LEGACY_COLUMNS.
Proof.
  unfold current_name, rename_all, rename_one, LEGACY_COLUMNS, current_columns. cbn [zip zip_with fold_left fst snd].
  repeat match goal with |- context [String.eqb ?a ?b] => destruct (String.eqb_spec a b); subst end;
    rewrite !not_elem_of_cons; (repeat split; [congruence || discriminate..|apply not_elem_of_nil]).
Qed.

Lemma current_name_idemp x : current_name (current_name x) = current_name x.
Proof.
  pose proof (current_name_not_legacy x) as Hn. revert Hn. generalize (current_name x). intros y Hn.
  unfold LEGACY_COLUMNS in Hn. rewrite !not_elem_of_cons in Hn. destruct Hn as (Hx1 & Hx2 & Hx3 & _).
  unfold current_name, rename_all, rename_one. cbn [zip zip_with LEGACY_COLUMNS current_columns fold_left fst snd].
  by rewrite (proj2 (String.eqb_neq _ _) Hx1), (proj2 (String.eqb_neq _ _) Hx2), (proj2 (String.eqb_neq _ _) Hx3).
Qed.

(** The columns of the tables, as SQLite reports them and as its RENAME COLUMN
    changes them. *)
Class RenameLaws (db : Type) `{Rusqlite db} := {
  tables_of : db -> list string;
  columns_of : db -> string -> list string;
  user_tables_read : forall c rows, query c UserTables [] = Ok rows ->
    try_map (fun row => get_string row 0) rows = Ok (tables_of c);
  columns_read : forall c t rows, query c (TableColumns t) [] = Ok rows ->
    try_map (fun row => get_string row 1) rows = Ok (columns_of c t);
  column_renamed : forall c t a b n c', execute c (RenameColumn t a b) [] = Ok (n, c') ->
    columns_of c' t = map (fun x => rename_one x (a, b)) (columns_of c t) /\
    (forall u, u <> t -> columns_of c' u = columns_of c u);
}.

Section renaming.
Context {db : Type} `{HR : Rusqlite db} `{!RenameLaws db}.

Lemma rename_columns_Ok (conn : db) t pairs columns conn' :
  (forall x, x ∈ columns <-> x ∈ columns_of conn t) ->
  rename_columns conn t pairs columns = Ok conn' ->
  columns_of conn' t = map (rename_all pairs) (columns_of conn t) /\
  (forall u, u <> t -> columns_of conn' u = columns_of conn u).
Proof.
  revert conn columns; induction pairs as [|[legacy current] pairs IH]; intros conn columns Hc; cbn [rename_columns].
  - intros [= <-]. split; [|done]. symmetry. rewrite <- (map_id (columns_of conn t)) at 2. done.
  - destruct (bool_decide (legacy ∈ columns)) eqn:Hl; cbn [andb].
    + destruct (bool_decide (current ∈ columns)) eqn:Hcu; [done|].
      apply bool_decide_eq_true in Hl. apply bool_decide_eq_false in Hcu.
      intros ([n c1] & Hex%map_err_Ok & Hr)%bind_Ok. cbn [snd] in Hr.
      apply column_renamed in Hex as [Ht Hu]. apply IH in Hr as [Ht' Hu'].
      * split; [|intros u Hne; by rewrite Hu', Hu]. rewrite Ht', Ht, map_map. done.
      * intros x. rewrite Ht, list_elem_of_fmap, elem_of_app, list_elem_of_singleton, list_elem_of_In, filter_In,
          <- list_elem_of_In. unfold rename_one. cbn [fst snd]. split.
        -- intros [[Hx Hne]| ->].
           ++ exists x. destruct (String.eqb x legacy); [done|]. split; [done|]. by apply Hc.
           ++ exists legacy. rewrite String.eqb_refl. split; [done|]. by apply Hc.
        -- intros (y & -> & Hy). destruct (String.eqb y legacy) eqn:Hyl; [by right|]. left. split; [by apply Hc|].
           by rewrite Hyl.
    + intros Hr. apply bool_decide_eq_false in Hl. apply IH in Hr as [Ht Hu]; [|done]. split; [|done].
      rewrite Ht. apply map_ext_in. intros x Hx. unfold rename_all. cbn [fold_left]. unfold rename_one at 3.
      cbn [fst snd]. destruct (String.eqb_spec x legacy) as [->|]; [|done]. exfalso. by apply Hl, Hc, list_elem_of_In.
Qed.

Lemma rename_tables_columns_Ok (conn : db) tables conn' :
  rename_tables_columns conn tables = Ok conn' ->
  forall t, columns_of conn' t =
    if bool_decide (t ∈ tables) then map current_name (columns_of conn t) else columns_of conn t.
Proof.
  revert conn; induction tables as [|u tables IH]; intros conn; cbn [rename_tables_columns].
  - intros [= <-] t. by rewrite bool_decide_eq_false_2 by apply not_elem_of_nil.
  - intros (cols & Hcols & Hr)%bind_Ok. apply bind_Ok in Hr as (c1 & Hc1 & Hr).
    apply map_err_Ok, bind_Ok in Hcols as (rows & Hq & Hcols). apply columns_read in Hq. rewrite Hcols in Hq.
    injection Hq as ->. apply rename_columns_Ok in Hc1 as [Hu Ho]; [|done].
    intros t. rewrite (IH _ Hr t). destruct (decide (t = u)) as [->|Hne].
    + rewrite (bool_decide_eq_true_2 (u ∈ u :: tables)) by by left. rewrite Hu. case_bool_decide; [|done].
      rewrite map_map. apply map_ext. apply current_name_idemp.
    + rewrite (Ho t Hne). by rewrite (bool_decide_ext (t ∈ u :: tables) (t ∈ tables))
        by (rewrite elem_of_cons; naive_solver).
Qed.
End renaming.

(** ** Properties *)

(** The conversion of an old database loses no metadata: after it succeeds,
    every user table has the same columns in the same order with only the three
    legacy names replaced by the current ones, none of the legacy names is left,
    and a second conversion would rename nothing. *)
Theorem legacy_columns_renamed {db} `{HR : Rusqlite db} `{!RenameLaws db} (conn conn' : db) t :
  migrate_legacy_metadata_columns conn = Ok conn' -> t ∈ tables_of conn ->
  columns_of conn' t = map current_name (columns_of conn t) /\
  (forall legacy, legacy ∈ LEGACY_COLUMNS -> legacy ∉ columns_of conn' t) /\
  map current_name (columns_of conn' t) = columns_of conn' t /\
  (forall x, x ∉ LEGACY_COLUMNS -> current_name x = x).
Proof.
  intros Hm Ht. unfold migrate_legacy_metadata_columns in Hm. apply bind_Ok in Hm as (tables & Hl & Hm).
  apply map_err_Ok, bind_Ok in Hl as (rows & Hq & Hl). apply user_tables_read in Hq. rewrite Hl in Hq.
  injection Hq as ->. pose proof (rename_tables_columns_Ok _ _ _ Hm t) as Hc.
  rewrite bool_decide_eq_true_2 in Hc by done. rewrite Hc. split; [done|]. split; [|split].
  - intros legacy Hin (x & -> & _)%list_elem_of_fmap. by apply (current_name_not_legacy x).
  - rewrite map_map. apply map_ext, current_name_idemp.
  - intros x. unfold LEGACY_COLUMNS. rewrite !not_elem_of_cons. intros (Hx1 & Hx2 & Hx3 & _).
    unfold current_name, rename_all, rename_one. cbn [zip zip_with LEGACY_COLUMNS current_columns fold_left fst snd].
    by rewrite (proj2 (String.eqb_neq _ _) Hx1), (proj2 (String.eqb_neq _ _) Hx2), (proj2 (String.eqb_neq _ _) Hx3).
Qed.

(** A schema for the witness: tables with their columns. *)
#[export] Instance mini_schema_db : Rusqlite (list (string * list string)) := {
  prepare c st := Ok tt;
  execute c st ps :=
    match st with
    | RenameColumn t a b =>
        Ok (0%nat, map (fun e => if String.eqb (fst e) t
                                 then (fst e, map (fun x => rename_one x (a, b)) (snd e)) else e) c)
    | _ => Err (OtherSqlError "not in the model")
    end;
  query c st ps :=
    match st with
    | UserTables => Ok (map (fun e => [SText (fst e)]) c)
    | TableColumns t =>
        Ok (map (fun x => [SInteger 0; SText x])
              (default [] (snd <$> List.find (fun e => String.eqb (fst e) t) c)))
    | _ => Err (OtherSqlError "not in the model")
    end;
  table_info c t := Ok [];
  begin_immediate c := Ok tt;
  begin_deferred c := Ok tt;
  commit c := Ok tt;
}.

Definition mini_columns (c : list (string * list string)) (t : string) : list string :=
  default [] (snd <$> List.find (fun e => String.eqb (fst e) t) c).

#[export] Instance mini_rename_laws : RenameLaws (list (string * list string)).
Proof.
  refine {| tables_of := map fst; columns_of := mini_columns |}.
  - intros c rows [= <-]. induction c as [|e c IH]; [done|]. cbn. by rewrite IH.
  - intros c t rows [= <-]. unfold mini_columns. generalize (default [] (snd <$> List.find (fun e => String.eqb (fst e) t) c)).
    intros l. induction l as [|x l IH]; [done|]. cbn. by rewrite IH.
  - intros c t a b n c' [= <- <-]. unfold mini_columns. split.
    + induction c as [|[u l] c IH]; [done|]. cbn. destruct (String.eqb_spec u t) as [->|Hne]; cbn.
      * by rewrite String.eqb_refl.
      * by rewrite (proj2 (String.eqb_neq u t) Hne).
    + intros u Hu. induction c as [|[v l] c IH]; [done|]. cbn.
      destruct (String.eqb_spec v t) as [->|Hne]; cbn.
      * rewrite (proj2 (String.eqb_neq t u)) by congruence. done.
      * by destruct (String.eqb v u).
Defined.

Definition mini_old : list (string * list string) :=
  [("notes", ["id"; "haex_hlc"; "body"; "haex_column_hlcs"])].
Definition mini_new : list (string * list string) :=
  [("notes", ["id"; HLC_TIMESTAMP_COLUMN; "body"; COLUMN_HLCS_COLUMN])].

Lemma legacy_columns_renamed_witness :
  migrate_legacy_metadata_columns mini_old = Ok mini_new /\
  columns_of mini_new "notes" = map current_name (columns_of mini_old "notes").
Proof.
  assert (migrate_legacy_metadata_columns mini_old = Ok mini_new) as E by (vm_compute; reflexivity).
  split; [exact E|]. apply (legacy_columns_renamed mini_old mini_new "notes" E). by left.
Defined.
