(* ===== verification/SqlAst.v ===== *)
(** * SQL syntax trees (sqlparser::ast) and parsing (src/db/core/parsing.rs)

    The crate rewrites and inspects statements as sqlparser's trees. The types
    below have one constructor for each variant the crate matches on and one for
    the others; what the crate carries along without looking at it - aliases, WITH
    clauses, operators, the fields of the other variants - is an [opaque] value.
    sqlparser's parser and printer are parameters of the model. *)

From S2P Require Import Prelude Utf8 Sql Hlc Trigger Report Errors.

(** What the crate never looks into: the source text sqlparser keeps for it. *)
Definition opaque := string.
Definition none : opaque := EmptyString.

(** ** Names *)

Record Ident := mkIdent { id_value : string; id_quote : option ascii }.
Definition Ident_new (value : string) : Ident := mkIdent value None.

Inductive ObjectNamePart :=
| PartIdentifier (ident : Ident)
| PartFunction (name : Ident) (args : opaque).

Definition ObjectName := list ObjectNamePart.

Definition as_ident (part : ObjectNamePart) : option Ident :=
  match part with PartIdentifier ident => Some ident | PartFunction _ _ => None end.
(** [ObjectName::from(Ident)]. *)
Definition name_of_ident (ident : Ident) : ObjectName := [PartIdentifier ident].
(** [name.0.last().and_then(|part| part.as_ident())], the value. *)
Definition last_ident (name : ObjectName) : option string := id_value <$> (last name ≫= as_ident).

#[export] Instance Ident_eq_dec : EqDecision Ident.
Proof. solve_decision. Defined.
#[export] Instance ObjectNamePart_eq_dec : EqDecision ObjectNamePart.
Proof. solve_decision. Defined.

(** ** Queries and expressions *)

Inductive SqlLiteral :=
| SingleQuotedString (s : string)
| OtherLiteral (o : opaque).

(** [EFunction] with its other fields ([parameters], [filter], [over] ...) in
    [rest]: [none] when they are all absent. *)
Inductive Expr :=
| EIdentifier (ident : Ident)
| EValue (v : SqlLiteral)
| EFunction (name : ObjectName) (args : list Expr) (rest : opaque)
| EExists (subquery : Query) (rest : opaque)
| ESubquery (subquery : Query)
| EBinaryOp (left : Expr) (op : opaque) (right : Expr)
| EUnaryOp (op : opaque) (expr : Expr)
| EInSubquery (expr : Expr) (subquery : Query) (rest : opaque)
| EBetween (expr low high : Expr) (rest : opaque)
| ENested (inner : Expr)
| EOther (o : opaque)
with Query := mkQuery (body : SetExpr) (rest : opaque)
with SetExpr :=
| SetSelect (select : Select)
| SetQuery (query : Query)
| SetOperation (left : SetExpr) (op : opaque) (right : SetExpr)
| SetValues (rows : list (list Expr)) (rest : opaque)
| SetInsert (o : opaque)
| SetUpdate (o : opaque)
| SetOther (o : opaque)
with Select := mkSelect (projection : list SelectItem) (from : list TableWithJoins)
    (selection : option Expr) (rest : opaque)
with SelectItem :=
| UnnamedExpr (e : Expr)
| Wildcard (o : opaque)
| QualifiedWildcard (o : opaque)
| OtherItem (o : opaque)
with TableWithJoins := mkTable (relation : TableFactor) (joins : list Join)
with Join := mkJoin (relation : TableFactor) (rest : opaque)
with TableFactor :=
| TfTable (name : ObjectName) (rest : opaque)
| TfDerived (subquery : Query) (rest : opaque)
| TfTableFunction (o : opaque)
| TfNestedJoin (table_with_joins : TableWithJoins) (rest : opaque)
| TfOther (o : opaque).

Definition q_body (q : Query) : SetExpr := match q with mkQuery b _ => b end.
Definition tw_relation (t : TableWithJoins) : TableFactor := match t with mkTable r _ => r end.
Definition tw_joins (t : TableWithJoins) : list Join := match t with mkTable _ js => js end.
Definition join_relation (j : Join) : TableFactor := match j with mkJoin r _ => r end.
Definition sel_projection (s : Select) : list SelectItem := match s with mkSelect p _ _ _ => p end.
Definition sel_from (s : Select) : list TableWithJoins := match s with mkSelect _ f _ _ => f end.

Definition string_literal (s : string) : Expr := EValue (SingleQuotedString s).

(** ** Statements *)

Inductive AssignmentTarget :=
| ColumnName (name : ObjectName)
| TupleTarget (names : list ObjectName).
Record Assignment := mkAssign { as_target : AssignmentTarget; as_value : Expr }.

Inductive OnConflictAction :=
| DoNothing
| DoUpdate (assignments : list Assignment) (selection : opaque).
Inductive OnInsert :=
| OnConflict (target : opaque) (action : OnConflictAction)
| DuplicateKeyUpdate (o : opaque).

Inductive TableObject :=
| TableName (name : ObjectName)
| OtherTable (o : opaque).

Record Insert := mkInsert {
  in_table : TableObject;
  in_columns : list ObjectName;
  in_source : option Query;
  in_on : option OnInsert;
  in_returning : option opaque;
  in_rest : opaque;
}.

Record Update := mkUpdate {
  up_table : TableWithJoins;
  up_assignments : list Assignment;
  up_selection : option Expr;
  up_returning : option opaque;
  up_rest : opaque;
}.

(** [FromTable]: both variants hold the same list. *)
Record Delete := mkDelete {
  de_from_keyword : bool;
  de_from : list TableWithJoins;
  de_tables : list ObjectName;
  de_selection : option Expr;
  de_returning : option opaque;
  de_rest : opaque;
}.

(** [DataType::String(None)] and the others. *)
Inductive DataType := StringType | OtherType (o : opaque).
Inductive ColumnOption := NotNull | Default (e : Expr) | OtherOption (o : opaque).
Record ColumnDef := mkColumnDef {
  cd_name : Ident;
  cd_data_type : DataType;
  cd_options : list (option Ident * ColumnOption);
}.

Record CreateTable := mkCreateTable {
  ct_name : ObjectName;
  ct_columns : list ColumnDef;
  ct_query : option Query;
  ct_temporary : bool;
  ct_rest : opaque;
}.

Inductive AlterTableOperation :=
| RenameTableTo (name : ObjectName)
| RenameTableAs (name : ObjectName)
| OtherAlter (o : opaque).
Record AlterTable := mkAlterTable {
  al_name : ObjectName;
  al_operations : list AlterTableOperation;
  al_rest : opaque;
}.

Inductive Statement :=
| StQuery (query : Query)
| StInsert (insert : Insert)
| StUpdate (update : Update)
| StDelete (delete : Delete)
| StCreateTable (create_table : CreateTable)
| StAlterTable (alter : AlterTable)
| StDrop (names : list ObjectName) (rest : opaque)
| StCreateIndex (table_name : ObjectName) (rest : opaque)
| StTruncate (table_names : list opaque) (rest : opaque)
| StOther (o : opaque).

(** ** Parsing and printing *)

(** sqlparser, with the SQLite dialect; a parse failure is its message. *)
Class SqlParser := {
  parse_sql : string -> res string (list Statement);
  statement_to_string : Statement -> string;
  name_to_string : ObjectName -> string;
  ident_to_string : Ident -> string;
}.

Section parsing.
Context `{SqlParser}.

Definition parse_sql_statements (sql : string) : res DatabaseError (list Statement) :=
  map_err (ParseError sql) (parse_sql sql).

Definition parse_single_statement (sql : string) : res DatabaseError Statement :=
  statements ← map_err (ParseError sql) (parse_sql sql);
  match statements with
  | [] => Err (EmptyStatement sql)
  | [first] => Ok first
  | _ => Err (MultipleStatements sql)
  end.
End parsing.

Definition statement_has_returning (statement : Statement) : bool :=
  match statement with
  | StInsert insert => bool_decide (is_Some (in_returning insert))
  | StUpdate update => bool_decide (is_Some (up_returning update))
  | StDelete delete => bool_decide (is_Some (de_returning delete))
  | _ => false
  end.

(** ** Induction over the parts the walkers visit *)

Section ast_ind.
Variables (PE : Expr -> Prop) (PQ : Query -> Prop) (PS : SetExpr -> Prop) (PSel : Select -> Prop)
  (PTw : TableWithJoins -> Prop) (PTf : TableFactor -> Prop).
Hypothesis HIdentifier : forall i, PE (EIdentifier i).
Hypothesis HValue : forall v, PE (EValue v).
Hypothesis HFunction : forall n a r, PE (EFunction n a r).
Hypothesis HExists : forall q r, PQ q -> PE (EExists q r).
Hypothesis HSubquery : forall q, PQ q -> PE (ESubquery q).
Hypothesis HBinary : forall l op r, PE l -> PE r -> PE (EBinaryOp l op r).
Hypothesis HUnary : forall op e, PE e -> PE (EUnaryOp op e).
Hypothesis HIn : forall e q r, PE e -> PQ q -> PE (EInSubquery e q r).
Hypothesis HBetween : forall e lo hi r, PE e -> PE lo -> PE hi -> PE (EBetween e lo hi r).
Hypothesis HNested : forall e, PE e -> PE (ENested e).
Hypothesis HOther : forall o, PE (EOther o).
Hypothesis HQuery : forall b r, PS b -> PQ (mkQuery b r).
Hypothesis HSelect : forall s, PSel s -> PS (SetSelect s).
Hypothesis HSetQuery : forall q, PQ q -> PS (SetQuery q).
Hypothesis HSetOp : forall l op r, PS l -> PS r -> PS (SetOperation l op r).
Hypothesis HValues : forall rows r, PS (SetValues rows r).
Hypothesis HInsert : forall o, PS (SetInsert o).
Hypothesis HUpdate : forall o, PS (SetUpdate o).
Hypothesis HSetOther : forall o, PS (SetOther o).
Hypothesis HmkSelect : forall p f sel r, Forall PTw f -> (forall e, sel = Some e -> PE e) ->
  PSel (mkSelect p f sel r).
Hypothesis HTw : forall r js, PTf r -> Forall (fun j => PTf (join_relation j)) js -> PTw (mkTable r js).
Hypothesis HTable : forall n r, PTf (TfTable n r).
Hypothesis HDerived : forall q r, PQ q -> PTf (TfDerived q r).
Hypothesis HTableFunction : forall o, PTf (TfTableFunction o).
Hypothesis HNestedJoin : forall tw r, PTw tw -> PTf (TfNestedJoin tw r).
Hypothesis HTfOther : forall o, PTf (TfOther o).

Fixpoint expr_ind' (e : Expr) : PE e :=
  match e with
  | EIdentifier i => HIdentifier i
  | EValue v => HValue v
  | EFunction n a r => HFunction n a r
  | EExists q r => HExists q r (query_ind' q)
  | ESubquery q => HSubquery q (query_ind' q)
  | EBinaryOp l op r => HBinary l op r (expr_ind' l) (expr_ind' r)
  | EUnaryOp op e => HUnary op e (expr_ind' e)
  | EInSubquery e q r => HIn e q r (expr_ind' e) (query_ind' q)
  | EBetween e lo hi r => HBetween e lo hi r (expr_ind' e) (expr_ind' lo) (expr_ind' hi)
  | ENested e => HNested e (expr_ind' e)
  | EOther o => HOther o
  end
with query_ind' (q : Query) : PQ q :=
  match q with mkQuery b r => HQuery b r (set_expr_ind' b) end
with set_expr_ind' (s : SetExpr) : PS s :=
  match s with
  | SetSelect sel => HSelect sel (select_ind' sel)
  | SetQuery q => HSetQuery q (query_ind' q)
  | SetOperation l op r => HSetOp l op r (set_expr_ind' l) (set_expr_ind' r)
  | SetValues rows r => HValues rows r
  | SetInsert o => HInsert o
  | SetUpdate o => HUpdate o
  | SetOther o => HSetOther o
  end
with select_ind' (s : Select) : PSel s :=
  match s with
  | mkSelect p f sel r => HmkSelect p f sel r
      ((fix go l : Forall PTw l := match l with
        | [] => Forall_nil_2 _
        | tw :: l' => Forall_cons_2 _ tw l' (table_ind' tw) (go l')
        end) f)
      (match sel as o return forall e, o = Some e -> PE e with
       | Some e0 => fun e Heq => eq_ind e0 PE (expr_ind' e0) e (f_equal (default e0) Heq)
       | None => fun e Heq => False_ind _ (eq_ind None (fun o => match o with None => True | Some _ => False end) I _ Heq)
       end)
  end
with table_ind' (t : TableWithJoins) : PTw t :=
  match t with
  | mkTable r js => HTw r js (factor_ind' r)
      ((fix go l : Forall (fun j => PTf (join_relation j)) l := match l with
        | [] => Forall_nil_2 _
        | mkJoin jr jo :: l' => Forall_cons_2 _ (mkJoin jr jo) l' (factor_ind' jr) (go l')
        end) js)
  end
with factor_ind' (t : TableFactor) : PTf t :=
  match t with
  | TfTable n r => HTable n r
  | TfDerived q r => HDerived q r (query_ind' q)
  | TfTableFunction o => HTableFunction o
  | TfNestedJoin tw r => HNestedJoin tw r (table_ind' tw)
  | TfOther o => HTfOther o
  end.

Lemma ast_ind : (forall e, PE e) /\ (forall q, PQ q) /\ (forall s, PS s) /\ (forall s, PSel s) /\
  (forall t, PTw t) /\ (forall t, PTf t).
Proof. repeat split; [exact expr_ind'|exact query_ind'|exact set_expr_ind'|exact select_ind'|exact table_ind'|exact factor_ind']. Qed.
End ast_ind.

(** ** A concrete parser, for the witnesses

    It knows the statements it is given and prints every tree as its kind. *)
Definition mini_sql (known : list (string * list Statement)) : SqlParser := {|
  parse_sql sql := match List.find (fun e => String.eqb (fst e) sql) known with
                   | Some e => Ok (snd e)
                   | None => Err "syntax error"
                   end;
  statement_to_string stmt :=
    match stmt with
    | StQuery _ => "SELECT" | StInsert _ => "INSERT" | StUpdate _ => "UPDATE" | StDelete _ => "DELETE"
    | StCreateTable _ => "CREATE TABLE" | StAlterTable _ => "ALTER TABLE" | _ => "OTHER"
    end;
  name_to_string name := match last_ident name with Some v => v | None => EmptyString end;
  ident_to_string := id_value;
|}.
