(* ===== verification/Prefix.v ===== *)
(** * Walks over table references (src/db/core/prefix.rs, extract.rs)

    Removing the [main.] qualifier from the table references of a statement,
    and listing the tables a statement refers to. Both visit the same trees, by
    structural recursion over the queries, joins and expressions they look into. *)

From S2P Require Import Prelude Utf8 Sql Hlc Trigger Report Errors SqlAst.

(** ** Stripping [main.] *)

Definition strip_main_from_object_name (name : ObjectName) : ObjectName :=
  match name with
  | PartIdentifier ident :: part :: rest =>
      if eq_ignore_ascii_case (id_value ident) "main" then part :: rest else name
  | _ => name
  end.

Fixpoint strip_main_from_expr (e : Expr) : Expr :=
  match e with
  | EExists subquery r => EExists (strip_main_from_query subquery) r
  | ESubquery subquery => ESubquery (strip_main_from_query subquery)
  | EBinaryOp lhs op rhs => EBinaryOp (strip_main_from_expr lhs) op (strip_main_from_expr rhs)
  | EUnaryOp op expr => EUnaryOp op (strip_main_from_expr expr)
  | EInSubquery expr subquery r =>
      EInSubquery (strip_main_from_expr expr) (strip_main_from_query subquery) r
  | EBetween expr low high r =>
      EBetween (strip_main_from_expr expr) (strip_main_from_expr low) (strip_main_from_expr high) r
  | ENested inner => ENested (strip_main_from_expr inner)
  | _ => e
  end
with strip_main_from_query (q : Query) : Query :=
  match q with mkQuery body r => mkQuery (strip_main_from_set_expr body) r end
with strip_main_from_set_expr (s : SetExpr) : SetExpr :=
  match s with
  | SetSelect select => SetSelect (strip_main_from_select select)
  | SetQuery query => SetQuery (strip_main_from_query query)
  | SetOperation lhs op rhs =>
      SetOperation (strip_main_from_set_expr lhs) op (strip_main_from_set_expr rhs)
  | _ => s
  end
with strip_main_from_select (s : Select) : Select :=
  match s with
  | mkSelect projection from selection r =>
      mkSelect projection (map strip_main_from_table from)
        (match selection with Some e => Some (strip_main_from_expr e) | None => None end) r
  end
with strip_main_from_table (t : TableWithJoins) : TableWithJoins :=
  match t with
  | mkTable relation joins =>
      mkTable (strip_main_from_table_factor relation)
        (map (fun j => match j with mkJoin jr r => mkJoin (strip_main_from_table_factor jr) r end) joins)
  end
with strip_main_from_table_factor (t : TableFactor) : TableFactor :=
  match t with
  | TfTable name r => TfTable (strip_main_from_object_name name) r
  | TfDerived subquery r => TfDerived (strip_main_from_query subquery) r
  | TfNestedJoin table_with_joins r => TfNestedJoin (strip_main_from_table table_with_joins) r
  | _ => t
  end.

Definition strip_main_from_statement (statement : Statement) : Statement :=
  match statement with
  | StQuery query => StQuery (strip_main_from_query query)
  | StInsert i =>
      StInsert (mkInsert
        (match in_table i with TableName name => TableName (strip_main_from_object_name name) | t => t end)
        (in_columns i) (strip_main_from_query <$> in_source i) (in_on i) (in_returning i) (in_rest i))
  | StUpdate u =>
      StUpdate (mkUpdate
        (mkTable (strip_main_from_table_factor (tw_relation (up_table u))) (tw_joins (up_table u)))
        (up_assignments u) (strip_main_from_expr <$> up_selection u) (up_returning u) (up_rest u))
  | StDelete d =>
      StDelete (mkDelete (de_from_keyword d) (map strip_main_from_table (de_from d))
        (map strip_main_from_object_name (de_tables d)) (strip_main_from_expr <$> de_selection d)
        (de_returning d) (de_rest d))
  | StCreateTable c =>
      StCreateTable (mkCreateTable (strip_main_from_object_name (ct_name c)) (ct_columns c) (ct_query c)
        (ct_temporary c) (ct_rest c))
  | StAlterTable a =>
      StAlterTable (mkAlterTable (strip_main_from_object_name (al_name a)) (al_operations a) (al_rest a))
  | StDrop names r => StDrop (map strip_main_from_object_name names) r
  | StCreateIndex table_name r => StCreateIndex (strip_main_from_object_name table_name) r
  | _ => statement
  end.

Definition strip_main_schema_prefix `{SqlParser} (sql : string) : string :=
  match parse_sql sql with
  | Ok statements => join "; " (map (fun s => statement_to_string (strip_main_from_statement s)) statements)
  | _ => sql
  end.

(** ** Listing the tables *)

Section extract.
Variable display : ObjectName -> string.

Fixpoint extract_tables_from_expr_recursive (e : Expr) : list string :=
  match e with
  | ESubquery subquery => extract_tables_from_query_recursive subquery
  | EBinaryOp lhs _ rhs =>
      extract_tables_from_expr_recursive lhs ++ extract_tables_from_expr_recursive rhs
  | EUnaryOp _ expr => extract_tables_from_expr_recursive expr
  | EInSubquery expr subquery _ =>
      extract_tables_from_expr_recursive expr ++ extract_tables_from_query_recursive subquery
  | EBetween expr low high _ =>
      extract_tables_from_expr_recursive expr ++ extract_tables_from_expr_recursive low ++
      extract_tables_from_expr_recursive high
  | _ => []
  end
with extract_tables_from_query_recursive (q : Query) : list string :=
  match q with mkQuery body _ => extract_tables_from_set_expr_recursive body end
with extract_tables_from_set_expr_recursive (s : SetExpr) : list string :=
  match s with
  | SetSelect select => extract_tables_from_select select
  | SetQuery (mkQuery body _) => extract_tables_from_set_expr_recursive body
  | SetOperation lhs _ rhs =>
      extract_tables_from_set_expr_recursive lhs ++ extract_tables_from_set_expr_recursive rhs
  | _ => []
  end
with extract_tables_from_select (s : Select) : list string :=
  match s with
  | mkSelect _ from selection _ =>
      flat_map extract_tables_from_table from ++
      match selection with Some e => extract_tables_from_expr_recursive e | None => [] end
  end
with extract_tables_from_table (t : TableWithJoins) : list string :=
  match t with
  | mkTable relation joins =>
      extract_tables_from_table_factor relation ++
      flat_map (fun j => match j with mkJoin jr _ => extract_tables_from_table_factor jr end) joins
  end
with extract_tables_from_table_factor (t : TableFactor) : list string :=
  match t with
  | TfTable name _ => [display name]
  | TfDerived subquery _ => extract_tables_from_query_recursive subquery
  | TfNestedJoin table_with_joins _ => extract_tables_from_table table_with_joins
  | _ => []
  end.

Definition extract_from_option {A} (f : A -> list string) (o : option A) : list string :=
  match o with Some a => f a | None => [] end.

Definition extract_table_names_from_statement (statement : Statement) : list string :=
  match statement with
  | StQuery query => extract_tables_from_query_recursive query
  | StInsert i =>
      (match in_table i with TableName name => [display name] | OtherTable _ => [] end) ++
      extract_from_option extract_tables_from_query_recursive (in_source i)
  | StUpdate u =>
      extract_tables_from_table_factor (tw_relation (up_table u)) ++
      flat_map (fun a => extract_tables_from_expr_recursive (as_value a)) (up_assignments u) ++
      extract_from_option extract_tables_from_expr_recursive (up_selection u)
  | StDelete d =>
      flat_map (fun t => extract_tables_from_table_factor (tw_relation t)) (de_from d) ++
      map display (de_tables d) ++
      extract_from_option extract_tables_from_expr_recursive (de_selection d)
  | StCreateTable c => [display (ct_name c)]
  | StAlterTable a => [display (al_name a)]
  | StDrop names _ => map display names
  | StCreateIndex table_name _ => [display table_name]
  | StTruncate table_names _ => table_names
  | StOther _ => []
  end.
End extract.

Definition extract_table_names_from_sql `{SqlParser} (sql : string) : res DatabaseError (list string) :=
  statement ← parse_single_statement sql;
  Ok (extract_table_names_from_statement name_to_string statement).
Definition extract_primary_table_name_from_sql `{SqlParser} (sql : string)
    : res DatabaseError (option string) :=
  table_names ← extract_table_names_from_sql sql; Ok (hd_error table_names).

(** ** Properties *)

Lemma strip_table_relation t :
  tw_relation (strip_main_from_table t) = strip_main_from_table_factor (tw_relation t).
Proof. by destruct t. Qed.

(** Listing after stripping is listing with every name stripped. *)
Lemma extract_strip_parts (f : ObjectName -> string) (g := fun n => f (strip_main_from_object_name n)) :
  (forall e, extract_tables_from_expr_recursive f (strip_main_from_expr e) =
             extract_tables_from_expr_recursive g e) /\
  (forall q, extract_tables_from_query_recursive f (strip_main_from_query q) =
             extract_tables_from_query_recursive g q) /\
  (forall s, extract_tables_from_set_expr_recursive f (strip_main_from_set_expr s) =
             extract_tables_from_set_expr_recursive g s) /\
  (forall s, extract_tables_from_select f (strip_main_from_select s) = extract_tables_from_select g s) /\
  (forall t, extract_tables_from_table f (strip_main_from_table t) = extract_tables_from_table g t) /\
  (forall t, extract_tables_from_table_factor f (strip_main_from_table_factor t) =
             extract_tables_from_table_factor g t).
Proof.
  apply ast_ind; try done; try (intros; cbn; congruence).
  - intros [b r] Hb. exact Hb.
  - intros p from sel r Hfrom Hsel. cbn. f_equal.
    + induction Hfrom as [|t from Ht Hfrom IH]; [done|]. cbn. by rewrite Ht, IH.
    + destruct sel as [e|]; [|done]. by apply Hsel.
  - intros r js Hr Hjs. cbn. rewrite Hr. f_equal.
    induction Hjs as [|[jr jo] js Hj Hjs IH]; [done|]. cbn in *. by rewrite Hj, IH.
Qed.

(** An UPDATE's assigned values, which stripping leaves alone, name no table. *)
Definition assigns_no_table (statement : Statement) : bool :=
  match statement with
  | StUpdate u =>
      forallb (fun a => match extract_tables_from_expr_recursive (fun _ => EmptyString) (as_value a) with
                        | [] => true | _ => false end) (up_assignments u)
  | _ => true
  end.

Lemma extract_expr_length (f g : ObjectName -> string) :
  (forall e, length (extract_tables_from_expr_recursive f e) = length (extract_tables_from_expr_recursive g e)) /\
  (forall q, length (extract_tables_from_query_recursive f q) = length (extract_tables_from_query_recursive g q)) /\
  (forall s, length (extract_tables_from_set_expr_recursive f s) = length (extract_tables_from_set_expr_recursive g s)) /\
  (forall s, length (extract_tables_from_select f s) = length (extract_tables_from_select g s)) /\
  (forall t, length (extract_tables_from_table f t) = length (extract_tables_from_table g t)) /\
  (forall t, length (extract_tables_from_table_factor f t) = length (extract_tables_from_table_factor g t)).
Proof.
  apply ast_ind; try done; try (intros; cbn; rewrite ?length_app; congruence).
  - intros [b r] Hb. exact Hb.
  - intros p from sel r Hfrom Hsel. cbn. rewrite !length_app. f_equal.
    + induction Hfrom as [|t from Ht Hfrom IH]; [done|]. cbn. by rewrite !length_app, Ht, IH.
    + destruct sel as [e|]; [|done]. by apply Hsel.
  - intros r js Hr Hjs. cbn. rewrite !length_app, Hr. f_equal.
    induction Hjs as [|[jr jo] js Hj Hjs IH]; [done|]. cbn in *. by rewrite !length_app, Hj, IH.
Qed.

(** C39: the two walks agree on what a table reference is: the tables listed for
    a statement after the [main.] qualifiers are removed are the tables listed
    before, each with its own qualifier removed, in the same order - so every table
    a permission check sees is the one the rewritten statement reaches - for every
    statement but an UPDATE that assigns from a subquery. *)
Theorem extract_commutes_with_strip (f : ObjectName -> string) statement :
  assigns_no_table statement = true ->
  extract_table_names_from_statement f (strip_main_from_statement statement) =
  extract_table_names_from_statement (fun n => f (strip_main_from_object_name n)) statement.
Proof.
  destruct (extract_strip_parts f) as (He & Hq & _ & _ & Ht & Hf).
  intros Hno. destruct statement as [q|i|u|d|c|a|names r|n r|l r|o]; cbn; try done.
  - destruct i as [t cols src on ret r]. cbn. destruct t, src; cbn; by rewrite ?Hq.
  - destruct u as [t asg sel ret r]. cbn in *. rewrite Hf. f_equal. f_equal; [|destruct sel; cbn; [apply He|done]].
    revert Hno. clear. induction asg as [|a asg IH]; [done|]. cbn. intros [Ha Hno]%andb_true_iff.
    rewrite IH by done. f_equal.
    assert (forall h, extract_tables_from_expr_recursive h (as_value a) = []) as Hnil; [|by rewrite !Hnil].
    intros h. apply length_zero_iff_nil. rewrite (proj1 (extract_expr_length h (fun _ => EmptyString)) _).
    by destruct (extract_tables_from_expr_recursive _ _).
  - destruct d as [kw from tables sel ret r]. cbn. f_equal; [|f_equal; [|destruct sel; cbn; [apply He|done]]].
    + induction from as [|t from IH]; [done|]. cbn. by rewrite strip_table_relation, Hf, IH.
    + by rewrite map_map.
  - by rewrite map_map.
Qed.

Definition main_name (t : string) : ObjectName := [PartIdentifier (Ident_new "MAIN"); PartIdentifier (Ident_new t)].
Definition mini_select (t : string) : Query :=
  mkQuery (SetSelect (mkSelect [] [mkTable (TfTable (main_name t) none) []] None none)) none.
(** The last part of a name: the tables as a permission check would key them. *)
Definition mini_display (n : ObjectName) : string :=
  join "." (map (fun p => match p with PartIdentifier i => id_value i | PartFunction i _ => id_value i end) n).

Lemma extract_commutes_with_strip_witness :
  let s := StInsert (mkInsert (TableName (main_name "dst")) [] (Some (mini_select "src")) None None none) in
  assigns_no_table s = true /\
  extract_table_names_from_statement mini_display s = ["MAIN.dst"; "MAIN.src"] /\
  extract_table_names_from_statement mini_display (strip_main_from_statement s) = ["dst"; "src"].
Proof.
  intros s. split; [reflexivity|]. split; [reflexivity|].
  rewrite (extract_commutes_with_strip mini_display s eq_refl). reflexivity.
Defined.

(** A table read through EXISTS or inside parentheses is not listed, though
    the same query under IN is. *)
Lemma extract_misses_exists q op :
  extract_tables_from_expr_recursive mini_display (EExists q op) = [] /\
  extract_tables_from_expr_recursive mini_display (ENested (ESubquery q)) = [] /\
  extract_tables_from_expr_recursive mini_display (EInSubquery (EOther none) (mini_select "secret") none) =
    ["MAIN.secret"].
Proof. done. Qed.

(** The qualifier stays in a subquery an UPDATE assigns from. *)
Lemma strip_keeps_assigned_subquery u :
  match strip_main_from_statement (StUpdate u) with
  | StUpdate u' => up_assignments u' = up_assignments u
  | _ => False
  end.
Proof. done. Qed.
