(* ===== verification/Transform.v ===== *)
(** * The CRDT statement transformer (src/crdt/transformer/mod.rs,
    src/crdt/insert_transformer.rs, src/crdt/metadata.rs)

    What the write path does to a statement before SQLite sees it: the metadata
    columns of a new table, the HLC of an inserted or updated row, and the metadata
    assignments of an upsert. *)

From S2P Require Import Prelude Utf8 Names Sql Hlc Trigger Report Errors SqlAst Prefix.

(** ** metadata.rs *)

Definition create_hlc_assignment `{Uhlc} (column : string) (timestamp : Timestamp) : Assignment :=
  mkAssign (ColumnName [PartIdentifier (Ident_new column)]) (string_literal (ts_to_string timestamp)).

(** ** The INSERT transformer *)

Record InsertTransformer := mkInsertTransformer {
  hlc_timestamp_column : string;
  column_hlcs_column : string;
  column_sigs_column : string;
}.
Definition InsertTransformer_new : InsertTransformer :=
  mkInsertTransformer HLC_TIMESTAMP_COLUMN COLUMN_HLCS_COLUMN COLUMN_SIGS_COLUMN.

(** [iter().position(...)]. *)
Fixpoint position {A} (p : A -> bool) (l : list A) : option nat :=
  match l with
  | [] => None
  | x :: l' => if p x then Some 0%nat else S <$> position p l'
  end.

Definition names_column (col_name : string) (c : ObjectName) : bool :=
  match last_ident c with Some v => String.eqb v col_name | None => false end.

Definition find_or_add_column (columns : list ObjectName) (col_name : string) : list ObjectName * nat :=
  match position (names_column col_name) columns with
  | Some index => (columns, index)
  | None => (columns ++ [name_of_ident (Ident_new col_name)], length columns)
  end.

(** [row[index] = value] in range, [push] otherwise. *)
Definition set_or_push_value (row : list Expr) (index : nat) (value : Expr) : list Expr :=
  if (index <? length row)%nat then <[index := value]> row else row ++ [value].

Definition set_or_push_projection (projection : list SelectItem) (index : nat) (value : Expr)
    : list SelectItem :=
  let item := UnnamedExpr value in
  if (index <? length projection)%nat then <[index := item]> projection else projection ++ [item].

Definition assignment_column_names (target : AssignmentTarget) : list string :=
  match target with
  | ColumnName name => match last_ident name with Some v => [v] | None => [] end
  | TupleTarget names => omap last_ident names
  end.

Definition unsupported `{SqlParser} (stmt : Statement) (reason : string) : DatabaseError :=
  UnsupportedStatement reason (statement_to_string stmt).

Section insert.
Context `{Uhlc} `{SqlParser} (self : InsertTransformer).

Definition is_owned_metadata_column (name : string) : bool :=
  String.eqb name (hlc_timestamp_column self) || String.eqb name (column_hlcs_column self) ||
  String.eqb name (column_sigs_column self).

Definition owned_reason (col : string) : string :=
  "INSERT ... ON CONFLICT DO UPDATE SET may not assign CRDT metadata column '" +:+ col +:+
  "'; the transformer owns it".

Definition reject_caller_metadata (assignments : list Assignment) (stmt : Insert) : res DatabaseError unit :=
  match List.find is_owned_metadata_column
          (flat_map (fun a => assignment_column_names (as_target a)) assignments) with
  | Some col => Err (unsupported (StInsert stmt) (owned_reason col))
  | None => Ok tt
  end.

Definition validate_on_insert (on : OnInsert) (stmt : Insert) : res DatabaseError unit :=
  match on with
  | OnConflict _ DoNothing => Ok tt
  | OnConflict _ (DoUpdate assignments _) => reject_caller_metadata assignments stmt
  | DuplicateKeyUpdate _ =>
      Err (unsupported (StInsert stmt) "INSERT with ON DUPLICATE KEY UPDATE is not supported")
  end.

Definition build_column_hlcs_json_set (column_hlcs : string) (touched : list string) (ts : string) : Expr :=
  EFunction [PartIdentifier (Ident_new "json_set")]
    (EIdentifier (Ident_new column_hlcs) ::
     flat_map (fun col => [string_literal ("$." +:+ col); string_literal ts]) touched) none.

Definition touched_columns (assignments : list Assignment) : list string :=
  List.filter (fun c => negb (is_owned_metadata_column c))
    (flat_map (fun a => assignment_column_names (as_target a)) assignments).

Definition augment_do_update (assignments : list Assignment) (timestamp : Timestamp) : list Assignment :=
  assignments ++
  [create_hlc_assignment (hlc_timestamp_column self) timestamp;
   mkAssign (ColumnName [PartIdentifier (Ident_new (column_hlcs_column self))])
     (build_column_hlcs_json_set (column_hlcs_column self) (touched_columns assignments)
        (ts_to_string timestamp))].

Definition is_wildcard (item : SelectItem) : bool :=
  match item with Wildcard _ | QualifiedWildcard _ => true | _ => false end.

Definition augment_on (on : option OnInsert) (timestamp : Timestamp) : option OnInsert :=
  match on with
  | Some (OnConflict target (DoUpdate assignments selection)) =>
      Some (OnConflict target (DoUpdate (augment_do_update assignments timestamp) selection))
  | _ => on
  end.

(** [transform_insert]; on an error the caller drops the statement. *)
Definition transform_insert (insert_stmt : Insert) (timestamp : Timestamp) : res DatabaseError Insert :=
  let refuse reason := Err (unsupported (StInsert insert_stmt) reason) in
  _ ← match in_on insert_stmt with Some on => validate_on_insert on insert_stmt | None => Ok tt end;
  match in_columns insert_stmt with
  | [] => refuse "INSERT without an explicit column list is not supported"
  | columns =>
      if match in_source insert_stmt with
         | Some (mkQuery (SetSelect (mkSelect projection _ _ _)) _) => existsb is_wildcard projection
         | _ => false
         end
      then refuse "INSERT SELECT with a wildcard projection is not supported"
      else
        let '(columns', hlc_col_index) := find_or_add_column columns (hlc_timestamp_column self) in
        let hlc_value := string_literal (ts_to_string timestamp) in
        let with_columns source on :=
          mkInsert (in_table insert_stmt) columns' source on (in_returning insert_stmt) (in_rest insert_stmt) in
        source ← match in_source insert_stmt with
                 | Some (mkQuery (SetValues rows r) qr) =>
                     Ok (mkQuery (SetValues (map (fun row => set_or_push_value row hlc_col_index hlc_value) rows) r) qr)
                 | Some (mkQuery (SetSelect (mkSelect projection from selection r)) qr) =>
                     Ok (mkQuery (SetSelect (mkSelect (set_or_push_projection projection hlc_col_index hlc_value)
                                               from selection r)) qr)
                 | Some _ =>
                     Err (unsupported (StInsert (with_columns (in_source insert_stmt) (in_on insert_stmt)))
                            "INSERT with unsupported source type")
                 | None =>
                     Err (unsupported (StInsert (with_columns None (in_on insert_stmt)))
                            "INSERT statement has no source")
                 end;
        Ok (with_columns (Some source) (augment_on (in_on insert_stmt) timestamp))
  end.
End insert.

(** ** The statement transformer *)

Record CrdtColumns := mkCrdtColumns {
  cc_hlc_timestamp : string;
  cc_column_hlcs : string;
  cc_column_sigs : string;
}.
Definition CrdtColumns_DEFAULT : CrdtColumns :=
  mkCrdtColumns HLC_TIMESTAMP_COLUMN COLUMN_HLCS_COLUMN COLUMN_SIGS_COLUMN.

Definition add_to_table_definition (self : CrdtColumns) (columns : list ColumnDef) : list ColumnDef :=
  List.filter (fun c =>
    negb (String.eqb (id_value (cd_name c)) (cc_hlc_timestamp self)) &&
    negb (String.eqb (id_value (cd_name c)) (cc_column_hlcs self)) &&
    negb (String.eqb (id_value (cd_name c)) (cc_column_sigs self))) columns ++
  [mkColumnDef (Ident_new (cc_hlc_timestamp self)) StringType [];
   mkColumnDef (Ident_new (cc_column_hlcs self)) StringType [];
   mkColumnDef (Ident_new (cc_column_sigs self)) StringType
     [(None, NotNull); (None, Default (string_literal "{}"))]].

Section transformer.
Context `{Unicode} `{Uhlc} `{SqlParser}.

(** [CrdtTransformer] holds nothing but [CrdtColumns::DEFAULT]. *)
Definition columns : CrdtColumns := CrdtColumns_DEFAULT.

Definition normalize_table_name (name : ObjectName) : string :=
  let table_name := match last name with
                    | Some (PartIdentifier ident) => id_value ident
                    | Some (PartFunction func _) => ident_to_string func
                    | None => name_to_string name
                    end in
  trim_matches (ascii_of_nat 34) (trim_matches "`" (to_lowercase table_name)).

Definition is_crdt_sync_table (name : ObjectName) : bool :=
  negb (ends_with "_no_sync" (normalize_table_name name)).

(** [transform_query] and the walk below it: nothing is left for it to
    rewrite, it only descends. *)
Fixpoint transform_query (q : Query) : Query :=
  match q with mkQuery body r => mkQuery (transform_set_expr body) r end
with transform_set_expr (s : SetExpr) : SetExpr :=
  match s with
  | SetSelect select => SetSelect (transform_select select)
  | SetQuery query => SetQuery (transform_query query)
  | SetOperation lhs op rhs => SetOperation (transform_set_expr lhs) op (transform_set_expr rhs)
  | _ => s
  end
with transform_select (s : Select) : Select :=
  match s with
  | mkSelect projection from selection r => mkSelect projection (map transform_table from) selection r
  end
with transform_table (t : TableWithJoins) : TableWithJoins :=
  match t with
  | mkTable relation joins =>
      mkTable (transform_table_factor relation)
        (map (fun j => match j with mkJoin jr r => mkJoin (transform_table_factor jr) r end) joins)
  end
with transform_table_factor (t : TableFactor) : TableFactor :=
  match t with
  | TfDerived subquery r => TfDerived (transform_query subquery) r
  | TfNestedJoin table_with_joins r => TfNestedJoin (transform_table table_with_joins) r
  | _ => t
  end.

Definition add_crdt_columns_to_create_table (c : CreateTable) : res DatabaseError CreateTable :=
  match ct_query c with
  | Some _ => Err (unsupported (StCreateTable c)
                     "CREATE TABLE ... AS SELECT is not supported for CRDT-synced tables")
  | None => Ok (mkCreateTable (ct_name c) (add_to_table_definition columns (ct_columns c)) (ct_query c)
                  (ct_temporary c) (ct_rest c))
  end.

Definition transform_execute_statement (stmt : Statement) (hlc_timestamp : Timestamp)
    : res DatabaseError (Statement * option string) :=
  match stmt with
  | StQuery query => Ok (StQuery (transform_query query), None)
  | StCreateTable create_table =>
      if is_crdt_sync_table (ct_name create_table)
      then c ← add_crdt_columns_to_create_table create_table;
           Ok (StCreateTable c, Some (normalize_table_name (ct_name create_table)))
      else Ok (stmt, None)
  | StInsert insert_stmt =>
      match in_table insert_stmt with
      | TableName name =>
          if is_crdt_sync_table name
          then i ← transform_insert InsertTransformer_new insert_stmt hlc_timestamp; Ok (StInsert i, None)
          else Ok (stmt, None)
      | OtherTable _ => Ok (stmt, None)
      end
  | StUpdate update =>
      match tw_relation (up_table update) with
      | TfTable name _ =>
          if is_crdt_sync_table name
          then Ok (StUpdate (mkUpdate (up_table update)
                     (up_assignments update ++ [create_hlc_assignment (cc_hlc_timestamp columns) hlc_timestamp])
                     (up_selection update) (up_returning update) (up_rest update)), None)
          else Ok (stmt, None)
      | _ => Ok (stmt, None)
      end
  | StAlterTable alter =>
      if is_crdt_sync_table (al_name alter)
      then Ok (stmt, Some (normalize_table_name (al_name alter))) else Ok (stmt, None)
  | _ => Ok (stmt, None)
  end.

(** The loop of [transform_ddl_statement]: the rewritten statements and
    whether one changed. *)
Fixpoint ddl_loop (statements : list Statement) : res DatabaseError (list Statement * bool) :=
  match statements with
  | [] => Ok ([], false)
  | stmt :: rest =>
      r ← match stmt with
          | StCreateTable create_table =>
              if is_crdt_sync_table (ct_name create_table)
              then c ← add_crdt_columns_to_create_table create_table; Ok (StCreateTable c, true)
              else Ok (stmt, false)
          | _ => Ok (stmt, false)
          end;
      rs ← ddl_loop rest;
      Ok (fst r :: fst rs, snd r || snd rs)
  end.

Definition transform_ddl_statement (sql : string) : res DatabaseError string :=
  statements ← map_err (ParseError sql) (parse_sql sql);
  match statements with
  | [] => Ok sql
  | _ =>
      r ← ddl_loop statements;
      if negb (snd r) then Ok sql else Ok (join "; " (map statement_to_string (fst r)))
  end.
End transformer.

(** ** Lemmas *)

Lemma position_Some {A} (p : A -> bool) l i :
  position p l = Some i <->
  (exists x, l !! i = Some x /\ p x = true) /\ forall j y, (j < i)%nat -> l !! j = Some y -> p y = false.
Proof.
  revert i. induction l as [|x l IH]; intros i; cbn [position].
  - split; [done|]. by intros [(y & Hy & _) _].
  - destruct (p x) eqn:Hp.
    + split.
      * intros [= <-]. split; [by exists x|]. lia.
      * intros [(y & Hy & Hpy) Hmin]. destruct i as [|i]; [done|].
        specialize (Hmin 0%nat x ltac:(lia) eq_refl). congruence.
    + rewrite fmap_Some. setoid_rewrite IH. split.
      * intros (k & [(y & Hy & Hpy) Hmin] & ->). split; [by exists y|].
        intros [|j] z Hj Hz; [by injection Hz as <-|]. apply (Hmin j); [lia|done].
      * intros [(y & Hy & Hpy) Hmin]. destruct i as [|i]; [injection Hy as ->; congruence|].
        exists i. split; [|done]. split; [by exists y|]. intros j z Hj Hz. apply (Hmin (S j)); [lia|done].
Qed.

Lemma position_None {A} (p : A -> bool) l :
  position p l = None <-> forall x, x ∈ l -> p x = false.
Proof.
  induction l as [|x l IH]; cbn [position].
  - split; [|done]. by intros _ x ?%elem_of_nil.
  - destruct (p x) eqn:Hp.
    + split; [done|]. intros Hall. rewrite (Hall x) in Hp; [done|by left].
    + rewrite fmap_None, IH. split.
      * intros Hall y [->|Hy]%elem_of_cons; auto.
      * intros Hall y Hy. apply Hall. by right.
Qed.

Lemma position_app_None {A} (p : A -> bool) l x :
  position p l = None -> p x = true -> position p (l ++ [x]) = Some (length l).
Proof.
  induction l as [|y l IH]; cbn; [by intros _ ->|]. destruct (p y); [done|].
  intros Hn%fmap_None Hx. by rewrite IH.
Qed.

Lemma position_app_Some {A} (p : A -> bool) l l' i : position p l = Some i -> position p (l ++ l') = Some i.
Proof.
  revert i. induction l as [|y l IH]; intros i; cbn; [done|]. destruct (p y); [done|].
  intros (k & Hk & ->)%fmap_Some. by rewrite (IH k).
Qed.

Lemma position_lt {A} (p : A -> bool) l i : position p l = Some i -> (i < length l)%nat.
Proof. intros [(x & Hx & _) _]%position_Some. by apply lookup_lt_Some in Hx. Qed.

(** What a row gives to a column: the value at the column's first position. *)
Definition value_at {A} (cols : list ObjectName) (row : list A) (col : string) : option A :=
  position (names_column col) cols ≫= fun i => row !! i.

(** Both [set_or_push] functions, on any row. *)
Definition set_or_push {A} (row : list A) (index : nat) (v : A) : list A :=
  if (index <? length row)%nat then <[index := v]> row else row ++ [v].

Lemma names_column_unique c d n : names_column c n = true -> names_column d n = true -> c = d.
Proof.
  unfold names_column. destruct (last_ident n); [|done]. intros ->%String.eqb_eq ->%String.eqb_eq. done.
Qed.

Lemma names_own_column c : names_column c (name_of_ident (Ident_new c)) = true.
Proof. unfold names_column. cbn. apply String.eqb_refl. Qed.

(** The heart of the rewrite: the column is set, every other column of a row
    of the right arity keeps its value, and the arity stays right. *)
Lemma set_or_push_value_at {A} cols (row : list A) col v cols' idx :
  find_or_add_column cols col = (cols', idx) -> length row = length cols ->
  length (set_or_push row idx v) = length cols' /\
  value_at cols' (set_or_push row idx v) col = Some v /\
  (forall c, c <> col -> value_at cols' (set_or_push row idx v) c = value_at cols row c).
Proof.
  unfold find_or_add_column, set_or_push, value_at. intros Hf Hl.
  destruct (position (names_column col) cols) as [i|] eqn:Hp; injection Hf as <- <-.
  - pose proof (position_lt _ _ _ Hp) as Hi. assert ((i <? length row)%nat = true) as -> by (apply Nat.ltb_lt; lia).
    rewrite Hp, length_insert. split; [done|]. cbn. split; [apply list_lookup_insert_eq; lia|].
    intros c Hc. destruct (position (names_column c) cols) as [j|] eqn:Hj; [|done]. cbn.
    apply list_lookup_insert_ne. intros <-.
    apply position_Some in Hp as [(x & Hx & Hpx) _], Hj as [(y & Hy & Hpy) _].
    rewrite Hx in Hy. injection Hy as <-. by apply Hc, (names_column_unique c col x).
  - rewrite <- Hl. rewrite Nat.ltb_irrefl, !length_app, Hl. cbn [length]. split; [done|].
    rewrite (position_app_None _ _ _ Hp (names_own_column col)). cbn. split.
    + rewrite <- Hl. by rewrite lookup_app_r, Nat.sub_diag by lia.
    + intros c Hc. destruct (position (names_column c) cols) as [j|] eqn:Hj.
      * rewrite (position_app_Some _ _ _ _ Hj). cbn. apply lookup_app_l. rewrite Hl. by eapply position_lt.
      * assert (position (names_column c) (cols ++ [name_of_ident (Ident_new col)]) = None) as ->; [|done].
        apply position_None. intros x [Hx| ->%list_elem_of_singleton]%elem_of_app;
          [by apply (proj1 (position_None _ _) Hj)|].
        destruct (names_column c _) eqn:Hn; [|done].
        by destruct Hc; apply (names_column_unique c col _ Hn), names_own_column.
Qed.

Lemma add_to_table_definition_spec self cols :
  exists kept, add_to_table_definition self cols =
    kept ++ [mkColumnDef (Ident_new (cc_hlc_timestamp self)) StringType [];
             mkColumnDef (Ident_new (cc_column_hlcs self)) StringType [];
             mkColumnDef (Ident_new (cc_column_sigs self)) StringType
               [(None, NotNull); (None, Default (string_literal "{}"))]] /\
    kept `sublist_of` cols /\
    (forall c, c ∈ kept <-> c ∈ cols /\ id_value (cd_name c) ∉
       [cc_hlc_timestamp self; cc_column_hlcs self; cc_column_sigs self]).
Proof.
  unfold add_to_table_definition. eexists. split; [done|]. split.
  - induction cols as [|c cols IH]; [constructor|]. cbn. destruct (_ && _); by constructor.
  - intros c. rewrite list_elem_of_In, filter_In, <- list_elem_of_In, !not_elem_of_cons.
    rewrite !andb_true_iff, !negb_true_iff, !String.eqb_neq. pose proof (not_elem_of_nil (id_value (cd_name c))).
    tauto.
Qed.

Lemma filter_filter_app {A} (P : A -> bool) l l' :
  List.filter P l' = [] -> List.filter P (List.filter P l ++ l') = List.filter P l.
Proof.
  intros Hl'. induction l as [|x l IH]; [done|]. cbn. destruct (P x) eqn:Hx; [|done].
  cbn. by rewrite Hx, IH.
Qed.

Lemma add_to_table_definition_idemp cols :
  add_to_table_definition columns (add_to_table_definition columns cols) = add_to_table_definition columns cols.
Proof.
  unfold add_to_table_definition. f_equal. by apply filter_filter_app.
Qed.

(** ** Inserts *)

Definition stamped_row {A} (cols cols' : list ObjectName) (v : A) (row row' : list A) : Prop :=
  length row = length cols ->
  length row' = length cols' /\ value_at cols' row' HLC_TIMESTAMP_COLUMN = Some v /\
  forall c, c <> HLC_TIMESTAMP_COLUMN -> value_at cols' row' c = value_at cols row c.

Definition stamped_source (cols cols' : list ObjectName) (v : Expr) (q q' : Query) : Prop :=
  match q, q' with
  | mkQuery (SetValues rows r) qr, mkQuery (SetValues rows' r') qr' =>
      r' = r /\ qr' = qr /\ Forall2 (stamped_row cols cols' v) rows rows'
  | mkQuery (SetSelect (mkSelect p f s r)) qr, mkQuery (SetSelect (mkSelect p' f' s' r')) qr' =>
      f' = f /\ s' = s /\ r' = r /\ qr' = qr /\ existsb is_wildcard p = false /\
      stamped_row cols cols' (UnnamedExpr v) p p'
  | _, _ => False
  end.

Definition assigned_columns (assignments : list Assignment) : list string :=
  flat_map (fun a => assignment_column_names (as_target a)) assignments.

Definition stamped_upsert `{Uhlc} (ts : Timestamp) (on on' : option OnInsert) : Prop :=
  match on with
  | Some (OnConflict target (DoUpdate a sel)) =>
      (forall col, col ∈ assigned_columns a -> col ∉ meta_columns) /\
      on' = Some (OnConflict target (DoUpdate (a ++
        [create_hlc_assignment HLC_TIMESTAMP_COLUMN ts;
         mkAssign (ColumnName [PartIdentifier (Ident_new COLUMN_HLCS_COLUMN)])
           (build_column_hlcs_json_set COLUMN_HLCS_COLUMN (assigned_columns a) (ts_to_string ts))]) sel))
  | Some (DuplicateKeyUpdate _) => False
  | _ => on' = on
  end.

Lemma owned_is_meta name : is_owned_metadata_column InsertTransformer_new name = is_meta_column name.
Proof. done. Qed.

Lemma stamped_row_set_or_push {A} cols cols' idx (v : A) row :
  find_or_add_column cols HLC_TIMESTAMP_COLUMN = (cols', idx) ->
  stamped_row cols cols' v row (set_or_push row idx v).
Proof. intros Hf Hl. by apply set_or_push_value_at. Qed.

Lemma validate_on_insert_Ok `{SqlParser} `{Uhlc} i ts :
  match in_on i with Some on => validate_on_insert InsertTransformer_new on i | None => Ok tt end = Ok tt ->
  stamped_upsert ts (in_on i) (augment_on InsertTransformer_new (in_on i) ts).
Proof.
  destruct (in_on i) as [[target [|a sel]|o]|]; [done| |done|done]. cbn [validate_on_insert].
  unfold reject_caller_metadata. destruct (List.find _ _) eqn:Hf; [done|]. intros _.
  pose proof (find_none _ _ Hf) as Hnone. cbn [stamped_upsert augment_on].
  assert (forall col, col ∈ assigned_columns a -> is_meta_column col = false) as Hmeta.
  { intros col Hc. apply list_elem_of_In in Hc. by apply Hnone. }
  split.
  - intros col Hc%Hmeta Hin%list_elem_of_In%is_meta_column_spec. congruence.
  - unfold augment_do_update. replace (touched_columns InsertTransformer_new a) with (assigned_columns a); [done|].
    unfold touched_columns. fold (assigned_columns a). symmetry. clear Hf Hnone.
    induction (assigned_columns a) as [|c l IH]; [done|]. cbn [List.filter].
    rewrite owned_is_meta, (Hmeta c) by (by left). cbn [negb]. f_equal. apply IH.
    intros col Hc. apply Hmeta. by right.
Qed.

(** C17: every inserted row carries the transaction's HLC and nothing else moves:
    when an INSERT is rewritten, its target, its RETURNING and every row or
    projection keep what they give to the other columns, the HLC column holds the
    timestamp in each row of the right arity - also where the caller had put a
    value of its own - and an upsert, which may not assign a metadata column,
    additionally assigns the HLC and stamps exactly the columns it assigns. *)
Theorem insert_stamps_every_row `{Uhlc} `{SqlParser} i ts i' :
  transform_insert InsertTransformer_new i ts = Ok i' ->
  in_table i' = in_table i /\ in_returning i' = in_returning i /\ in_rest i' = in_rest i /\
  in_columns i <> [] /\ in_columns i `prefix_of` in_columns i' /\
  (exists q q', in_source i = Some q /\ in_source i' = Some q' /\
     stamped_source (in_columns i) (in_columns i') (string_literal (ts_to_string ts)) q q') /\
  stamped_upsert ts (in_on i) (in_on i').
Proof.
  unfold transform_insert. intros ([] & Hon & Hr)%bind_Ok.
  apply (validate_on_insert_Ok i ts) in Hon.
  destruct (in_columns i) as [|col0 cols0] eqn:Hcols; [done|]. rewrite <- Hcols in *.
  destruct (match in_source i with Some _ => _ | None => _ end) eqn:Hwild; [done|].
  destruct (find_or_add_column _ _) as [cols' idx] eqn:Hf.
  apply bind_Ok in Hr as (q' & Hq & [= <-]). cbn [in_table in_returning in_rest in_columns in_source in_on].
  split; [done|]. split; [done|]. split; [done|]. split; [by rewrite Hcols|]. split.
  { unfold find_or_add_column in Hf. destruct (position _ _); injection Hf as <- _; [done|by eexists]. }
  split; [|exact Hon].
  destruct (in_source i) as [[body qr]|]; [|done]. exists (mkQuery body qr), q'. split; [done|]. split; [done|].
  destruct body as [[p f s r]| | |rows r| | |]; try done; injection Hq as <-; cbn.
  - do 5 (split; [done|]). exact (stamped_row_set_or_push _ _ _ (UnnamedExpr _) p Hf).
  - split; [done|]. split; [done|]. apply Forall2_fmap_r, Forall_Forall2_diag, Forall_forall.
    intros row _. exact (stamped_row_set_or_push _ _ _ _ row Hf).
Qed.

Abbreviation ident_name v := ([PartIdentifier (Ident_new v)]).
Definition mini_insert (table : string) (cols : list string) (row : list Expr) (on : option OnInsert) : Insert :=
  mkInsert (TableName (ident_name table)) (map (fun c => ident_name c) cols)
    (Some (mkQuery (SetValues [row] none) none)) on None none.
Definition mini_upsert (col : string) : OnInsert :=
  OnConflict "(id)" (DoUpdate [mkAssign (ColumnName (ident_name col)) (string_literal "x")] none).

#[local] Existing Instance mini_uhlc.
#[local] Instance mini_sql0 : SqlParser := mini_sql [].

(** The caller's forged HLC is replaced. *)
Definition mini_forged : Insert :=
  mini_insert "notes" ["id"; HLC_TIMESTAMP_COLUMN; "body"]
    [string_literal "1"; string_literal "999/1"; string_literal "hello"] (Some (mini_upsert "body")).
Definition mini_stamped : Insert :=
  match transform_insert InsertTransformer_new mini_forged (mkTs 7 1) with Ok i => i | _ => mini_forged end.

Lemma insert_stamps_every_row_witness :
  in_columns mini_stamped = map (fun c => ident_name c) ["id"; HLC_TIMESTAMP_COLUMN; "body"] /\
  stamped_upsert (mkTs 7 1) (in_on mini_forged) (in_on mini_stamped).
Proof.
  split; [vm_compute; reflexivity|].
  eapply (insert_stamps_every_row (H:=mini_uhlc) (H0:=mini_sql0) mini_forged (mkTs 7 1) mini_stamped). reflexivity.
Defined.

(** The owned columns are compared byte by byte, while SQL folds their case:
    an upsert that spells one in capitals is let through, and so assigns a column
    the transformer is to own. *)
Lemma upsert_metadata_case_gap :
  to_ascii_lowercase "HAEX_COLUMN_SIGS_NO_SYNC" = COLUMN_SIGS_COLUMN /\
  is_ok (transform_insert InsertTransformer_new
           (mini_insert "notes" ["id"] [string_literal "1"] (Some (mini_upsert COLUMN_SIGS_COLUMN))) (mkTs 7 1)) = false /\
  is_ok (transform_insert InsertTransformer_new
           (mini_insert "notes" ["id"] [string_literal "1"] (Some (mini_upsert "HAEX_COLUMN_SIGS_NO_SYNC")))
           (mkTs 7 1)) = true.
Proof. vm_compute. done. Qed.

(** A VALUES row with one value too many loses it: the HLC replaces it and the
    statement SQLite would have refused is accepted. *)
Lemma overlong_row_accepted :
  let i := mini_insert "notes" ["id"] [string_literal "1"; string_literal "extra"] None in
  exists i', transform_insert InsertTransformer_new i (mkTs 7 1) = Ok i' /\
    in_source i' = Some (mkQuery (SetValues [[string_literal "1"; string_literal (ts_to_string (mkTs 7 1))]] none) none).
Proof. eexists. split; reflexivity. Qed.

(** ** Tables *)

(** A synced table is created with exactly the metadata columns: the caller's
    columns of other names are kept in order, the three metadata columns are
    appended once each with the crate's own types whatever the caller declared, and
    declaring the result again changes nothing. *)
Theorem create_table_gets_metadata `{SqlParser} c c' :
  add_crdt_columns_to_create_table c = Ok c' ->
  ct_name c' = ct_name c /\ ct_query c = None /\ ct_temporary c' = ct_temporary c /\ ct_rest c' = ct_rest c /\
  (exists kept, ct_columns c' = kept ++
      [mkColumnDef (Ident_new HLC_TIMESTAMP_COLUMN) StringType [];
       mkColumnDef (Ident_new COLUMN_HLCS_COLUMN) StringType [];
       mkColumnDef (Ident_new COLUMN_SIGS_COLUMN) StringType
         [(None, NotNull); (None, Default (string_literal "{}"))]] /\
    kept `sublist_of` ct_columns c /\
    (forall d, d ∈ kept <-> d ∈ ct_columns c /\ id_value (cd_name d) ∉ meta_columns)) /\
  add_crdt_columns_to_create_table c' = Ok c'.
Proof.
  unfold add_crdt_columns_to_create_table. destruct (ct_query c) eqn:Hq; [done|]. intros [= <-].
  cbn [ct_name ct_columns ct_query ct_temporary ct_rest].
  destruct (add_to_table_definition_spec columns (ct_columns c)) as (kept & Hk & Hsub & Hin).
  repeat split; try done; [by exists kept|]. by rewrite add_to_table_definition_idemp.
Qed.

Definition mini_table : CreateTable :=
  mkCreateTable (ident_name "notes")
    [mkColumnDef (Ident_new "id") (OtherType "INTEGER") []; mkColumnDef (Ident_new HLC_TIMESTAMP_COLUMN) (OtherType "BLOB") []]
    None false none.

Lemma create_table_gets_metadata_witness :
  exists c', add_crdt_columns_to_create_table mini_table = Ok c' /\ ct_name c' = ident_name "notes" /\
    length (ct_columns c') = 4%nat.
Proof.
  eexists. split; [reflexivity|]. split; [|reflexivity].
  apply (create_table_gets_metadata (H:=mini_sql0) mini_table). reflexivity.
Defined.

Lemma insert_keeps_table `{Uhlc} `{SqlParser} i ts i' :
  transform_insert InsertTransformer_new i ts = Ok i' -> in_table i' = in_table i.
Proof.
  unfold transform_insert. intros ([] & _ & Hr)%bind_Ok. destruct (in_columns i); [done|].
  destruct (match in_source i with Some _ => _ | None => _ end); [done|].
  destruct (find_or_add_column _ _). by apply bind_Ok in Hr as (q' & _ & [= <-]).
Qed.

Lemma trim_matches_none c s : contains_char c s = false -> trim_matches c s = s.
Proof.
  intros Hc. unfold trim_matches.
  assert (trim_start_matches c s = s) as ->.
  { destruct s as [|x s]; [done|]. cbn in *. by destruct (Ascii.eqb x c). }
  induction s as [|x s IH]; [done|]. cbn in *. destruct (Ascii.eqb x c); [done|].
  rewrite IH by done. by destruct s.
Qed.

(** A fact about every byte, by evaluation. *)
Ltac ascii_cases x := destruct x as [[] [] [] [] [] [] [] []]; vm_compute; congruence.

Lemma contains_lower c v : ascii_lower c = c -> (forall x, ascii_lower x = c -> x = c) ->
  contains_char c (to_ascii_lowercase v) = contains_char c v.
Proof.
  intros Hc Hinj. unfold to_ascii_lowercase. induction v as [|x v IH]; [done|]. cbn. rewrite IH. f_equal.
  destruct (Ascii.eqb_spec (ascii_lower x) c) as [He|Hne]; destruct (Ascii.eqb_spec x c) as [->|Hx]; try done.
  - by destruct Hx; apply Hinj.
Qed.

(** ** Statements *)

Lemma transform_walk_id :
  (forall e : Expr, True) /\ (forall q, transform_query q = q) /\ (forall s, transform_set_expr s = s) /\
  (forall s, transform_select s = s) /\ (forall t, transform_table t = t) /\
  (forall t, transform_table_factor t = t).
Proof.
  apply ast_ind; try done; try (intros; cbn; congruence).
  - intros p from sel r Hfrom _. cbn. f_equal.
    induction Hfrom as [|t from Ht Hfrom IH]; [done|]. cbn. by rewrite Ht, IH.
  - intros r js Hr Hjs. cbn. rewrite Hr. f_equal.
    induction Hjs as [|[jr jo] js Hj Hjs IH]; [done|]. cbn in *. by rewrite Hj, IH.
Qed.

(** The table a statement writes or defines. *)
Definition statement_target (stmt : Statement) : option ObjectName :=
  match stmt with
  | StInsert i => match in_table i with TableName n => Some n | OtherTable _ => None end
  | StUpdate u => match tw_relation (up_table u) with TfTable n _ => Some n | _ => None end
  | StCreateTable c => Some (ct_name c)
  | StAlterTable a => Some (al_name a)
  | _ => None
  end.
Definition defines_table (stmt : Statement) : bool :=
  match stmt with StCreateTable _ | StAlterTable _ => true | _ => false end.

Section statements.
Context `{Unicode} `{Uhlc} `{SqlParser}.

Definition targets_synced (stmt : Statement) : bool :=
  match statement_target stmt with Some n => is_crdt_sync_table n | None => false end.

(** Only synced tables are touched: a statement that targets no table, or one
    whose name ends in [_no_sync] however it is spelled or qualified, reaches SQLite
    as it was written and reports no schema change; any other keeps its kind and its
    target, an UPDATE gains exactly one assignment, of the HLC, after the caller's,
    and the schema change reported is the target's normalized name, exactly for
    CREATE TABLE and ALTER TABLE. *)
Theorem transform_touches_synced_only stmt ts :
  (targets_synced stmt = false -> transform_execute_statement stmt ts = Ok (stmt, None)) /\
  (forall stmt' changed, transform_execute_statement stmt ts = Ok (stmt', changed) ->
     statement_target stmt' = statement_target stmt /\
     changed = (if targets_synced stmt && defines_table stmt then normalize_table_name <$> statement_target stmt else None) /\
     match stmt, stmt' with
     | StUpdate u, StUpdate u' => targets_synced stmt = true ->
         up_assignments u' = up_assignments u ++ [create_hlc_assignment HLC_TIMESTAMP_COLUMN ts] /\
         up_selection u' = up_selection u /\ up_table u' = up_table u
     | StInsert _, StInsert _ | StCreateTable _, StCreateTable _ => True
     | _, _ => stmt' = stmt
     end) /\
  (forall schema v, is_ascii v = true -> contains_char "`" v = false ->
     contains_char (ascii_of_nat 34) v = false ->
     is_crdt_sync_table (schema ++ [PartIdentifier (Ident_new v)]) =
       negb (ends_with "_no_sync" (to_ascii_lowercase v))).
Proof.
  split; [|split].
  - unfold targets_synced. destruct stmt as [q|i|u|d|c|a|names r|n r|l r|o]; cbn; intros Ht; try done.
    + by rewrite (proj1 (proj2 transform_walk_id)).
    + by destruct (in_table i); rewrite ?Ht.
    + by destruct (tw_relation (up_table u)); rewrite ?Ht.
    + by rewrite Ht.
    + by rewrite Ht.
  - intros stmt' changed. unfold targets_synced.
    destruct stmt as [q|i|u|d|c|a|names r|n r|l r|o]; cbn; try (by intros [= <- <-]).
    + rewrite (proj1 (proj2 transform_walk_id)). by intros [= <- <-].
    + destruct (in_table i) as [n|] eqn:Ht; [|by intros [= <- <-]; cbn; rewrite Ht].
      destruct (is_crdt_sync_table n); [|by intros [= <- <-]; cbn; rewrite Ht].
      intros (i' & Hi & [= <- <-])%bind_Ok. cbn. apply insert_keeps_table in Hi. by rewrite Hi, Ht.
    + destruct (tw_relation (up_table u)) eqn:Ht; try (by intros [= <- <-]; cbn; rewrite Ht).
      destruct (is_crdt_sync_table name) eqn:Hs; intros [= <- <-]; cbn; by rewrite Ht.
    + destruct (is_crdt_sync_table (ct_name c)); [|by intros [= <- <-]].
      intros (c' & Hc & [= <- <-])%bind_Ok. cbn. unfold add_crdt_columns_to_create_table in Hc.
      destruct (ct_query c); [done|]. by injection Hc as <-.
    + destruct (is_crdt_sync_table (al_name a)); by intros [= <- <-].
  - intros schema v Ha Hb Hq. unfold is_crdt_sync_table, normalize_table_name.
    rewrite last_snoc. cbn. unfold to_lowercase. rewrite Ha. f_equal. f_equal.
    rewrite (trim_matches_none "`"), trim_matches_none; [done| |];
      (rewrite contains_lower; [done|done|]); intros x; ascii_cases x.
Qed.
End statements.
