(* ===== verification/CrdtWrite.v ===== *)
(** * The CRDT write helpers (src/db/core/execute/mod.rs)

    Parsing one statement for the write path, refusing writes to the metadata
    columns, and stamping the statement with the transaction's HLC. The
    connection is its database value together with the state the SQLite hooks
    share with it; a statement the crate runs raises hook events of its own. *)

From S2P Require Import Prelude Utf8 Names Sql Mini Hlc Context Trigger Report Errors SqlAst Prefix Transform.

(** ** A connection with its hooks *)

Record LiveTx {U : Uhlc} (db : Type) := mkLive { lt_db : db; lt_conn : conn_state }.
Arguments mkLive {U db}.
Arguments lt_db {U db}.
Arguments lt_conn {U db}.

(** What SQLite does for the crate's own statements besides their result: the
    hook events they raise, whether a commit that fails does so after its hook has
    run, and how an error of a registered function comes back. *)
Class LiveDb (db : Type) `{Rusqlite db} := {
  raised : db -> Stmt -> list SqlValue -> list event;
  commit_fails_late : db -> bool;
  udf_error : HlcError -> SqlError;
}.

(** The connection is a database the crate's own functions run on: a
    statement that succeeds also runs its hooks. *)
#[export] Instance live_rusqlite {U : Uhlc} {db} `{LiveDb db} : Rusqlite (LiveTx db) := {
  prepare c st := prepare (lt_db c) st;
  execute c st ps :=
    r ← execute (lt_db c) st ps;
    Ok (fst r, mkLive (snd r) (fst (run (lt_conn c) (raised (lt_db c) st ps))));
  query c st ps := query (lt_db c) st ps;
  table_info c t := table_info (lt_db c) t;
  begin_immediate c := begin_immediate (lt_db c);
  begin_deferred c := begin_deferred (lt_db c);
  commit c := commit (lt_db c);
}.

Definition io_map_err {db E F A} (f : E -> F) (m : conn_io db E A) : conn_io db F A := fun c =>
  let '(r, c') := m c in (map_err f r, c').

(** ** Parsing *)

Section parse.
Context `{SqlParser}.

Definition object_name_last (obj : ObjectName) : option string := last_ident obj.

Definition target_names (target : AssignmentTarget) : list ObjectName :=
  match target with ColumnName name => [name] | TupleTarget names => names end.

Definition explicitly_written_columns (stmt : Statement) : list string :=
  let names :=
    match stmt with
    | StInsert insert => in_columns insert
    | StUpdate update =>
        match tw_relation (up_table update) with
        | TfTable _ _ => flat_map (fun a => target_names (as_target a)) (up_assignments update)
        | _ => []
        end
    | _ => []
    end in
  map to_ascii_lowercase (omap object_name_last names).

Definition is_crdt_meta_column (col : string) : bool :=
  String.eqb col HLC_TIMESTAMP_COLUMN || String.eqb col COLUMN_HLCS_COLUMN ||
  String.eqb col COLUMN_SIGS_COLUMN.

Definition behind_with (statement : Statement) : bool :=
  match statement with
  | StQuery query => match q_body query with SetInsert _ | SetUpdate _ => true | _ => false end
  | _ => false
  end.

Definition parse_crdt_write (sql : string) : res DatabaseError Statement :=
  statement ← parse_single_statement sql;
  if behind_with statement
  then Err (UnsupportedStatement "an INSERT or UPDATE behind a WITH clause cannot be stamped" sql)
  else
    match List.find is_crdt_meta_column (explicitly_written_columns statement) with
    | Some column => Err (CrdtMetaColumnWriteForbidden column)
    | None => Ok statement
    end.
End parse.

(** ** Stamping *)

Section stamp.
Context `{Unicode} `{Uhlc} `{SqlParser} {db : Type} `{LiveDb db}.

(** [SELECT current_hlc()]: SQLite calls the registered function once. *)
Definition select_current_hlc (now : Z) : conn_io (LiveTx db) SqlError string := fun c =>
  match prepare (lt_db c) (RawSql ("SELECT " +:+ HLC_FUNCTION_NAME +:+ "()")) with
  | Err e => (Err e, c)
  | Panic m => (Panic m, c)
  | Ok _ =>
      let '(r, ctx, svc) := current_or_new_tx_hlc (fst (lt_conn c)) (snd (lt_conn c)) now in
      (map_err udf_error (ts ← r; Ok (ts_to_string ts)), mkLive (lt_db c) (ctx, svc))
  end.

(** An operation on the HLC service the connection shares. *)
Definition on_hlc {A} (f : HlcService -> res HlcError A * HlcService)
    : conn_io (LiveTx db) HlcError A := fun c =>
  let '(r, svc) := f (snd (lt_conn c)) in (r, mkLive (lt_db c) (fst (lt_conn c), svc)).

(** [tx_scoped_hlc]; [now] and [now_update] are the two clock readings. *)
Definition tx_scoped_hlc (now now_update : Z) : conn_io (LiveTx db) DatabaseError Timestamp :=
  (hlc_str <- io_map_err (SqliteStep ("read " +:+ HLC_FUNCTION_NAME +:+ "()")) (select_current_hlc now) ;;
   timestamp <- io_read (fun _ => map_err (fun e => InvalidHlc ("from " +:+ HLC_FUNCTION_NAME +:+ "(): " +:+ e))
                                    (ts_from_str hlc_str)) ;;
   _u <- io_map_err DbHlc (on_hlc (fun svc => update_with_timestamp svc now_update timestamp)) ;;
   _p <- io_map_err DbHlc (io_exec (fun tx => tx' ← persist_timestamp tx timestamp; Ok (tt, tx'))) ;;
   io_ret timestamp)%io.

(** What [transform_write] returns, with the statement it rewrote in place. *)
Record Transformed := mkTransformed {
  tw_hlc : Timestamp;
  tw_sql : string;
  tw_schema_changed : option string;
  tw_statement : Statement;
}.

Definition transform_write (now now_update : Z) (statement : Statement)
    : conn_io (LiveTx db) DatabaseError Transformed :=
  (hlc_timestamp <- tx_scoped_hlc now now_update ;;
   r <- io_read (fun _ => transform_execute_statement statement hlc_timestamp) ;;
   io_ret (mkTransformed hlc_timestamp (strip_main_schema_prefix (statement_to_string (fst r))) (snd r) (fst r)))%io.
End stamp.

(** ** What the write path lets through *)

(** The columns an INSERT lists or an UPDATE assigns, as written. The assignments of an
    ON CONFLICT clause are not among them: the transformer checks those
    ([Transform.reject_caller_metadata]). *)
Definition written_names (stmt : Statement) : list ObjectName :=
  match stmt with
  | StInsert insert => in_columns insert
  | StUpdate update =>
      match tw_relation (up_table update) with
      | TfTable _ _ => flat_map (fun a => target_names (as_target a)) (up_assignments update)
      | _ => []
      end
  | _ => []
  end.

Definition spares_metadata (stmt : Statement) : Prop :=
  forall name col meta, In name (written_names stmt) -> last_ident name = Some col ->
    In meta meta_columns -> eq_ignore_ascii_case col meta = false.

Lemma meta_columns_lower meta : In meta meta_columns -> to_ascii_lowercase meta = meta.
Proof. by intros [<-|[<-|[<-|[]]]]. Qed.

Lemma explicitly_written_columns_eq stmt :
  explicitly_written_columns stmt = map to_ascii_lowercase (omap last_ident (written_names stmt)).
Proof. by destruct stmt. Qed.

Lemma no_meta_written stmt :
  List.find is_crdt_meta_column (explicitly_written_columns stmt) = None <-> spares_metadata stmt.
Proof.
  rewrite explicitly_written_columns_eq. unfold spares_metadata. split.
  - intros Hf name col meta Hin Hcol Hmeta. unfold eq_ignore_ascii_case.
    rewrite (meta_columns_lower meta Hmeta). apply String.eqb_neq. intros Heq.
    assert (is_crdt_meta_column meta = true) as Hm by (by apply is_meta_column_spec).
    rewrite (find_none _ _ Hf meta) in Hm; [done|]. apply in_map_iff. exists col. split; [done|].
    apply list_elem_of_In, list_elem_of_omap. exists name. by rewrite list_elem_of_In.
  - intros Hs. destruct (List.find _ _) as [c|] eqn:Hf; [|done]. exfalso.
    apply find_some in Hf as [Hin Hm]. apply in_map_iff in Hin as (col & <- & Hin).
    apply list_elem_of_In, list_elem_of_omap in Hin as (name & Hname & Hcol). apply list_elem_of_In in Hname.
    apply is_meta_column_spec in Hm. specialize (Hs name col _ Hname Hcol Hm).
    unfold eq_ignore_ascii_case in Hs. rewrite (meta_columns_lower _ Hm), String.eqb_refl in Hs. done.
Qed.

(** An INSERT or UPDATE that is the body of a query. *)
Definition hidden_write (stmt : Statement) : Prop :=
  exists query, stmt = StQuery query /\
    ((exists i, q_body query = SetInsert i) \/ (exists u, q_body query = SetUpdate u)).

Lemma behind_with_hidden stmt : behind_with stmt = true <-> hidden_write stmt.
Proof.
  unfold hidden_write, behind_with. split.
  - destruct stmt; try done. intros Hb. eexists. split; [done|].
    destruct (q_body _); try done; [left|right]; by eexists.
  - by intros (query & -> & [(i & ->)|(u & ->)]).
Qed.

(** The first name that spells a metadata column. *)
Definition first_meta_name (stmt : Statement) (column : string) : Prop :=
  exists before name after col, written_names stmt = before ++ name :: after /\
    last_ident name = Some col /\ to_ascii_lowercase col = column /\ In column meta_columns /\
    forall name' col', In name' before -> last_ident name' = Some col' ->
      ~ In (to_ascii_lowercase col') meta_columns.

Lemma find_first {A B} (g : A -> option B) (f : B -> string) (p : string -> bool) l c :
  List.find p (map f (omap g l)) = Some c <->
  exists before x after y, l = before ++ x :: after /\ g x = Some y /\ f y = c /\ p c = true /\
    forall x' y', In x' before -> g x' = Some y' -> p (f y') = false.
Proof.
  induction l as [|x l IH].
  - split; [done|]. by intros ([|] & ? & ? & ? & ? & _).
  - assert (omap g (x :: l) = match g x with Some y => y :: omap g l | None => omap g l end) as -> by done.
    split.
    + intros Hf. assert ((exists y, g x = Some y /\ f y = c /\ p c = true) \/
        ((forall y, g x = Some y -> p (f y) = false) /\ List.find p (map f (omap g l)) = Some c)) as [(y & Hy)|[Hx Hl]].
      { destruct (g x) as [y|]; [|by right]. cbn in Hf. destruct (p (f y)) eqn:Hp.
        - injection Hf as <-. left. by exists y.
        - right. split; [by intros ? [= <-]|done]. }
      * exists [], x, l, y. naive_solver.
      * apply IH in Hl as (bf & x1 & af & y1 & -> & Hg & Hc & Hp & Hb). exists (x :: bf), x1, af, y1.
        do 4 (split; [done|]). intros x' y' [<-|Hin] Hy; [by apply Hx|by eapply Hb].
    + intros (bf & x1 & af & y1 & Heq & Hg & Hc & Hp & Hb). destruct bf as [|x2 bf]; injection Heq as -> ->.
      * rewrite Hg. cbn. by rewrite Hc, Hp.
      * assert (List.find p (map f (omap g (bf ++ x1 :: af))) = Some c) as Hl.
        { apply IH. exists bf, x1, af, y1. do 4 (split; [done|]). intros x' y' Hin. apply Hb. by right. }
        destruct (g x2) as [y2|] eqn:Hg2; [|done]. cbn. by rewrite (Hb x2 y2 ltac:(by left) Hg2).
Qed.

Lemma find_meta_first stmt column :
  List.find is_crdt_meta_column (explicitly_written_columns stmt) = Some column <-> first_meta_name stmt column.
Proof.
  rewrite explicitly_written_columns_eq, find_first. unfold first_meta_name.
  assert (forall c, is_crdt_meta_column c = false <-> ~ In c meta_columns) as Hno.
  { intros c. rewrite <- not_true_iff_false. apply not_iff_compat. apply is_meta_column_spec. }
  assert (forall c, is_crdt_meta_column c = true <-> In c meta_columns) as Hyes by apply is_meta_column_spec.
  setoid_rewrite Hno. by setoid_rewrite Hyes.
Qed.

(** C16: the write path takes exactly one statement and no hand-written metadata:
    [parse_crdt_write] succeeds exactly on the text of a single statement that is no
    INSERT or UPDATE hidden behind WITH and names, in whatever case, none of the three
    metadata columns among those an INSERT lists or an UPDATE assigns. Text that does
    not parse is a [ParseError] with the parser's message, no statement an
    [EmptyStatement], several a [MultipleStatements], a write behind WITH an
    [UnsupportedStatement] that says so, and a metadata column is refused as
    [CrdtMetaColumnWriteForbidden] of the first name that spells one, in lower case.
    The assignments of an ON CONFLICT clause are left to the transformer. *)
Theorem parse_crdt_write_admits `{SqlParser} sql :
  (forall stmt, parse_crdt_write sql = Ok stmt <->
     parse_sql sql = Ok [stmt] /\ ~ hidden_write stmt /\ spares_metadata stmt) /\
  (forall e, parse_sql sql = Err e -> parse_crdt_write sql = Err (ParseError sql e)) /\
  (parse_sql sql = Ok [] -> parse_crdt_write sql = Err (EmptyStatement sql)) /\
  (forall s1 s2 rest, parse_sql sql = Ok (s1 :: s2 :: rest) -> parse_crdt_write sql = Err (MultipleStatements sql)) /\
  (forall stmt, parse_sql sql = Ok [stmt] -> hidden_write stmt ->
     parse_crdt_write sql =
       Err (UnsupportedStatement "an INSERT or UPDATE behind a WITH clause cannot be stamped" sql)) /\
  (forall stmt column, parse_sql sql = Ok [stmt] -> ~ hidden_write stmt ->
     parse_crdt_write sql = Err (CrdtMetaColumnWriteForbidden column) <-> first_meta_name stmt column).
Proof.
  setoid_rewrite <- behind_with_hidden. setoid_rewrite not_true_iff_false.
  unfold parse_crdt_write, parse_single_statement. split; [|split; [|split; [|split; [|split]]]].
  - intros stmt. split.
    + intros Hp. apply bind_Ok in Hp as (s & Hs & Hp).
      apply bind_Ok in Hs as (l & Hl%map_err_Ok & Hs). destruct l as [|s1 [|]]; try done. injection Hs as ->.
      destruct (behind_with s) eqn:Hb; [done|]. destruct (List.find _ _) eqn:Hf; [done|].
      injection Hp as ->. by apply no_meta_written in Hf.
    + intros (-> & Hb & Hs). cbn. rewrite Hb. by apply no_meta_written in Hs as ->.
  - by intros e ->.
  - by intros ->.
  - by intros s1 s2 rest ->.
  - intros stmt -> Hb. cbn. by rewrite Hb.
  - intros stmt column -> Hb. cbn. rewrite Hb, <- find_meta_first.
    destruct (List.find _ _); split; by intros [= ->].
Qed.

(** ** Well-formed writes *)

(** Each column is written once and every row has a value for each. *)
Definition names_once (names : list ObjectName) : Prop :=
  NoDup (map to_ascii_lowercase (omap last_ident names)).

Definition fits (cols : list ObjectName) (source : option Query) : Prop :=
  match source with
  | Some (mkQuery (SetValues rows _) _) => Forall (fun row => length row = length cols) rows
  | Some (mkQuery (SetSelect select) _) => length (sel_projection select) = length cols
  | _ => True
  end.

(** The columns an upsert assigns. *)
Definition upsert_names (on : option OnInsert) : list ObjectName :=
  match on with
  | Some (OnConflict _ (DoUpdate assignments _)) => flat_map (fun a => target_names (as_target a)) assignments
  | _ => []
  end.

Definition well_formed (stmt : Statement) : Prop :=
  names_once (written_names stmt) /\
  match stmt with
  | StInsert insert => fits (in_columns insert) (in_source insert) /\ names_once (upsert_names (in_on insert))
  | _ => True
  end.

(** An upsert of a synced table that assigns, in another spelling of its case, the HLC
    or the column-HLC column: the transformer compares these names byte by byte
    ([Transform.upsert_metadata_case_gap]). *)
Definition respells_metadata `{Unicode} `{SqlParser} (stmt : Statement) : Prop :=
  exists insert table name col, stmt = StInsert insert /\ in_table insert = TableName table /\
    is_crdt_sync_table table = true /\ In name (upsert_names (in_on insert)) /\ last_ident name = Some col /\
    In (to_ascii_lowercase col) [HLC_TIMESTAMP_COLUMN; COLUMN_HLCS_COLUMN].

Lemma names_once_stamps names : names_once names ->
  names_once (names ++ [name_of_ident (Ident_new HLC_TIMESTAMP_COLUMN); name_of_ident (Ident_new COLUMN_HLCS_COLUMN)]) <->
  ~ exists name col, In name names /\ last_ident name = Some col /\
      In (to_ascii_lowercase col) [HLC_TIMESTAMP_COLUMN; COLUMN_HLCS_COLUMN].
Proof.
  unfold names_once. intros Hnd. rewrite omap_app, map_app, NoDup_app.
  assert (forall c, c ∈ map to_ascii_lowercase (omap last_ident names) <->
    exists name col, In name names /\ last_ident name = Some col /\ to_ascii_lowercase col = c) as Hin.
  { intros c. rewrite list_elem_of_fmap. setoid_rewrite list_elem_of_omap. setoid_rewrite list_elem_of_In. naive_solver. }
  change (map to_ascii_lowercase (omap last_ident [name_of_ident (Ident_new HLC_TIMESTAMP_COLUMN);
    name_of_ident (Ident_new COLUMN_HLCS_COLUMN)])) with [HLC_TIMESTAMP_COLUMN; COLUMN_HLCS_COLUMN].
  split.
  - intros (_ & Hd & _) (name & col & Hn & Hl & Hm). apply (Hd (to_ascii_lowercase col)); [apply Hin; eauto|by apply list_elem_of_In].
  - intros Hno. split; [done|]. split.
    + intros c (name & col & Hn & Hl & <-)%Hin Hm%list_elem_of_In. apply Hno. eauto.
    + apply (bool_decide_unpack (NoDup [HLC_TIMESTAMP_COLUMN; COLUMN_HLCS_COLUMN])). vm_compute. exact I.
Qed.

Lemma names_once_hlc names :
  (forall name col, In name names -> last_ident name = Some col -> to_ascii_lowercase col <> HLC_TIMESTAMP_COLUMN) ->
  names_once names -> names_once (names ++ [name_of_ident (Ident_new HLC_TIMESTAMP_COLUMN)]).
Proof.
  unfold names_once. intros Hno Hnd. rewrite omap_app, map_app. apply NoDup_app. split; [done|].
  split; [|apply NoDup_singleton]. intros x Hx ->%list_elem_of_singleton.
  apply list_elem_of_In, in_map_iff in Hx as (col & Hc & Hin).
  apply list_elem_of_In, list_elem_of_omap in Hin as (name & Hname & Hcol). apply list_elem_of_In in Hname.
  exact (Hno name col Hname Hcol Hc).
Qed.

Lemma spares_hlc stmt name col :
  spares_metadata stmt -> In name (written_names stmt) -> last_ident name = Some col ->
  to_ascii_lowercase col <> HLC_TIMESTAMP_COLUMN.
Proof.
  intros Hs Hin Hcol Heq. pose proof (Hs name col HLC_TIMESTAMP_COLUMN Hin Hcol ltac:(by left)) as Hf.
  unfold eq_ignore_ascii_case in Hf. by rewrite Heq in Hf.
Qed.

Lemma find_or_add_fresh cols :
  (forall name col, In name cols -> last_ident name = Some col -> to_ascii_lowercase col <> HLC_TIMESTAMP_COLUMN) ->
  find_or_add_column cols HLC_TIMESTAMP_COLUMN =
    (cols ++ [name_of_ident (Ident_new HLC_TIMESTAMP_COLUMN)], length cols).
Proof.
  intros Hno. unfold find_or_add_column.
  destruct (position _ _) as [i|] eqn:Hp; [exfalso|done].
  apply position_Some in Hp as [(name & Hname & Hnm) _]. unfold names_column in Hnm.
  destruct (last_ident name) as [c|] eqn:Hc; [|done]. apply String.eqb_eq in Hnm as ->.
  apply list_elem_of_lookup_2, list_elem_of_In in Hname. by apply (Hno name HLC_TIMESTAMP_COLUMN Hname Hc).
Qed.

Lemma transform_insert_fits `{Uhlc} `{SqlParser} i ts i' cols' idx :
  transform_insert InsertTransformer_new i ts = Ok i' ->
  find_or_add_column (in_columns i) HLC_TIMESTAMP_COLUMN = (cols', idx) ->
  in_columns i' = cols' /\ (fits (in_columns i) (in_source i) -> fits cols' (in_source i')) /\
  in_on i' = augment_on InsertTransformer_new (in_on i) ts.
Proof.
  unfold transform_insert. intros ([] & _ & Hr)%bind_Ok Hf.
  destruct (in_columns i) as [|col0 cols0] eqn:Hcols; [done|]. rewrite <- Hcols in *.
  destruct (match in_source i with Some _ => _ | None => _ end) eqn:Hwild; [done|].
  change (hlc_timestamp_column InsertTransformer_new) with HLC_TIMESTAMP_COLUMN in Hr.
  rewrite Hf in Hr. apply bind_Ok in Hr as (q' & Hq & [= <-]). cbn [in_columns in_source in_on].
  split; [done|]. split; [|done]. destruct (in_source i) as [[body qr]|]; [|done].
  destruct body as [[p f s r]| | |rows r| | |]; try done; injection Hq as <-; cbn.
  - intros Hl. by destruct (stamped_row_set_or_push _ _ _ (UnnamedExpr (string_literal (ts_to_string ts))) p Hf Hl).
  - intros Hl. rewrite Forall_map. eapply Forall_impl; [exact Hl|]. intros row Hrow.
    by destruct (stamped_row_set_or_push _ _ _ (string_literal (ts_to_string ts)) row Hf Hrow).
Qed.

Lemma parse_crdt_write_spares `{SqlParser} sql stmt : parse_crdt_write sql = Ok stmt -> spares_metadata stmt.
Proof.
  unfold parse_crdt_write. intros (s & _ & Hp)%bind_Ok. destruct (behind_with s); [done|].
  destruct (List.find _ _) eqn:Hf; [done|]. injection Hp as ->. by apply no_meta_written.
Qed.

(** What stamping makes of the columns an upsert assigns. *)
Lemma augment_on_names `{Uhlc} `{SqlParser} on ts : names_once (upsert_names on) ->
  names_once (upsert_names (augment_on InsertTransformer_new on ts)) <->
  ~ exists name col, In name (upsert_names on) /\ last_ident name = Some col /\
      In (to_ascii_lowercase col) [HLC_TIMESTAMP_COLUMN; COLUMN_HLCS_COLUMN].
Proof.
  destruct on as [[target [|a sel]|o]|]; cbn; try (intros Hn; split; [by intros _ (? & ? & [] & _)|done]).
  unfold augment_do_update. rewrite flat_map_app. apply names_once_stamps.
Qed.

(** C30: stamping keeps a write well formed: when a statement the write path admits
    names every column once - among the columns it inserts or assigns, and among those
    its ON CONFLICT clause assigns - and gives every row one value per column, then for
    every kind of statement the transformer accepts so does the statement it makes of
    it: the HLC column it appends is never a second one, whatever the case of the
    caller's names, and no row is left short or overlong. The one exception is exact: an
    upsert of a synced table that assigns the HLC or the column-HLC column in another
    spelling of its case, which then is assigned twice. *)
Theorem stamping_keeps_well_formed `{Unicode} `{Uhlc} `{SqlParser} sql stmt ts stmt' changed :
  parse_crdt_write sql = Ok stmt -> well_formed stmt ->
  transform_execute_statement stmt ts = Ok (stmt', changed) ->
  (well_formed stmt' <-> ~ respells_metadata stmt).
Proof.
  intros Hs%parse_crdt_write_spares [Hnames Hwf] Ht.
  pose proof (fun name col => spares_hlc stmt name col Hs) as Hno.
  assert (forall s, (forall i, s <> StInsert i) -> ~ respells_metadata s) as Hother by (by intros s Hi (i & _ & _ & _ & -> & _); destruct (Hi i)).
  destruct stmt as [q|i|u|dl|ct|al| | | |]; cbn in Ht;
    try (injection Ht as <- <-; split; [intros _; by apply Hother|done]).
  - assert (stmt' = StInsert i /\ ~ respells_metadata (StInsert i) \/
      exists table i', in_table i = TableName table /\ is_crdt_sync_table table = true /\
        transform_insert InsertTransformer_new i ts = Ok i' /\ stmt' = StInsert i')
      as [[-> Hr]|(table & i' & Htab & Hsync & Hi & ->)]; [|by split|].
    { destruct (in_table i) as [table|] eqn:Htab;
        [|left; injection Ht as <- <-; split; [done|intros (? & ? & ? & ? & [= <-] & ? & _); congruence]].
      destruct (is_crdt_sync_table table) eqn:Hsync;
        [|left; injection Ht as <- <-; split; [done|intros (? & ? & ? & ? & [= <-] & ? & ? & _); congruence]].
      apply bind_Ok in Ht as (i' & Hi & [= <- <-]). right. by exists table, i'. }
    destruct Hwf as [Hfits Hon]. destruct (transform_insert_fits _ _ _ _ _ Hi (find_or_add_fresh _ Hno)) as (Hc & Hf & Ho).
    pose proof (augment_on_names (in_on i) ts Hon) as Haug. rewrite <- Ho in Haug. split.
    + intros (_ & _ & Hw%Haug) (? & ? & name & col & [= <-] & _ & _ & Hrest). apply Hw. by exists name, col.
    + intros Hr. split; cbn [written_names]; rewrite Hc; [by apply names_once_hlc|]. split; [by apply Hf|].
      apply Haug. intros (name & col & Hrest). apply Hr. by exists i, table, name, col.
  - assert (~ respells_metadata (StUpdate u)) as Hr by by apply Hother.
    assert (well_formed stmt'); [|by split]. cbn [written_names] in *.
    destruct (tw_relation _) eqn:Htw; try by injection Ht as <- <-; split; cbn; rewrite ?Htw.
    destruct (is_crdt_sync_table _); injection Ht as <- <-; (split; [|done]); cbn; rewrite Htw; [|done].
    rewrite flat_map_app. cbn. by apply names_once_hlc.
  - split; [intros _; by apply Hother|intros _]. destruct (is_crdt_sync_table _); [|by injection Ht as <- <-].
    by apply bind_Ok in Ht as (c & _ & [= <- <-]).
  - split; [intros _; by apply Hother|intros _]. destruct (is_crdt_sync_table _); by injection Ht as <- <-.
Qed.

(** ** One HLC for the whole transaction *)

(** The upsert of the clock row is a row-level write of the configuration
    table: its pre-update hook, and no other, fires. *)
Class LiveLaws db `{LiveDb db} : Prop := {
  upsert_raises : forall c ps, raised c ConfigUpsertHlc ps = [EvWrite TABLE_CRDT_CONFIGS];
}.

Section shared.
Context `{Unicode} `{Uhlc} `{SqlParser} {db : Type} `{HL : LiveLaws db}.

Lemma io_map_err_Ok {C E F A} (f : E -> F) (m : conn_io C E A) c a c' :
  io_map_err f m c = (Ok a, c') <-> m c = (Ok a, c').
Proof.
  unfold io_map_err. destruct (m c) as [r c1]. split.
  - intros [= Hr <-]. by apply map_err_Ok in Hr as ->.
  - by intros [= -> ->].
Qed.

Lemma select_current_hlc_Ok now (c : LiveTx db) s c' :
  select_current_hlc now c = (Ok s, c') ->
  exists t, s = ts_to_string t /\ tx_hlc_slot (fst (lt_conn c')) = mkMutex (Some t) false /\
    m_poisoned (write_pending (fst (lt_conn c'))) = false /\
    (forall t0, pinned t0 (lt_conn c) -> t = t0 /\ lt_conn c' = lt_conn c) /\ lt_db c' = lt_db c.
Proof.
  unfold select_current_hlc. destruct (prepare _ _); [|done..]. unfold current_or_new_tx_hlc.
  destruct (lt_conn c) as [[[slot ps] [w pw] ch ob] svc] eqn:Hc. cbn.
  unfold mutex_lock. cbn. destruct pw; [done|]. destruct ps; [done|].
  destruct (if w then slot else None) as [t|] eqn:Hs.
  - intros [= <- <-]. exists t. destruct w; [|done]. subst slot. cbn. do 3 (split; [done|]).
    split; [|done]. by intros t0 [_ [= ->]].
  - destruct (new_timestamp svc now) as [[ts| |] svc'] eqn:Hn; intros [= <- <-]. exists ts. cbn.
    do 3 (split; [done|]). split; [|done]. intros t0 [[= ->] [= ->]]. done.
Qed.

Lemma tx_scoped_hlc_Ok now now2 (c : LiveTx db) t c' :
  tx_scoped_hlc now now2 c = (Ok t, c') ->
  exists s n, ts_from_str (ts_to_string s) = Ok t /\ pinned s (lt_conn c') /\
    (forall s0, pinned s0 (lt_conn c) -> s = s0) /\
    execute (lt_db c) ConfigUpsertHlc [SText HLC_TIMESTAMP_TYPE; SText (ts_to_string t)] = Ok (n, lt_db c').
Proof.
  unfold tx_scoped_hlc. intros (str & c1 & Hs%io_map_err_Ok & Hr)%io_bind_Ok.
  apply select_current_hlc_Ok in Hs as (s & -> & Hslot & Hpw & Hpin & Hdb).
  apply io_bind_Ok in Hr as (t1 & c2 & (Ht%map_err_Ok & ->)%io_read_Ok & Hr).
  apply io_bind_Ok in Hr as ([] & c3 & Hu%io_map_err_Ok & Hr).
  apply io_bind_Ok in Hr as ([] & c4 & Hp%io_map_err_Ok & [= <- <-]).
  unfold on_hlc in Hu. destruct (update_with_timestamp _ _ _) as [r svc]. injection Hu as -> <-.
  unfold io_exec, persist_timestamp in Hp. cbn in Hp. rewrite upsert_raises in Hp.
  destruct (execute (lt_db c1) _ _) as [[n d]| |] eqn:Hex; cbn in Hp; [|done..]. injection Hp as <-. cbn [lt_conn lt_db].
  exists s, n. split; [done|]. split.
  - cbn [run step fst snd]. unfold pinned, preupdate_hook. cbn [fst].
    cbn. rewrite Hslot. unfold mutex_update. by rewrite Hpw.
  - split; [intros s0 Hs0; by destruct (Hpin s0 Hs0)|]. by rewrite <- Hdb.
Qed.

Lemma transform_write_Ok now now2 stmt (c : LiveTx db) w c' :
  transform_write now now2 stmt c = (Ok w, c') ->
  tx_scoped_hlc now now2 c = (Ok (tw_hlc w), c') /\
  transform_execute_statement stmt (tw_hlc w) = Ok (tw_statement w, tw_schema_changed w) /\
  tw_sql w = strip_main_schema_prefix (statement_to_string (tw_statement w)).
Proof.
  unfold transform_write. intros (t & c1 & Ht & Hr)%io_bind_Ok.
  apply io_bind_Ok in Hr as ([s ch] & c2 & (Hx & ->)%io_read_Ok & [= <- <-]). by cbn.
Qed.

(** C15: every stamped statement of a transaction and every trigger in it carry
    one HLC: after a statement was stamped, the HLC it got is on disk as the clock
    row, and whatever rows are written and however often [current_hlc()] is asked
    before the transaction ends, the triggers read the slot that produced it and
    the next stamped statement - with any clock reading and any database value -
    is stamped with the same HLC. *)
Theorem transaction_shares_one_hlc `{!HlcStore db} now now2 stmt (c : LiveTx db) w c'
    evs d now3 now4 stmt' w' c'' :
  transform_write now now2 stmt c = (Ok w, c') ->
  forallb in_tx evs = true ->
  transform_write now3 now4 stmt' (mkLive d (fst (run (lt_conn c') evs))) = (Ok w', c'') ->
  query (lt_db c') ConfigGetHlc [SText HLC_TIMESTAMP_TYPE] = Ok [[SText (ts_to_string (tw_hlc w))]] /\
  tw_hlc w' = tw_hlc w /\
  exists s, snd (run (lt_conn c') evs) = map (seen_in_tx s) evs /\
    ts_from_str (ts_to_string s) = Ok (tw_hlc w).
Proof.
  intros (Hw & _ & _)%transform_write_Ok Hevs (Hw' & _ & _)%transform_write_Ok.
  apply tx_scoped_hlc_Ok in Hw as (s & n & Hs & Hp & _ & Hex).
  split; [by eapply hlc_stored|].
  destruct (pinned_run s _ evs Hp Hevs) as (st & Hrun & Hp' & _). rewrite Hrun in *. cbn [fst snd] in *.
  apply tx_scoped_hlc_Ok in Hw' as (s' & n' & Hs' & _ & Hsame & _).
  cbn [lt_conn] in Hsame. apply Hsame in Hp' as ->. split; [congruence|]. by exists s.
Qed.
End shared.

(** The in-memory database raises just the hook of the clock row. *)
#[export] Instance mini_live : LiveDb Mem := {
  raised c st ps := match st with ConfigUpsertHlc => [EvWrite TABLE_CRDT_CONFIGS] | _ => [] end;
  commit_fails_late c := false;
  udf_error e := OtherSqlError "user function error";
}.
#[export] Instance mini_live_laws : LiveLaws Mem.
Proof. done. Qed.

#[local] Existing Instance mini_uhlc.
#[local] Instance mini_sql0 : SqlParser := mini_sql [].

Definition mini_live_conn : LiveTx Mem := mkLive (U:=mini_uhlc) mini_store (ConnectionContext_new, mini_svc).
Definition mini_note (id : string) : Statement :=
  StInsert (mini_insert "notes" ["id"] [string_literal id] None).
Definition mini_first := transform_write 20 20 (mini_note "a") mini_live_conn.
Definition mini_evs : list event := [EvWrite "notes"; EvHlc 30].
Definition mini_second :=
  transform_write 40 40 (mini_note "b") (mkLive (lt_db (snd mini_first)) (fst (run (lt_conn (snd mini_first)) mini_evs))).
Definition mini_stamp_of (r : res DatabaseError Transformed) : Transformed :=
  match r with Ok w => w | _ => mkTransformed (mkTs 0 0) EmptyString None (mini_note EmptyString) end.

Lemma ok_result {E A B} (x : res E A * B) (f : res E A -> A) :
  fst x = Ok (f (fst x)) -> x = (Ok (f (fst x)), snd x).
Proof. destruct x as [r c]. cbn. intros Hr. by f_equal. Qed.

Lemma transaction_shares_one_hlc_witness :
  tw_hlc (mini_stamp_of (fst mini_first)) = mkTs 20 1 /\
  tw_hlc (mini_stamp_of (fst mini_second)) = tw_hlc (mini_stamp_of (fst mini_first)).
Proof.
  split; [vm_compute; reflexivity|].
  apply (transaction_shares_one_hlc (db:=Mem) 20 20 (mini_note "a") mini_live_conn (mini_stamp_of (fst mini_first))
    (snd mini_first) mini_evs (lt_db (snd mini_first)) 40 40 (mini_note "b") (mini_stamp_of (fst mini_second))
    (snd mini_second)).
  - apply (ok_result mini_first mini_stamp_of). vm_compute. reflexivity.
  - reflexivity.
  - apply (ok_result mini_second mini_stamp_of). vm_compute. reflexivity.
Defined.

(** An upsert of a note. *)
Definition mini_put : Statement :=
  StInsert (mini_insert "notes" ["id"] [string_literal "a"] (Some (mini_upsert "body"))).
Definition mini_sql_note : SqlParser := mini_sql [("INSERT INTO notes (id) VALUES ('a') ON CONFLICT", [mini_put])].
Definition mini_noted : Statement :=
  match transform_execute_statement (H1:=mini_sql_note) mini_put (mkTs 7 1) with Ok (s, _) => s | _ => mini_put end.

Lemma stamping_keeps_well_formed_witness :
  length (written_names mini_noted) = 2%nat /\ well_formed mini_noted.
Proof.
  split; [vm_compute; reflexivity|].
  apply (stamping_keeps_well_formed (H1:=mini_sql_note) "INSERT INTO notes (id) VALUES ('a') ON CONFLICT" mini_put (mkTs 7 1)
    mini_noted None).
  - vm_compute. reflexivity.
  - split; [apply NoDup_singleton|]. split; [repeat constructor|apply NoDup_singleton].
  - vm_compute. reflexivity.
  - intros (i & table & name & col & [= <-] & _ & _ & [<-|[]] & [= <-] & Hm). vm_compute in Hm. by destruct Hm as [?|[?|[]]].
Defined.
