(* ===== verification/Migrations.v ===== *)
(** * The migration engine (src/db/migrations/engine.rs, bootstrap.rs,
    src/migration.rs)

    Two journals reconciled against two sources, each pending migration in its
    own transaction. The digest is a parameter of the model; a consumer's DDL is
    rewritten by the statement transformer (Transform.v). *)

From S2P Require Import Prelude Utf8 Names Sql Mini Hlc Trigger Report Errors Value Cleanup Compat SqlAst Prefix Transform.

(** ** Sources *)

Abbreviation MigrationName := string (only parsing).

Record MigrationSource := mkSource {
  load_migration : MigrationName -> res Error string;
  list_migrations : res Error (list MigrationName);
}.

(** [StaticMigrationSource]: a [BTreeMap] is a key-sorted association list. *)
Fixpoint btree_get (name : string) (m : list (string * string)) : option string :=
  match m with
  | [] => None
  | (k, v) :: m' => if String.eqb k name then Some v else btree_get name m'
  end.
Definition StaticMigrationSource (m : list (string * string)) : MigrationSource := {|
  load_migration name := ok_or (btree_get name m) (MigrationMissingFromSource ConsumerOwned name);
  list_migrations := Ok (map fst m);
|}.

Definition crate_migration_names : list MigrationName := map fst CRATE_MIGRATIONS.
Definition load_crate_migration (name : MigrationName) : res Error string :=
  ok_or (btree_get name CRATE_MIGRATIONS) (MigrationMissingFromSource CrateOwned name).

Record MigrationReport := mkMigrationReport { crate_applied : nat; consumer_applied : nat }.

Definition DRIZZLE_STATEMENT_BREAKPOINT := "--> statement-breakpoint".

Section engine.
Context `{Unicode} `{SqlParser} `{Sha256} {db : Type} `{Rusqlite db}.

Definition ensure_journal_tables : conn_io db Error unit :=
  io_exec (fun conn => r ← from_sql (execute conn CreateJournals []); Ok (tt, snd r)).

Definition journal_row (row : list SqlValue) : res SqlError (string * string) :=
  name ← get_string row 0; digest ← get_string row 1; Ok (name, digest).

Definition read_journal (conn : db) (journal_table : string) : res Error (list (string * string)) :=
  from_sql (rows ← query conn (ReadJournal journal_table) []; try_map journal_row rows).

Definition statements (content : string) : list string :=
  List.filter (fun s => negb (is_empty s)) (map trim (str_split DRIZZLE_STATEMENT_BREAKPOINT content)).

(** A statement the transformer refuses runs as it is. *)
Definition migration_sql (transform_ddl : bool) (statement : string) : string :=
  if transform_ddl
  then match transform_ddl_statement statement with Ok sql => sql | _ => statement end
  else statement.

Fixpoint execute_list (transform_ddl : bool) (tx : db) (stmts : list string) : res Error db :=
  match stmts with
  | [] => Ok tx
  | s :: rest =>
      r ← from_sql (execute tx (RawSql (migration_sql transform_ddl s)) []);
      execute_list transform_ddl (snd r) rest
  end.
Definition execute_statements (tx : db) (content : string) (transform_ddl : bool) : res Error db :=
  execute_list transform_ddl tx (statements content).

Definition apply_migration_body (journal_table : string) (name : MigrationName) (content : string)
    (transform_ddl : bool) (tx : db) : res Error (bool * db) :=
  let digest := sha256_hex content in
  existing_digest ← from_sql (optional
    (row ← query_row tx (JournalDigest journal_table) [SText name]; get_string row 0));
  match existing_digest with
  | Some stored_digest =>
      if String.eqb stored_digest digest then Ok (false, tx)
      else Err (MigrationContentDrift name stored_digest digest)
  | None =>
      tx1 ← execute_statements tx content transform_ddl;
      r ← from_sql (execute tx1 (JournalInsert journal_table) [SText name; SText digest]);
      Ok (true, snd r)
  end.

Definition apply_single_migration (journal_table : string) (name : MigrationName) (content : string)
    (transform_ddl : bool) : conn_io db Error bool := fun conn =>
  run_tx Sqlite begin_immediate conn (apply_migration_body journal_table name content transform_ddl).

(** The reconciliation of one journaled entry. *)
Definition check_journaled (journal : MigrationJournal) (source_list : list MigrationName)
    (load : MigrationName -> res Error string) (entry : string * string) : res Error unit :=
  let '(name, stored_digest) := entry in
  if negb (bool_decide (name ∈ source_list)) then Err (MigrationMissingFromSource journal name)
  else
    content ← load name;
    if String.eqb (sha256_hex content) stored_digest then Ok tt
    else Err (MigrationContentDrift name stored_digest (sha256_hex content)).

Fixpoint apply_pending (journal_table : string) (load : MigrationName -> res Error string)
    (transform_ddl : bool) (source_list : list MigrationName) (applied : nat) : conn_io db Error nat :=
  match source_list with
  | [] => io_ret applied
  | name :: rest =>
      (content <- io_read (fun _ => load name) ;;
       did <- apply_single_migration journal_table name content transform_ddl ;;
       apply_pending journal_table load transform_ddl rest (if did : bool then S applied else applied))%io
  end.

Definition reconcile_and_apply (journal : MigrationJournal) (journal_table : string)
    (source_list : list MigrationName) (load : MigrationName -> res Error string)
    (transform_ddl : bool) : conn_io db Error nat :=
  (journaled <- io_read (fun conn => read_journal conn journal_table) ;;
   _ <- io_read (fun _ => try_map (check_journaled journal source_list load) journaled) ;;
   apply_pending journal_table load transform_ddl source_list 0)%io.

Definition run_migrations (consumer_source : MigrationSource) : conn_io db Error MigrationReport :=
  (legacy_bootstrap_present <- prepare_legacy_schema ;;
   _ <- ensure_journal_tables ;;
   _ <- (if legacy_bootstrap_present : bool then record_legacy_bootstrap else io_ret tt) ;;
   crate_applied <- reconcile_and_apply CrateOwned TABLE_CRDT_MIGRATIONS crate_migration_names
                      load_crate_migration false ;;
   names <- io_read (fun _ => list_migrations consumer_source) ;;
   consumer_applied <- reconcile_and_apply ConsumerOwned TABLE_APP_MIGRATIONS names
                         (load_migration consumer_source) true ;;
   io_ret (mkMigrationReport crate_applied consumer_applied))%io.
End engine.

(** ** The journals as maps *)

(** What the bookkeeping statements do to a journal, seen as a map from names
    to digests. *)
Class JournalLaws (db : Type) `{Rusqlite db} := {
  journal : db -> string -> gmap string string;
  journal_read : forall c t rows, query c (ReadJournal t) [] = Ok rows ->
    exists l, try_map journal_row rows = Ok l /\ list_to_map l = journal c t /\ NoDup l.*1;
  journal_digest : forall c t n rows, query c (JournalDigest t) [SText n] = Ok rows ->
    rows = match journal c t !! n with Some d => [[SText d]] | None => [] end;
  journal_query : forall c st ps, query c st ps <> Err QueryReturnedNoRows;
  journal_insert : forall c t n d k c', execute c (JournalInsert t) [SText n; SText d] = Ok (k, c') ->
    journal c t !! n = None -> journal c' t = <[n := d]> (journal c t);
}.

Section journals.
Context `{Unicode} `{SqlParser} `{Sha256} {db : Type} `{HR : Rusqlite db} `{!JournalLaws db}.
Variables (j : MigrationJournal) (t : string) (names : list string)
  (load : string -> res Error string) (td : bool).

Abbreviation reconcile := (reconcile_and_apply j t names load td).

(** The statements of the source's migrations leave the journal alone. *)
Definition spares_journal : Prop := forall name content (c c' : db),
  load name = Ok content ->
  execute_statements c content td = Ok c' -> journal c' t = journal c t.

Lemma apply_migration_body_Ok name content tx did tx' :
  spares_journal -> load name = Ok content ->
  apply_migration_body t name content td tx = Ok (did, tx') ->
  journal tx' t = <[name := sha256_hex content]> (journal tx t) /\
  (if did then journal tx t !! name = None
   else journal tx t !! name = Some (sha256_hex content) /\ tx' = tx).
Proof.
  intros Hsp Hl Hb. unfold apply_migration_body in Hb. apply bind_Ok in Hb as (ex & Hex%map_err_Ok & Hb).
  unfold query_row in Hex. destruct (query tx (JournalDigest t) [SText name]) as [rows| |] eqn:Hq.
  2: { destruct e; try done. by apply journal_query in Hq. }
  2: { done. }
  apply journal_digest in Hq. subst rows. destruct (journal tx t !! name) as [d|] eqn:Hd; cbn in Hex;
    injection Hex as <-.
  - destruct (String.eqb_spec d (sha256_hex content)) as [->|]; [|done]. injection Hb as <- <-.
    by rewrite insert_id.
  - apply bind_Ok in Hb as (tx1 & Hst & Hb). apply bind_Ok in Hb as ([k c'] & Hi%map_err_Ok & [= <- <-]).
    pose proof (Hsp _ _ _ _ Hl Hst) as Hj. apply journal_insert in Hi; [|by rewrite Hj].
    cbn [snd]. by rewrite Hi, Hj.
Qed.

Lemma apply_pending_Ok ns applied conn n conn' :
  spares_journal -> apply_pending t load td ns applied conn = (Ok n, conn') ->
  journal conn t ⊆ journal conn' t /\
  (forall name, name ∈ ns -> exists content, load name = Ok content /\
     journal conn' t !! name = Some (sha256_hex content)) /\
  (forall name, is_Some (journal conn' t !! name) -> is_Some (journal conn t !! name) \/ name ∈ ns) /\
  (n + size (journal conn t) = applied + size (journal conn' t))%nat /\
  ((forall name, name ∈ ns -> is_Some (journal conn t !! name)) -> n = applied /\ conn' = conn).
Proof.
  intros Hsp. revert applied conn; induction ns as [|name ns IH]; intros applied conn; cbn [apply_pending].
  - intros [= <- <-]. split; [done|]. split; [by intros ? ?%elem_of_nil|]. auto.
  - intros (content & c1 & Hl & Hr)%io_bind_Ok. apply io_read_Ok in Hl as [Hl ->].
    apply io_bind_Ok in Hr as (did & c2 & Hs & Hr).
    apply run_tx_cases in Hs as [(a & [= <-] & Hs)|[? _]]; [|done].
    apply apply_migration_body_Ok in Hs as [Hj Hd]; [|done|done].
    apply IH in Hr as (Hsub & Hall & Hdom & Hsz & Hid).
    assert (journal conn t ⊆ journal c2 t) as Hsub0.
    { rewrite Hj. destruct did; [by apply insert_subseteq|]. destruct Hd as [Hd _]. by rewrite insert_id. }
    split; [by etransitivity|]. split.
    { intros x [->|Hx]%elem_of_cons; [|by apply Hall]. exists content. split; [done|].
      eapply lookup_weaken; [|exact Hsub]. by rewrite Hj, lookup_insert_eq. }
    split.
    { intros x [Hx|Hx]%Hdom; [|right; by right]. rewrite Hj in Hx.
      apply lookup_insert_is_Some' in Hx as [->|Hx]; [right; by left | by left]. }
    split.
    { rewrite Hj in Hsz. destruct did.
      - rewrite map_size_insert_None in Hsz by done. lia.
      - destruct Hd as [Hd _]. rewrite insert_id in Hsz by done. lia. }
    intros Hin. destruct did.
    { destruct (Hin name) as [x Hx]; [by left|]. congruence. }
    destruct Hd as [_ ->]. apply Hid. intros x Hx. apply Hin. by right.
Qed.

Lemma try_map_unit_first {A E} (f : A -> res E unit) l e :
  try_map f l = Err e <-> exists pre x post, l = pre ++ x :: post /\ f x = Err e /\ Forall (fun y => f y = Ok tt) pre.
Proof.
  induction l as [|a l IH]; cbn [try_map].
  - split; [done|]. by intros ([|] & ? & ? & ? & _).
  - destruct (f a) as [[]|e'|m] eqn:Ha; cbn.
    + split.
      * destruct (try_map f l) eqn:Hl; [done| |done]. intros [= <-].
        destruct (proj1 IH eq_refl) as (pre & x & post & -> & Hx & Hp). exists (a :: pre), x, post.
        split; [done|]. split; [done|]. by constructor.
      * intros ([|b pre] & x & post & [= -> ->] & Hx & Hp); [congruence|].
        inversion Hp; subst. rewrite (proj2 IH); [done|]. by exists pre, x, post.
    + split.
      * intros [= <-]. by exists [], a, l.
      * intros ([|b pre] & x & post & [= -> ->] & Hx & Hp); [congruence|]. inversion Hp; congruence.
    + split; [done|]. intros ([|b pre] & x & post & [= -> ->] & Hx & Hp); [congruence|]. inversion Hp; congruence.
Qed.
End journals.

(** ** Properties *)

(** C35: a migration is applied once and its content is final: after a
    successful reconciliation the journal holds exactly the names of the source,
    each with the digest of its content, nothing journaled before was altered, the
    count is the number of entries added, and running it again applies nothing and
    changes nothing. *)
Theorem migrations_applied_once `{Unicode} `{SqlParser} `{Sha256} {db} `{HR : Rusqlite db} `{!JournalLaws db}
    j t names load td (conn conn' : db) n :
  spares_journal (db := db) t load td ->
  reconcile_and_apply j t names load td conn = (Ok n, conn') ->
  (forall name, is_Some (journal conn' t !! name) <-> name ∈ names) /\
  (forall name, name ∈ names -> exists content, load name = Ok content /\
     journal conn' t !! name = Some (sha256_hex content)) /\
  journal conn t ⊆ journal conn' t /\
  (n + size (journal conn t) = size (journal conn' t))%nat /\
  (forall n2 conn2, reconcile_and_apply j t names load td conn' = (Ok n2, conn2) ->
     n2 = 0%nat /\ conn2 = conn').
Proof.
  intros Hsp Hr. unfold reconcile_and_apply in Hr. apply io_bind_Ok in Hr as (js & c1 & Hj & Hr).
  apply io_read_Ok in Hj as [Hj ->]. apply io_bind_Ok in Hr as (us & c2 & Hc & Hr).
  apply io_read_Ok in Hc as [Hc ->].
  destruct (apply_pending_Ok _ _ _ _ _ _ _ _ Hsp Hr) as (Hsub & Hall & Hdom & Hsz & _).
  assert (forall name, is_Some (journal conn' t !! name) <-> name ∈ names) as Hiff.
  { intros name. split; [|intros Hn; destruct (Hall name Hn) as (c & _ & ->); by eexists].
    intros [Hold|]%Hdom; [|done]. unfold read_journal in Hj.
    apply map_err_Ok, bind_Ok in Hj as (rows & Hq & Hm). apply journal_read in Hq as (l & Hl & Hjl & Hnd).
    rewrite Hm in Hl. injection Hl as <-. destruct Hold as [d Hd]. rewrite <- Hjl in Hd.
    apply elem_of_list_to_map_2 in Hd. apply try_map_Ok in Hc.
    apply (proj1 (list_elem_of_lookup _ _)) in Hd as [i Hi].
    destruct (Forall2_lookup_l _ _ _ _ _ Hc Hi) as (u & _ & Hck). unfold check_journaled in Hck.
    case_bool_decide; done. }
  split; [done|]. split; [done|]. split; [done|]. split; [lia|].
  intros n2 conn2 Hr2. unfold reconcile_and_apply in Hr2. apply io_bind_Ok in Hr2 as (js2 & c3 & Hj2 & Hr2).
  apply io_read_Ok in Hj2 as [_ ->]. apply io_bind_Ok in Hr2 as (us2 & c4 & Hc2 & Hr2).
  apply io_read_Ok in Hc2 as [_ ->].
  destruct (apply_pending_Ok _ _ _ _ _ _ _ _ Hsp Hr2) as (_ & _ & _ & _ & Hid).
  apply Hid. intros name. apply Hiff.
Qed.

(** Drift stops the open before anything runs: if a journaled migration is
    missing from its source, or its content no longer has the journaled digest, the
    reconciliation fails on such an entry, naming it and its own journal, and the
    database is untouched. *)
Theorem drift_refused_untouched `{Unicode} `{SqlParser} `{Sha256} {db} `{HR : Rusqlite db}
    j t names load td (conn : db) js name digest :
  read_journal conn t = Ok js -> (name, digest) ∈ js ->
  (name ∉ names \/ exists content, load name = Ok content /\ sha256_hex content <> digest) ->
  (forall n, n ∈ names -> exists content, load n = Ok content) ->
  exists n d, (n, d) ∈ js /\
    ((n ∉ names /\
      reconcile_and_apply j t names load td conn = (Err (MigrationMissingFromSource j n), conn)) \/
     exists content, load n = Ok content /\ sha256_hex content <> d /\
      reconcile_and_apply j t names load td conn =
        (Err (MigrationContentDrift n d (sha256_hex content)), conn)).
Proof.
  intros Hj Hin Hbad Hload. unfold reconcile_and_apply, io_bind, io_read. rewrite Hj.
  assert (forall n d, match check_journaled j names load (n, d) with
    | Ok _ => True | Panic _ => False
    | Err e => (n ∉ names /\ e = MigrationMissingFromSource j n) \/
        exists content, load n = Ok content /\ sha256_hex content <> d /\
          e = MigrationContentDrift n d (sha256_hex content) end) as Hcase.
  { intros n d. unfold check_journaled. case_bool_decide as Hn; cbn [negb]; [|by left].
    destruct (Hload n Hn) as [c ->]. cbn. destruct (String.eqb_spec (sha256_hex c) d); [done|].
    right. by exists c. }
  destruct (try_map (check_journaled j names load) js) as [us|e|m] eqn:Ht.
  - exfalso. apply try_map_Ok in Ht. apply list_elem_of_lookup in Hin as [i Hi].
    destruct (Forall2_lookup_l _ _ _ _ _ Ht Hi) as (u & _ & Hck). unfold check_journaled in Hck.
    case_bool_decide as Hn; cbn [negb] in Hck; [|done]. destruct Hbad as [?|(c & Hc & Hd)]; [done|].
    rewrite Hc in Hck. cbn in Hck. destruct (String.eqb_spec (sha256_hex c) digest); done.
  - apply try_map_unit_first in Ht as (pre & [n d] & post & -> & He & _). exists n, d.
    split; [apply elem_of_app; right; by left|]. specialize (Hcase n d). rewrite He in Hcase.
    destruct Hcase as [[Hn ->]|(c & Hc & Hd & ->)]; [by left | right; by exists c].
  - exfalso. assert (no_panic (try_map (check_journaled j names load) js)) as Hnp.
    { apply no_panic_try_map. intros [n d] _. specialize (Hcase n d). by destruct (check_journaled _ _ _ _). }
    by rewrite Ht in Hnp.
Qed.

(** ** A journal for the witnesses *)

Record MiniJournal := mkMiniJournal { mj_entries : gmap string (gmap string string); mj_ran : list string }.

Definition mj_get (c : MiniJournal) (t : string) : gmap string string := default ∅ (mj_entries c !! t).

#[export] Instance mini_journal_db : Rusqlite MiniJournal := {
  prepare c st := Ok tt;
  execute c st ps :=
    match st, ps with
    | JournalInsert t, [SText n; SText d] =>
        Ok (1%nat, mkMiniJournal (<[t := <[n := d]> (mj_get c t)]> (mj_entries c)) (mj_ran c))
    | RawSql sql, [] => Ok (0%nat, mkMiniJournal (mj_entries c) (mj_ran c ++ [sql]))
    | _, _ => Err (OtherSqlError "not in the model")
    end;
  query c st ps :=
    match st, ps with
    | ReadJournal t, [] => Ok (map (fun e => [SText e.1; SText e.2]) (map_to_list (mj_get c t)))
    | JournalDigest t, [SText n] =>
        Ok (match mj_get c t !! n with Some d => [[SText d]] | None => [] end)
    | _, _ => Err (OtherSqlError "not in the model")
    end;
  table_info c t := Ok [];
  begin_immediate c := Ok tt;
  begin_deferred c := Ok tt;
  commit c := Ok tt;
}.

Lemma mini_journal_rows l :
  try_map journal_row (map (fun e : string * string => [SText e.1; SText e.2]) l) = Ok l.
Proof. induction l as [|[n d] l IH]; [done|]. cbn. by rewrite IH. Qed.

#[export] Instance mini_journal_laws : JournalLaws MiniJournal.
Proof.
  refine {| journal := mj_get |}.
  - intros c t rows [= <-]. exists (map_to_list (mj_get c t)). rewrite mini_journal_rows.
    split; [done|]. split; [apply list_to_map_to_list | apply NoDup_fst_map_to_list].
  - by intros c t n rows [= <-].
  - intros c st ps. cbn. by repeat case_match.
  - intros c t n d k c' [= <- <-] _. unfold mj_get at 1. cbn. by rewrite lookup_insert_eq.
Defined.

#[local] Instance mini_sql0 : SqlParser := mini_sql [].
#[export] Instance mini_sha256 : Sha256 := { sha256 s := s }.

Lemma mini_spares t load td : spares_journal (db := MiniJournal) t load td.
Proof.
  intros name content c c' _. unfold execute_statements. generalize (statements content) as l. intros l. revert c.
  induction l as [|s l IH]; intros c; cbn [execute_list]; [by intros [= <-]|].
  cbn -[execute_list]. intros Hx. apply IH in Hx. exact Hx.
Qed.

Definition mini_source : list (string * string) := [("0001_a", "CREATE TABLE a"); ("0002_b", "CREATE TABLE b")].
Definition mini_load (name : string) : res Error string :=
  load_migration (StaticMigrationSource mini_source) name.
Abbreviation mini_start := (mkMiniJournal {["m" := {["0001_a" := sha256_hex "CREATE TABLE a"]}]} []).
Abbreviation mini_reconcile := (reconcile_and_apply (db := MiniJournal) ConsumerOwned "m"
  ["0001_a"; "0002_b"] mini_load true).

Lemma migrations_applied_once_witness :
  fst (mini_reconcile mini_start) = Ok 1%nat /\
  forall name, is_Some (journal (snd (mini_reconcile mini_start)) "m" !! name) <-> name ∈ ["0001_a"; "0002_b"].
Proof.
  split; [vm_compute; reflexivity|].
  assert (mini_reconcile mini_start = (Ok 1%nat, snd (mini_reconcile mini_start))) as E
    by (apply pair_result; vm_compute; reflexivity).
  exact (proj1 (migrations_applied_once _ _ _ _ _ _ _ _ (mini_spares _ _ _) E)).
Defined.

Lemma drift_refused_untouched_witness :
  exists e, mini_reconcile (mkMiniJournal {["m" := {["0001_a" := "00"]}]} []) =
    (Err e, mkMiniJournal {["m" := {["0001_a" := "00"]}]} []).
Proof.
  destruct (drift_refused_untouched ConsumerOwned "m" ["0001_a"; "0002_b"] mini_load true
    (mkMiniJournal {["m" := {["0001_a" := "00"]}]} []) [("0001_a", "00")] "0001_a" "00")
    as (n & d & _ & [[_ E]|(c & _ & _ & E)]).
  - vm_compute. reflexivity.
  - by left.
  - right. exists "CREATE TABLE a". split; [reflexivity|]. vm_compute. discriminate.
  - intros n Hn. apply elem_of_cons in Hn as [->|Hn]; [by eexists|].
    apply list_elem_of_singleton in Hn as ->. by eexists.
  - by eexists.
  - by eexists.
Defined.
