(* ===== verification/Install.v ===== *)
(** * Existing rows join the CRDT (src/database/install.rs, src/database/stamp.rs)

    [install_crdt] gives a table its metadata and backfills its rows; the
    stamping pass of an open does the same for rows written before the clock
    existed. Both share one fresh timestamp among all their rows. The clock is a
    shared service: a rollback does not take back a timestamp it issued. *)

From S2P Require Import Prelude Utf8 Names Json Sql Mini Hlc Trigger Report Errors Value Scanner Preimage Policy Cleanup Init Compat.

Record InstallCrdtOptions := mkInstallOptions { allow_reinstall : bool }.

(** [db.transaction_with_behavior(..).map_err(DatabaseError::from)?] *)
Definition db_sql_error (e : SqlError) : Error := Database (DbSqlite e).
Definition via_db {A} (r : res SqlError A) : res Error A := map_err db_sql_error r.

Section install.
Context `{Unicode} `{Serde} `{Base64} `{Uhlc} `{Sha256} {db : Type} `{Rusqlite db}.

(** The shared column-HLC map. *)
Definition column_hlcs_map (data_columns : list string) (hlc_str : string) : jmap :=
  fold_left (fun m col => jinsert col (JString hlc_str) m) data_columns [].
Definition build_column_hlcs_json (data_columns : list string) (hlc_str : string) : string :=
  json_to_string (JObject (column_hlcs_map data_columns hlc_str)).

Definition mark_dirty (tx : db) (table_name : string) : res Error db :=
  r ← via_db (execute tx MarkDirty [SText table_name]); Ok (snd r).

(** ** Stamping *)

Fixpoint pending_tables (tx : db) (tables : list string) (pending : list (string * list string))
    : res Error (list (string * list string)) :=
  match tables with
  | [] => Ok pending
  | t :: rest =>
      if String.eqb t DELETED_ROWS_TABLE || negb (is_safe_identifier t) then pending_tables tx rest pending
      else
        schema ← via_db (get_table_schema tx t);
        if negb (has_column COLUMN_HLCS_COLUMN schema) then pending_tables tx rest pending
        else
          unstamped ← via_db (row ← query_row tx (ExistsUnstamped t) []; get_bool row 0);
          pending_tables tx rest
            (if unstamped : bool then pending ++ [(t, map ci_name (snd (partition_columns schema)))] else pending)
  end.

Fixpoint stamp_tables (tx : db) (hlc_str : string) (pending : list (string * list string)) (stamped : nat)
    : res Error (nat * db) :=
  match pending with
  | [] => Ok (stamped, tx)
  | (t, tracked) :: rest =>
      r ← via_db (execute tx (StampRows t) [SText hlc_str; SText (build_column_hlcs_json tracked hlc_str)]);
      tx2 ← mark_dirty (snd r) t;
      stamp_tables tx2 hlc_str rest (stamped + fst r)
  end.

(** The timestamp and the writes of a pass, to the commit. *)
Definition commit_or_keep {A} (conn : db) (r : res Error (A * db)) : res Error A * db :=
  match r with
  | Ok (a, tx) =>
      match commit tx with
      | Ok _ => (Ok a, tx)
      | Err e => (Err (db_sql_error e), conn)
      | Panic m => (Panic m, conn)
      end
  | Err e => (Err e, conn)
  | Panic m => (Panic m, conn)
  end.

Definition issue_hlc (hlc : HlcService) (now : Z) (tx : db) : res Error (Timestamp * db) * HlcService :=
  let '(r, hlc') := new_timestamp_and_persist hlc now tx in (map_err (fun e => Database (DbHlc e)) r, hlc').

Definition stamp_unstamped_rows (conn : db) (hlc : HlcService) (now : Z)
    : res Error nat * db * HlcService :=
  match via_db (begin_immediate conn) ≫= (fun _ =>
          tables ← from_db (discover_crdt_tables conn); pending_tables conn tables []) with
  | Err e => (Err e, conn, hlc)
  | Panic m => (Panic m, conn, hlc)
  | Ok [] => (Ok 0%nat, conn, hlc)
  | Ok pending =>
      let '(issued, hlc') := issue_hlc hlc now conn in
      (commit_or_keep conn ('(t, tx) ← issued; stamp_tables tx (ts_to_string t) pending 0), hlc')
  end.

(** ** Backfill *)

Definition backfill_columns (schema : list ColumnInfo) : list string :=
  map ci_name (filter (fun c => negb (ci_is_pk c) && negb (is_meta_column (ci_name c)) = true) schema).

(** [serialize_row_pks]: pairs in schema-declaration order. *)
Definition serialize_row_pks (pk_columns : list string) (values : list json) : string :=
  "{" +:+ join "," (map (fun e => json_to_string (JString (fst e)) +:+ ":" +:+ json_to_string (snd e))
                      (zip pk_columns values)) +:+ "}".

Fixpoint sign_columns (provider : SignatureProvider) (table row_pks : string)
    (columns : list (string * json)) (hlc_str : string) (m : jmap) : res Error jmap :=
  match columns with
  | [] => Ok m
  | (col, v) :: rest =>
      bytes ← sign_column provider (column_sig_preimage_from_parts table row_pks col hlc_str v);
      sign_columns provider table row_pks rest hlc_str
        (if is_empty bytes then m else jinsert col (JString (encode_hex bytes)) m)
  end.
Definition build_column_sigs_json (table row_pks : string) (data_columns : list string)
    (data_values : list json) (hlc_str : string) (provider : SignatureProvider) : res Error string :=
  match data_columns with
  | [] => Ok "{}"
  | _ => m ← sign_columns provider table row_pks (zip data_columns data_values) hlc_str [];
         Ok (json_to_string (JObject m))
  end.

(** A legacy row: its key JSON, its key as stored, its data as JSON. *)
Definition legacy_row (pk_columns data_columns : list string) (row : list SqlValue)
    : string * list SqlValue * list json :=
  let pks := take (length pk_columns) row in
  (serialize_row_pks pk_columns (map convert_value_ref_to_json pks), pks,
   map convert_value_ref_to_json (drop (length pk_columns) row)).

Fixpoint backfill_rows (tx : db) (table : string) (pk_columns data_columns : list string)
    (hlc_str : string) (provider : SignatureProvider)
    (rows : list (string * list SqlValue * list json)) (touched : nat) : res Error (nat * db) :=
  match rows with
  | [] => Ok (touched, tx)
  | (row_pks, pk_sql_values, data_values) :: rest =>
      sigs ← build_column_sigs_json table row_pks data_columns data_values hlc_str provider;
      r ← via_db (execute tx
            (Update table [HLC_TIMESTAMP_COLUMN; COLUMN_HLCS_COLUMN; COLUMN_SIGS_COLUMN] (map WEq pk_columns))
            ([SText hlc_str; SText (build_column_hlcs_json data_columns hlc_str); SText sigs] ++ pk_sql_values));
      backfill_rows (snd r) table pk_columns data_columns hlc_str provider rest (touched + fst r)
  end.

Definition backfill_existing_rows (tx : db) (table : string) (hlc : HlcService) (now : Z)
    (provider : SignatureProvider) : res Error (nat * db) * HlcService :=
  match via_db (get_table_schema tx table) ≫= (fun schema =>
          match pk_names schema with
          | [] => Err (Database (CrdtSetup (PrimaryKeyMissing table)))
          | pks =>
              rows ← via_db (query tx (Select (pks ++ backfill_columns schema) table []) []);
              Ok (pks, backfill_columns schema, map (legacy_row pks (backfill_columns schema)) rows)
          end) with
  | Err e => (Err e, hlc)
  | Panic m => (Panic m, hlc)
  | Ok (_, _, []) => (Ok (0%nat, tx), hlc)
  | Ok (pks, data_columns, legacy_rows) =>
      let '(issued, hlc') := issue_hlc hlc now tx in
      ('(t, tx1) ← issued;
       backfill_rows tx1 table pks data_columns (ts_to_string t) provider legacy_rows 0, hlc')
  end.

Definition is_managed (cols : list ColumnInfo) : bool :=
  has_column HLC_TIMESTAMP_COLUMN cols && has_column COLUMN_HLCS_COLUMN cols && has_column COLUMN_SIGS_COLUMN cols.

Definition setup_crdt (tx : db) (table : string) : res Error db :=
  r ← map_err (fun e => Database (CrdtSetup e)) (ensure_crdt_columns_and_triggers tx table); Ok (snd r).

Definition install_crdt (conn : db) (table_name : string) (opts : InstallCrdtOptions) (hlc : HlcService)
    (now : Z) (provider : SignatureProvider) : res Error unit * db * HlcService :=
  if negb (is_safe_identifier table_name)
  then (Err (Database (ValidationError ("install_crdt: unsafe table identifier '" +:+ table_name +:+ "'"))), conn, hlc)
  else
    match via_db (begin_immediate conn) ≫= (fun _ =>
            tx ← migrate_legacy_metadata_columns conn;
            cols ← via_db (get_table_schema tx table_name); Ok (tx, is_managed cols)) with
    | Err e => (Err e, conn, hlc)
    | Panic m => (Panic m, conn, hlc)
    | Ok (tx, true) =>
        if negb (allow_reinstall opts) then (Err (CrdtAlreadyInstalled table_name), conn, hlc)
        else (commit_or_keep conn (tx1 ← setup_crdt tx table_name; Ok (tt, tx1)), hlc)
    | Ok (tx, false) =>
        match setup_crdt tx table_name with
        | Ok tx1 =>
            let '(r, hlc') := backfill_existing_rows tx1 table_name hlc now provider in
            (commit_or_keep conn
               ('(touched, tx2) ← r;
                tx3 ← (if Nat.ltb 0 touched then mark_dirty tx2 table_name else Ok tx2);
                Ok (tt, tx3)), hlc')
        | Err e => (Err e, conn, hlc)
        | Panic m => (Panic m, conn, hlc)
        end
    end.
End install.

(** ** What the passes rely on *)

Definition keeps_schema_stmt (st : Stmt) : bool :=
  match st with StampRows _ | MarkDirty | ConfigUpsertHlc => true | _ => false end.

(** Which tables hold a row without an HLC, and that the statements of the
    pass change rows only. *)
Class StampLaws (db : Type) `{Rusqlite db} := {
  unstamped : db -> string -> bool;
  unstamped_read : forall c t rows, query c (ExistsUnstamped t) [] = Ok rows ->
    rows = [[SInteger (if unstamped c t then 1 else 0)]];
  row_stmt_schema : forall c st ps n c', keeps_schema_stmt st = true -> execute c st ps = Ok (n, c') ->
    (forall t, table_info c' t = table_info c t) /\ query c' CrdtTables [] = query c CrdtTables [];
  rows_stamped : forall c t ps n c', execute c (StampRows t) ps = Ok (n, c') ->
    forall u, unstamped c' u = negb (String.eqb t u) && unstamped c u;
  bookkeeping_stamps_nothing : forall c st ps n c', st = MarkDirty \/ st = ConfigUpsertHlc ->
    execute c st ps = Ok (n, c') -> forall u, unstamped c' u = unstamped c u;
}.

Section stamping.
Context `{Unicode} `{Serde} `{Uhlc} {db : Type} `{HR : Rusqlite db} `{!StampLaws db}.

(** A table the pass looks at. *)
Definition candidate_table (c : db) (t : string) : Prop :=
  t <> DELETED_ROWS_TABLE /\ is_safe_identifier t = true /\
  exists schema, table_info c t = Ok schema /\ has_column COLUMN_HLCS_COLUMN schema = true.

Definition same_schema (c c' : db) : Prop :=
  (forall t, table_info c' t = table_info c t) /\ query c' CrdtTables [] = query c CrdtTables [].

Lemma same_schema_trans c1 c2 c3 : same_schema c1 c2 -> same_schema c2 c3 -> same_schema c1 c3.
Proof. intros [Ha Hb] [Hc Hd]. split; [intros t; by rewrite Hc|congruence]. Qed.

Lemma pending_tables_Ok c tables pending pending' :
  pending_tables c tables pending = Ok pending' ->
  exists extra, pending' = pending ++ extra /\
    (forall e, e ∈ extra -> unstamped c e.1 = true) /\
    (forall t, t ∈ tables -> candidate_table c t -> unstamped c t = true -> t ∈ extra.*1) /\
    (forall e, e ∈ extra -> exists t, t ∈ tables /\ candidate_table c t /\ e.1 = t).
Proof.
  revert pending; induction tables as [|t tables IH]; intros pending; cbn [pending_tables].
  - intros [= <-]. exists []. rewrite app_nil_r. split; [done|].
    split; [by intros ? ?%elem_of_nil|]. split; by intros ? ?%elem_of_nil.
  - destruct (String.eqb_spec t DELETED_ROWS_TABLE) as [->|Hne]; cbn [orb].
    { intros (extra & -> & He & Ht & Hs)%IH. exists extra. split; [done|]. split; [done|]. split.
      - intros t [->|Hin]%elem_of_cons Hcand Hun; [by destruct Hcand|]. by apply Ht.
      - intros e Hin. destruct (Hs e Hin) as (t & ? & ?). exists t. split; [by right|done]. }
    destruct (is_safe_identifier t) eqn:Hsafe; cbn [negb].
    2: { intros (extra & -> & He & Ht & Hs)%IH. exists extra. split; [done|]. split; [done|]. split.
      - intros u [->|Hin]%elem_of_cons Hcand Hun; [destruct Hcand as (_ & Hc & _); congruence|]. by apply Ht.
      - intros e Hin. destruct (Hs e Hin) as (u & ? & ?). exists u. split; [by right|done]. }
    intros (schema & Hg & Hr)%bind_Ok. apply map_err_Ok in Hg. unfold get_table_schema in Hg.
    rewrite Hsafe in Hg. cbn [negb] in Hg.
    destruct (has_column COLUMN_HLCS_COLUMN schema) eqn:Hc; cbn [negb] in Hr.
    + apply bind_Ok in Hr as (b & Hb & Hr). apply map_err_Ok in Hb. unfold query_row in Hb.
      destruct (query c (ExistsUnstamped t) []) as [rows| |] eqn:Hq; [|done..].
      apply unstamped_read in Hq. subst rows. cbn in Hb.
      assert (b = unstamped c t) as -> by (destruct (unstamped c t); by injection Hb as <-).
      apply IH in Hr as (extra & -> & He & Ht & Hs). destruct (unstamped c t) eqn:Hu.
      * exists ((t, map ci_name (snd (partition_columns schema))) :: extra). rewrite <- app_assoc. split; [done|].
        split; [|split].
        -- intros e [->|Hin]%elem_of_cons; [done|by apply He].
        -- intros u [->|Hin]%elem_of_cons Hcand Hun; [by left|]. right. by apply Ht.
        -- intros e [->|Hin]%elem_of_cons; [exists t; split; [by left|]; split; [|done]; split; [done|]; split; [done|]; by exists schema|].
           destruct (Hs e Hin) as (u & ? & ?). exists u. split; [by right|done].
      * exists extra. split; [done|]. split; [done|]. split.
        -- intros u [->|Hin]%elem_of_cons Hcand Hun; [congruence|]. by apply Ht.
        -- intros e Hin. destruct (Hs e Hin) as (u & ? & ?). exists u. split; [by right|done].
    + apply IH in Hr as (extra & -> & He & Ht & Hs). exists extra. split; [done|]. split; [done|]. split.
      * intros u [->|Hin]%elem_of_cons Hcand Hun; [|by apply Ht].
        destruct Hcand as (_ & _ & s & Hs' & Hc'). congruence.
      * intros e Hin. destruct (Hs e Hin) as (u & ? & ?). exists u. split; [by right|done].
Qed.

Lemma stamp_tables_Ok c hlc_str pending k n c' :
  stamp_tables c hlc_str pending k = Ok (n, c') ->
  same_schema c c' /\ forall u, unstamped c' u = unstamped c u && negb (bool_decide (u ∈ pending.*1)).
Proof.
  revert c k; induction pending as [|[t tracked] pending IH]; intros c k; cbn [stamp_tables].
  - intros [= <- <-]. split; [by split|]. intros u. rewrite bool_decide_eq_false_2 by apply not_elem_of_nil.
    by rewrite andb_true_r.
  - intros ([m c1] & Hs%map_err_Ok & Hr)%bind_Ok. apply bind_Ok in Hr as (c2 & Hm & Hr).
    apply bind_Ok in Hm as ([m2 c3] & Hm%map_err_Ok & [= <-]). cbn [fst snd] in *.
    apply IH in Hr as [Hsch Hun]. split.
    + eapply same_schema_trans; [|exact Hsch]. eapply same_schema_trans; eapply row_stmt_schema;
        [|exact Hs| |exact Hm]; done.
    + intros u. rewrite Hun, (bookkeeping_stamps_nothing _ _ _ _ _ (or_introl eq_refl) Hm),
        (rows_stamped _ _ _ _ _ Hs). cbn [fmap list_fmap fst].
      destruct (String.eqb_spec t u) as [->|Hne]; cbn [negb andb].
      * rewrite (bool_decide_eq_true_2 (u ∈ u :: pending.*1)) by by left. by rewrite andb_false_r.
      * f_equal. f_equal. apply bool_decide_ext. rewrite elem_of_cons. naive_solver.
Qed.
End stamping.

(** ** Properties *)

(** The backfill covers the consumer's [_no_sync] columns: it records HLCs and
    asks for signatures for columns that the triggers do not track and the scanner
    never ships. *)
Lemma backfill_covers_no_sync schema c :
  c ∈ schema -> ci_is_pk c = false -> is_no_sync_name (ci_name c) = true ->
  is_meta_column (ci_name c) = false ->
  ci_name c ∈ backfill_columns schema /\ c ∉ snd (partition_columns schema).
Proof.
  intros Hc Hpk Hns Hm. split.
  - apply list_elem_of_fmap_2, list_elem_of_filter. by rewrite Hpk, Hm.
  - cbn. intros [Hd _]%list_elem_of_filter. unfold is_data_column in Hd. by rewrite Hpk, Hns in Hd.
Qed.

(** With nothing to stamp a call does nothing. *)
Lemma stamp_nothing `{Unicode} `{Serde} `{Uhlc} {db} `{HR : Rusqlite db} `{!StampLaws db} (c : db) tables hlc now n c' hlc' :
  discover_crdt_tables c = Ok tables -> (forall t, t ∈ tables -> candidate_table c t -> unstamped c t = false) ->
  stamp_unstamped_rows c hlc now = (Ok n, c', hlc') -> n = 0%nat /\ c' = c /\ hlc' = hlc.
Proof.
  intros Hd Hno Hs. unfold stamp_unstamped_rows in Hs. rewrite Hd in Hs.
  destruct (begin_immediate c); cbn [via_db map_err mbind res_bind from_db] in Hs; [|done..].
  destruct (pending_tables c tables []) as [pending| |] eqn:Hp; [|done..].
  apply pending_tables_Ok in Hp as (extra & -> & He & _ & Hsub). cbn [app] in Hs.
  destruct extra as [|e extra]; [by injection Hs|]. exfalso.
  destruct (Hsub e) as (t & Ht & Hc & Het); [by left|]. specialize (He e ltac:(by left)).
  rewrite Het, (Hno t Ht Hc) in He. done.
Qed.

(** A call that stamps tables: it fails and leaves the connection, or these tables
    have no unstamped row any more. *)
Lemma stamp_committed `{Unicode} `{Serde} `{Uhlc} {db} `{HR : Rusqlite db} `{!StampLaws db}
    (conn conn' : db) hlc now extra r :
  commit_or_keep conn ('(t, tx) ← fst (issue_hlc hlc now conn); stamp_tables tx (ts_to_string t) extra 0) = (r, conn') ->
  match r with
  | Ok _ => same_schema conn conn' /\ forall u, unstamped conn' u = unstamped conn u && negb (bool_decide (u ∈ extra.*1))
  | _ => conn' = conn
  end.
Proof.
  destruct (issue_hlc hlc now conn) as [issued hlc1] eqn:Hi. cbn [fst]. unfold commit_or_keep.
  destruct ('(t, tx) ← issued; stamp_tables tx (ts_to_string t) extra 0) as [[x tx]| |] eqn:Hb; [|by intros [= <- <-]..].
  destruct (commit tx); [intros [= <- <-]|by intros [= <- <-]..].
  apply bind_Ok in Hb as ([t tx0] & -> & Hst). apply stamp_tables_Ok in Hst as [Hsch Hun].
  unfold issue_hlc, new_timestamp_and_persist in Hi. destruct (new_timestamp hlc now) as [[t0| |] svc]; [|done..].
  injection Hi as Hi _. apply map_err_Ok, bind_Ok in Hi as (tx1 & Hper & [= -> ->]).
  unfold persist_timestamp in Hper. apply map_err_Ok, bind_Ok in Hper as ([k c] & Hx & [= <-]). cbn [snd] in *.
  split.
  - eapply same_schema_trans; [|exact Hsch]. eapply row_stmt_schema; [|exact Hx]. done.
  - intros u. by rewrite Hun, (bookkeeping_stamps_nothing _ _ _ _ _ (or_intror eq_refl) Hx).
Qed.

(** The stamping pass finishes its work and runs once: after it succeeds no
    synced table holds a row without an HLC; if there was none to begin with, no
    timestamp is issued and the database is untouched; a later pass finds nothing,
    issues nothing and changes nothing; and a failed pass leaves the database as it
    was. *)
Theorem stamp_once `{Unicode} `{Serde} `{Uhlc} {db} `{HR : Rusqlite db} `{!StampLaws db}
    (conn conn' : db) hlc now r hlc' :
  stamp_unstamped_rows conn hlc now = (r, conn', hlc') ->
  match r with
  | Ok n =>
      (exists tables, discover_crdt_tables conn = Ok tables /\
         (forall t, t ∈ tables -> candidate_table conn t -> unstamped conn' t = false) /\
         ((forall t, t ∈ tables -> candidate_table conn t -> unstamped conn t = false) ->
          n = 0%nat /\ conn' = conn /\ hlc' = hlc)) /\
      (forall hlc2 now2 n2 conn2 hlc3, stamp_unstamped_rows conn' hlc2 now2 = (Ok n2, conn2, hlc3) ->
         n2 = 0%nat /\ conn2 = conn' /\ hlc3 = hlc2)
  | _ => conn' = conn
  end.
Proof.
  intros Hs. pose proof Hs as Hs0. unfold stamp_unstamped_rows in Hs.
  destruct (begin_immediate conn); cbn [via_db map_err mbind res_bind] in Hs; [|by injection Hs as <- <- <-..].
  destruct (discover_crdt_tables conn) as [tables| |] eqn:Hd; cbn [from_db map_err mbind res_bind] in Hs;
    [|by injection Hs as <- <- <-..].
  destruct (pending_tables conn tables []) as [pending| |] eqn:Hp; [|by injection Hs as <- <- <-..].
  apply pending_tables_Ok in Hp as (extra & -> & He & Hcov & Hsub). cbn [app] in Hs.
  assert (match r with
    | Ok _ => same_schema conn conn' /\ forall u, unstamped conn' u = unstamped conn u && negb (bool_decide (u ∈ extra.*1))
    | _ => conn' = conn end) as Heff.
  { destruct extra as [|e0 extra'] eqn:Hex.
    { injection Hs as <- <- _. split; [by split|]. intros u. cbn. by rewrite andb_true_r. }
    rewrite <- Hex in *. apply (stamp_committed conn conn' hlc now extra). destruct (issue_hlc hlc now conn) as [issued hlc1].
    cbn [fst]. injection Hs as Hc _. exact Hc. }
  destruct r as [n|e|m]; [|done..]. destruct Heff as [Hsch Hun].
  assert (forall t, t ∈ tables -> candidate_table conn t -> unstamped conn' t = false) as Hclean.
  { intros t Ht Hc. rewrite Hun. destruct (unstamped conn t) eqn:Hu; [|done]. by rewrite bool_decide_eq_true_2 by auto. }
  split.
  - exists tables. split; [done|]. split; [done|]. intros Hno. by apply (stamp_nothing conn tables hlc now).
  - intros hlc2 now2 n2 conn2 hlc3 Hs2. destruct Hsch as [Hti Hct].
    apply (stamp_nothing conn' tables hlc2 now2); [| |done].
    + unfold discover_crdt_tables in *. by rewrite Hct.
    + intros t Ht Hc. apply Hclean; [done|]. destruct Hc as (Hx1 & Hx2 & schema & Hx3 & Hx4). rewrite Hti in Hx3.
      repeat (split; [done|]). by exists schema.
Qed.

#[export] Instance mini_stamp : StampLaws Mem.
Proof.
  refine {| unstamped c t := existsb mem_unstamped (default [] (mt_rows <$> m_tables c !! t)) |}.
  - intros c t rows. cbn. unfold mem_table. destruct (m_tables c !! t) as [mt|]; cbn; [|done]. by intros [= <-].
  - intros c st ps n c' Hst Hex. destruct st; try done; cbn in Hex.
    + by repeat case_match; simplify_eq.
    + by injection Hex as <- <-.
    + apply bind_Ok in Hex as (mt & Ht%ok_or_Ok & Hex). repeat (case_match; try done).
      injection Hex as <- <-. cbn. split.
      * intros u. destruct (decide (u = table)) as [->|]; [by rewrite lookup_insert_eq, Ht|by rewrite lookup_insert_ne].
      * by rewrite mem_synced_same_schema.
  - intros c t ps n c' Hex u. cbn in Hex. apply bind_Ok in Hex as (mt & Ht%ok_or_Ok & Hex).
    repeat (case_match; try done). injection Hex as <- <-. cbn.
    destruct (String.eqb_spec t u) as [->|Hne]; cbn; [|by rewrite lookup_insert_ne].
    rewrite lookup_insert_eq. cbn. induction (mt_rows mt) as [|row rows IH]; [done|]. cbn. rewrite IH, orb_false_r.
    unfold mem_stamp. destruct (mem_unstamped row) eqn:Hr; [|done].
    unfold mem_unstamped, mem_get. rewrite lookup_insert_ne by done. by rewrite lookup_insert_eq.
  - intros c st ps n c' [-> | ->] Hex u; cbn in Hex; [by injection Hex as <- <-|].
    by repeat case_match; simplify_eq.
Defined.

Lemma stamp_once_witness :
  exists n conn' hlc', stamp_unstamped_rows (mini_mem [<["id" := SText "a"]> ∅]) mini_svc 20 = (Ok n, conn', hlc') /\
    exists tables, discover_crdt_tables (mini_mem [<["id" := SText "a"]> ∅]) = Ok tables.
Proof.
  destruct (stamp_unstamped_rows (mini_mem [<["id" := SText "a"]> ∅]) mini_svc 20) as [[r conn'] hlc'] eqn:E.
  pose proof (stamp_once _ _ _ _ _ _ E) as Hs.
  assert (r = Ok 1%nat) as ->.
  { apply (f_equal (fun x => fst (fst x))) in E. cbn [fst] in E. rewrite <- E. vm_compute. reflexivity. }
  exists 1%nat, conn', hlc'. split; [reflexivity|]. destruct Hs as [(tables & Ht & _) _]. exists tables. exact Ht.
Defined.
