(* ===== verification/Engine.v ===== *)
(** * Applying a remote batch (src/crdt/apply/engine.rs)

    [apply_remote_changes]: preflight, then one transaction that merges the
    batch row by row, fans out the delete log and restores the trigger gate, then
    the advance of the clock. The working database, the policy's state, the
    outcome and the greatest accepted HLC are the state of the row loop. *)

From S2P Require Import Prelude Utf8 Hashing Names Json Sql Mini Hlc Lww Trigger Report Errors Value Scanner Preimage Policy Preflight Grouping Row Write DeleteProp Cleanup.

(** ** The row loop's state *)

Record ApplyState (db P : Type) := mkApplyState {
  st_tx : db;
  st_policy : P;
  st_outcome : ApplyOutcome;
  st_max_accepted : option string;
}.
Arguments mkApplyState {db P}.
Arguments st_tx {db P}.
Arguments st_policy {db P}.
Arguments st_outcome {db P}.
Arguments st_max_accepted {db P}.

Section engine.
Context `{Unicode} `{Serde} `{Uhlc} `{HashOrder} {db : Type} `{Rusqlite db} {P : Type}
  (policy : ApplyPolicy db P).

Abbreviation state := (ApplyState db P) (only parsing).

Definition set_outcome (o : ApplyOutcome) (st : state) : state :=
  mkApplyState (st_tx st) (st_policy st) o (st_max_accepted st).

Definition toggle_triggers (tx : db) (v : string) : res Error db :=
  r ← from_sql (execute tx ToggleTriggers [SText v]); Ok (snd r).

(** [fold_max_accepted_hlc]: both [expect]s are panics. *)
Definition fold_max_accepted_hlc (max_accepted_hlc : option string) (hlc : string)
    : res Error (option string) :=
  match ts_from_str hlc with
  | Ok incoming =>
      match max_accepted_hlc with
      | None => Ok (Some hlc)
      | Some current =>
          match ts_from_str current with
          | Ok cur =>
              match ts_compare incoming cur with
              | Gt => Ok (Some hlc)
              | _ => Ok max_accepted_hlc
              end
          | _ => Panic "max_accepted_hlc must contain a valid HLC timestamp"
          end
      end
  | _ => Panic "preflight must reject malformed full HLC timestamps"
  end.

Fixpoint fold_accepted (max_accepted_hlc : option string) (staged : list StagedColumn)
    : res Error (option string) :=
  match staged with
  | [] => Ok max_accepted_hlc
  | s :: rest => m ← fold_max_accepted_hlc max_accepted_hlc (sc_hlc s); fold_accepted m rest
  end.

Definition build_written_columns (staged : list StagedColumn) : list WrittenColumn :=
  map (fun s => mkWritten (sc_input_index s) (sc_change s) (sc_value s)) staged.

(** The eligibility pass: indices of the eligible changes, the others counted
    and recorded. *)
Definition skip_column (o : ApplyOutcome) (i : nat) (reason : SkipReason) : res Error ApplyOutcome :=
  rep ← match reason with
        | UnknownColumn => Ok (add_unknown_column 1 (report o))
        | ReservedColumn => Ok (add_reserved_column 1 (report o))
        | NoSyncColumn => Ok (add_no_sync_column 1 (report o))
        | _ => Panic "classify_eligibility only returns the three column reasons"
        end;
  Ok (mkOutcome rep (push_skip i reason (skipped o))).

Fixpoint eligibility_loop (existing_columns expected_pks : gset string) (i : nat)
    (changes : list IndexedChange) (eligible : list nat) (o : ApplyOutcome)
    : res Error (list nat * ApplyOutcome) :=
  match changes with
  | [] => Ok (eligible, o)
  | ic :: rest =>
      match classify_eligibility (column_name (ic_change ic)) existing_columns expected_pks with
      | None => eligibility_loop existing_columns expected_pks (S i) rest (eligible ++ [i]) o
      | Some reason =>
          o' ← skip_column o (ic_input_index ic) reason;
          eligibility_loop existing_columns expected_pks (S i) rest eligible o'
      end
  end.

(** [RowDecision::Skip]: every eligible change of the row. *)
Definition skip_eligible (changes : list IndexedChange) (eligible : list nat) (o : ApplyOutcome)
    : res Error ApplyOutcome :=
  idxs ← try_map (fun i => ic ← expect (changes !! i) "index out of bounds"; Ok (ic_input_index ic)) eligible;
  Ok (mkOutcome (add_policy (length eligible) (report o)) (push_skipped PolicySkip idxs (skipped o))).

(** Record every staged change under one reason. *)
Definition skip_staged (add : nat -> ApplyReport -> ApplyReport) (reason : SkipReason)
    (staged : list StagedColumn) (o : ApplyOutcome) : ApplyOutcome :=
  mkOutcome (add (length staged) (report o)) (push_skipped reason (map sc_input_index staged) (skipped o)).

(** What follows a write: [after_row] and the clock, or the constraint hook. *)
Definition finish_row (table row_pks_str : string) (row_pks : jmap) (schema : list ColumnInfo)
    (row_exists : bool) (staged : list StagedColumn) (row_hlc : string) (st : state)
    (w : WriteOutcome db) : res Error state :=
  let row_write := mkRowWrite table row_pks_str row_pks schema (build_written_columns staged) row_hlc in
  match w with
  | Written tx =>
      r ← after_row policy (st_policy st) tx row_write;
      let '(p, tx') := r in
      let o := st_outcome st in
      m ← fold_accepted (st_max_accepted st) staged;
      Ok (mkApplyState tx' p (mkOutcome (add_applied (length staged) (report o)) (skipped o)) m)
  | SqlFailure error tx =>
      let constraint_reason := if negb row_exists then classify_insert_constraint error else None in
      match constraint_reason with
      | None => Err (Sqlite error)
      | Some reason =>
          tx1 ← from_db (rollback_row_savepoint tx);
          r ← on_insert_constraint policy (st_policy st) tx1 row_write error;
          let '(decision, p, tx2) := r in
          match decision with
          | SkipRow =>
              Ok (mkApplyState tx2 p (skip_staged add_insert_constraint reason staged (st_outcome st))
                    (st_max_accepted st))
          | AbortBatch => Err (Sqlite error)
          end
      end
  end.

(** The write of the staged columns. *)
Definition write_staged (table row_pks_str : string) (row_pks : jmap) (schema : list ColumnInfo)
    (w : list watom) (pk_values : list json) (existing : option (string * jmap))
    (staged : list StagedColumn) (row_max : string) (shadow : DeleteShadowMap) (st : state)
    : res Error state :=
  let row_exists := match existing with Some _ => true | None => false end in
  let '(current_row_hlc, column_hlcs) := default (EmptyString, []) existing in
  let has_sigs_column := has_column COLUMN_SIGS_COLUMN schema in
  if negb row_exists && insert_shadowed table row_pks row_max shadow
  then Ok (set_outcome (skip_staged add_shadowed ShadowedByDelete staged (st_outcome st)) st)
  else
    let row_hlc := if row_exists && hlc_is_newer current_row_hlc row_max then current_row_hlc else row_max in
    let column_hlcs_json := json_to_string (JObject (column_hlcs_after column_hlcs staged)) in
    write_outcome ← from_db
      (if row_exists
       then write_update (st_tx st) table staged column_hlcs_json row_hlc w pk_values has_sigs_column
       else write_insert (st_tx st) table schema row_pks staged column_hlcs_json row_hlc has_sigs_column);
    finish_row table row_pks_str row_pks schema row_exists staged row_hlc st write_outcome.

(** A row whose identity checks have passed. *)
Definition process_identified_row (table row_pks_str : string) (row_pks : jmap)
    (schema : list ColumnInfo) (w : list watom) (pk_values : list json)
    (group : list (nat * ColumnChange)) (shadow : DeleteShadowMap) (st : state) : res Error state :=
  existing ← fetch_existing_hlcs (st_tx st) table w pk_values;
  let row_exists := match existing with Some _ => true | None => false end in
  let column_hlcs := snd (default (EmptyString, []) existing) in
  let existing_columns := list_to_set (map ci_name schema) : gset string in
  let expected_pks := list_to_set (pk_names schema) : gset string in
  let indexed_changes := map (fun e => mkIndexed (fst e) (snd e)) group in
  el ← eligibility_loop existing_columns expected_pks 0 indexed_changes [] (st_outcome st);
  let '(eligible_indices, o1) := el in
  let row_input := mkRowInput table row_pks_str row_pks schema row_exists indexed_changes eligible_indices in
  d ← prepare_row policy (st_policy st) (st_tx st) row_input;
  let '(decision, p1, tx1) := d in
  match decision with
  | RowSkip =>
      o2 ← skip_eligible indexed_changes eligible_indices o1;
      Ok (mkApplyState tx1 p1 o2 (st_max_accepted st))
  | Columns decisions =>
      sel ← select_staged_columns table decisions row_input column_hlcs (report o1) (skipped o1);
      let st1 := mkApplyState tx1 p1 (mkOutcome (sel_report sel) (sel_skipped sel)) (st_max_accepted st) in
      match sel_staged sel with
      | [] => Ok st1
      | staged =>
          row_max ← max_hlc staged;
          write_staged table row_pks_str row_pks schema w pk_values existing staged row_max shadow st1
      end
  end.

Definition process_row_group (shadow : DeleteShadowMap) (st : state)
    (entry : (string * string) * list (nat * ColumnChange)) : res Error state :=
  let '((table, row_pks_str), group) := entry in
  let skip_group reason := Ok (set_outcome (skip_whole_group (st_outcome st) group reason) st) in
  schema ← from_sql (get_table_schema (st_tx st) table);
  match schema with
  | [] => skip_group MissingTable
  | _ =>
      if negb (has_column HLC_TIMESTAMP_COLUMN schema) || negb (has_column COLUMN_HLCS_COLUMN schema)
      then skip_group MissingCrdtMetadata
      else match from_str_map row_pks_str with
      | None => skip_group InvalidRowIdentity
      | Some row_pks =>
          let expected_pks := pk_names schema in
          match expected_pks with
          | [] => skip_group InvalidRowIdentity
          | _ =>
              if negb (same_names expected_pks (jkeys row_pks)) then skip_group InvalidRowIdentity
              else match build_pk_where_from_map row_pks with
              | None => skip_group InvalidRowIdentity
              | Some (w, pk_values) =>
                  match convert_params pk_values with
                  | Ok _ => process_identified_row table row_pks_str row_pks schema w pk_values group shadow st
                  | _ => skip_group InvalidRowIdentity
                  end
              end
          end
      end
  end.

Fixpoint process_row_groups (shadow : DeleteShadowMap) (st : state)
    (groups : list ((string * string) * list (nat * ColumnChange))) : res Error state :=
  match groups with
  | [] => Ok st
  | g :: rest => st' ← process_row_group shadow st g; process_row_groups shadow st' rest
  end.

(** ** The delete log of the batch *)

Definition is_lww_loss (reason : SkipReason) : bool :=
  match reason with Stale | SupersededInBatch => true | _ => false end.

Definition delete_log_id (rejected : gset nat) (entry : nat * ColumnChange) : option string :=
  let '(input_index, change) := entry in
  if negb (String.eqb (table_name change) DELETED_ROWS_TABLE) || bool_decide (input_index ∈ rejected)
  then None
  else match from_str_map (row_pks change) ≫= jget "id" with
       | Some (JString id) => Some id
       | _ => None
       end.

(** The ids form a [HashSet]: iterated in the map order, each once. *)
Definition collect_inbound_delete_log_ids (changes : list ColumnChange) (o : ApplyOutcome)
    : list string :=
  let rejected := list_to_set (map sk_input_index
    (filter (fun s => negb (is_lww_loss (sk_reason s)) = true) (skipped o))) : gset nat in
  hash_order 3 (remove_dups (omap (delete_log_id rejected) (imap (fun i c => (i, c)) changes))).

(** ** The whole call *)

Definition row_groups_of (changes : list ColumnChange)
    : list ((string * string) * list (nat * ColumnChange)) :=
  let indexed := imap (fun i c => (i, c)) changes in
  let ordered_indexed := flat_map snd (group_by_hlc_key indexed (fun e => hlc_timestamp (snd e))) in
  group_by_row_key_hlc_ordered (fun e => (table_name (snd e), row_pks (snd e)))
    (fun e => hlc_timestamp (snd e)) ordered_indexed.

(** The body of the IMMEDIATE transaction. *)
Definition apply_body (changes : list ColumnChange) (p : P) (tx : db)
    : res Error ((ApplyOutcome * option string * P) * db) :=
  tx1 ← toggle_triggers tx "0";
  r ← begin policy p tx1 changes;
  let '(p1, tx2) := r in
  shadow ← from_db (load_delete_shadow_map tx2);
  st ← process_row_groups shadow (mkApplyState tx2 p1 default_outcome None) (row_groups_of changes);
  let o := st_outcome st in
  let inbound_delete_ids := collect_inbound_delete_log_ids changes o in
  d ← from_db (propagate_deleted_rows_to_target_tables (st_tx st) inbound_delete_ids (report o));
  let '(tx3, rep) := d in
  let o' := mkOutcome rep (skipped o) in
  r2 ← before_commit policy (st_policy st) tx3 changes o';
  let '(p2, tx4) := r2 in
  tx5 ← toggle_triggers tx4 "1";
  Ok ((o', st_max_accepted st, p2), tx5).

(** Preflight and the transaction: everything up to the commit. *)
Definition commit_batch (now : nat -> Z) (conn : db) (changes : list ColumnChange) (p : P)
    : res Error (ApplyOutcome * option string * P) * db :=
  match preflight_batch now changes policy p with
  | Ok p1 =>
      with_fk_disabled Sqlite conn (fun conn =>
        run_tx Sqlite begin_immediate conn (apply_body changes p1))
  | Err e => (Err e, conn)
  | Panic m => (Panic m, conn)
  end.

(** [apply_remote_changes]: the result with the connection and the clock it
    leaves behind. [now i] is the clock reading preflight makes for change [i],
    [now_commit] the one the post-commit advance makes. *)
Definition apply_remote_changes (now : nat -> Z) (now_commit : Z) (conn : db)
    (changes : list ColumnChange) (hlc_service : HlcService) (p : P)
    : res Error (ApplyOutcome * P) * db * HlcService :=
  match commit_batch now conn changes p with
  | (Ok (o, max_accepted_hlc, p2), conn') =>
      match max_accepted_hlc with
      | Some hlc =>
          let '(adv, svc') := advance_past_remote hlc_service now_commit hlc in
          match adv with
          | Ok _ => (Ok (o, p2), conn', svc')
          | Err source => (Err (PostCommitClockAdvance o source), conn', svc')
          | Panic m => (Panic m, conn', svc')
          end
      | None => (Ok (o, p2), conn', hlc_service)
      end
  | (Err e, conn') => (Err e, conn', hlc_service)
  | (Panic m, conn') => (Panic m, conn', hlc_service)
  end.
End engine.
