(* ===== verification/EngineLemmas.v ===== *)
(** * The row loop: accounting and the accepted clock

    What each step of the row loop of [Engine] does to the outcome: which
    changes it lands, which it skips and under what counters, and how the
    greatest accepted HLC moves. *)

From S2P Require Import Prelude Utf8 Hashing Names Json Sql Mini Hlc Lww Trigger Report Errors Value Scanner Preimage Policy Preflight Grouping Row Write DeleteProp Cleanup Engine.

(** ** Outcomes that grow *)

(** [o'] extends [o] by the skips [new] and [n] applied changes. *)
Definition grows (o o' : ApplyOutcome) (n : nat) (new : list SkippedChange) : Prop :=
  skipped o' = skipped o ++ new /\
  (forall c, read_counter c (report o') = (read_counter c (report o) + count_reason c new)%nat) /\
  applied (report o') = (applied (report o) + n)%nat /\
  skipped_delete_target_newer (report o') = skipped_delete_target_newer (report o).

Lemma grows_refl o : grows o o 0 [].
Proof. split; [by rewrite app_nil_r|]. split; [intros c; cbn; lia|]. split; [lia|done]. Qed.

Lemma grows_trans o1 o2 o3 n m new1 new2 :
  grows o1 o2 n new1 -> grows o2 o3 m new2 -> grows o1 o3 (n + m) (new1 ++ new2).
Proof.
  intros (Hs1 & Hc1 & Ha1 & Hd1) (Hs2 & Hc2 & Ha2 & Hd2). split; [by rewrite Hs2, Hs1, app_assoc|].
  split; [intros c; rewrite Hc2, Hc1, count_reason_app; lia|]. split; [lia|congruence].
Qed.

Lemma grows_skip o f reason idxs :
  counts (reason_counter reason) f ->
  grows o (mkOutcome (f (length idxs) (report o)) (push_skipped reason idxs (skipped o))) 0
    (map (fun i => mkSkipped i reason) idxs).
Proof.
  intros Hf. unfold grows. cbn [report skipped]. destruct (Hf (length idxs) (report o) CPolicy) as (_ & -> & ->).
  split; [done|]. split; [|split; [lia|done]]. intros c.
  destruct (Hf (length idxs) (report o) c) as (-> & _). by rewrite count_reason_push.
Qed.

Lemma map_sk_index reason idxs : map sk_input_index (map (fun i => mkSkipped i reason) idxs) = idxs.
Proof. induction idxs; cbn; congruence. Qed.

(** ** Eligibility *)

Lemma eligibility_loop_spec ex pks changes : forall i eligible o eligible' o',
  eligibility_loop ex pks i changes eligible o = Ok (eligible', o') ->
  exists idxs elig new, eligible' = eligible ++ idxs /\ grows o o' 0 new /\
    Forall2 (fun k ic => (i <= k)%nat /\ changes !! (k - i)%nat = Some ic) idxs elig /\
    Permutation (map ic_input_index elig ++ map sk_input_index new) (map ic_input_index changes) /\
    elig = filter (fun ic => classify_eligibility (column_name (ic_change ic)) ex pks = None) changes.
Proof.
  assert (forall i (c : IndexedChange) changes idxs elig,
    Forall2 (fun k ic => (S i <= k)%nat /\ changes !! (k - S i)%nat = Some ic) idxs elig ->
    Forall2 (fun k ic => (i <= k)%nat /\ (c :: changes) !! (k - i)%nat = Some ic) idxs elig) as Hshift.
  { intros i c cs idxs elig Hf. eapply Forall2_impl; [exact Hf|]. intros k ic [Hk Hic]. split; [lia|].
    by replace (k - i)%nat with (S (k - S i))%nat by lia. }
  induction changes as [|ic changes IH]; intros i eligible o eligible' o'; cbn [eligibility_loop].
  - intros [= <- <-]. exists [], [], []. rewrite app_nil_r.
    repeat split; try constructor; try done; try apply grows_refl.
  - destruct (classify_eligibility _ _ _) as [reason|] eqn:Hcl.
    + intros (o1 & Ho1 & Hrest)%bind_Ok.
      assert (grows o o1 0 [mkSkipped (ic_input_index ic) reason]) as Hg1.
      { unfold skip_column in Ho1. apply bind_Ok in Ho1 as (rep & Hrep & [= <-]).
        change (push_skip (ic_input_index ic) reason (skipped o))
          with (push_skipped reason [ic_input_index ic] (skipped o)).
        assert (exists f, counts (reason_counter reason) f /\ rep = f 1%nat (report o)) as (f & Hf & ->)
          by (destruct reason; simplify_eq; eauto with haex).
        apply (grows_skip o f reason [ic_input_index ic] Hf). }
      apply IH in Hrest as (idxs & elig & new & -> & Hg & Hf & Hp & Hall).
      exists idxs, elig, ([mkSkipped (ic_input_index ic) reason] ++ new).
      split; [done|]. split; [exact (grows_trans _ _ _ _ _ _ _ Hg1 Hg)|]. split; [by apply Hshift|].
      split; [|rewrite filter_cons_False by congruence; done].
      rewrite map_app. cbn [map sk_input_index app]. rewrite <- Hp. solve_Permutation.
    + intros (idxs & elig & new & -> & Hg & Hf & Hp & Hall)%IH.
      exists (i :: idxs), (ic :: elig), new. rewrite filter_cons_True by done. rewrite <- app_assoc. split; [done|]. split; [done|].
      split; [constructor; [|by apply Hshift]; by rewrite Nat.sub_diag|].
      split; [cbn [map app]; by rewrite <- Hp|]. by rewrite Hall.
Qed.

(** The eligible indices pick the eligible changes of the whole row. *)
Lemma eligible_changes (changes : list IndexedChange) (idxs : list nat) elig :
  Forall2 (fun k ic => (0 <= k)%nat /\ changes !! (k - 0)%nat = Some ic) idxs elig ->
  Forall2 (fun k ic => changes !! k = Some ic) idxs elig.
Proof. intros Hf. eapply Forall2_impl; [exact Hf|]. intros k ic [_ Hk]. by rewrite Nat.sub_0_r in Hk. Qed.

Lemma paired_eligible row decisions elig cands :
  length decisions = length (ri_eligible_indices row) ->
  Forall2 (fun k ic => ri_changes row !! k = Some ic) (ri_eligible_indices row) elig ->
  paired row (combine decisions (ri_eligible_indices row)) cands ->
  map snd cands = elig.
Proof.
  generalize (ri_eligible_indices row). intros idxs Hlen Hel. revert decisions cands Hlen.
  induction Hel as [|k ic idxs elig Hk Hel IH]; intros [|d ds] cands Hlen Hp; cbn in *; try done.
  - by apply Forall2_nil_inv_l in Hp as ->.
  - apply Forall2_cons_inv_l in Hp as ([d' ic'] & cands' & [_ Hic] & Hp & ->). cbn in Hic.
    cbn. rewrite Hk in Hic. injection Hic as <-. f_equal. apply (IH ds); [lia|done].
Qed.

(** ** What the policy is asked and what it answers *)

Definition indexed_of (group : list (nat * ColumnChange)) : list IndexedChange :=
  map (fun e => mkIndexed (fst e) (snd e)) group.
Definition eligible_of (schema : list ColumnInfo) (group : list (nat * ColumnChange)) : list IndexedChange :=
  filter (fun ic => classify_eligibility (column_name (ic_change ic)) (list_to_set (map ci_name schema))
                      (list_to_set (pk_names schema)) = None) (indexed_of group).

(** The policy's answer, change by change. *)
Definition decided (decision : RowDecision) (elig : list IndexedChange)
    : list (ColumnDecision * IndexedChange) :=
  match decision with
  | RowSkip => map (fun ic => (ColumnSkip, ic)) elig
  | Columns ds => zip ds elig
  end.

(** What the policy is asked: the changes of the group, and of these the ones
    of syncable columns as eligible. *)
Definition asks (schema : list ColumnInfo) (group : list (nat * ColumnChange)) (input : RowInput) : Prop :=
  ri_changes input = indexed_of group /\
  Forall2 (fun k ic => ri_changes input !! k = Some ic) (ri_eligible_indices input) (eligible_of schema group).

Lemma indexed_of_index group : map ic_input_index (indexed_of group) = map fst group.
Proof. unfold indexed_of. by rewrite map_map. Qed.

Lemma decided_skip_writes col elig : column_writes col (decided RowSkip elig) = [].
Proof. unfold column_writes. induction elig; cbn in *; done. Qed.

Lemma paired_decided row ds elig cands :
  length ds = length (ri_eligible_indices row) ->
  Forall2 (fun k ic => ri_changes row !! k = Some ic) (ri_eligible_indices row) elig ->
  paired row (combine ds (ri_eligible_indices row)) cands ->
  cands = decided (Columns ds) elig /\ map snd cands = elig.
Proof.
  intros Hlen Hel Hp. pose proof (paired_eligible _ _ _ _ Hlen Hel Hp) as Hsnd. split; [|done]. subst elig. cbn [decided].
  clear Hel. revert Hlen Hp. generalize (ri_eligible_indices row). intros idxs. revert ds cands.
  induction idxs as [|k idxs IH]; intros [|d ds] cands Hlen Hp; cbn in Hlen, Hp; try done.
  - by apply Forall2_nil_inv_l in Hp as ->.
  - apply Forall2_cons_inv_l in Hp as ([d' ic] & cands' & [Hd _] & Hp & ->). cbn in Hd |- *. subst d'.
    f_equal. apply IH; [lia|done].
Qed.

(** ** Staged changes are changes of the row *)

Definition landed_of (s : StagedColumn) : nat * ColumnChange := (sc_input_index s, sc_change s).

Lemma proposed_accepted col (cands : list (ColumnDecision * IndexedChange)) s :
  s ∈ omap (proposed col) cands ->
  (Accept (sc_value s) (sc_signature s), mkIndexed (sc_input_index s) (sc_change s)) ∈ cands.
Proof.
  intros ([d [i ch]] & Hc & Hp)%list_elem_of_omap. unfold proposed in Hp. cbn in Hp.
  destruct d as [|v sg]; [done|]. destruct (String.eqb (column_name ch) col); [|done]. by injection Hp as <-.
Qed.

(** A staged change is an accepted one. *)
Lemma staged_accepted column_hlcs cands skip rep sel s :
  selection_inv column_hlcs cands skip rep sel -> s ∈ sel_staged sel ->
  (Accept (sc_value s) (sc_signature s), mkIndexed (sc_input_index s) (sc_change s)) ∈ cands /\
  complete_hlc (sc_hlc s) = true.
Proof.
  intros [Hnd Hreg _] Hs.
  pose proof (lww_merge_result sc_hlc (omap (proposed (sc_column s)) cands)
               (mkReg (stored_hlc column_hlcs (sc_column s)) None)) as [Hf _ _].
  rewrite <- Hreg in Hf. unfold column_register in Hf. rewrite (find_staged_unique _ _ Hnd Hs) in Hf.
  destruct Hf as [Hf|(w & Hin & Hc & _ & Hw)]; [done|]. injection Hw as _ <-. split; [|done].
  by apply proposed_accepted in Hin.
Qed.

Lemma staged_from column_hlcs cands skip rep sel s :
  selection_inv column_hlcs cands skip rep sel -> s ∈ sel_staged sel ->
  (exists c, c ∈ cands /\ snd c = mkIndexed (sc_input_index s) (sc_change s)) /\
  complete_hlc (sc_hlc s) = true.
Proof. intros Hinv [Hs Hc]%(staged_accepted _ _ _ _ _ _ Hinv). eauto. Qed.

(** And newer than what the column had. *)
Lemma staged_newer column_hlcs cands skip rep sel s :
  selection_inv column_hlcs cands skip rep sel -> s ∈ sel_staged sel ->
  hlc_is_newer (sc_hlc s) (stored_hlc column_hlcs (sc_column s)) = true.
Proof.
  intros [Hnd Hreg _] Hs.
  pose proof (lww_merge_result sc_hlc (omap (proposed (sc_column s)) cands)
               (mkReg (stored_hlc column_hlcs (sc_column s)) None)) as [Hf _ _].
  rewrite <- Hreg in Hf. unfold column_register in Hf. rewrite (find_staged_unique _ _ Hnd Hs) in Hf.
  destruct Hf as [Hf|(w & _ & _ & Hn & Hw)]; [done|]. by injection Hw as _ <-.
Qed.

(** ** The accepted clock *)

Section clock.
Context `{Uhlc}.

Definition hlc_time_le (hlc : string) (m : option string) : Prop :=
  exists t ms mt, ts_from_str hlc = Ok t /\ m = Some ms /\ ts_from_str ms = Ok mt /\
    cmp_le ts_compare t mt.

(** [m'] covers everything [m] covered and every HLC of [hlcs], and comes
    from them. *)
Definition clock_covers (m m' : option string) (hlcs : list string) : Prop :=
  (forall hlc, hlc ∈ hlcs -> hlc_time_le hlc m') /\
  (forall hlc, hlc_time_le hlc m -> hlc_time_le hlc m') /\
  (m' = m \/ exists hlc, hlc ∈ hlcs /\ m' = Some hlc).

Lemma clock_covers_refl m : clock_covers m m [].
Proof. split; [by intros hlc ?%elem_of_nil|]. split; [done|by left]. Qed.

Lemma clock_covers_trans m1 m2 m3 l1 l2 :
  clock_covers m1 m2 l1 -> clock_covers m2 m3 l2 -> clock_covers m1 m3 (l1 ++ l2).
Proof.
  intros (H1 & H2 & H3) (G1 & G2 & G3). split; [|split].
  - intros hlc [Hl|Hl]%elem_of_app; auto.
  - auto.
  - destruct G3 as [->|(hlc & Hin & ->)].
    + destruct H3 as [->|(hlc & Hin & ->)]; [by left|right]. exists hlc. rewrite elem_of_app. auto.
    + right. exists hlc. rewrite elem_of_app. auto.
Qed.

Lemma fold_max_accepted_covers m hlc m' :
  fold_max_accepted_hlc m hlc = Ok m' -> clock_covers m m' [hlc].
Proof.
  unfold fold_max_accepted_hlc. destruct (ts_from_str hlc) as [t| |] eqn:Ht; [|done..].
  assert (forall ms mt, ts_from_str ms = Ok mt -> cmp_le ts_compare t mt ->
    forall h, h ∈ [hlc] -> hlc_time_le h (Some ms)) as Hle.
  { intros ms mt Hms Hc h ->%list_elem_of_singleton. exists t, ms, mt. auto. }
  destruct m as [current|].
  - destruct (ts_from_str current) as [cur| |] eqn:Hcur; [|done..].
    destruct (ts_compare t cur) eqn:Hcmp; intros [= <-].
    + split; [eapply Hle; [done|unfold cmp_le; congruence]|]. split; [done|by left].
    + split; [eapply Hle; [done|unfold cmp_le; congruence]|]. split; [done|by left].
    + split; [eapply Hle; [done|apply cmp_le_refl, _]|]. split.
      * intros h (t' & ms & mt & Hh & [= <-] & Hms & Hc). exists t', hlc, t.
        split; [done|]. split; [done|]. split; [done|].
        eapply cmp_le_trans; [apply _|exact Hc|]. rewrite Hcur in Hms. injection Hms as <-.
        by apply (cmp_gt_le ts_compare).
      * right. exists hlc. split; [by left|done].
  - intros [= <-]. split; [eapply Hle; [done|apply cmp_le_refl, _]|]. split.
    + intros h (t' & ms & mt & _ & ? & _). done.
    + right. exists hlc. split; [by left|done].
Qed.

Lemma fold_accepted_covers staged : forall m m',
  fold_accepted m staged = Ok m' -> clock_covers m m' (map sc_hlc staged).
Proof.
  induction staged as [|s staged IH]; intros m m'; cbn [fold_accepted map].
  - intros [= <-]. apply clock_covers_refl.
  - intros (m1 & Hm1 & Hrest)%bind_Ok. apply IH in Hrest. apply fold_max_accepted_covers in Hm1.
    exact (clock_covers_trans _ _ _ [sc_hlc s] _ Hm1 Hrest).
Qed.
End clock.

(** ** One row group *)

Section rows.
Context `{Unicode} `{Serde} `{Uhlc} `{HashOrder} {db : Type} `{Rusqlite db} {P : Type}
  (policy : ApplyPolicy db P).

(** What a step over [group] did: the changes it landed and those it
    skipped are the group, and the clock covers the landed ones. *)
Definition group_done (st st' : ApplyState db P) (group : list (nat * ColumnChange)) : Prop :=
  exists landed new,
    grows (st_outcome st) (st_outcome st') (length landed) new /\
    Permutation (map fst landed ++ map sk_input_index new) (map fst group) /\
    (forall e, e ∈ landed -> e ∈ group) /\
    clock_covers (st_max_accepted st) (st_max_accepted st') (map (fun e => hlc_timestamp (snd e)) landed).

Lemma group_done_skip st st' group new :
  grows (st_outcome st) (st_outcome st') 0 new ->
  Permutation (map sk_input_index new) (map fst group) ->
  st_max_accepted st' = st_max_accepted st -> group_done st st' group.
Proof.
  intros Hg Hp Hm. exists [], new. cbn. split; [done|]. split; [done|].
  split; [by intros e ?%elem_of_nil|]. rewrite Hm. apply clock_covers_refl.
Qed.

Lemma skip_group_done st group reason :
  reason_counter reason = CUnknownTable ->
  group_done st (set_outcome (skip_whole_group (st_outcome st) group reason) st) group.
Proof.
  intros Hr. apply (group_done_skip _ _ _ (map (fun i => mkSkipped i reason) (map fst group))).
  - cbn [set_outcome st_outcome]. unfold skip_whole_group. rewrite <- (length_map fst group).
    replace (map (fun e => mkSkipped (fst e) reason) group)
      with (map (fun i => mkSkipped i reason) (map fst group)) by (by rewrite map_map).
    apply (grows_skip (st_outcome st) add_unknown_table reason). rewrite Hr. auto with haex.
  - by rewrite map_sk_index.
  - done.
Qed.

(** The staged columns either land or are skipped together. *)
Lemma skip_staged_grows add reason staged o :
  counts (reason_counter reason) add ->
  grows o (skip_staged add reason staged o) 0 (map (fun i => mkSkipped i reason) (map sc_input_index staged)).
Proof. intros Hc. unfold skip_staged. rewrite <- (length_map sc_input_index staged). by apply grows_skip. Qed.

Lemma finish_row_written table pks row_pks schema ex staged row_hlc st tx st' :
  finish_row policy table pks row_pks schema ex staged row_hlc st (Written tx) = Ok st' ->
  grows (st_outcome st) (st_outcome st') (length staged) [] /\
  clock_covers (st_max_accepted st) (st_max_accepted st') (map sc_hlc staged).
Proof.
  cbn [finish_row]. intros ([p tx'] & _ & Hr)%bind_Ok. apply bind_Ok in Hr as (m & Hm & [= <-]).
  cbn [st_outcome st_max_accepted]. split; [|by apply fold_accepted_covers].
  unfold grows. cbn [skipped report]. rewrite app_nil_r. destruct (report (st_outcome st)).
  cbn. split; [done|]. split; [intros []; cbn; lia|]. split; [lia|done].
Qed.

(** The reasons of the constraint classification. *)
Definition constraint_reason (reason : SkipReason) : bool :=
  match reason with InsertNotNull | InsertUnique | InsertPrimaryKey => true | _ => false end.

Lemma classify_constraint_reason e reason :
  classify_insert_constraint e = Some reason ->
  constraint_reason reason = true /\ counts (reason_counter reason) add_insert_constraint.
Proof.
  unfold classify_insert_constraint. destruct e; try done. intros Hcl.
  repeat case_match; simplify_eq; (split; [done|auto with haex]).
Qed.

Lemma finish_row_refused table pks row_pks schema ex staged row_hlc st e tx st' :
  finish_row policy table pks row_pks schema ex staged row_hlc st (SqlFailure e tx) = Ok st' ->
  exists reason, grows (st_outcome st) (st_outcome st') 0
    (map (fun i => mkSkipped i reason) (map sc_input_index staged)) /\
    constraint_reason reason = true /\ st_max_accepted st' = st_max_accepted st.
Proof.
  cbn [finish_row]. destruct (if negb ex then _ else _) as [reason|] eqn:Hcl; [|done].
  intros (tx1 & _ & Hr)%bind_Ok. apply bind_Ok in Hr as ([[d p] tx2] & _ & Hr).
  destruct d; [|done]. injection Hr as <-. exists reason. cbn [st_outcome st_max_accepted].
  destruct ex; [done|]. cbn in Hcl. apply classify_constraint_reason in Hcl as [Hcr Hcnt].
  split; [by apply skip_staged_grows|done].
Qed.

Lemma write_staged_done table pks row_pks schema w pkv existing staged row_max shadow st st' :
  write_staged policy table pks row_pks schema w pkv existing staged row_max shadow st = Ok st' ->
  (grows (st_outcome st) (st_outcome st') (length staged) [] /\
   clock_covers (st_max_accepted st) (st_max_accepted st') (map sc_hlc staged)) \/
  (exists reason, grows (st_outcome st) (st_outcome st') 0
     (map (fun i => mkSkipped i reason) (map sc_input_index staged)) /\
   st_max_accepted st' = st_max_accepted st).
Proof.
  unfold write_staged. destruct (default _ existing) as [cur ch]. destruct (_ && _).
  - intros [= <-]. right. exists ShadowedByDelete. split; [|done]. apply skip_staged_grows. auto with haex.
  - intros ([tx|e tx] & _ & Hf)%bind_Ok; [left|right]; [by apply finish_row_written in Hf|].
    apply finish_row_refused in Hf as (reason & ? & _ & ?). by exists reason.
Qed.

(** [RowDecision::Skip] skips the eligible changes. *)
Lemma skip_eligible_grows schema group input o o' :
  asks schema group input -> skip_eligible (indexed_of group) (ri_eligible_indices input) o = Ok o' ->
  grows o o' 0 (map (fun i => mkSkipped i PolicySkip) (map ic_input_index (eligible_of schema group))).
Proof.
  intros [Hch Hidx]. rewrite Hch in Hidx. unfold skip_eligible. intros (idx2 & Hidx2%try_map_Ok & [= <-])%bind_Ok.
  assert (idx2 = map ic_input_index (eligible_of schema group)) as ->.
  { revert idx2 Hidx2. induction Hidx as [|k ic idxs elig Hk Hidx IH]; intros idx2 Hall.
    - by apply Forall2_nil_inv_l in Hall as ->.
    - apply Forall2_cons_inv_l in Hall as (j & idx2' & Hj & Hall & ->).
      rewrite Hk in Hj. cbn in Hj. injection Hj as <-. cbn. f_equal. by apply IH. }
  assert (length (ri_eligible_indices input) = length (map ic_input_index (eligible_of schema group))) as ->
    by (rewrite length_map; by eapply Forall2_length).
  apply grows_skip. auto with haex.
Qed.

(** The steps of an identified row, read off its result. *)
Lemma process_identified_spec table pks row_pks schema w pkv group shadow st st' :
  process_identified_row policy table pks row_pks schema w pkv group shadow st = Ok st' ->
  exists existing input decision p1 tx1 o1 new1,
    fetch_existing_hlcs (st_tx st) table w pkv = Ok existing /\ asks schema group input /\
    prepare_row policy (st_policy st) (st_tx st) input = Ok (decision, p1, tx1) /\
    grows (st_outcome st) o1 0 new1 /\
    Permutation (map ic_input_index (eligible_of schema group) ++ map sk_input_index new1) (map fst group) /\
    match decision with
    | RowSkip => exists o2, st' = mkApplyState tx1 p1 o2 (st_max_accepted st) /\
        grows o1 o2 0 (map (fun i => mkSkipped i PolicySkip) (map ic_input_index (eligible_of schema group)))
    | Columns ds => exists sel, map snd (decided decision (eligible_of schema group)) = eligible_of schema group /\
        selection_inv (snd (default (EmptyString, []) existing)) (decided decision (eligible_of schema group))
          (skipped o1) (report o1) sel /\
        let st1 := mkApplyState tx1 p1 (mkOutcome (sel_report sel) (sel_skipped sel)) (st_max_accepted st) in
        (sel_staged sel = [] /\ st' = st1) \/
        (sel_staged sel <> [] /\ exists row_max, max_hlc (sel_staged sel) = Ok row_max /\
           write_staged policy table pks row_pks schema w pkv existing (sel_staged sel) row_max shadow st1 = Ok st')
    end.
Proof.
  unfold process_identified_row. intros (existing & Hf & Hr)%bind_Ok. apply bind_Ok in Hr as ([eligible o1] & Hel & Hr).
  apply eligibility_loop_spec in Hel as (idxs & elig & new1 & -> & Hg1 & Hidx & Hp1 & Hel).
  apply eligible_changes in Hidx. change (elig = eligible_of schema group) in Hel. subst elig. cbn [app] in Hr.
  change (map (fun e => mkIndexed (fst e) (snd e)) group) with (indexed_of group) in *.
  rewrite indexed_of_index in Hp1. apply bind_Ok in Hr as ([[decision p1] tx1] & Hprep & Hr).
  eexists existing, _, decision, p1, tx1, o1, new1. split; [done|]. split; [|split; [exact Hprep|]]; [by split|].
  split; [done|]. split; [done|]. destruct decision as [|ds].
  - apply bind_Ok in Hr as (o2 & Ho2 & [= <-]). exists o2. split; [done|].
    eapply (skip_eligible_grows schema group (mkRowInput table pks row_pks schema
      (match existing with Some _ => true | None => false end) (indexed_of group) idxs)); [by split|exact Ho2].
  - apply bind_Ok in Hr as (sel & Hsel & Hr). exists sel.
    apply select_staged_inv in Hsel as (cands & Hpair & Hlen & Hinv).
    destruct (paired_decided _ _ _ _ Hlen Hidx Hpair) as [-> Hsnd]. split; [done|]. split; [exact Hinv|]. cbv zeta.
    destruct (sel_staged sel) as [|s0 staged0] eqn:Hst; [left; split; [done|by injection Hr as <-]|right].
    split; [done|]. apply bind_Ok in Hr as (row_max & Hm & Hr). by exists row_max.
Qed.

(** What the selection does to the outcome. *)
Lemma selection_grows hlcs cands o sel :
  selection_inv hlcs cands (skipped o) (report o) sel ->
  exists new, grows o (mkOutcome (sel_report sel) (sel_skipped sel)) 0 new /\
    Permutation (map sc_input_index (sel_staged sel) ++ map sk_input_index new) (map ic_input_index (map snd cands)).
Proof.
  intros [_ _ (new & Hs & Hp & Hc & Ha & Hd)]. exists new. rewrite map_map. split; [|done].
  split; [done|]. split; [done|]. cbn [report]. split; [lia|done].
Qed.

(** Staged changes are changes of the group. *)
Lemma staged_in_group schema group decision hlcs skip rep sel s :
  map snd (decided decision (eligible_of schema group)) = eligible_of schema group ->
  selection_inv hlcs (decided decision (eligible_of schema group)) skip rep sel -> s ∈ sel_staged sel ->
  mkIndexed (sc_input_index s) (sc_change s) ∈ eligible_of schema group /\ landed_of s ∈ group.
Proof.
  intros Hsnd Hinv Hs. destruct (staged_from _ _ _ _ _ s Hinv Hs) as [(c & Hc & Hsc) _].
  assert (mkIndexed (sc_input_index s) (sc_change s) ∈ eligible_of schema group) as Hel
    by (rewrite <- Hsc, <- Hsnd; by apply list_elem_of_fmap_2).
  split; [done|]. apply list_elem_of_filter in Hel as [_ ([i ch] & Heq & He)%list_elem_of_fmap].
  unfold landed_of. by injection Heq as -> ->.
Qed.

Lemma process_identified_done table pks row_pks schema w pkv group shadow st st' :
  process_identified_row policy table pks row_pks schema w pkv group shadow st = Ok st' ->
  group_done st st' group.
Proof.
  intros (existing & input & decision & p1 & tx1 & o1 & new1 & _ & _ & _ & Hg1 & Hp1 & Hr)%process_identified_spec.
  destruct decision as [|ds].
  - destruct Hr as (o2 & -> & Hg2). eapply group_done_skip; [exact (grows_trans _ _ _ 0 0 _ _ Hg1 Hg2)| |done].
    rewrite map_app, map_sk_index, <- Hp1. apply Permutation_app_comm.
  - destruct Hr as (sel & Hsnd & Hinv & Hr). destruct (selection_grows _ _ _ _ Hinv) as (new2 & Hg2 & Hp2).
    rewrite Hsnd in Hp2. pose proof (grows_trans _ _ _ 0 0 _ _ Hg1 Hg2) as Hg12.
    assert (Permutation (map sc_input_index (sel_staged sel) ++ map sk_input_index (new1 ++ new2)) (map fst group)) as Hp12
      by (rewrite <- Hp1, <- Hp2, map_app; solve_Permutation).
    destruct Hr as [[Hst ->]|(_ & row_max & _ & Hw)].
    + eapply group_done_skip; [exact Hg12|by rewrite Hst in Hp12|done].
    + apply write_staged_done in Hw as [[Hg Hclk]|(reason & Hg & Hm)]; cbn [st_outcome st_max_accepted] in *;
        pose proof (grows_trans _ _ _ 0 _ _ _ Hg12 Hg) as Hgf.
      * exists (map landed_of (sel_staged sel)), (new1 ++ new2). rewrite app_nil_r in Hgf. rewrite length_map, !map_map.
        split; [done|]. split; [done|]. split; [|done].
        intros e (s & -> & Hs)%list_elem_of_fmap. by eapply staged_in_group.
      * eapply group_done_skip; [exact Hgf| |done]. rewrite map_app, map_sk_index, <- Hp12. apply Permutation_app_comm.
Qed.

Lemma process_row_group_done shadow st key group st' :
  process_row_group policy shadow st (key, group) = Ok st' -> group_done st st' group.
Proof.
  unfold process_row_group. destruct key as [table pks].
  assert (forall reason, reason_counter reason = CUnknownTable ->
    Ok (set_outcome (skip_whole_group (st_outcome st) group reason) st) = @Ok Error _ st' ->
    group_done st st' group) as Hskip.
  { intros reason Hr [= <-]. by apply skip_group_done. }
  intros (schema & _ & Hr)%bind_Ok. revert Hr.
  repeat case_match; intros Hr; subst; try done;
    first [ by apply process_identified_done in Hr
          | by apply (Hskip MissingTable) | by apply (Hskip MissingCrdtMetadata)
          | by apply (Hskip InvalidRowIdentity) ].
Qed.

Lemma group_done_trans st1 st2 st3 g1 g2 :
  group_done st1 st2 g1 -> group_done st2 st3 g2 -> group_done st1 st3 (g1 ++ g2).
Proof.
  intros (l1 & n1 & Hg1 & Hp1 & Hi1 & Hc1) (l2 & n2 & Hg2 & Hp2 & Hi2 & Hc2).
  exists (l1 ++ l2), (n1 ++ n2). rewrite length_app, !map_app.
  split; [exact (grows_trans _ _ _ _ _ _ _ Hg1 Hg2)|]. split; [|split].
  - rewrite <- Hp1, <- Hp2. solve_Permutation.
  - intros e [He|He]%elem_of_app; apply elem_of_app; auto.
  - exact (clock_covers_trans _ _ _ _ _ Hc1 Hc2).
Qed.

Lemma process_row_groups_done shadow groups : forall st st',
  process_row_groups policy shadow st groups = Ok st' -> group_done st st' (concat (map snd groups)).
Proof.
  induction groups as [|[key group] groups IH]; intros st st'; cbn [process_row_groups].
  - intros [= <-]. apply (group_done_skip _ _ _ []); [apply grows_refl|done|done].
  - intros (st1 & Hs1 & Hs2)%bind_Ok. cbn [map concat snd].
    eapply group_done_trans; [by eapply process_row_group_done|by apply IH].
Qed.

Lemma row_groups_of_perm changes :
  Permutation (concat (map snd (row_groups_of changes))) (imap (fun i c => (i, c)) changes).
Proof.
  unfold row_groups_of. rewrite (row_groups_perm _ _ _). rewrite flat_map_concat_map.
  apply (ordered_groups_perm 1).
Qed.
End rows.
