(* ===== verification/Apply.v ===== *)
(** * What apply_remote_changes promises (src/crdt/apply/engine.rs)

    The contract of a whole call: every change of a committed batch is landed
    or named as skipped, the clock covers what landed, a refused batch leaves the
    database as it was, and no [expect], index or [unreachable!] of the pipeline
    can be reached. *)

From S2P Require Import Prelude Utf8 Hashing Names Json Sql Mini Hlc Lww Trigger Report Errors Value Scanner Preimage Policy Preflight Grouping Row Write DeleteProp Cleanup Engine EngineLemmas.

(** ** Interfaces of the environment *)

(** The database and the policy return errors; they do not panic. *)
Class DbNoPanic db `{Rusqlite db} : Prop := {
  np_prepare : forall c st, no_panic (prepare c st);
  np_execute : forall c st ps, no_panic (execute c st ps);
  np_query : forall c st ps, no_panic (query c st ps);
  np_table_info : forall c t, no_panic (table_info c t);
  np_begin : forall c, no_panic (begin_immediate c);
  np_commit : forall c, no_panic (commit c);
}.

(** The rows the core hands to a policy name eligible changes by valid
    indices. *)
Definition row_input_valid (row : RowInput) : Prop :=
  forall i, i ∈ ri_eligible_indices row -> exists ic, ri_changes row !! i = Some ic.

Record PolicyNoPanic {db P} (policy : ApplyPolicy db P) : Prop := {
  np_preflight : forall p changes, no_panic (preflight policy p changes);
  np_begin_hook : forall p tx changes, no_panic (begin policy p tx changes);
  np_prepare_row : forall p tx row, row_input_valid row -> no_panic (prepare_row policy p tx row);
  np_after_row : forall p tx w, no_panic (after_row policy p tx w);
  np_on_insert_constraint : forall p tx w e, no_panic (on_insert_constraint policy p tx w e);
  np_before_commit : forall p tx changes o, no_panic (before_commit policy p tx changes o);
}.

Lemma signature_policy_no_panic `{Serde} `{Base64} {db} (provider : SignatureProvider) :
  (forall changes, no_panic (on_before_apply provider changes)) ->
  (forall preimage sg, no_panic (verify_column provider preimage sg)) ->
  PolicyNoPanic (db := db) (SignatureApplyPolicy provider).
Proof.
  intros Hp Hv. split; cbn.
  - intros p changes. apply no_panic_bind; [apply Hp|]. intros [] _. apply no_panic_bind; [|done].
    by apply verify_all_signatures_no_panic.
  - done.
  - intros p tx row Hvalid. apply no_panic_bind; [|done]. apply no_panic_try_map. intros i Hi.
    apply list_elem_of_In in Hi. destruct (Hvalid i Hi) as [ic Hic]. unfold signature_decision. rewrite Hic.
    cbn. apply no_panic_bind; [apply no_panic_map_err, json_to_value_no_panic|done].
  - done.
  - done.
  - done.
Qed.

(** ** The transaction *)

Section apply.
Context `{Unicode} `{Serde} `{Uhlc} `{HashOrder} {db : Type} `{Rusqlite db} {P : Type}
  (policy : ApplyPolicy db P).

(** Propagating deletes only moves its own counter. *)
Definition same_skips (r r' : ApplyReport) : Prop :=
  applied r' = applied r /\ forall c, read_counter c r' = read_counter c r.

Lemma propagate_one_skips tx rep id tx' rep' :
  propagate_one tx rep id = Ok (tx', rep') -> same_skips rep rep'.
Proof.
  unfold propagate_one. intros Hp. destruct (_ ≫= _) as [[[t pks] [h|]]|e|m]; simplify_eq; try done.
  - destruct (delete_target tx t pks) as [[w ps]|]; simplify_eq; [|done].
    apply bind_Ok in Hp as (target & _ & Hp). destruct (negb _).
    + injection Hp as _ <-. destruct rep. split; [done|]. by intros [].
    + apply bind_Ok in Hp as (r & _ & [= _ <-]). done.
  - destruct e; by simplify_eq.
Qed.

Lemma propagate_skips ids : forall tx rep tx' rep',
  propagate_deleted_rows_to_target_tables tx ids rep = Ok (tx', rep') -> same_skips rep rep'.
Proof.
  induction ids as [|id ids IH]; intros tx rep tx' rep'; cbn [propagate_deleted_rows_to_target_tables].
  - by intros [= _ <-].
  - intros ([tx1 rep1] & Hone & Hr)%bind_Ok. apply propagate_one_skips in Hone as [Ha Hc].
    cbn [fst snd] in Hr. apply IH in Hr as [Ha' Hc']. split; [congruence|]. intros c. by rewrite Hc'.
Qed.

(** The body of the transaction, read off its result. *)
Lemma apply_body_spec changes p tx o m p' tx' :
  apply_body policy changes p tx = Ok ((o, m, p'), tx') ->
  (exists txb, toggle_triggers txb "1" = Ok tx') /\
  exists landed,
    Permutation (map fst landed ++ map sk_input_index (skipped o)) (seq 0 (length changes)) /\
    (forall i c, (i, c) ∈ landed -> changes !! i = Some c) /\
    applied (report o) = length landed /\ report_agrees o /\
    clock_covers None m (map (fun e => hlc_timestamp (snd e)) landed).
Proof.
  unfold apply_body. intros (tx1 & _ & Hr)%bind_Ok. apply bind_Ok in Hr as ([p1 tx2] & _ & Hr).
  apply bind_Ok in Hr as (shadow & _ & Hr). apply bind_Ok in Hr as (st & Hst & Hr).
  apply bind_Ok in Hr as ([tx3 rep] & Hprop & Hr). apply map_err_Ok in Hprop.
  apply bind_Ok in Hr as ([p2 tx4] & _ & Hr). apply bind_Ok in Hr as (tx5 & Ht & [= <- <- <- <-]).
  split; [by eauto|].
  apply propagate_skips in Hprop as [Happ Hcnt].
  apply process_row_groups_done in Hst as (landed & new & (Hs & Hc & Ha & _) & Hp & Hin & Hclk).
  cbn [st_outcome st_max_accepted] in *. cbn [default_outcome skipped report app] in *.
  pose proof (row_groups_of_perm changes) as Hgp.
  exists landed. cbn [skipped report]. rewrite Hs. split; [|split; [|split; [|split; [|done]]]].
  - rewrite Hp, (Permutation_map fst Hgp). by rewrite (imap_pair_fst changes).
  - intros i c Hic. apply Hin in Hic. rewrite Hgp in Hic.
    apply elem_of_lookup_imap in Hic as (j & c' & [= -> ->] & Hj). done.
  - rewrite Happ, Ha. done.
  - intros c. cbn [report skipped]. rewrite Hcnt, Hc. by destruct c.
Qed.

Lemma run_tx_no_panic {E A} (on_sql : SqlError -> E) (bg : db -> res SqlError unit) conn
    (body : db -> res E (A * db)) :
  no_panic (bg conn) -> no_panic (body conn) -> (forall c : db, no_panic (commit c)) ->
  no_panic (fst (run_tx on_sql bg conn body)).
Proof.
  intros Hb Hbody Hc. unfold run_tx. destruct (bg conn); [|done|done].
  destruct (body conn) as [[a0 tx]| |]; [|done|done]. specialize (Hc tx). by destruct (commit tx).
Qed.

(** What any function of the connection that the pragma does not change sees
    of [with_fk_disabled]: only the closure. *)
Definition fk_blind {X} (obs : db -> X) : Prop :=
  forall c on n c', execute c (SetForeignKeys on) [] = Ok (n, c') -> obs c' = obs c.

Lemma with_fk_disabled_obs {E R X} (obs : db -> X) (from : SqlError -> E) conn
    (f : db -> res E R * db) r conn' :
  fk_blind obs -> with_fk_disabled from conn f = (r, conn') ->
  (exists c1 c2, obs c1 = obs conn /\ f c1 = (r, c2) /\ obs conn' = obs c2) \/
  (is_ok r = false /\ conn' = conn).
Proof.
  intros Hobs. unfold with_fk_disabled.
  destruct (foreign_keys_enabled conn) as [was| |]; [|by intros [= <- <-]; right..].
  destruct (execute conn (SetForeignKeys false) []) as [[n c1]| |] eqn:Hoff; [|by intros [= <- <-]; right..].
  destruct (f c1) as [r1 c2] eqn:Hf. intros [= <- <-]. left. exists c1, c2.
  split; [by eapply Hobs|]. split; [done|]. unfold restore_foreign_keys.
  destruct (execute c2 (SetForeignKeys was) []) as [[n2 c3]| |] eqn:Hon; cbn; [|done|done].
  by eapply Hobs.
Qed.

(** A committed batch comes from a transaction body that succeeded. *)
Lemma commit_batch_body now conn changes p o m p' conn' :
  commit_batch policy now conn changes p = (Ok (o, m, p'), conn') ->
  exists p1 tx tx', preflight_batch now changes policy p = Ok p1 /\
    apply_body policy changes p1 tx = Ok ((o, m, p'), tx').
Proof.
  unfold commit_batch. destruct (preflight_batch _ _ _ _) as [p1| |]; [|done..].
  intros [(c1 & c2 & _ & Hr & _)|[? _]]%(with_fk_disabled_obs (fun _ => tt)); [|done|done].
  apply run_tx_Ok in Hr. eauto.
Qed.

(** ** Where a call stops *)

(** What the caller of a batch that does not commit sees: the refusal of the
    preflight, or the failure of the first statement or hook of the transaction
    that failed, each with its own error or panic. *)
Inductive stopped_at now conn changes p {A} (r : res Error A) : Prop :=
| stopped_preflight :
    fails_as id (preflight_batch now changes policy p) r -> stopped_at now conn changes p r
| stopped_pragma_read p1 :
    preflight_batch now changes policy p = Ok p1 ->
    fails_as Sqlite (foreign_keys_enabled conn) r -> stopped_at now conn changes p r
| stopped_pragma p1 was :
    preflight_batch now changes policy p = Ok p1 -> foreign_keys_enabled conn = Ok was ->
    fails_as Sqlite (execute conn (SetForeignKeys false) []) r -> stopped_at now conn changes p r
| stopped_begin p1 was n conn1 :
    preflight_batch now changes policy p = Ok p1 -> foreign_keys_enabled conn = Ok was ->
    execute conn (SetForeignKeys false) [] = Ok (n, conn1) ->
    fails_as Sqlite (begin_immediate conn1) r -> stopped_at now conn changes p r
| stopped_body p1 was n conn1 :
    preflight_batch now changes policy p = Ok p1 -> foreign_keys_enabled conn = Ok was ->
    execute conn (SetForeignKeys false) [] = Ok (n, conn1) -> begin_immediate conn1 = Ok tt ->
    fails_as id (apply_body policy changes p1 conn1) r -> stopped_at now conn changes p r
| stopped_commit p1 was n conn1 out tx :
    preflight_batch now changes policy p = Ok p1 -> foreign_keys_enabled conn = Ok was ->
    execute conn (SetForeignKeys false) [] = Ok (n, conn1) -> begin_immediate conn1 = Ok tt ->
    apply_body policy changes p1 conn1 = Ok (out, tx) ->
    fails_as Sqlite (commit tx) r -> stopped_at now conn changes p r.

Lemma commit_batch_stops {B} now conn changes p (r : res Error B) :
  fails_as id (fst (commit_batch policy now conn changes p)) r -> stopped_at now conn changes p r.
Proof.
  unfold commit_batch.
  destruct (preflight_batch now changes policy p) as [p1|e|m] eqn:Hpre;
    [|intros Hf; apply stopped_preflight; by rewrite Hpre..].
  unfold with_fk_disabled.
  destruct (foreign_keys_enabled conn) as [was|e|m] eqn:Hwas;
    [|intros Hf; eapply stopped_pragma_read; [done|]; rewrite Hwas; by destruct r..].
  destruct (execute conn (SetForeignKeys false) []) as [[n c1]|e|m] eqn:Hoff;
    [|intros Hf; eapply stopped_pragma; [done..|]; rewrite Hoff; by destruct r..].
  unfold run_tx. destruct (begin_immediate c1) as [[]|e|m] eqn:Hbg;
    [|intros Hf; eapply stopped_begin; [done..|]; rewrite Hbg; by destruct r..].
  destruct (apply_body policy changes p1 c1) as [[out tx]|e|m] eqn:Hbody;
    [|intros Hf; eapply stopped_body; [done..|]; rewrite Hbody; by destruct r..].
  destruct (commit tx) as [[]|e|m] eqn:Hcm; cbn [fst];
    [by destruct r|intros Hf; eapply stopped_commit; [done..|]; rewrite Hcm; by destruct r..].
Qed.
End apply.

(** ** Properties *)

(** C1: nothing is dropped silently: once a batch commits, every one of its
    changes either landed or is named exactly once in the skip list by its position
    in the batch as submitted; the number applied and the number skipped add up to
    the size of the batch, and every counter of the report is the number of skips
    recorded for its reasons. *)
Theorem apply_accounts_for_every_change `{Unicode} `{Serde} `{Uhlc} `{HashOrder} {db} `{Rusqlite db}
    {P} (policy : ApplyPolicy db P) now conn changes p o m p' conn' :
  commit_batch policy now conn changes p = (Ok (o, m, p'), conn') ->
  (applied (report o) + length (skipped o))%nat = length changes /\
  NoDup (map sk_input_index (skipped o)) /\
  (forall s, s ∈ skipped o -> exists c, changes !! sk_input_index s = Some c) /\
  (forall reason, counter_of reason (report o) = count_reason (reason_counter reason) (skipped o)).
Proof.
  intros (p1 & tx & tx' & _ & Hb)%commit_batch_body.
  apply apply_body_spec in Hb as (_ & landed & Hp & _ & Ha & Hagree & _).
  split; [|split; [|split]].
  - apply Permutation_length in Hp. rewrite length_app, !length_map, length_seq in Hp. lia.
  - assert (NoDup (map fst landed ++ map sk_input_index (skipped o))) as Hnd
      by (rewrite Hp; apply NoDup_seq). by apply NoDup_app in Hnd as (_ & _ & ?).
  - intros s Hs. apply lookup_lt_is_Some_2.
    assert (sk_input_index s ∈ seq 0 (length changes)) as [_ ?]%elem_of_seq; [|lia].
    rewrite <- Hp. apply elem_of_app. right. by apply list_elem_of_fmap_2.
  - intros reason. rewrite counter_of_spec. apply Hagree.
Qed.

(** C2: the clock covers what landed: after a successful call, every change
    that is not in the skip list has a valid timestamp and the clock has moved to
    or past it, so the next local write is newer than everything merged. *)
Theorem apply_clock_covers_landed `{Unicode} `{Serde} `{UhlcLaws} `{HashOrder} {db} `{Rusqlite db}
    {P} (policy : ApplyPolicy db P) now now_commit conn changes svc p o p' conn' svc' i c :
  apply_remote_changes policy now now_commit conn changes svc p = (Ok (o, p'), conn', svc') ->
  changes !! i = Some c -> i ∉ map sk_input_index (skipped o) ->
  exists t h', ts_from_str (hlc_timestamp c) = Ok t /\ hlc_slot svc' = Some h' /\
    ts_time t <= hlc_last h'.
Proof.
  unfold apply_remote_changes. destruct (commit_batch _ _ _ _ _) as [[[[o1 m] p1]|e|msg] c1] eqn:Hcb; [|done..].
  pose proof (commit_batch_body _ _ _ _ _ _ _ _ _ Hcb) as (p0 & tx & tx' & _ & Hb).
  apply apply_body_spec in Hb as (_ & landed & Hp & Hl & _ & _ & Hclk & _ & _).
  intros Hr Hi Hns.
  assert (o1 = o) as -> by (repeat case_match; naive_solver).
  assert (i ∈ map fst landed) as ([j cj] & -> & Hin)%list_elem_of_fmap.
  { assert (i ∈ seq 0 (length changes)) as Hs by (apply elem_of_seq; apply lookup_lt_Some in Hi; lia).
    rewrite <- Hp in Hs. apply elem_of_app in Hs as [?|?]; done. }
  cbn [fst] in *. pose proof (Hl _ _ Hin) as Hj. rewrite Hi in Hj. injection Hj as <-.
  destruct (Hclk (hlc_timestamp c)) as (t & ms & mt & Ht & -> & Hms & Hle).
  { apply list_elem_of_fmap. by exists (j, c). }
  destruct (advance_past_remote svc now_commit ms) as [adv svc1] eqn:Hadv.
  destruct adv as [[]| |]; [|done..]. injection Hr as <- <- <-.
  unfold advance_past_remote in Hadv.
  destruct (is_empty ms) eqn:He.
  { exfalso. destruct ms; [|done]. apply ts_from_str_shape in Hms as [_ Hc]. done. }
  rewrite Hms in Hadv. apply update_hlc_with_Ok in Hadv as (h' & Hh & Hge).
  exists t, h'. split; [done|]. split; [done|]. etransitivity; [|exact Hge].
  revert Hle. unfold cmp_le, ts_compare, then_with.
  destruct (Z.compare_spec (ts_time t) (ts_time mt)); [lia|lia|done].
Qed.

(** C3: atomicity: unless the batch commits, nothing the pragma does not touch
    has changed on the connection, the clock is as it was, and the caller gets
    exactly the error or the panic of the step that stopped the call: the
    preflight, the foreign-key pragma, the begin, the body of the transaction or
    its commit ([stopped_at]). After a commit the caller gets the committed outcome,
    or, when the clock advance fails, [PostCommitClockAdvance] with that outcome and
    the advance's own error, or its panic. *)
Theorem apply_is_atomic `{Unicode} `{Serde} `{Uhlc} `{HashOrder} {db} `{Rusqlite db}
    {P X} (policy : ApplyPolicy db P) (obs : db -> X) now now_commit conn changes svc p r conn' svc' :
  fk_blind obs ->
  apply_remote_changes policy now now_commit conn changes svc p = (r, conn', svc') ->
  (is_ok (fst (commit_batch policy now conn changes p)) = false ->
     obs conn' = obs conn /\ svc' = svc /\ stopped_at policy now conn changes p r) /\
  (forall o m p1 c1, commit_batch policy now conn changes p = (Ok (o, m, p1), c1) ->
     let advance := match m with
                    | Some hlc => advance_past_remote svc now_commit hlc
                    | None => (Ok tt, svc)
                    end in
     conn' = c1 /\ svc' = snd advance /\
     r = match fst advance with
         | Ok _ => Ok (o, p1)
         | Err source => Err (PostCommitClockAdvance o source)
         | Panic msg => Panic msg
         end).
Proof.
  intros Hobs. unfold apply_remote_changes. intros Hr. split.
  - intros Hf. pose proof (commit_batch_stops policy now conn changes p r) as Hstop.
    destruct (commit_batch _ _ _ _ _) as [[[[o1 m] p1]|e|msg] c1] eqn:Hcb; [done| |];
      injection Hr as <- <- <-; (split; [|split; [done|by apply Hstop]]); unfold commit_batch in Hcb;
      (destruct (preflight_batch _ _ _ _) as [p1| |]; [|by simplify_eq..]);
      (apply (with_fk_disabled_obs obs) in Hcb as [(c2 & c3 & Ho2 & Htx & Ho3)|[_ ->]]; [|done|done]);
      (apply run_tx_fail in Htx; [|done]); congruence.
  - intros o m p1 c1 Hcb. rewrite Hcb in Hr. destruct m as [hlc|]; [|by injection Hr as <- <- <-].
    destruct (advance_past_remote svc now_commit hlc) as [[[]| |] svc1]; by injection Hr as <- <- <-.
Qed.

(** The delete log is propagated for admitted entries only: the ids taken
    from a batch are, each once, those of its delete-log changes that were not
    skipped or lost only to a newer write; an entry rejected by the policy or the
    core never causes a delete. *)
Theorem inbound_delete_ids_admitted `{Unicode} `{Serde} `{HashOrder} changes o :
  NoDup (collect_inbound_delete_log_ids changes o) /\
  forall id, id ∈ collect_inbound_delete_log_ids changes o <->
    exists i c pks, changes !! i = Some c /\ table_name c = DELETED_ROWS_TABLE /\
      from_str_map (row_pks c) = Some pks /\ jget "id" pks = Some (JString id) /\
      forall s, s ∈ skipped o -> sk_input_index s = i -> is_lww_loss (sk_reason s) = true.
Proof.
  unfold collect_inbound_delete_log_ids. split.
  - rewrite hash_order_perm. apply NoDup_remove_dups.
  - intros id. rewrite hash_order_perm, elem_of_remove_dups, list_elem_of_omap. split.
    + intros ([i c] & (j & c' & [= -> ->] & Hj)%elem_of_lookup_imap & Hid).
      unfold delete_log_id in Hid. destruct (String.eqb _ _) eqn:Ht; cbn [negb orb] in Hid; [|done].
      apply String.eqb_eq in Ht. case_bool_decide as Hr; [done|].
      destruct (from_str_map (row_pks c')) as [m|] eqn:Hm; cbn in Hid; [|done].
      destruct (jget "id" m) as [[]|] eqn:Hg; simplify_eq.
      exists j, c', m. repeat (split; [done|]). intros s Hs <-.
      destruct (is_lww_loss (sk_reason s)) eqn:Hl; [done|]. exfalso. apply Hr.
      apply elem_of_list_to_set, list_elem_of_fmap. exists s. split; [done|].
      apply list_elem_of_filter. by rewrite Hl.
    + intros (i & c & m & Hi & Ht & Hm & Hg & Hall). exists (i, c). split.
      * apply elem_of_lookup_imap. by exists i, c.
      * unfold delete_log_id. rewrite Ht, String.eqb_refl. cbn [negb orb].
        rewrite bool_decide_eq_false_2; [rewrite Hm; cbn; by rewrite Hg|].
        intros (s & -> & [Hl Hs]%list_elem_of_filter)%elem_of_list_to_set%list_elem_of_fmap.
        rewrite (Hall s Hs eq_refl) in Hl. done.
Qed.

(** The trigger gate: what the toggle stores, and that the pragma leaves it
    alone. *)
Definition trigger_gate {db} `{Rusqlite db} (c : db) : res SqlError (list (list SqlValue)) :=
  query c ConfigGet [SText "triggers_enabled"].
Class GateLaws db `{Rusqlite db} : Prop := {
  gate_toggled : forall c v n c', execute c ToggleTriggers [SText v] = Ok (n, c') ->
    trigger_gate c' = Ok [[SText v]];
  gate_fk_blind : fk_blind (trigger_gate (db := db));
}.

#[export] Instance mini_gate : GateLaws Mem.
Proof.
  split.
  - intros c v n c' [= <- <-]. cbn. by rewrite lookup_insert_eq.
  - by intros c on n c' [= <- <-].
Qed.

(** The trigger gate is never left shut: after a committed batch the
    triggers are enabled, whatever the policy's hooks did to the setting, and
    after any other outcome the setting is what it was before the call. *)
Theorem apply_restores_trigger_gate `{Unicode} `{Serde} `{Uhlc} `{HashOrder} {db} `{GateLaws db} {P}
    (policy : ApplyPolicy db P) now conn changes p :
  match commit_batch policy now conn changes p with
  | (Ok _, conn') => trigger_gate conn' = Ok [[SText "1"]]
  | (_, conn') => trigger_gate conn' = trigger_gate conn
  end.
Proof.
  destruct (commit_batch policy now conn changes p) as [r conn'] eqn:Hcb. unfold commit_batch in Hcb.
  destruct (preflight_batch now changes policy p) as [p1| |]; [|by injection Hcb as <- <-..].
  apply (with_fk_disabled_obs trigger_gate) in Hcb as [(c1 & c2 & Ho1 & Htx & Ho2)|[Hf ->]];
    [| by destruct r | apply gate_fk_blind].
  destruct r as [[[o m] p2]| |].
  - apply run_tx_Ok, apply_body_spec in Htx as [(txb & Ht) _].
    apply bind_Ok in Ht as ([n c3] & Hex & [= <-]). apply map_err_Ok, gate_toggled in Hex. by rewrite Ho2.
  - apply run_tx_fail in Htx; [|done]. congruence.
  - apply run_tx_fail in Htx; [|done]. congruence.
Qed.

(** ** A concrete call *)

#[export] Instance mini_no_panic : DbNoPanic Mem.
Proof.
  assert (forall (m : Mem) t, no_panic (mem_table m t)) as Ht by (intros; apply no_panic_ok_or).
  split; try done.
  - intros m st ps. destruct st; cbn [execute mini_db mem_execute]; try done;
      try (apply no_panic_bind; [apply Ht|]; intros mt _; by repeat case_match); by repeat case_match.
  - intros m st ps. destruct st; cbn [query mini_db mem_query]; try done;
      try (apply no_panic_bind; [apply Ht|]; intros mt _; done); by repeat case_match.
Qed.

Definition mini_pks (id : string) : string := print_json (JObject [("id", JString id)]).
Definition mini_batch : list ColumnChange :=
  [mini_change (mini_pks "a") "body" "5/c"; mini_change (mini_pks "a") "body" "3/c";
   mini_change (mini_pks "b") "body" "4/c"; mini_change (mini_pks "b") "nope" "4/c";
   mini_change (mini_pks "a") "cursor_no_sync" "5/c"].
Definition mini_conn : Mem := mini_mem [mini_row "a" "v" "2/b"].
Definition mini_svc : HlcService := mkHlcService (Some (1, MAX_REMOTE_HLC_DRIFT, 2)) false.
Definition mini_policy : ApplyPolicy Mem unit := SignatureApplyPolicy NoopSignatureProvider.
Definition mini_now : nat -> Z := fun _ => 1000.
Abbreviation mini_call :=
  (apply_remote_changes mini_policy mini_now 1000 mini_conn mini_batch mini_svc tt) (only parsing).

Definition mini_outcome : ApplyOutcome :=
  mkOutcome (mkReport 2 0 0 0 1 1 0 0 0 0 1)
    [mkSkipped 4 NoSyncColumn; mkSkipped 1 SupersededInBatch; mkSkipped 3 UnknownColumn].

Lemma mini_commit : fst (commit_batch mini_policy mini_now mini_conn mini_batch tt) =
  Ok (mini_outcome, Some "5/c", tt).
Proof. vm_compute. reflexivity. Qed.

Lemma mini_call_result : fst (fst mini_call) = Ok (mini_outcome, tt).
Proof. vm_compute. reflexivity. Qed.

Lemma apply_accounts_for_every_change_witness :
  fst (commit_batch mini_policy mini_now mini_conn mini_batch tt) = Ok (mini_outcome, Some "5/c", tt) /\
  (applied (report mini_outcome) + length (skipped mini_outcome))%nat = length mini_batch.
Proof.
  split; [exact mini_commit|].
  exact (proj1 (apply_accounts_for_every_change mini_policy mini_now mini_conn mini_batch tt
                  mini_outcome (Some "5/c") tt _ (pair_result _ _ mini_commit))).
Defined.

Lemma apply_clock_covers_landed_witness :
  exists t h', ts_from_str "5/c" = Ok t /\ hlc_slot (snd mini_call) = Some h' /\ ts_time t <= hlc_last h'.
Proof.
  refine (apply_clock_covers_landed mini_policy mini_now 1000 mini_conn mini_batch mini_svc tt
            mini_outcome tt (snd (fst mini_call)) (snd mini_call) 0
            (mini_change (mini_pks "a") "body" "5/c") _ _ _).
  - exact (triple_result mini_call _ mini_call_result).
  - reflexivity.
  - intros Hin. apply (bool_decide_pack (0%nat ∈ map sk_input_index (skipped mini_outcome))) in Hin.
    vm_compute in Hin. exact Hin.
Defined.

Lemma mini_tables_fk_blind : fk_blind m_tables.
Proof. by intros m on n m' [= <- <-]. Qed.

(** A batch refused for its clock: the same call with one change a day ahead. *)
Definition mini_bad_batch : list ColumnChange :=
  mini_change (mini_pks "a") "body" (print_u64 (2 ^ 60) +:+ "/c") :: mini_batch.

Abbreviation mini_bad_call :=
  (apply_remote_changes mini_policy mini_now 1000 mini_conn mini_bad_batch mini_svc tt) (only parsing).

Lemma mini_bad_commit :
  is_ok (fst (commit_batch mini_policy mini_now mini_conn mini_bad_batch tt)) = false.
Proof. vm_compute. reflexivity. Qed.

Lemma apply_is_atomic_witness :
  m_tables (snd (fst mini_bad_call)) = m_tables mini_conn /\ snd mini_bad_call = mini_svc /\
  stopped_at mini_policy mini_now mini_conn mini_bad_batch tt (fst (fst mini_bad_call)).
Proof.
  exact (proj1 (apply_is_atomic mini_policy m_tables mini_now 1000 mini_conn mini_bad_batch mini_svc tt
    (fst (fst mini_bad_call)) (snd (fst mini_bad_call)) (snd mini_bad_call) mini_tables_fk_blind
    (triple_result mini_bad_call _ eq_refl))
    mini_bad_commit).
Defined.

Lemma apply_restores_trigger_gate_witness :
  is_ok (fst (commit_batch mini_policy mini_now mini_conn mini_batch tt)) = true /\
  trigger_gate (snd (commit_batch mini_policy mini_now mini_conn mini_batch tt)) = Ok [[SText "1"]].
Proof.
  split; [vm_compute; reflexivity|].
  pose proof (apply_restores_trigger_gate mini_policy mini_now mini_conn mini_batch tt) as Hg.
  rewrite (pair_result _ _ mini_commit) in Hg. exact Hg.
Defined.
