(* ===== verification/Safety.v ===== *)
(** * The apply pipeline cannot panic

    Every [expect], slice index, map index and [unreachable!] of
    src/crdt/apply/ is a [Panic] of the model. Given a database and a policy that
    return errors instead of panicking, and UHLC's documented behaviour, none of
    them is reached: preflight has parsed every complete timestamp, selection only
    stages complete ones, and the key check has matched the key names. *)

From S2P Require Import Prelude Utf8 Hashing Names Json Sql Mini Hlc Lww Trigger Report Errors Value Scanner Preimage Policy Preflight Grouping Row Write DeleteProp Cleanup Engine EngineLemmas Apply.

Section db.
Context `{Serde} {db : Type} `{DbNoPanic db}.

Lemma query_row_np (c : db) st ps : no_panic (query_row c st ps).
Proof. apply no_panic_bind; [apply np_query|]. by intros [|]. Qed.

Lemma get_string_np row i : no_panic (get_string row i).
Proof. unfold get_string. by destruct (row !! i) as [[]|]. Qed.
Lemma get_opt_string_np row i : no_panic (get_opt_string row i).
Proof. unfold get_opt_string. by destruct (row !! i) as [[]|]. Qed.
Lemma get_int_np row i : no_panic (get_int row i).
Proof. unfold get_int. by destruct (row !! i) as [[]|]. Qed.

Lemma fetch_existing_np (tx : db) t w pkv : no_panic (fetch_existing_hlcs tx t w pkv).
Proof.
  apply no_panic_bind; [apply no_panic_map_err, convert_params_no_panic|]. intros ps _.
  assert (no_panic (query_row tx (Select [COLUMN_HLCS_COLUMN; HLC_TIMESTAMP_COLUMN] t w) ps ≫=
    (fun row => hlcs ← get_opt_string row 0; row_hlc ← get_opt_string row 1; Ok (hlcs, row_hlc)))) as Hq.
  { apply no_panic_bind; [apply query_row_np|]. intros row _.
    apply no_panic_bind; [apply get_opt_string_np|]. intros h _.
    apply no_panic_bind; [apply get_opt_string_np|done]. }
  destruct (_ ≫= _) as [[h r]|[]|m]; done.
Qed.

Lemma in_row_savepoint_np (tx : db) f :
  (forall tx', no_panic (f tx')) -> no_panic (in_row_savepoint tx f).
Proof.
  intros Hf. apply no_panic_bind; [apply no_panic_map_err, np_execute|]. intros [n tx1] _. cbn [snd].
  specialize (Hf tx1). destruct (f tx1) as [[[|[|k]] tx2]| |]; try done.
  apply no_panic_bind; [apply no_panic_map_err, np_execute|done].
Qed.

Lemma write_result_np sql (r : res DatabaseError (WriteOutcome db)) :
  no_panic r -> no_panic (write_result sql r).
Proof.
  intros Hr. apply no_panic_bind; [done|]. intros [tx|e tx] _; [done|]. by destruct (bool_decide _).
Qed.

Lemma write_update_np (tx : db) t staged ch mx w pkv sg :
  no_panic (write_update tx t staged ch mx w pkv sg).
Proof.
  unfold write_update. cbv zeta. apply no_panic_bind.
  - destruct (sg && _); [|done]. apply no_panic_bind; [|done].
    apply no_panic_bind; [apply convert_params_no_panic|]. intros ps _.
    apply no_panic_bind; [apply no_panic_map_err, np_prepare|done].
  - intros sigs _. apply no_panic_bind; [apply convert_params_no_panic|]. intros pks _.
    apply write_result_np, in_row_savepoint_np. intros tx'. apply np_execute.
Qed.

Lemma write_insert_np (tx : db) t schema row_pks staged ch mx sg :
  (forall k, k ∈ pk_names schema -> k ∈ jkeys row_pks) ->
  no_panic (write_insert tx t schema row_pks staged ch mx sg).
Proof.
  intros Hk. unfold write_insert. cbv zeta. apply no_panic_bind.
  - apply no_panic_try_map. intros k Hin. apply list_elem_of_In, Hk in Hin. unfold pk_value.
    destruct (jget k row_pks) eqn:Hg; [done|]. exfalso. revert Hin Hg. clear.
    induction row_pks as [|[k' v] m IH]; cbn; [by intros ?%elem_of_nil|].
    intros [->|Hin]%elem_of_cons; [by rewrite String.eqb_refl|]. destruct (String.eqb k' k); [done|auto].
  - intros vs _. apply no_panic_bind; [apply convert_params_no_panic|]. intros ps _.
    apply write_result_np, in_row_savepoint_np. intros tx'. apply np_execute.
Qed.
End db.

Section safety.
Context `{Unicode} `{Serde} `{UhlcLaws} `{HashOrder} {db : Type} `{Rusqlite db} `{!DbNoPanic db}
  {P : Type} (policy : ApplyPolicy db P) (Hpol : PolicyNoPanic policy).

(** A clock value and a change whose timestamps parse. *)
Definition clock_ok (m : option string) : Prop :=
  match m with Some ms => exists t, ts_from_str ms = Ok t | None => True end.
Definition hlc_ok (hlc : string) : Prop := complete_hlc hlc = true -> exists t, ts_from_str hlc = Ok t.
Definition group_ok (group : list (nat * ColumnChange)) : Prop :=
  forall e, e ∈ group -> hlc_ok (hlc_timestamp (snd e)).

Lemma clock_covers_ok m m' hlcs : clock_ok m -> clock_covers m m' hlcs -> clock_ok m'.
Proof.
  intros Hm (Hin & _ & [->|(hlc & Hh & ->)]); [done|].
  destruct (Hin hlc Hh) as (t & ms & mt & _ & [= <-] & Hms & _). by exists mt.
Qed.

Lemma fold_accepted_np staged : forall m,
  clock_ok m -> (forall s, s ∈ staged -> exists t, ts_from_str (sc_hlc s) = Ok t) ->
  no_panic (fold_accepted m staged).
Proof.
  induction staged as [|s staged IH]; intros m Hm Hs; cbn [fold_accepted]; [done|].
  destruct (Hs s ltac:(by left)) as [t Ht].
  assert (no_panic (fold_max_accepted_hlc m (sc_hlc s))) as Hnp.
  { unfold fold_max_accepted_hlc. rewrite Ht. destruct m as [ms|]; [|done].
    destruct Hm as [mt ->]. by destruct (ts_compare t mt). }
  apply no_panic_bind; [done|]. intros m' Hm'. apply IH.
  - eapply clock_covers_ok; [exact Hm|]. by eapply fold_max_accepted_covers.
  - intros s' Hs'. apply Hs. by right.
Qed.

Lemma finish_row_np t pks row_pks schema ex staged rh st w :
  clock_ok (st_max_accepted st) -> (forall s, s ∈ staged -> exists t, ts_from_str (sc_hlc s) = Ok t) ->
  no_panic (finish_row policy t pks row_pks schema ex staged rh st w).
Proof.
  intros Hm Hs. destruct w as [tx|e tx]; cbn [finish_row].
  - apply no_panic_bind; [apply (np_after_row _ Hpol)|]. intros [p tx'] _.
    apply no_panic_bind; [by apply fold_accepted_np|done].
  - destruct (if negb ex then _ else _); [|done].
    apply no_panic_bind; [apply no_panic_map_err; apply no_panic_bind; [apply no_panic_map_err, np_execute|done]|].
    intros tx1 _. apply no_panic_bind; [apply (np_on_insert_constraint _ Hpol)|]. intros [[[] p] tx2] _; done.
Qed.

Lemma write_staged_np t pks row_pks schema w pkv existing staged rm shadow st :
  clock_ok (st_max_accepted st) -> (forall s, s ∈ staged -> exists t, ts_from_str (sc_hlc s) = Ok t) ->
  (forall k, k ∈ pk_names schema -> k ∈ jkeys row_pks) ->
  no_panic (write_staged policy t pks row_pks schema w pkv existing staged rm shadow st).
Proof.
  intros Hm Hs Hk. unfold write_staged. destruct (default _ existing) as [cur ch].
  destruct (_ && _); [done|]. apply no_panic_bind; [|intros; by apply finish_row_np].
  apply no_panic_map_err. destruct existing; [apply write_update_np|by apply write_insert_np].
Qed.

Lemma eligibility_loop_np ex pks changes : forall i eligible o,
  no_panic (eligibility_loop ex pks i changes eligible o).
Proof.
  induction changes as [|ic changes IH]; intros i eligible o; cbn [eligibility_loop]; [done|].
  destruct (classify_eligibility _ _ _) as [reason|] eqn:Hc; [|apply IH].
  apply no_panic_bind; [|intros; apply IH]. apply no_panic_bind; [|done].
  unfold classify_eligibility in Hc. repeat case_match; simplify_eq; done.
Qed.

Lemma select_loop_np ch row pairs : forall acc,
  (forall d i, (d, i) ∈ pairs -> exists ic, ri_changes row !! i = Some ic) ->
  no_panic (select_loop ch row pairs acc).
Proof.
  induction pairs as [|[d i] pairs IH]; intros acc Hv; cbn [select_loop]; [done|].
  destruct (Hv d i ltac:(by left)) as [ic Hic]. rewrite Hic. cbn. apply IH.
  intros d' i' Hin. apply (Hv d' i'). by right.
Qed.

Lemma select_staged_np t ds row ch rep skip :
  row_input_valid row -> no_panic (select_staged_columns t ds row ch rep skip).
Proof.
  intros Hv. unfold select_staged_columns. destruct (negb _); [done|]. apply select_loop_np.
  intros d i Hin. apply Hv. apply list_elem_of_In in Hin. apply in_combine_r in Hin.
  by apply list_elem_of_In.
Qed.

Lemma process_identified_np t pks row_pks schema w pkv group shadow st :
  clock_ok (st_max_accepted st) -> group_ok group ->
  (forall k, k ∈ pk_names schema -> k ∈ jkeys row_pks) ->
  no_panic (process_identified_row policy t pks row_pks schema w pkv group shadow st).
Proof.
  intros Hm Hgo Hk. unfold process_identified_row.
  apply no_panic_bind; [apply fetch_existing_np|]. intros existing _.
  apply no_panic_bind; [apply eligibility_loop_np|]. intros [eligible o1] Hel.
  apply eligibility_loop_spec in Hel as (idxs & elig & new & -> & _ & Hidx & _ & _). cbn [app].
  apply eligible_changes in Hidx. set (indexed := map (fun e => mkIndexed (fst e) (snd e)) group) in *.
  assert (forall i, i ∈ idxs -> exists ic, indexed !! i = Some ic) as Hvalid.
  { intros i [j Hj]%list_elem_of_lookup. destruct (Forall2_lookup_l _ _ _ _ _ Hidx Hj) as (ic & _ & Hic). eauto. }
  apply no_panic_bind; [apply (np_prepare_row _ Hpol); exact Hvalid|]. intros [[decision p1] tx1] _.
  destruct decision as [|ds].
  - apply no_panic_bind; [|done]. unfold skip_eligible. apply no_panic_bind; [|done].
    apply no_panic_try_map. intros i Hi. apply list_elem_of_In, Hvalid in Hi as [ic ->]. done.
  - apply no_panic_bind; [apply select_staged_np; exact Hvalid|]. intros sel Hsel.
    apply select_staged_inv in Hsel as (cands & Hpair & Hlen & Hinv).
    pose proof (paired_eligible _ _ elig _ Hlen Hidx Hpair) as Hcands.
    assert (forall s, s ∈ sel_staged sel -> exists t, ts_from_str (sc_hlc s) = Ok t) as Hs.
    { intros s Hs. destruct (staged_from _ _ _ _ _ s Hinv Hs) as [(c & Hc & Hsc) Hcomp].
      assert (snd c ∈ elig) as Hcel by (rewrite <- Hcands; by apply list_elem_of_fmap_2).
      apply list_elem_of_lookup in Hcel as [j Hj].
      destruct (Forall2_lookup_r _ _ _ _ _ Hidx Hj) as (k & _ & Hkk).
      unfold indexed in Hkk. rewrite list_lookup_fmap in Hkk.
      destruct (group !! k) as [[i ch]|] eqn:Hgk; [|done]. cbn in Hkk. rewrite Hsc in Hkk.
      injection Hkk as _ Hch. apply list_elem_of_lookup_2 in Hgk. specialize (Hgo _ Hgk). cbn [snd] in Hgo.
      unfold sc_hlc in *. rewrite <- Hch in *. auto. }
    destruct (sel_staged sel) as [|s0 staged0]; [done|].
    apply no_panic_bind; [by unfold max_hlc; cbn [map hlc_max max_by]|]. intros rm _.
    by apply write_staged_np.
Qed.

Lemma process_row_group_np shadow st key group :
  clock_ok (st_max_accepted st) -> group_ok group ->
  no_panic (process_row_group policy shadow st (key, group)).
Proof.
  intros Hm Hgo. unfold process_row_group. destruct key as [t pks].
  apply no_panic_bind.
  { apply no_panic_map_err. unfold get_table_schema. destruct (negb _); [done|apply np_table_info]. }
  intros schema _. repeat case_match; try done.
  apply process_identified_np; [done|done|]. intros k Hk.
  match goal with Hn : negb (same_names _ _) = false |- _ => apply negb_false_iff in Hn as Hs end.
  match goal with Hp : pk_names _ = _ |- _ => rewrite Hp in Hk end.
  by apply (same_names_elem _ _ k Hs).
Qed.

Lemma process_row_groups_np shadow groups : forall st,
  clock_ok (st_max_accepted st) -> group_ok (concat (map snd groups)) ->
  no_panic (process_row_groups policy shadow st groups).
Proof.
  induction groups as [|[key group] groups IH]; intros st Hm Hgo; cbn [process_row_groups]; [done|].
  cbn [map concat snd] in Hgo.
  apply no_panic_bind.
  - apply process_row_group_np; [done|]. intros e He. apply Hgo, elem_of_app. by left.
  - intros st' Hst. apply IH.
    + apply process_row_group_done in Hst as (landed & new & _ & _ & _ & Hc). by eapply clock_covers_ok.
    + intros e He. apply Hgo, elem_of_app. by right.
Qed.

Lemma load_shadow_np (tx : db) : no_panic (load_delete_shadow_map tx).
Proof.
  apply no_panic_bind; [apply no_panic_map_err, np_query|]. intros rows _.
  apply no_panic_bind; [|done]. apply no_panic_try_map. intros row _. apply no_panic_map_err.
  apply no_panic_bind; [apply get_string_np|]. intros t _. apply no_panic_bind; [apply get_string_np|].
  intros pks _. apply no_panic_bind; [apply get_opt_string_np|done].
Qed.

Lemma propagate_np ids : forall (tx : db) rep, no_panic (propagate_deleted_rows_to_target_tables tx ids rep).
Proof.
  induction ids as [|id ids IH]; intros tx rep; cbn [propagate_deleted_rows_to_target_tables]; [done|].
  apply no_panic_bind; [|intros; apply IH]. unfold propagate_one.
  assert (no_panic (query_row tx SelectDeleteLogById [SText id] ≫=
        (fun row => t ← get_string row 0; pks ← get_string row 1; h ← get_opt_string row 2;
                    Ok (t, pks, h)))) as Hq.
  { apply no_panic_bind; [apply query_row_np|]. intros row _.
    apply no_panic_bind; [apply get_string_np|]. intros t _. apply no_panic_bind; [apply get_string_np|].
    intros pks _. apply no_panic_bind; [apply get_opt_string_np|done]. }
  destruct (_ ≫= _) as [[[t pks] [h|]]|[]|m]; try done.
  destruct (delete_target tx t pks) as [[w ps]|]; [|done]. apply no_panic_bind.
  - unfold target_row_hlc.
    assert (no_panic (query_row tx (Select [HLC_TIMESTAMP_COLUMN] t w) ps ≫= (fun row => get_opt_string row 0))) as Hq2
      by (apply no_panic_bind; [apply query_row_np|intros; apply get_opt_string_np]).
    destruct (_ ≫= _) as [|[]|]; done.
  - intros target _. destruct (negb _); [done|]. apply no_panic_bind; [apply no_panic_map_err, np_execute|done].
Qed.

Lemma toggle_np (tx : db) v : no_panic (toggle_triggers tx v).
Proof. apply no_panic_bind; [apply no_panic_map_err, np_execute|done]. Qed.

Lemma apply_body_np changes p (tx : db) :
  (forall c, c ∈ changes -> hlc_ok (hlc_timestamp c)) -> no_panic (apply_body policy changes p tx).
Proof.
  intros Hc. unfold apply_body. apply no_panic_bind; [apply toggle_np|]. intros tx1 _.
  apply no_panic_bind; [apply (np_begin_hook _ Hpol)|]. intros [p1 tx2] _.
  apply no_panic_bind; [apply no_panic_map_err, load_shadow_np|]. intros shadow _.
  apply no_panic_bind.
  { apply process_row_groups_np; [done|]. intros [i c] He. rewrite row_groups_of_perm in He.
    apply elem_of_lookup_imap in He as (j & c' & [= -> ->] & Hj). apply Hc. by eapply list_elem_of_lookup_2. }
  intros st _. apply no_panic_bind; [apply no_panic_map_err, propagate_np|]. intros [tx3 rep] _.
  apply no_panic_bind; [apply (np_before_commit _ Hpol)|]. intros [p2 tx4] _.
  apply no_panic_bind; [apply toggle_np|done].
Qed.

Lemma preflight_batch_np now changes p : no_panic (preflight_batch now changes policy p).
Proof.
  apply no_panic_bind; [apply check_batch_no_panic|]. intros [] _. apply (np_preflight _ Hpol).
Qed.

Lemma commit_batch_np now conn changes p : no_panic (fst (commit_batch policy now conn changes p)).
Proof.
  unfold commit_batch. pose proof (preflight_batch_np now changes p) as Hpre.
  destruct (preflight_batch now changes policy p) as [p1| |] eqn:Hp; [|done|done]. clear Hpre.
  pose proof (preflight_batch_plausible now changes policy p p1 Hp) as Hchk. clear Hp.
  unfold with_fk_disabled.
  assert (no_panic (foreign_keys_enabled conn)) as Hfk.
  { apply no_panic_bind; [apply query_row_np|]. intros row _. apply no_panic_bind; [apply get_int_np|done]. }
  destruct (foreign_keys_enabled conn) as [was| |]; [|done|done].
  pose proof (np_execute conn (SetForeignKeys false) []) as Hex.
  destruct (execute conn (SetForeignKeys false) []) as [[n c1]| |]; [|done|done].
  assert (no_panic (fst (run_tx Sqlite begin_immediate c1 (apply_body policy changes p1)))) as Hrt.
  { apply run_tx_no_panic; [apply np_begin| |apply np_commit]. apply apply_body_np.
    intros c Hc. apply list_elem_of_lookup in Hc as [i Hi]. apply Hchk in Hi.
    exact (pl_hlc _ _ Hi). }
  by destruct (run_tx Sqlite begin_immediate c1 (apply_body policy changes p1)).
Qed.
End safety.

(** C4: a remote batch cannot crash the process: whatever the peer sends, as
    long as the database and the policy's hooks return errors rather than panic,
    [apply_remote_changes] returns - no timestamp [expect], no slice or key-map
    index and no [unreachable!] of the pipeline fires. *)
Theorem apply_never_panics `{Unicode} `{Serde} `{UhlcLaws} `{HashOrder} {db} `{Rusqlite db}
    `{!DbNoPanic db} {P} (policy : ApplyPolicy db P) now now_commit conn changes svc p :
  PolicyNoPanic policy ->
  no_panic (fst (fst (apply_remote_changes policy now now_commit conn changes svc p))).
Proof.
  intros Hpol. unfold apply_remote_changes.
  pose proof (commit_batch_np policy Hpol now conn changes p) as Hcb.
  destruct (commit_batch policy now conn changes p) as [[[[o [hlc|]] p2]| |] conn']; try done.
  unfold advance_past_remote. destruct (is_empty hlc); [done|].
  pose proof (ts_from_str_np hlc) as Hts. destruct (ts_from_str hlc) as [t| |]; [|done|done].
  unfold update_hlc_with, lock_hlc. destruct (hlc_poisoned svc); [done|].
  destruct (hlc_slot svc) as [h|]; [|done]. cbn [ok_or].
  destruct (hlc_update_with_timestamp h now_commit t) as [r h'] eqn:Hu. 
  pose proof (fun m => hlc_update_no_panic h now_commit t m) as Hn. rewrite Hu in Hn. cbn [fst] in Hn.
  destruct r as [[]| |m]; cbn; try done. by apply (Hn m).
Qed.

Lemma mini_policy_no_panic : PolicyNoPanic mini_policy.
Proof. apply signature_policy_no_panic; [done|]. intros preimage sg. cbn. by destruct sg. Qed.

Lemma apply_never_panics_witness :
  no_panic (fst (fst (apply_remote_changes mini_policy mini_now 1000 mini_conn mini_batch mini_svc tt))).
Proof.
  apply (apply_never_panics mini_policy mini_now 1000 mini_conn mini_batch mini_svc tt).
  exact mini_policy_no_panic.
Defined.
