(* ===== verification/Store.v ===== *)
(** * The rows of a database

    An abstract store: the rows a WHERE clause selects, what the statements of
    [Write] do to them, and what a successful write of staged columns leaves in the
    cells. Below it the in-memory database as an instance. *)

From S2P Require Import Prelude Utf8 Hashing Names Json Sql Mini Hlc Lww Trigger Report Errors Value Scanner Preimage Policy Preflight Grouping Row Write DeleteProp Engine EngineLemmas Apply.

(** ** The abstract store *)

Definition cell (r : gmap string SqlValue) (col : string) : SqlValue := default SNull (r !! col).

Definition set_cells (cols : list string) (vs : list SqlValue) (r : gmap string SqlValue)
    : gmap string SqlValue :=
  fold_left (fun m e => <[fst e := snd e]> m) (zip cols vs) r.

Definition watom_col (a : watom) : string := match a with WEq c | WIsNull c => c end.

(** SQLite stores a value under the affinity of the declared type of its column
    (datatype3.html: a text that looks like a number becomes one in an INTEGER
    column, and so on); a type without a conversion keeps it. *)
Class Affinity := { affinity : string -> SqlValue -> SqlValue }.
Definition stored_as `{Affinity} (schema : list ColumnInfo) (col : string) (v : SqlValue) : SqlValue :=
  match List.find (fun c => String.eqb (ci_name c) col) schema with
  | Some c => affinity (ci_type c) v
  | None => v
  end.
Definition stores_text `{Affinity} (schema : list ColumnInfo) (col : string) : Prop :=
  forall s, stored_as schema col (SText s) = SText s.

Definition stored_cells `{Affinity} (schema : list ColumnInfo) (cols : list string) (vs : list SqlValue)
    (r : gmap string SqlValue) : gmap string SqlValue := set_cells cols (zip_with (stored_as schema) cols vs) r.

(** A row holds the values a key clause compares with. *)
Fixpoint key_held `{Affinity} (schema : list ColumnInfo) (w : list watom) (ps : list SqlValue)
    (r : gmap string SqlValue) : Prop :=
  match w, ps with
  | [], [] => True
  | WEq col :: w', p :: ps' => p <> SNull /\ cell r col = stored_as schema col p /\ key_held schema w' ps' r
  | _, _ => False
  end.

(** What is relied on of SQLite, for a database without triggers of its own on
    the tables and without ON CONFLICT clauses in their declarations, while the CRDT
    triggers and the foreign keys are off. [rows_at] are the rows a WHERE clause
    selects, all of them for the empty clause, [row_sel] is its evaluation on one row. A SELECT reads those rows, as
    do the two that read the delete log; an
    UPDATE, INSERT or DELETE that changed one row (any number, for DELETE) does what it
    says and nothing to other tables - SQLite compares their names without regard to
    case; columns an INSERT does not name take a default, and a row with the values of
    a key clause is selected by it. Savepoints, the trigger gate and the pragma are no
    rows, a savepoint rolled back has done nothing, and none of these statements
    changes a schema.

    A row is keyed by its columns' names as the schema spells them. SQLite compares
    column names without regard to case as well, and no two columns of a table have
    names that differ only by case, so between names of the schema, in its
    spelling, being equal is being the same column: this is why an UPDATE says what
    becomes of a clause only where both the columns it sets and those of the clause
    are such names. The metadata columns, which the statements name on their own,
    are taken to be spelled in the schema as the crate spells them when it adds
    them - a table that spells them otherwise is not such a store, and the crate's
    own [has_column] would not find them in it either. *)
Class RowStore (db : Type) `{Affinity} `{Rusqlite db} := {
  rows_at : db -> string -> list watom -> list SqlValue -> list (gmap string SqlValue);
  row_sel : db -> string -> list watom -> list SqlValue -> gmap string SqlValue -> bool;
  same_schema (c c' : db) : Prop :=
    forall t, table_info c' t = table_info c t /\ forall w ps r, row_sel c' t w ps r = row_sel c t w ps r;
  same_store (c c' : db) : Prop := same_schema c c' /\ forall t w ps, rows_at c' t w ps = rows_at c t w ps;
  store_selects : forall c t w ps cols,
    match query c (Select cols t w) ps with
    | Ok rows => rows = map (fun r => map (cell r) cols) (rows_at c t w ps)
    | Err e => e <> QueryReturnedNoRows
    | Panic _ => True
    end;
  store_log_all : forall c,
    match query c SelectDeleteLog [] with
    | Ok rows => rows = map (fun r => map (cell r) ["table_name"; "row_pks"; HLC_TIMESTAMP_COLUMN])
                            (rows_at c DELETED_ROWS_TABLE [] [])
    | _ => True
    end;
  store_log : forall c id,
    match query c SelectDeleteLogById [SText id] with
    | Ok rows => rows = map (fun r => map (cell r) ["table_name"; "row_pks"; HLC_TIMESTAMP_COLUMN])
                            (rows_at c DELETED_ROWS_TABLE [WEq "id"] [SText id])
    | Err e => e <> QueryReturnedNoRows
    | Panic _ => True
    end;
  store_sel : forall c t w ps r, r ∈ rows_at c t w ps -> row_sel c t w ps r = true;
  store_all : forall c t w ps r, r ∈ rows_at c t w ps -> r ∈ rows_at c t [] [];
  store_key : forall c t schema w ps r, table_info c t = Ok schema -> key_held schema w ps r -> row_sel c t w ps r = true;
  store_updates : forall c t schema cols w' vs ps' c', execute c (Update t cols w') (vs ++ ps') = Ok (1%nat, c') ->
    table_info c t = Ok schema -> (forall col, col ∈ cols -> col ∈ map ci_name schema) ->
    NoDup cols -> length vs = length cols -> forall w ps, (forall a, a ∈ w -> watom_col a ∈ map ci_name schema /\ watom_col a ∉ cols) ->
    Permutation (rows_at c' t w ps)
      (map (fun r => if row_sel c t w' ps' r then stored_cells schema cols vs r else r) (rows_at c t w ps));
  store_inserts : forall c t schema cols vs c', execute c (Insert t cols) vs = Ok (1%nat, c') ->
    table_info c t = Ok schema -> (forall col, col ∈ cols -> col ∈ map ci_name schema) ->
    NoDup cols -> length vs = length cols ->
    (forall col v, (col, v) ∈ zip cols vs -> col ∈ pk_names schema -> v <> SNull) ->
    exists d, forall w ps, Permutation (rows_at c' t w ps) (rows_at c t w ps ++
      (if row_sel c t w ps (stored_cells schema cols vs d) then [stored_cells schema cols vs d] else []));
  store_deletes : forall c t w' ps' n c', execute c (Delete t w') ps' = Ok (n, c') -> forall w ps,
    Permutation (rows_at c' t w ps) (List.filter (fun r => negb (row_sel c t w' ps' r)) (rows_at c t w ps));
  store_others : forall c st ps' n c', execute c st ps' = Ok (n, c') ->
    match st with
    | Update t' _ _ | Insert t' _ | Delete t' _ =>
        forall t w ps, eq_ignore_ascii_case t' t = false -> rows_at c' t w ps = rows_at c t w ps
    | _ => True
    end;
  store_keeps : forall c st ps n c', execute c st ps = Ok (n, c') ->
    match st with
    | Savepoint _ | Release _ | ToggleTriggers | SetForeignKeys _ => same_store c c'
    | Update _ _ _ | Insert _ _ | Delete _ _ => same_schema c c'
    | _ => True
    end;
  store_back : forall c name n c1 m c2,
    execute c (Savepoint name) [] = Ok (n, c1) -> execute c1 (RollbackRelease name) [] = Ok (m, c2) -> same_store c c2;
}.

(** The one row a clause selects. *)
Definition row_of `{RowStore db} (c : db) (t : string) (w : list watom) (ps : list SqlValue)
    : option (gmap string SqlValue) :=
  match rows_at c t w ps with [r] => Some r | _ => None end.

Lemma row_of_Some `{RowStore db} (c : db) t w ps r : row_of c t w ps = Some r <-> rows_at c t w ps = [r].
Proof. unfold row_of. destruct (rows_at c t w ps) as [|r' [|]]; split; congruence. Qed.

(** The column-HLC map and the row HLC a stored row carries. *)
Definition row_hlcs `{Serde} (r : gmap string SqlValue) : jmap :=
  match cell r COLUMN_HLCS_COLUMN with SText s => default [] (from_str_map s) | _ => [] end.
Definition row_hlc (r : gmap string SqlValue) : string :=
  match cell r HLC_TIMESTAMP_COLUMN with SText s => s | _ => EmptyString end.

Definition row_wf `{Serde} (r : gmap string SqlValue) : Prop :=
  jsorted (row_hlcs r) /\ string_map (row_hlcs r).

(** No HLC is below the absent one. *)
Lemma empty_hlc_least h : cmp_le compare_hlc_strings EmptyString h.
Proof.
  destruct (parse_hlc_range h) as [Ht Hn]. unfold cmp_le, compare_hlc_strings. change (parse_hlc EmptyString) with (0, 0).
  destruct (parse_hlc h) as [t n]. cbn [fst snd] in *. unfold then_with.
  destruct (Z.compare_spec 0 t), (Z.compare_spec 0 n); try done; lia.
Qed.

(** ** Cells *)

Lemma set_cells_app cols cols' vs vs' r :
  length vs = length cols -> set_cells (cols ++ cols') (vs ++ vs') r = set_cells cols' vs' (set_cells cols vs r).
Proof. intros Hl. unfold set_cells. rewrite zip_with_app by done. apply fold_left_app. Qed.

Lemma set_cells_other cols : forall vs r col, col ∉ cols -> set_cells cols vs r !! col = r !! col.
Proof.
  unfold set_cells. induction cols as [|c cols IH]; intros [|v vs] r col Hc; cbn; [done..|].
  apply not_elem_of_cons in Hc as [Hne Hc]. rewrite IH by done. by rewrite lookup_insert_ne.
Qed.

Lemma column_hlcs_after_wf staged : forall m, jsorted m -> string_map m ->
  jsorted (column_hlcs_after m staged) /\ string_map (column_hlcs_after m staged).
Proof.
  assert (forall k s m, string_map m -> string_map (jinsert k (JString s) m)) as Hins.
  { intros k s m. unfold string_map. induction 1 as [|[k' v'] m Hv Hm IH]; cbn [jinsert].
    - constructor; [|constructor]. eauto.
    - destruct (String.compare k k'); repeat constructor; eauto. }
  unfold column_hlcs_after. induction staged as [|s staged IH]; intros m Hs Hm; cbn; [done|].
  apply IH; [by apply jinsert_sorted|by apply Hins].
Qed.

(** What a write of the staged columns and the metadata leaves in the cells. *)
Section cells.
Context `{Affinity} (schema : list ColumnInfo).

Lemma stored_cells_app cols cols' vs vs' r :
  length vs = length cols ->
  stored_cells schema (cols ++ cols') (vs ++ vs') r = stored_cells schema cols' vs' (stored_cells schema cols vs r).
Proof.
  intros Hl. unfold stored_cells. rewrite zip_with_app by done. apply set_cells_app. rewrite length_zip_with. lia.
Qed.

Lemma stored_cells_other cols vs r col : col ∉ cols -> stored_cells schema cols vs r !! col = r !! col.
Proof. apply set_cells_other. Qed.

Lemma stored_cells_staged staged : forall r col, NoDup (map sc_column staged) ->
  stored_cells schema (map sc_column staged) (map sc_value staged) r !! col =
    match find_staged col staged with Some s => Some (stored_as schema col (sc_value s)) | None => r !! col end.
Proof.
  unfold stored_cells, set_cells. induction staged as [|s staged IH]; intros r col Hnd; [done|]. cbn.
  apply NoDup_cons in Hnd as [Hs Hnd]. rewrite IH by done. destruct (String.eqb_spec (sc_column s) col) as [<-|Hne].
  - assert (find_staged (sc_column s) staged = None) as ->; [|by rewrite lookup_insert_eq].
    apply find_staged_None. intros s' Hs' Heq. apply Hs. rewrite <- Heq. by apply list_elem_of_fmap_2.
  - change (List.find _ staged) with (find_staged col staged). destruct (find_staged col staged); [done|]. by rewrite lookup_insert_ne.
Qed.

(** The columns of the metadata a write sets; signatures only when asked to. *)
Definition meta_written (sigs : bool) : list string :=
  [COLUMN_HLCS_COLUMN; HLC_TIMESTAMP_COLUMN] ++ (if sigs then [COLUMN_SIGS_COLUMN] else []).

Lemma meta_written_meta sigs c : c ∈ meta_written sigs -> is_meta_column c = true.
Proof. intros [Hc|Hc]%elem_of_app; [|destruct sigs]; set_unfold; naive_solver. Qed.

Lemma meta_written_nodup sigs : NoDup (meta_written sigs).
Proof. destruct sigs; apply (bool_decide_unpack _); vm_compute; exact I. Qed.

(** A table under CRDT: the metadata columns exist and keep text as it is. *)
Record managed : Prop := {
  man_names : NoDup (map ci_name schema);
  man_hlc : has_column HLC_TIMESTAMP_COLUMN schema = true;
  man_hlcs : has_column COLUMN_HLCS_COLUMN schema = true;
  man_hlc_text : stores_text schema HLC_TIMESTAMP_COLUMN;
  man_hlcs_text : stores_text schema COLUMN_HLCS_COLUMN;
}.

Record written_row (staged : list StagedColumn) (hj rh : string) (r r' : gmap string SqlValue) : Prop := {
  wr_hlcs : cell r' COLUMN_HLCS_COLUMN = SText hj;
  wr_hlc : cell r' HLC_TIMESTAMP_COLUMN = SText rh;
  wr_data : forall c, is_meta_column c = false ->
    r' !! c = match find_staged c staged with Some s => Some (stored_as schema c (sc_value s)) | None => r !! c end;
}.

Lemma stored_cells_written staged (hj rh : string) (ws : bool) (sigs : list SqlValue) r :
  managed -> NoDup (map sc_column staged) -> length sigs = length (if ws then [COLUMN_SIGS_COLUMN] else []) ->
  written_row staged hj rh r
    (stored_cells schema (map sc_column staged ++ meta_written ws)
       (map sc_value staged ++ [SText hj; SText rh] ++ sigs) r).
Proof.
  intros [_ _ _ Ht Hhs] Hnd Hl. rewrite stored_cells_app by (by rewrite !length_map).
  set (r1 := stored_cells schema (map sc_column staged) _ r).
  assert (forall c, is_meta_column c = false -> stored_cells schema (meta_written ws) ([SText hj; SText rh] ++ sigs) r1 !! c = r1 !! c) as Hc.
  { intros c Hc. apply stored_cells_other. intros Hin%meta_written_meta. congruence. }
  split; [| |intros c Hm; rewrite Hc by done; by apply stored_cells_staged];
    destruct ws, sigs as [|sg [|]]; try done; unfold stored_cells, set_cells, meta_written, cell; cbn;
    rewrite Ht, Hhs; by simplify_map_eq.
Qed.

Lemma has_column_elem name : has_column name schema = true -> name ∈ map ci_name schema.
Proof.
  unfold has_column. intros (c & Hc & <-%String.eqb_eq)%existsb_exists.
  apply list_elem_of_fmap_2. by apply list_elem_of_In.
Qed.

Lemma meta_written_columns ws :
  managed -> (ws = true -> has_column COLUMN_SIGS_COLUMN schema = true) ->
  forall c, c ∈ meta_written ws -> c ∈ map ci_name schema.
Proof.
  intros [_ Hh Hhs _ _] Hws c [Hc|Hc]%elem_of_app.
  - set_unfold in Hc. destruct Hc as [->|[->|[]]]; by apply has_column_elem.
  - destruct ws; [|by apply elem_of_nil in Hc]. apply list_elem_of_singleton in Hc as ->. by apply has_column_elem, Hws.
Qed.
End cells.

(** ** The steps of the row loop on a stored row *)

Section store.
Context `{Unicode} `{Serde} `{!SerdeLaws} {db : Type} `{RowStore db}.

#[export] Instance same_schema_preorder : PreOrder same_schema.
Proof.
  split; [by intros c t|]. intros c1 c2 c3 H12 H23 t. destruct (H12 t) as [Ht1 Hs1], (H23 t) as [Ht2 Hs2].
  split; [congruence|]. intros w ps r. by rewrite Hs2, Hs1.
Qed.

#[export] Instance same_store_preorder : PreOrder same_store.
Proof.
  split; [by split|]. intros c1 c2 c3 [Hs1 Hr1] [Hs2 Hr2]. split; [by etrans|]. intros t w ps. by rewrite Hr2.
Qed.

Lemma get_schema_same c c' t : same_schema c c' -> get_table_schema c' t = get_table_schema c t.
Proof. intros Hs. unfold get_table_schema. by rewrite (proj1 (Hs t)). Qed.

Lemma get_schema_info (c : db) t schema : get_table_schema c t = Ok schema -> table_info c t = Ok schema.
Proof. unfold get_table_schema. by destruct (negb _). Qed.

Lemma fetch_existing_rows (tx : db) t w pkv ps e :
  convert_params pkv = Ok ps -> fetch_existing_hlcs tx t w pkv = Ok e ->
  e = match rows_at tx t w ps with [] => None | r :: _ => Some (row_hlc r, row_hlcs r) end.
Proof.
  intros Hps. unfold fetch_existing_hlcs. rewrite Hps. cbn.
  unfold query_row. pose proof (store_selects tx t w ps [COLUMN_HLCS_COLUMN; HLC_TIMESTAMP_COLUMN]) as Hq.
  destruct (query tx _ ps) as [rows|[]|]; cbn; try done. rewrite Hq. destruct (rows_at tx t w ps) as [|r rs]; cbn; [by intros [= <-]|].
  unfold row_hlc, row_hlcs, get_opt_string. cbn.
  destruct (cell r COLUMN_HLCS_COLUMN); cbn; try done;
    destruct (cell r HLC_TIMESTAMP_COLUMN); cbn; try done; by intros [= <-].
Qed.

Lemma in_row_savepoint_Written (tx : db) f tx' :
  in_row_savepoint tx f = Ok (Written tx') ->
  exists tx1 tx2, same_store tx tx1 /\ f tx1 = Ok (1%nat, tx2) /\ same_store tx2 tx'.
Proof.
  unfold in_row_savepoint. intros ([n tx1] & Hs%map_err_Ok & Hf)%bind_Ok. cbn [snd] in Hf.
  destruct (f tx1) as [[[|[|k]] tx2]| |] eqn:Hw; try done.
  apply bind_Ok in Hf as ([m tx3] & Hr%map_err_Ok & [= <-]). exists tx1, tx2.
  split; [exact (store_keeps _ _ _ _ _ Hs)|]. split; [done|exact (store_keeps _ _ _ _ _ Hr)].
Qed.

(** An attempt that a constraint refused and that is rolled back has done nothing. *)
Lemma in_row_savepoint_back (tx : db) f e tx' tx'' :
  in_row_savepoint tx f = Ok (SqlFailure e tx') -> classify_insert_constraint e <> None ->
  rollback_row_savepoint tx' = Ok tx'' -> same_store tx tx''.
Proof.
  unfold in_row_savepoint. intros ([n tx1] & Hs%map_err_Ok & Hf)%bind_Ok Hc ([j tx3] & Hb%map_err_Ok & [= <-])%bind_Ok.
  cbn [snd] in *. destruct (f tx1) as [[[|[|k]] tx2]|src|] eqn:Hw; try done.
  - injection Hf as <- <-. done.
  - by apply bind_Ok in Hf as (o & _ & ?).
  - injection Hf as <- <-. done.
  - injection Hf as <- <-. by eapply store_back.
Qed.

Lemma write_result_Ok sql (o : res DatabaseError (WriteOutcome db)) w : write_result sql o = Ok w -> o = Ok w.
Proof. unfold write_result. intros ([tx|e tx] & -> & Hw)%bind_Ok; [by rewrite Hw|]. case_bool_decide; [done|by rewrite Hw]. Qed.

(** Staged columns are data columns of the table, each once. *)
Record staged_ok (schema : list ColumnInfo) (staged : list StagedColumn) : Prop := {
  so_nodup : NoDup (map sc_column staged);
  so_data : forall s, s ∈ staged -> is_meta_column (sc_column s) = false /\ sc_column s ∉ pk_names schema /\
    sc_column s ∈ map ci_name schema;
}.

Lemma written_columns schema staged ws :
  managed schema -> staged_ok schema staged -> (ws = true -> has_column COLUMN_SIGS_COLUMN schema = true) ->
  NoDup (map sc_column staged ++ meta_written ws) /\
  forall c, c ∈ map sc_column staged ++ meta_written ws -> c ∈ map ci_name schema.
Proof.
  intros Hman [Hnd Hst] Hws. split.
  - apply NoDup_app. split; [done|]. split; [|apply meta_written_nodup].
    intros c (s & -> & Hs)%list_elem_of_fmap Hin%meta_written_meta. apply Hst in Hs as [? _]. congruence.
  - intros c [(s & -> & Hs)%list_elem_of_fmap|Hc]%elem_of_app; [by apply Hst|]. by eapply meta_written_columns.
Qed.

(** The statement behind a successful write, and what it leaves of other tables. *)
Lemma write_update_others (tx : db) t' staged hj rh w' pkv has_sigs tx' :
  write_update tx t' staged hj rh w' pkv has_sigs = Ok (Written tx') ->
  same_schema tx tx' /\ forall t w ps, eq_ignore_ascii_case t' t = false -> rows_at tx' t w ps = rows_at tx t w ps.
Proof.
  unfold write_update. cbv zeta. intros (sigs & _ & Hwr)%bind_Ok. apply bind_Ok in Hwr as (ps' & _ & Hwr).
  apply write_result_Ok, in_row_savepoint_Written in Hwr as (tx1 & tx2 & [Hs1 Hr1] & Hex & [Hs2 Hr2]).
  split. { etrans; [exact Hs1|]. etrans; [exact (store_keeps _ _ _ _ _ Hex)|exact Hs2]. }
  intros t w ps Hne. by rewrite Hr2, (store_others _ _ _ _ _ Hex) by done.
Qed.

Lemma write_insert_others (tx : db) t' schema row_pks staged hj rh has_sigs tx' :
  write_insert tx t' schema row_pks staged hj rh has_sigs = Ok (Written tx') ->
  same_schema tx tx' /\ forall t w ps, eq_ignore_ascii_case t' t = false -> rows_at tx' t w ps = rows_at tx t w ps.
Proof.
  unfold write_insert. cbv zeta. intros (pkj & _ & Hwr)%bind_Ok. apply bind_Ok in Hwr as (pks & _ & Hwr).
  apply write_result_Ok, in_row_savepoint_Written in Hwr as (tx1 & tx2 & [Hs1 Hr1] & Hex & [Hs2 Hr2]).
  split. { etrans; [exact Hs1|]. etrans; [exact (store_keeps _ _ _ _ _ Hex)|exact Hs2]. }
  intros t w ps Hne. by rewrite Hr2, (store_others _ _ _ _ _ Hex) by done.
Qed.

Lemma pk_names_columns schema k : k ∈ pk_names schema -> k ∈ map ci_name schema.
Proof. intros (c & -> & [_ Hc]%list_elem_of_filter)%list_elem_of_fmap. by apply list_elem_of_fmap_2. Qed.

(** A successful UPDATE: the rows its clause selects get the staged columns and
    the two HLCs, the others stay. *)
Lemma write_update_effect (tx : db) t schema staged hj rh w' pkv has_sigs tx' ps' :
  write_update tx t staged hj rh w' pkv has_sigs = Ok (Written tx') ->
  get_table_schema tx t = Ok schema -> managed schema ->
  (has_sigs = true -> has_column COLUMN_SIGS_COLUMN schema = true) ->
  convert_params pkv = Ok ps' -> staged_ok schema staged ->
  exists f, (forall r, written_row schema staged hj rh r (f r)) /\ forall w ps,
    (forall a, a ∈ w -> is_meta_column (watom_col a) = false /\ watom_col a ∈ pk_names schema) ->
    Permutation (rows_at tx' t w ps) (map (fun r => if row_sel tx t w' ps' r then f r else r) (rows_at tx t w ps)).
Proof.
  unfold write_update. cbv zeta. intros Hwr Hsch Hman Hsc Hps Hst. rewrite Hps in Hwr.
  apply bind_Ok in Hwr as (sigs & Hsigs & Hwr). cbn [mbind res_bind] in Hwr. apply write_result_Ok in Hwr.
  apply in_row_savepoint_Written in Hwr as (tx1 & tx2 & [Hs1 Hr1] & Hex & [Hs2 Hr2]).
  set (ws := has_sigs && _) in *. change ([COLUMN_HLCS_COLUMN; HLC_TIMESTAMP_COLUMN] ++ _) with (meta_written ws) in Hex.
  assert (length sigs = length (if ws then [COLUMN_SIGS_COLUMN] else [])) as Hl.
  { destruct ws; [apply bind_Ok in Hsigs as (j & _ & [= <-])|injection Hsigs as <-]; done. }
  rewrite !app_assoc, <- (app_assoc _ _ sigs) in Hex.
  destruct (written_columns schema staged ws Hman Hst) as [Hnd Hin]; [unfold ws; intros [? _]%andb_true_iff; auto|].
  eexists. split; [intros r; apply (stored_cells_written schema staged hj rh ws sigs r Hman (so_nodup _ _ Hst) Hl)|].
  intros w ps Hw. rewrite Hr2, <- Hr1. eapply (store_updates _ _ schema) in Hex as Heq;
    [|rewrite (proj1 (Hs1 t)); by apply get_schema_info|exact Hin|exact Hnd| |].
  - rewrite Heq. apply Permutation_refl'. apply map_ext. intros r. by rewrite (proj2 (Hs1 t)).
  - rewrite !length_app, !length_map. unfold meta_written. rewrite length_app. cbn [length]. lia.
  - intros a Ha. split; [by apply pk_names_columns, Hw|].
    intros [(s & Heqs & Hs)%list_elem_of_fmap|Hm%meta_written_meta]%elem_of_app.
    + apply Hw in Ha as [_ Ha]. rewrite Heqs in Ha. by apply Hst in Hs as (_ & ? & _).
    + apply Hw in Ha as [? _]. congruence.
Qed.

(** A row nobody has written: no HLC anywhere. *)
Definition blank (r : gmap string SqlValue) : Prop := row_hlcs r = [] /\ row_hlc r = EmptyString.

(** A key map that names the key columns by values that are not null. *)
Record key_map (schema : list ColumnInfo) (row_pks : jmap) (w : list watom) (ps : list SqlValue) : Prop := {
  km_sorted : jsorted row_pks;
  km_names : same_names (pk_names schema) (jkeys row_pks) = true;
  km_where : exists pkv, build_pk_where_from_map row_pks = Some (w, pkv) /\ convert_params pkv = Ok ps;
  km_full : (forall a, a ∈ w -> exists k, a = WEq k) /\ SNull ∉ ps;
}.

Lemma jget_sorted m k v : jsorted m -> (k, v) ∈ m -> jget k m = Some v.
Proof.
  unfold jsorted. induction m as [|[k' v'] m IH]; intros Hs Hin; [by apply elem_of_nil in Hin|]. cbn in *.
  apply StronglySorted_inv in Hs as [Hs Hall]. apply elem_of_cons in Hin as [[= -> ->]|Hin]; [by rewrite String.eqb_refl|].
  rewrite Forall_forall in Hall. destruct (String.eqb_spec k' k) as [->|]; [|by apply IH].
  assert (str_lt k k) as Hlt by (apply Hall; by apply (list_elem_of_fmap_2 fst) in Hin).
  unfold str_lt in Hlt. rewrite (proj2 (string_cmp_eq k k) eq_refl) in Hlt. done.
Qed.

(** The key values an INSERT binds are those of the map. *)
Lemma insert_key_values schema row_pks pkj pkp :
  try_map (pk_value row_pks) (pk_names schema) = Ok pkj -> convert_params pkj = Ok pkp ->
  Forall2 (fun k p => exists v, jget k row_pks = Some v /\ json_to_rusqlite_value v = Ok p) (pk_names schema) pkp.
Proof.
  intros Hj%try_map_Ok Hp%try_map_Ok. revert pkp Hp. induction Hj as [|k v ks vs Hv Hj IH]; intros pkp Hp.
  - apply Forall2_nil_inv_l in Hp as ->. constructor.
  - apply Forall2_cons_inv_l in Hp as (p & pkp' & Hp1 & Hp & ->). constructor; [|by apply IH]. exists v. split; [|done].
    unfold pk_value, expect in Hv. by destruct (jget k row_pks); [injection Hv as ->|].
Qed.

Lemma cell_stored_zip schema cols vs d k p : NoDup cols -> (k, p) ∈ zip cols vs ->
  cell (stored_cells schema cols vs d) k = stored_as schema k p.
Proof.
  revert vs d. induction cols as [|c cols IH]; intros [|v vs] d Hnd Hin; try by apply elem_of_nil in Hin.
  apply NoDup_cons in Hnd as [Hc Hnd]. cbn [zip zip_with] in Hin.
  change (stored_cells schema (c :: cols) (v :: vs) d) with (stored_cells schema cols vs (<[c := stored_as schema c v]> d)).
  apply elem_of_cons in Hin as [[= -> ->]|Hin]; [|by apply IH].
  unfold cell. rewrite stored_cells_other by done. by rewrite lookup_insert_eq.
Qed.

Lemma key_held_values schema (r : gmap string SqlValue) m : forall pkv ps,
  (forall a, a ∈ map where_atom m -> exists k, a = WEq k) -> pkv = omap where_value m -> convert_params pkv = Ok ps ->
  SNull ∉ ps -> (forall k v p, (k, v) ∈ m -> json_to_rusqlite_value v = Ok p -> cell r k = stored_as schema k p) ->
  key_held schema (map where_atom m) ps r.
Proof.
  induction m as [|[k v] m IH]; intros pkv ps Hw -> Hps Hn Hc; cbn in Hps.
  - by injection Hps as <-.
  - cbn [map]. destruct (Hw (where_atom (k, v))) as [k' Hk]; [by left|].
    assert (where_atom (k, v) = WEq k /\ where_value (k, v) = Some v) as [-> Hv] by (unfold where_atom, where_value in *; cbn in *; by destruct v).
    change (convert_params (match where_value (k, v) with Some y => y :: omap where_value m | None => omap where_value m end) = Ok ps) in Hps.
    rewrite Hv in Hps. unfold convert_params in Hps. cbn [try_map] in Hps.
    apply bind_Ok in Hps as (p & Hp & Hps). apply bind_Ok in Hps as (ps' & Hps & [= <-]).
    apply not_elem_of_cons in Hn as [Hn Hn']. split; [congruence|]. split; [apply (Hc k v); [by left|done]|].
    eapply (IH _ ps'); [|reflexivity|exact Hps|done|].
    + intros a Ha. apply Hw. by right.
    + intros k1 v1 p1 Hin. apply Hc. by right.
Qed.

Lemma pk_names_nodup schema : NoDup (map ci_name schema) -> NoDup (pk_names schema).
Proof. intros Hnd. eapply sublist_NoDup; [exact Hnd|]. apply fmap_sublist, sublist_filter. Qed.

Lemma inserted_key schema row_pks w ps pkp (r d : gmap string SqlValue) :
  key_map schema row_pks w ps -> NoDup (pk_names schema) ->
  Forall2 (fun k p => exists v, jget k row_pks = Some v /\ json_to_rusqlite_value v = Ok p) (pk_names schema) pkp ->
  (forall k, k ∈ pk_names schema -> cell r k = cell (stored_cells schema (pk_names schema) pkp d) k) ->
  key_held schema w ps r /\ SNull ∉ pkp.
Proof.
  intros [Hsort Hn (pkv & Hb & Hps) [Hw Hnull]] Hnd Hall Hr. apply build_pk_where_Some in Hb as [-> ->].
  assert (forall k v, (k, v) ∈ row_pks -> exists p, (k, p) ∈ zip (pk_names schema) pkp /\ json_to_rusqlite_value v = Ok p) as Hz.
  { intros k v Hin. assert (k ∈ pk_names schema) as Hk by (apply (same_names_elem _ _ k Hn); by apply (list_elem_of_fmap_2 fst) in Hin).
    apply list_elem_of_lookup in Hk as [i Hi]. destruct (Forall2_lookup_l _ _ _ _ _ Hall Hi) as (p & Hp & v' & Hv' & Hpv).
    rewrite (jget_sorted _ _ _ Hsort Hin) in Hv'. injection Hv' as <-. exists p. split; [|done].
    apply list_elem_of_lookup. exists i. apply lookup_zip_with_Some. eauto. }
  split.
  - eapply key_held_values; [exact Hw|reflexivity|exact Hps|exact Hnull|].
    intros k v p Hin Hp. destruct (Hz k v Hin) as (p' & Hzip & Hp'). rewrite Hp in Hp'. injection Hp' as <-.
    rewrite Hr by (by apply elem_of_zip_l in Hzip). by apply cell_stored_zip.
  - intros (i & Hi)%list_elem_of_lookup. destruct (Forall2_lookup_r _ _ _ _ _ Hall Hi) as (k & Hk & v & Hv & Hp).
    apply Hnull. apply jget_In, list_elem_of_In in Hv.
    assert (v ∈ omap where_value row_pks) as Hin.
    { apply list_elem_of_omap. exists (k, v). split; [done|].
      destruct (Hw (where_atom (k, v))) as [k' Hk']; [by apply list_elem_of_fmap_2|].
      unfold where_atom, where_value in *. cbn in *. by destruct v. }
    apply try_map_Ok in Hps. apply list_elem_of_lookup in Hin as [j Hj].
    destruct (Forall2_lookup_l _ _ _ _ _ Hps Hj) as (p & Hpj & Hp'). rewrite Hp in Hp'. injection Hp' as <-.
    by eapply list_elem_of_lookup_2.
Qed.

(** A successful INSERT adds one row: the key of the map, the staged columns and
    the two HLCs over the defaults. *)
Lemma write_insert_effect (tx : db) t schema row_pks staged hj rh tx' w' ps' :
  write_insert tx t schema row_pks staged hj rh (has_column COLUMN_SIGS_COLUMN schema) = Ok (Written tx') ->
  get_table_schema tx t = Ok schema -> managed schema -> (forall k, k ∈ pk_names schema -> is_meta_column k = false) ->
  key_map schema row_pks w' ps' -> staged_ok schema staged ->
  exists r0 r1, blank r0 /\ key_held schema w' ps' r1 /\ written_row schema staged hj rh r0 r1 /\ forall w ps,
    Permutation (rows_at tx' t w ps) (rows_at tx t w ps ++ (if row_sel tx t w ps r1 then [r1] else [])).
Proof.
  unfold write_insert. cbv zeta. set (ws := has_column COLUMN_SIGS_COLUMN schema).
  intros (pkj & Hj & Hwr)%bind_Ok Hsch Hman Hmeta Hkm Hst. apply bind_Ok in Hwr as (pkp & Hpkp & Hwr).
  apply write_result_Ok, in_row_savepoint_Written in Hwr as (tx1 & tx2 & [Hs1 Hr1] & Hex & [Hs2 Hr2]).
  change ([COLUMN_HLCS_COLUMN; HLC_TIMESTAMP_COLUMN] ++ (if ws then _ else _)) with (meta_written ws) in Hex.
  set (sigs := if ws then [SText (build_sigs_json_for_insert staged)] else []) in *.
  assert (length sigs = length (if ws then [COLUMN_SIGS_COLUMN] else [])) as Hl by (unfold sigs; by destruct ws).
  pose proof (insert_key_values _ _ _ _ Hj Hpkp) as Hkv. pose proof (Forall2_length _ _ _ Hkv) as Hlen.
  pose proof (pk_names_nodup _ (man_names _ Hman)) as Hpk.
  destruct (written_columns schema staged ws Hman Hst) as [Hnd Hin]; [done|].
  assert (forall k, k ∈ pk_names schema -> k ∉ map sc_column staged ++ meta_written ws) as Hdis.
  { intros k Hk [(s & -> & Hs)%list_elem_of_fmap|Hm%meta_written_meta]%elem_of_app;
      [by apply Hst in Hs as (_ & ? & _)|]. apply Hmeta in Hk. congruence. }
  eapply (store_inserts _ _ schema) in Hex as (d & Hex); [|rewrite (proj1 (Hs1 t)); by apply get_schema_info| | | |].
  - rewrite stored_cells_app in Hex by done. set (rk := stored_cells schema (pk_names schema) pkp d) in *.
    set (r1 := stored_cells schema _ _ rk) in *.
    assert (forall k, k ∈ pk_names schema -> cell r1 k = cell rk k) as Hkc
      by (intros k Hk; unfold cell, r1; rewrite stored_cells_other by (by apply Hdis); done).
    destruct (inserted_key schema row_pks w' ps' pkp r1 d Hkm Hpk Hkv Hkc) as [Hheld _].
    exists (delete HLC_TIMESTAMP_COLUMN (delete COLUMN_HLCS_COLUMN rk)), r1. split; [|split; [done|split]].
    + unfold blank, row_hlcs, row_hlc, cell. by rewrite lookup_delete_eq, lookup_delete_ne, lookup_delete_eq by done.
    + destruct (stored_cells_written schema staged hj rh ws sigs rk Hman (so_nodup _ _ Hst) Hl) as [Hhj Hrh Hd].
      split; [done|done|]. intros c Hc. unfold r1. rewrite Hd by done. destruct (find_staged c staged); [done|].
      rewrite !lookup_delete_ne; [done| |]; intros <-; done.
    + intros w ps. rewrite Hr2, Hex, Hr1. by rewrite (proj2 (Hs1 t)).
  - intros c [Hc|Hc]%elem_of_app; [by apply pk_names_columns|by apply Hin].
  - apply NoDup_app. done.
  - rewrite !length_app, <- Hlen, !length_map. unfold meta_written. rewrite length_app. cbn [length]. lia.
  - intros col v Hz Hcol ->. destruct (inserted_key schema row_pks w' ps' pkp
      (stored_cells schema (pk_names schema) pkp ∅) ∅ Hkm Hpk Hkv (fun _ _ => eq_refl)) as [_ Hn]. apply Hn.
    rewrite zip_with_app in Hz by done. apply elem_of_app in Hz as [Hz|Hz]; [by apply elem_of_zip_r in Hz|].
    apply elem_of_zip_l in Hz. by apply Hdis in Hcol.
Qed.

End store.

(** ** The in-memory store *)

Lemma mem_set_cells cols : forall vs ps r,
  length vs = length cols -> mem_set cols (vs ++ ps) r = set_cells cols vs r.
Proof.
  unfold set_cells. induction cols as [|c cols IH]; intros [|v vs] ps r Hl; cbn in Hl; try done.
  cbn. by rewrite IH by lia.
Qed.

Lemma mem_match_cells cols vs w : forall ps r,
  (forall a, a ∈ w -> watom_col a ∉ cols) -> mem_match w ps (set_cells cols vs r) = mem_match w ps r.
Proof.
  induction w as [|a w IH]; intros ps r Hw; [done|].
  assert (mem_get (set_cells cols vs r) (watom_col a) = mem_get r (watom_col a)) as Ha.
  { unfold mem_get. rewrite set_cells_other; [done|]. apply Hw. by left. }
  assert (forall b, b ∈ w -> watom_col b ∉ cols) as Hw' by (intros b Hb; apply Hw; by right).
  destruct a as [c|c]; cbn in *; rewrite Ha; [destruct ps as [|p ps]; [done|]|]; by rewrite IH.
Qed.

#[export] Instance mini_affinity : Affinity := { affinity _ v := v }.
Lemma mini_stored_as schema col v : stored_as schema col v = v.
Proof. unfold stored_as. by destruct (List.find _ schema). Qed.
Lemma mini_stored_cells schema cols : forall vs r, stored_cells schema cols vs r = set_cells cols vs r.
Proof.
  unfold stored_cells, set_cells. induction cols as [|c cols IH]; intros [|v vs] r; [done..|].
  cbn. by rewrite mini_stored_as, IH.
Qed.

Lemma filter_map_same {A} (f : A -> A) (Q : A -> bool) l :
  (forall x, Q (f x) = Q x) -> List.filter Q (map f l) = map f (List.filter Q l).
Proof. intros Hf. induction l as [|x l IH]; [done|]. cbn. rewrite Hf. destruct (Q x); cbn; by rewrite IH. Qed.

Lemma filter_comm {A} (P Q : A -> bool) l : List.filter P (List.filter Q l) = List.filter Q (List.filter P l).
Proof.
  induction l as [|x l IH]; [done|]. cbn. destruct (Q x) eqn:HQ, (P x) eqn:HP; cbn; rewrite ?HQ, ?HP, ?IH; done.
Qed.

Definition mem_rows (m : Mem) (t : string) : list (gmap string SqlValue) := default [] (mt_rows <$> m_tables m !! t).
Lemma mem_rows_other m (t t' : string) mt : t' <> t -> mem_rows (set_tables m (<[t' := mt]> (m_tables m))) t = mem_rows m t.
Proof. intros Hne. unfold mem_rows. cbn. by rewrite lookup_insert_ne. Qed.
Lemma mem_rows_set m t mt : mem_rows (set_tables m (<[t := mt]> (m_tables m))) t = mt_rows mt.
Proof. unfold mem_rows. cbn. by rewrite lookup_insert_eq. Qed.
Lemma mem_table_rows m t mt : mem_table m t = Ok mt -> mem_rows m t = mt_rows mt.
Proof. unfold mem_table, mem_rows. destruct (m_tables m !! t); [|done]. by intros [= ->]. Qed.
Lemma other_case (t t' : string) : eq_ignore_ascii_case t' t = false -> t' <> t.
Proof. intros He ->. unfold eq_ignore_ascii_case in He. by rewrite String.eqb_refl in He. Qed.

Lemma mem_key_held schema w : forall ps r, key_held schema w ps r -> mem_match w ps r = true.
Proof.
  induction w as [|[col|col] w IH]; intros [|p ps] r Hk; try done. cbn in *. destruct Hk as (Hp & Hc & Hk).
  rewrite mini_stored_as in Hc. unfold cell in Hc. unfold mem_get. rewrite Hc.
  rewrite bool_decide_eq_true_2, bool_decide_eq_false_2 by done. by apply IH.
Qed.

(** A statement that replaces the rows of one table. *)
Lemma mem_schema_set m t mt rows : mem_table m t = Ok mt ->
  forall u, table_info (set_tables m (<[t := mkMemTable (mt_schema mt) rows]> (m_tables m))) u = table_info m u.
Proof.
  unfold mem_table. intros Ht u. cbn. destruct (m_tables m !! t) as [mt'|] eqn:Hm; [|done]. injection Ht as ->.
  destruct (decide (t = u)) as [->|Hne]; [by rewrite lookup_insert_eq, Hm|by rewrite lookup_insert_ne].
Qed.

#[export] Instance mini_store : RowStore Mem.
Proof.
  refine {| rows_at := fun m t w ps => List.filter (mem_match w ps) (mem_rows m t);
            row_sel := fun _ _ w ps r => mem_match w ps r |}.
  - intros c t w ps cols. cbn. destruct (mem_table c t) as [mt|e|] eqn:Ht; cbn; [|unfold mem_table in Ht; destruct (m_tables c !! t); [done|by injection Ht as <-]|done].
    by rewrite (mem_table_rows _ _ _ Ht).
  - intros c. cbn. destruct (mem_table c DELETED_ROWS_TABLE) as [mt|e|] eqn:Ht; cbn; [|done..].
    rewrite (mem_table_rows _ _ _ Ht). f_equal. symmetry. by apply forallb_filter_id, forallb_forall.
  - intros c id. cbn. destruct (mem_table c DELETED_ROWS_TABLE) as [mt|e|] eqn:Ht; cbn; [|unfold mem_table in Ht; destruct (m_tables c !! _); [done|by injection Ht as <-]|done].
    by rewrite (mem_table_rows _ _ _ Ht).
  - intros c t w ps r Hr%list_elem_of_In. by apply filter_In in Hr as [_ Hr].
  - intros c t w ps r [Hr _]%list_elem_of_In%filter_In. by apply list_elem_of_In, filter_In.
  - intros c t schema w ps r _. apply mem_key_held.
  - intros c t schema cols w' vs ps' c'. cbn. intros (mt & Ht & [= _ <-])%bind_Ok _ _ _ Hl w ps Hw'.
    assert (forall a, a ∈ w -> watom_col a ∉ cols) as Hw by (intros a Ha; by apply Hw').
    rewrite <- Hl, drop_app_length, mem_rows_set, (mem_table_rows _ _ _ Ht). cbn [mt_rows].
    rewrite filter_map_same; [|intros x; destruct (mem_match w' ps' x); [|done]; rewrite mem_set_cells by done; by apply mem_match_cells].
    rewrite (map_ext _ (fun r => if mem_match w' ps' r then stored_cells schema cols vs r else r)); [reflexivity|].
    intros r. destruct (mem_match w' ps' r); [|done]. by rewrite mini_stored_cells, mem_set_cells.
  - intros c t schema cols vs c'. cbn. intros (mt & Ht & Hx)%bind_Ok _ _ _ Hl _. destruct (existsb _ _); [done|].
    injection Hx as <-. exists ∅. intros w ps.
    rewrite mem_rows_set, (mem_table_rows _ _ _ Ht). cbn [mt_rows]. rewrite List.filter_app. cbn [List.filter].
    assert (mem_set cols vs ∅ = set_cells cols vs ∅) as -> by (rewrite <- (app_nil_r vs) at 1; by apply mem_set_cells).
    by rewrite mini_stored_cells.
  - intros c t w' ps' n c'. cbn. intros (mt & Ht & [= _ <-])%bind_Ok w ps.
    rewrite mem_rows_set, (mem_table_rows _ _ _ Ht). cbn [mt_rows]. by rewrite filter_comm.
  - intros c st ps' n c'. destruct st; try done; cbn; intros (mt & Ht & Hx)%bind_Ok; [|destruct (existsb _ _); [done|]|];
      injection Hx as _ <-; intros u wu psu Hne%other_case; by rewrite mem_rows_other.
  - intros c st ps n c'. destruct st; try done; cbn; try (by intros [= _ <-]).
    + intros (mt & Ht & [= _ <-])%bind_Ok u. split; [|done]. by apply (mem_schema_set c _ _ _ Ht).
    + intros (mt & Ht & Hx)%bind_Ok u. destruct (existsb _ _); [done|]. injection Hx as _ <-. split; [|done].
      by apply (mem_schema_set c _ _ _ Ht).
    + intros (mt & Ht & [= _ <-])%bind_Ok u. split; [|done]. by apply (mem_schema_set c _ _ _ Ht).
    + destruct ps as [|[| | |v|] [|]]; try done. by intros [= _ <-].
  - by intros c name n c1 m c2 [= _ <-] [= _ <-].
Defined.
