(* ===== verification/Merge.v ===== *)
(** * One row group against the store (src/crdt/apply/engine.rs)

    The row loop of [Engine] on the rows of [Store]: the columns of a row are
    last-writer-wins registers, and merging a row group is writing the accepted
    changes to them - into the row that is there, or into one it creates. *)

From S2P Require Import Prelude Utf8 Hashing Names Json Sql Mini Hlc Lww Trigger Report Errors Value Scanner Preimage Policy Preflight Grouping Row Write DeleteProp Engine EngineLemmas Apply Store.

(** ** A row group refines the registers of its row *)

Section rows.
Context `{Unicode} `{Serde} `{!SerdeLaws} `{Uhlc} {db : Type} `{RowStore db} {P : Type}
  (policy : ApplyPolicy db P).

(** The hooks of the policy write no rows. *)
Record leaves_store : Prop := {
  ls_begin : forall p tx changes p' tx', begin policy p tx changes = Ok (p', tx') -> same_store tx tx';
  ls_prepare : forall p tx row d p' tx', prepare_row policy p tx row = Ok (d, p', tx') -> same_store tx tx';
  ls_after : forall p tx rw p' tx', after_row policy p tx rw = Ok (p', tx') -> same_store tx tx';
  ls_constraint : forall p tx rw e d p' tx', on_insert_constraint policy p tx rw e = Ok (d, p', tx') -> same_store tx tx';
  ls_before_commit : forall p tx changes o p' tx', before_commit policy p tx changes o = Ok (p', tx') -> same_store tx tx';
}.

(** The key map of a row group singles out a row of a managed table. *)
Record row_address (tx : db) (table row_pks_str : string) (schema : list ColumnInfo)
    (w : list watom) (ps : list SqlValue) : Prop := {
  addr_schema : get_table_schema tx table = Ok schema;
  addr_managed : managed schema;
  addr_keys : pk_names schema <> [] /\ forall k, k ∈ pk_names schema -> is_meta_column k = false;
  addr_where : exists row_pks, from_str_map row_pks_str = Some row_pks /\ key_map schema row_pks w ps;
}.

(** A write as the column stores it. *)
Definition as_stored (schema : list ColumnInfo) (col : string) (w : string * SqlValue) : string * SqlValue :=
  (fst w, stored_as schema col (snd w)).

(** The row HLC is at least as new as the HLC of every column: a scanner that
    looks at rows newer than a cursor only misses no newer column. *)
Definition row_hlc_covers (r : gmap string SqlValue) : Prop :=
  forall col, cmp_le compare_hlc_strings (stored_hlc (row_hlcs r) col) (row_hlc r).

(** The row HLC is the former one, or that of a column one of the candidates is for. *)
Definition row_hlc_from (r0 r1 : gmap string SqlValue) (cands : list (ColumnDecision * IndexedChange)) : Prop :=
  row_hlc r1 = row_hlc r0 \/
  exists e, e ∈ cands /\ row_hlc r1 = stored_hlc (row_hlcs r1) (column_name (ic_change (snd e))).

(** What merging [group] did to the row [r0]. *)
Definition merged (schema : list ColumnInfo) (r0 r1 : gmap string SqlValue)
    (cands : list (ColumnDecision * IndexedChange)) : Prop :=
  row_wf r1 /\ (cmp_le compare_hlc_strings (row_hlc r0) (row_hlc r1) /\ (row_hlc_covers r0 -> row_hlc_covers r1) /\
    row_hlc_from r0 r1 cands) /\
  forall col, is_meta_column col = false ->
    state_register (row_hlcs r1, r1) col
      (lww_merge fst (mkReg (stored_hlc (row_hlcs r0) col) None)
         (map (as_stored schema col) (column_writes col cands))) (r0 !! col).

Lemma as_stored_merge schema col h ws :
  lww_merge fst (mkReg h None) (map (as_stored schema col) ws) =
    reg_map (as_stored schema col) (lww_merge fst (mkReg h None) ws).
Proof. exact (lww_merge_map (as_stored schema col) fst fst ws (fun _ => eq_refl) (mkReg h None)). Qed.

Lemma merged_same schema r cands :
  row_wf r -> (forall col, lww_merge fst (mkReg (stored_hlc (row_hlcs r) col) None) (column_writes col cands) =
                 mkReg (stored_hlc (row_hlcs r) col) None) -> merged schema r r cands.
Proof.
  intros Hwf Hm. split; [done|]. split; [split; [apply cmp_le_refl, _|split; [done|by left]]|].
  intros col _. by rewrite as_stored_merge, Hm.
Qed.

(** What a selection holds of a column is the merge of the column's writes. *)
Lemma selection_merge hlcs cands skip rep sel col :
  selection_inv hlcs cands skip rep sel ->
  lww_merge fst (mkReg (stored_hlc hlcs col) None) (column_writes col cands) =
    match find_staged col (sel_staged sel) with
    | Some s => mkReg (sc_hlc s) (Some (written s))
    | None => mkReg (stored_hlc hlcs col) None
    end.
Proof.
  intros [_ Hreg _]. specialize (Hreg col). unfold column_register in Hreg. unfold column_writes.
  pose proof (lww_merge_map written sc_hlc fst (omap (proposed col) cands) (fun _ => eq_refl)
               (mkReg (stored_hlc hlcs col) None)) as Hmap.
  rewrite <- Hreg in Hmap. unfold reg_map in Hmap. cbn [reg_hlc reg_value fmap option_fmap option_map] in Hmap.
  rewrite Hmap. by destruct (find_staged col (sel_staged sel)).
Qed.

Lemma max_hlc_elem staged m : max_hlc staged = Ok m -> exists s, s ∈ staged /\ sc_hlc s = m.
Proof.
  unfold max_hlc, expect. destruct (hlc_max _) as [m'|] eqn:Hm; [|done]. intros [= ->].
  apply (max_by_spec compare_hlc_strings) in Hm as [Hin _]. apply in_map_iff in Hin as (s & Hs & Hin%list_elem_of_In). by exists s.
Qed.

Lemma max_hlc_covers staged m s : max_hlc staged = Ok m -> s ∈ staged -> cmp_le compare_hlc_strings (sc_hlc s) m.
Proof.
  unfold max_hlc, expect. destruct (hlc_max _) as [m'|] eqn:Hm; [|done]. intros [= ->] Hs.
  apply (max_by_spec compare_hlc_strings) in Hm as [_ Hall]. apply Hall. by apply in_map, list_elem_of_In.
Qed.

Lemma written_merged schema staged rh r0 r1 cands skip rep sel :
  written_row schema staged (json_to_string (JObject (column_hlcs_after (row_hlcs r0) staged))) rh r0 r1 ->
  row_wf r0 -> cmp_le compare_hlc_strings (row_hlc r0) rh ->
  (forall s, s ∈ staged -> cmp_le compare_hlc_strings (sc_hlc s) rh) ->
  (rh = row_hlc r0 \/ exists s, s ∈ staged /\ sc_hlc s = rh) ->
  selection_inv (row_hlcs r0) cands skip rep sel -> sel_staged sel = staged -> merged schema r0 r1 cands.
Proof.
  intros [Hj Hrh Hval] [Hsort Hstr] Hle Hst Hfrom Hinv Hsel.
  destruct (column_hlcs_after_wf staged _ Hsort Hstr) as [Hsort' Hstr'].
  assert (row_hlcs r1 = column_hlcs_after (row_hlcs r0) staged) as Hh.
  { unfold row_hlcs at 1. rewrite Hj. unfold from_str_map. by rewrite serde_string_map. }
  assert (row_hlc r1 = rh) as Hr1 by (unfold row_hlc; by rewrite Hrh).
  pose proof (inv_nodup _ _ _ _ _ Hinv) as Hnd. rewrite Hsel in Hnd.
  split; [by unfold row_wf; rewrite Hh|]. split; [split; [by rewrite Hr1|split]|].
  { intros Hcov col. rewrite Hr1, Hh, column_hlcs_after_get by done.
    destruct (find_staged col staged) as [s|] eqn:Hf; [apply Hst; by apply find_staged_Some in Hf as [? _]|].
    eapply cmp_le_trans; [apply _|apply Hcov|done]. }
  { destruct Hfrom as [->|(s & Hs & <-)]; [by left|right]. rewrite <- Hsel in Hs.
    destruct (staged_from _ _ _ _ _ s Hinv Hs) as [(c & Hc & Hsc) _]. exists c. split; [done|]. rewrite Hr1, Hh, Hsc, column_hlcs_after_get by done.
    rewrite Hsel in Hs. cbn [ic_change]. change (column_name (sc_change s)) with (sc_column s). by rewrite (find_staged_unique _ _ Hnd Hs). }
  intros col Hcol. rewrite as_stored_merge, (selection_merge _ _ _ _ _ col Hinv), Hsel, Hh.
  unfold state_register. cbn [fst snd]. rewrite column_hlcs_after_get by done. rewrite Hval by done.
  by destruct (find_staged col staged).
Qed.

Lemma eligible_column col ex pks :
  classify_eligibility col (list_to_set ex) (list_to_set pks) = None ->
  is_meta_column col = false /\ col ∉ pks /\ col ∈ ex.
Proof.
  unfold classify_eligibility. rewrite (bool_decide_ext _ _ (elem_of_list_to_set (C := gset string) col ex)).
  case_bool_decide; cbn [negb]; [|done].
  change (String.eqb col HLC_TIMESTAMP_COLUMN || String.eqb col COLUMN_HLCS_COLUMN ||
          String.eqb col COLUMN_SIGS_COLUMN) with (is_meta_column col).
  rewrite (bool_decide_ext _ _ (elem_of_list_to_set (C := gset string) col pks)).
  destruct (is_meta_column col); [done|]. case_bool_decide; [done|]. done.
Qed.

(** The selection stages eligible columns. *)
Lemma selection_staged_ok schema group ds hlcs skip rep sel :
  selection_inv hlcs (decided (Columns ds) (eligible_of schema group)) skip rep sel ->
  staged_ok schema (sel_staged sel).
Proof.
  intros Hinv. split; [apply (inv_nodup _ _ _ _ _ Hinv)|]. intros s Hs.
  destruct (staged_from _ _ _ _ _ s Hinv Hs) as [([d ic] & Hc & Hsc) _]. cbn [snd] in Hsc. subst ic.
  apply elem_of_zip_r in Hc. by apply list_elem_of_filter in Hc as [Hc%eligible_column _].
Qed.

(** The statement a row's staged columns are written with. *)
Definition row_write (tx : db) (table : string) (schema : list ColumnInfo) (row_pks : jmap) (w : list watom)
    (pkv : list json) (existing : option (string * jmap)) (staged : list StagedColumn) (row_max : string)
    : res DatabaseError (WriteOutcome db) :=
  let hlcs_json m := json_to_string (JObject (column_hlcs_after m staged)) in
  let has_sigs := has_column COLUMN_SIGS_COLUMN schema in
  match existing with
  | Some (h, m) => write_update tx table staged (hlcs_json m) (if hlc_is_newer h row_max then h else row_max) w pkv has_sigs
  | None => write_insert tx table schema row_pks staged (hlcs_json []) row_max has_sigs
  end.

Context (Hpolicy : leaves_store).

(** Why the INSERT of an absent row did not take place: the delete log shadows it, or
    a constraint refused it. *)
Definition insert_refused (table : string) (row_pks : jmap) (row_max : string) (shadow : DeleteShadowMap)
    (reason : SkipReason) : Prop :=
  insert_shadowed table row_pks row_max shadow = true \/ constraint_reason reason = true.

(** A row is written, or an absent one is left absent. *)
Lemma write_staged_cases table pks row_pks schema w pkv existing staged row_max shadow st st' :
  write_staged policy table pks row_pks schema w pkv existing staged row_max shadow st = Ok st' ->
  (existing = None /\ same_store (st_tx st) (st_tx st') /\ exists reason,
     insert_refused table row_pks row_max shadow reason /\
     grows (st_outcome st) (st_outcome st') 0 (map (fun i => mkSkipped i reason) (map sc_input_index staged))) \/
  (exists tx2, row_write (st_tx st) table schema row_pks w pkv existing staged row_max = Ok (Written tx2) /\
     (existing = None -> insert_shadowed table row_pks row_max shadow = false) /\
     same_store tx2 (st_tx st') /\ grows (st_outcome st) (st_outcome st') (length staged) []).
Proof.
  unfold write_staged, row_write.
  assert (forall row_max' tx2, finish_row policy table pks row_pks schema (match existing with Some _ => true | None => false end)
      staged row_max' st (Written tx2) = Ok st' ->
    same_store tx2 (st_tx st') /\ grows (st_outcome st) (st_outcome st') (length staged) []) as Hwritten.
  { intros row_max' tx2 Hf. split; [|by apply finish_row_written in Hf as [? _]]. cbn [finish_row] in Hf.
    apply bind_Ok in Hf as ([p tx3] & Ha & Hf). apply bind_Ok in Hf as (n & _ & [= <-]). by apply (ls_after Hpolicy) in Ha. }
  destruct existing as [[h m]|]; cbn [default from_option id negb andb].
  - intros (o & Ho%map_err_Ok & Hf)%bind_Ok. right. destruct o as [tx2|e tx2]; [|done]. exists tx2. split; [done|]. split; [done|].
    by eapply Hwritten.
  - destruct (insert_shadowed _ _ _ _) eqn:Hsh.
    { intros [= <-]. left. split; [done|]. split; [done|]. exists ShadowedByDelete. split; [by left|].
      apply skip_staged_grows. auto with haex. }
    intros (o & Ho%map_err_Ok & Hf)%bind_Ok. destruct o as [tx2|e tx2].
    + right. exists tx2. split; [done|]. split; [done|]. by eapply Hwritten.
    + left. split; [done|]. split; [|apply finish_row_refused in Hf as (reason & ? & Hcr & _); exists reason; by split; [right|]].
      cbn [finish_row negb] in Hf. destruct (classify_insert_constraint e) as [reason|] eqn:Hc; [|done].
      apply bind_Ok in Hf as (tx3 & Hb%map_err_Ok & Hf). apply bind_Ok in Hf as ([[d p] tx4] & Hi & Hf).
      destruct d; [|done]. injection Hf as <-. apply (ls_constraint Hpolicy) in Hi. etrans; [|exact Hi].
      unfold write_insert in Ho. cbv zeta in Ho.
      apply bind_Ok in Ho as (pkj & _ & Ho). apply bind_Ok in Ho as (pkp & _ & Ho). apply write_result_Ok in Ho.
      eapply in_row_savepoint_back; [exact Ho|by rewrite Hc|exact Hb].
Qed.

(** Every change of the group is in the skip list, but for those in [landed]. *)
Definition skipped_but (landed : list (nat * ColumnChange)) (group : list (nat * ColumnChange)) (o : ApplyOutcome) : Prop :=
  forall e, e ∈ group -> fst e ∈ map fst landed \/ fst e ∈ map sk_input_index (skipped o).

Lemma skipped_but_grows o o' n landed new group :
  grows o o' n new -> Permutation (map fst landed ++ map sk_input_index new) (map fst group) ->
  skipped_but landed group o'.
Proof.
  intros (Hs & _) Hp e He. apply (list_elem_of_fmap_2 fst) in He. change (fst e ∈ map fst group) in He. rewrite <- Hp in He.
  apply elem_of_app in He as [He|He]; [by left|right]. rewrite Hs, map_app. apply elem_of_app. by right.
Qed.

(** What the row loop does for an identified row: nothing to the store, because no
    accepted change wins or because the row stays absent with every change of the
    group skipped; or one write of the winning changes, and every other change of the
    group is skipped. *)
Lemma process_identified_effect table pks row_pks schema w pkv group shadow st st' :
  process_identified_row policy table pks row_pks schema w pkv group shadow st = Ok st' ->
  exists existing input decision p1 tx1,
    fetch_existing_hlcs (st_tx st) table w pkv = Ok existing /\ asks schema group input /\
    prepare_row policy (st_policy st) (st_tx st) input = Ok (decision, p1, tx1) /\
    let hlcs := snd (default (EmptyString, []) existing) in
    let cands := decided decision (eligible_of schema group) in
    (same_store (st_tx st) (st_tx st') /\ skipped_but [] group (st_outcome st') /\
       ((existing = None /\ exists sel skip rep row_max reason, selection_inv hlcs cands skip rep sel /\
           max_hlc (sel_staged sel) = Ok row_max /\ insert_refused table row_pks row_max shadow reason /\
           forall s, s ∈ sel_staged sel -> landed_of s ∈ group /\
             mkSkipped (sc_input_index s) reason ∈ skipped (st_outcome st')) \/
        forall col, lww_merge fst (mkReg (stored_hlc hlcs col) None) (column_writes col cands) =
          mkReg (stored_hlc hlcs col) None)) \/
    (exists sel skip rep row_max tx2, same_store (st_tx st) tx1 /\ staged_ok schema (sel_staged sel) /\
       selection_inv hlcs cands skip rep sel /\ max_hlc (sel_staged sel) = Ok row_max /\
       row_write tx1 table schema row_pks w pkv existing (sel_staged sel) row_max = Ok (Written tx2) /\
       (existing = None -> insert_shadowed table row_pks row_max shadow = false) /\
       same_store tx2 (st_tx st') /\ (forall s, s ∈ sel_staged sel -> landed_of s ∈ group) /\
       skipped_but (map landed_of (sel_staged sel)) group (st_outcome st')).
Proof.
  intros (existing & input & decision & p1 & tx1 & o1 & new1 & Hf & Hask & Hprep & Hg1 & Hp1 & Hr)%process_identified_spec.
  exists existing, input, decision, p1, tx1. split; [done|]. split; [done|]. split; [done|]. cbv zeta.
  pose proof (ls_prepare Hpolicy _ _ _ _ _ _ Hprep) as Hs1. destruct decision as [|ds].
  - destruct Hr as (o2 & -> & Hg2). left. cbn [st_tx st_outcome]. split; [done|]. split.
    + eapply skipped_but_grows; [exact (grows_trans _ _ _ _ _ _ _ Hg1 Hg2)|].
      cbn [map app]. rewrite map_app, map_sk_index, <- Hp1. apply Permutation_app_comm.
    + right. intros col. by rewrite decided_skip_writes.
  - destruct Hr as (sel & Hsnd & Hinv & Hr). destruct (selection_grows _ _ _ _ Hinv) as (new2 & Hg2 & Hp2).
    rewrite Hsnd in Hp2. pose proof (grows_trans _ _ _ 0 0 _ _ Hg1 Hg2) as Hg12.
    assert (Permutation (map sc_input_index (sel_staged sel) ++ map sk_input_index (new1 ++ new2)) (map fst group)) as Hp12
      by (rewrite <- Hp1, <- Hp2, map_app; solve_Permutation).
    destruct Hr as [[Hst ->]|(Hne & row_max & Hm & Hw)].
    + left. cbn [st_tx st_outcome]. split; [done|]. rewrite Hst in Hp12. split; [by eapply skipped_but_grows|].
      right. intros col. by rewrite (selection_merge _ _ _ _ _ col Hinv), Hst.
    + apply write_staged_cases in Hw as [(-> & Hs2 & reason & Hwhy & Hg3)|(tx2 & Hw & Hsh & Hs2 & Hg3)]; cbn [st_tx st_outcome] in *;
        pose proof (grows_trans _ _ _ 0 _ _ _ Hg12 Hg3) as Hg.
      * left. split; [by etrans|]. split.
        { eapply skipped_but_grows; [exact Hg|].
          cbn [map app]. rewrite map_app, map_sk_index, <- Hp12. apply Permutation_app_comm. }
        left. split; [done|]. exists sel, (skipped o1), (report o1), row_max, reason. do 3 (split; [done|]).
        intros s Hs. split; [by eapply staged_in_group|]. destruct Hg3 as (-> & _). apply elem_of_app. right.
        by apply (list_elem_of_fmap_2 (fun i => mkSkipped i reason)), list_elem_of_fmap_2.
      * right. exists sel, (skipped o1), (report o1), row_max, tx2. rewrite app_nil_r in Hg.
        split; [done|]. split; [by eapply selection_staged_ok|]. do 5 (split; [done|]).
        split; [intros s Hs; by eapply staged_in_group|]. eapply skipped_but_grows; [exact Hg|]. by rewrite map_map.
Qed.

Lemma merge_update table schema w pkv ps r0 decision group sel skip rep row_max row_pks tx1 tx2 :
  convert_params pkv = Ok ps -> get_table_schema tx1 table = Ok schema -> managed schema -> staged_ok schema (sel_staged sel) ->
  rows_at tx1 table w ps = [r0] -> row_wf r0 ->
  (forall a, a ∈ w -> is_meta_column (watom_col a) = false /\ watom_col a ∈ pk_names schema) ->
  selection_inv (row_hlcs r0) (decided decision (eligible_of schema group)) skip rep sel ->
  max_hlc (sel_staged sel) = Ok row_max ->
  row_write tx1 table schema row_pks w pkv (Some (row_hlc r0, row_hlcs r0)) (sel_staged sel) row_max = Ok (Written tx2) ->
  exists r1, rows_at tx2 table w ps = [r1] /\ merged schema r0 r1 (decided decision (eligible_of schema group)).
Proof.
  intros Hps Hsch Hman Hst Hr Hwf Hw Hinv Hmax Hwr. cbn [row_write] in Hwr.
  eapply write_update_effect in Hwr as (f & Hf & Heff); [|done..]. exists (f r0). split.
  - specialize (Heff w ps Hw). rewrite Hr in Heff. cbn [map] in Heff.
    rewrite (store_sel tx1 table w ps r0) in Heff by (rewrite Hr; by left). by apply Permutation_singleton_r in Heff.
  - eapply written_merged; [apply Hf|done| | | |exact Hinv|done].
    + destruct (hlc_is_newer (row_hlc r0) row_max) eqn:Hn; [apply cmp_le_refl, _|by apply hlc_not_newer_le].
    + intros s Hs. pose proof (max_hlc_covers _ _ _ Hmax Hs) as Hle.
      destruct (hlc_is_newer (row_hlc r0) row_max) eqn:Hn; [|done].
      eapply cmp_le_trans; [apply _|exact Hle|]. apply hlc_is_newer_Gt in Hn. intros Hg.
      rewrite (cmp_swap compare_hlc_strings), Hg in Hn. done.
    + destruct (hlc_is_newer (row_hlc r0) row_max); [by left|right; by apply max_hlc_elem].
Qed.

Lemma merge_insert table schema row_pks w pkv ps decision group sel skip rep row_max tx1 tx2 :
  get_table_schema tx1 table = Ok schema -> managed schema ->
  (forall k, k ∈ pk_names schema -> is_meta_column k = false) -> key_map schema row_pks w ps ->
  staged_ok schema (sel_staged sel) -> rows_at tx1 table w ps = [] ->
  selection_inv [] (decided decision (eligible_of schema group)) skip rep sel ->
  max_hlc (sel_staged sel) = Ok row_max ->
  row_write tx1 table schema row_pks w pkv None (sel_staged sel) row_max = Ok (Written tx2) ->
  exists r0 r1, blank r0 /\ rows_at tx2 table w ps = [r1] /\
    merged schema r0 r1 (decided decision (eligible_of schema group)).
Proof.
  intros Hsch Hman Hmeta Hkm Hst Hr Hinv Hmax Hwr. cbn [row_write] in Hwr.
  eapply write_insert_effect in Hwr as (r0 & r1 & [Hb Hb'] & Hheld & Hw & Heff); [|done..].
  exists r0, r1. split; [done|]. split.
  - specialize (Heff w ps). rewrite Hr in Heff. cbn [app] in Heff.
    rewrite (store_key tx1 table schema w ps r1) in Heff; [by apply Permutation_singleton_r in Heff|by apply get_schema_info|done].
  - eapply written_merged; [by rewrite Hb|by unfold row_wf; rewrite Hb; split; constructor| | | |by rewrite Hb|done].
    + rewrite Hb'. apply empty_hlc_least.
    + intros s Hs. by eapply max_hlc_covers.
    + right. by apply max_hlc_elem.
Qed.

Lemma blank_covers r : blank r -> row_hlc_covers r.
Proof. intros [Hh Hr] col. rewrite Hh, Hr. apply cmp_le_refl, _. Qed.

(** What becomes of a row, present or absent: a row that is there is merged into;
    one that is not stays absent or is created as the merge into a row nobody has
    written. *)
Definition became (schema : list ColumnInfo) (o0 o1 : option (gmap string SqlValue))
    (cands : list (ColumnDecision * IndexedChange)) : Prop :=
  match o0, o1 with
  | Some r0, Some r1 => merged schema r0 r1 cands
  | None, Some r1 => exists r0, blank r0 /\ merged schema r0 r1 cands
  | None, None => True
  | Some _, None => False
  end.

(** The columns a row holds as the changes in [landed] carried them: their HLC, and
    the value the policy accepted. *)
Definition holds_landed (schema : list ColumnInfo) (r : gmap string SqlValue)
    (cands : list (ColumnDecision * IndexedChange)) (e : nat * ColumnChange) : Prop :=
  exists v sg, (Accept v sg, mkIndexed (fst e) (snd e)) ∈ cands /\
    stored_hlc (row_hlcs r) (column_name (snd e)) = hlc_timestamp (snd e) /\
    r !! column_name (snd e) = Some (stored_as schema (column_name (snd e)) v).

Lemma merged_landed schema r0 r1 decision group hlcs skip rep sel s :
  merged schema r0 r1 (decided decision (eligible_of schema group)) -> row_hlcs r0 = hlcs ->
  staged_ok schema (sel_staged sel) ->
  selection_inv hlcs (decided decision (eligible_of schema group)) skip rep sel -> s ∈ sel_staged sel ->
  holds_landed schema r1 (decided decision (eligible_of schema group)) (landed_of s).
Proof.
  intros (_ & _ & Hm) <- [Hnd Hok] Hinv Hs. destruct (Hok s Hs) as (Hmeta & _ & _).
  specialize (Hm (sc_column s) Hmeta).
  rewrite as_stored_merge, (selection_merge _ _ _ _ _ (sc_column s) Hinv), (find_staged_unique _ _ Hnd Hs) in Hm.
  destruct Hm as [Hh Hv]. cbn in Hh, Hv. destruct (staged_accepted _ _ _ _ _ s Hinv Hs) as [Hacc _].
  exists (sc_value s), (sc_signature s). split; [exact Hacc|]. by split.
Qed.

(** An address names key columns, and behind it a row group is an identified
    row. *)
Lemma row_address_columns (tx : db) table pks schema w ps : row_address tx table pks schema w ps ->
  forall a, a ∈ w -> is_meta_column (watom_col a) = false /\ watom_col a ∈ pk_names schema.
Proof.
  intros [_ _ [_ Hmeta] (row_pks & _ & [_ Hsame (pkv & Hw & _) _])] a Ha.
  apply build_pk_where_Some in Hw as [-> _]. apply list_elem_of_fmap in Ha as ([k' v] & -> & Hin).
  assert (watom_col (where_atom (k', v)) = k') as -> by (unfold where_atom; cbn; by destruct v).
  assert (k' ∈ pk_names schema) as Hk; [|by split; [apply Hmeta|]].
  apply (same_names_elem _ _ k' Hsame). by apply (list_elem_of_fmap_2 fst) in Hin.
Qed.

Lemma row_address_same (c c' : db) t pks schema w ps :
  same_schema c c' -> row_address c t pks schema w ps -> row_address c' t pks schema w ps.
Proof. intros Hs [Ha ? ? ?]. split; [by rewrite (get_schema_same _ _ _ Hs)|done..]. Qed.

Lemma process_row_group_addressed table pks schema w ps group shadow st :
  row_address (st_tx st) table pks schema w ps ->
  exists row_pks pkv, from_str_map pks = Some row_pks /\ key_map schema row_pks w ps /\ convert_params pkv = Ok ps /\
    process_row_group policy shadow st ((table, pks), group) =
      process_identified_row policy table pks row_pks schema w pkv group shadow st.
Proof.
  intros [Hsch [_ Hh Hc _ _] [Hne Hmeta] (row_pks & Hmap & Hkm)]. pose proof Hkm as [_ Hsame (pkv & Hw & Hps) _]. exists row_pks, pkv.
  do 3 (split; [done|]). unfold process_row_group. rewrite Hsch. change (from_sql (Ok schema)) with (@Ok Error _ schema).
  unfold mbind, res_bind. destruct schema as [|ci schema]; [done|]. set (sch := ci :: schema) in *.
  rewrite Hh, Hc, Hmap. cbn [negb orb]. destruct (pk_names sch) as [|k ks] eqn:Hpk; [done|].
  rewrite Hsame. cbn [negb]. by rewrite Hw, Hps.
Qed.

(** An addressed group makes of its row what [became] says, and holds in it every
    change that it did not skip. *)
Lemma process_row_group_became table pks schema w ps o0 group shadow st st' :
  row_address (st_tx st) table pks schema w ps ->
  rows_at (st_tx st) table w ps = option_list o0 -> (forall r0, o0 = Some r0 -> row_wf r0) ->
  process_row_group policy shadow st ((table, pks), group) = Ok st' ->
  exists input decision p1 tx1 o1, asks schema group input /\
    prepare_row policy (st_policy st) (st_tx st) input = Ok (decision, p1, tx1) /\
    rows_at (st_tx st') table w ps = option_list o1 /\
    became schema o0 o1 (decided decision (eligible_of schema group)) /\
    (NoDup (map fst group) -> forall e, e ∈ group -> fst e ∈ map sk_input_index (skipped (st_outcome st')) \/
       exists r1, o1 = Some r1 /\ holds_landed schema r1 (decided decision (eligible_of schema group)) e).
Proof.
  intros Haddr Hr Hwf Hg. pose proof (row_address_columns _ _ _ _ _ _ Haddr) as Hw.
  destruct (process_row_group_addressed _ _ _ _ _ group shadow st Haddr) as (row_pks & pkv & _ & Hkm & Hps & Heq).
  rewrite Heq in Hg. destruct Haddr as [Hsch Hman [_ Hmeta] _].
  apply process_identified_effect in Hg as (existing & input & d & p1 & tx1 & Hf & Hask & Hprep & Heff).
  eapply fetch_existing_rows in Hf; [|done]. rewrite Hr in Hf. exists input, d, p1, tx1.
  destruct Heff as [([_ Hs] & Hsk & Hidle)|(sel & skip & rep & row_max & tx2 & [Hs1 Hr1] & Hst & Hinv & Hm & Hwr & _ & [_ Hr2] & Hin & Hsk)].
  - exists o0. rewrite Hs. do 3 (split; [done|]). split.
    + destruct o0 as [r0|]; [|done]. cbn in Hf. subst existing. destruct Hidle as [[? _]|Hnoop]; [done|].
      apply merged_same; [by apply Hwf|exact Hnoop].
    + intros _ e He. left. by destruct (Hsk e He) as [?%elem_of_nil|?].
  - assert (exists r0 r1, row_hlcs r0 = snd (default (EmptyString, []) existing) /\ rows_at (st_tx st') table w ps = [r1] /\
      merged schema r0 r1 (decided d (eligible_of schema group)) /\
      became schema o0 (Some r1) (decided d (eligible_of schema group))) as (r0 & r1 & Hh & Hr1' & Hmerged & Hbec).
    { rewrite Hr2. destruct o0 as [r0|]; cbn [option_list option_rect] in *; subst existing.
      - eapply merge_update in Hwr as (r1 & Hrows & Hmerged); [|exact Hps|by rewrite (get_schema_same _ _ _ Hs1)|done|done|
          by rewrite Hr1|by apply Hwf|done|exact Hinv|exact Hm]. by exists r0, r1.
      - eapply merge_insert in Hwr as (r0 & r1 & Hb & Hrows & Hmerged); [|by rewrite (get_schema_same _ _ _ Hs1)|done|done|
          exact Hkm|done|by rewrite Hr1|exact Hinv|exact Hm]. exists r0, r1. split; [apply Hb|]. do 2 (split; [done|]). by exists r0. }
    exists (Some r1). do 4 (split; [done|]). intros Hnd e He. destruct (Hsk e He) as [Hl|?]; [right|by left].
    exists r1. split; [done|]. apply list_elem_of_fmap in Hl as (e' & Hfst & (s & -> & Hs)%list_elem_of_fmap).
    assert (e = landed_of s) as ->; [|by eapply merged_landed].
    apply Hin in Hs. by eapply (NoDup_fmap_fst_inj group).
Qed.

(** An addressed group merges into its row. *)
Lemma process_row_group_merged table pks schema w ps r0 group shadow st st' :
  row_address (st_tx st) table pks schema w ps ->
  row_of (st_tx st) table w ps = Some r0 -> row_wf r0 ->
  process_row_group policy shadow st ((table, pks), group) = Ok st' ->
  exists input decision p1 tx1 r1, asks schema group input /\
    prepare_row policy (st_policy st) (st_tx st) input = Ok (decision, p1, tx1) /\
    row_of (st_tx st') table w ps = Some r1 /\
    merged schema r0 r1 (decided decision (eligible_of schema group)).
Proof.
  intros Haddr Hr%row_of_Some Hwf Hg.
  destruct (process_row_group_became table pks schema w ps (Some r0) group shadow st st' Haddr Hr) as
    (input & d & p1 & tx1 & [r1|] & Hask & Hprep & Hr1 & Hb & _); [by intros ? [= <-]|done| |done].
  exists input, d, p1, tx1, r1. by rewrite row_of_Some.
Qed.
End rows.

(** Merging a row group is writing to registers: when the group addresses
    a stored row, exactly the changes of syncable columns are put to the policy, and
    after the step every data column of the row holds the last-writer-wins merge of
    its former register with the changes the policy accepted - its HLC in the stored
    column map and its value in the cell - while the row HLC does not go back, is
    the former one or that of a column the group brought, and still covers the columns, and the column map stays well formed. *)
Theorem row_group_refines_registers `{Unicode} `{Serde} `{!SerdeLaws} `{Uhlc} {db : Type} `{RowStore db} {P : Type}
    (policy : ApplyPolicy db P) table pks schema w ps r0 group shadow st st' :
  leaves_store policy -> row_address (st_tx st) table pks schema w ps ->
  row_of (st_tx st) table w ps = Some r0 -> row_wf r0 ->
  process_row_group policy shadow st ((table, pks), group) = Ok st' ->
  exists input decision p1 tx1 r1, asks schema group input /\
    prepare_row policy (st_policy st) (st_tx st) input = Ok (decision, p1, tx1) /\
    row_of (st_tx st') table w ps = Some r1 /\
    merged schema r0 r1 (decided decision (eligible_of schema group)).
Proof. intros Hpol. by apply process_row_group_merged. Qed.

Lemma signature_leaves_store `{Serde} `{Base64} {db} `{RowStore db} provider :
  leaves_store (db := db) (SignatureApplyPolicy provider).
Proof.
  assert (forall c c' : db, c = c' -> same_store c c') as Heq by (by intros c c' ->).
  split; cbn; [by intros * [= _ <-]| |by intros * [= _ <-]|by intros * [= _ _ <-]|by intros * [= _ <-]].
  intros p tx row d p' tx' Hr. apply bind_Ok in Hr as (ds & _ & [= _ _ <-]). by split.
Qed.

(** ** A concrete row group *)

Definition mini_group : list (nat * ColumnChange) :=
  [(0%nat, mini_change (mini_pks "a") "body" "5/c"); (1%nat, mini_change (mini_pks "a") "body" "3/c")].
Definition mini_old_row : gmap string SqlValue := mini_row "a" "old" "2/b".
Abbreviation mini_start := (mkApplyState (mini_mem [mini_old_row]) tt default_outcome None).
Abbreviation mini_step := (process_row_group mini_policy ∅ mini_start (("items", mini_pks "a"), mini_group)).

Lemma mini_managed : managed mini_schema.
Proof. split; [apply (bool_decide_unpack (NoDup _)); vm_compute; exact I|done..| |]; intros s; apply mini_stored_as. Qed.

Lemma mini_address (m : Mem) : get_table_schema m "items" = Ok mini_schema -> row_address m "items" (mini_pks "a") mini_schema
  [WEq "id"] [SText "a"].
Proof.
  intros Hm. split; [exact Hm | exact mini_managed | split; [discriminate|] |].
  - intros k Hk. change (pk_names mini_schema) with ["id"] in Hk. by apply list_elem_of_singleton in Hk as ->.
  - exists [("id", JString "a")]. split; [reflexivity|].
    split; [repeat constructor|by vm_compute|exists [JString "a"]; by split|].
    split; [intros a Ha; apply list_elem_of_singleton in Ha as ->; by exists "id"|].
    by intros Hn%list_elem_of_singleton.
Qed.

Lemma row_group_refines_registers_witness :
  is_ok mini_step = true /\
  exists st' r1 cands, mini_step = Ok st' /\ row_of (st_tx st') "items" [WEq "id"] [SText "a"] = Some r1 /\
    merged mini_schema mini_old_row r1 cands.
Proof.
  split; [vm_compute; reflexivity|].
  assert (is_ok mini_step = true) as Hok by (vm_compute; reflexivity).
  destruct mini_step as [st'| |] eqn:Hs; [|discriminate..]. exists st'.
  destruct (row_group_refines_registers mini_policy "items" (mini_pks "a") mini_schema [WEq "id"] [SText "a"]
    mini_old_row mini_group ∅ mini_start st') as (input & d & p1 & tx1 & r1 & _ & _ & Hr & Hm).
  - apply signature_leaves_store.
  - apply mini_address. reflexivity.
  - vm_compute; reflexivity.
  - split; [constructor|constructor].
  - exact Hs.
  - exists r1. eexists. split; [reflexivity|]. split; [exact Hr|exact Hm].
Defined.
