(* ===== verification/Deletes.v ===== *)
(** * Inbound deletes against the store (src/crdt/apply/delete_propagation.rs)

    What the fan-out of the delete log of [DeleteProp] does to a row of [Store]: the
    row goes exactly when an entry for it is at least as new as its HLC. *)

From S2P Require Import Prelude Utf8 Hashing Names Json Sql Mini Hlc Lww Trigger Report Errors Value Scanner Preimage Policy Preflight Grouping Row Write DeleteProp Engine EngineLemmas Apply Store.

Section deletes.
Context `{Unicode} `{Serde} `{!SerdeLaws} {db : Type} `{RowStore db}.

Definition cell_text (v : SqlValue) : option string := match v with SText s => Some s | _ => None end.

(** The entry of the delete log with an id: table, key map and HLC. *)
Definition log_entry (c : db) (id : string) : option (string * string * string) :=
  r ← head (rows_at c DELETED_ROWS_TABLE [WEq "id"] [SText id]);
  t ← cell_text (cell r "table_name"); pks ← cell_text (cell r "row_pks");
  d ← cell_text (cell r HLC_TIMESTAMP_COLUMN); Some (t, pks, d).

(** The deletion it asks for. *)
Definition log_target (c : db) (id : string) : option ((string * list watom * list SqlValue) * string) :=
  e ← log_entry c id;
  let '(t, pks, d) := e in
  wp ← delete_target c t pks; Some ((t, fst wp, snd wp), d).

Lemma delete_target_same (c c' : db) t pks : same_schema c c' -> delete_target c' t pks = delete_target c t pks.
Proof. intros Hs. unfold delete_target. by rewrite (get_schema_same c c' t Hs). Qed.

Lemma target_row_hlc_rows (c : db) t w ps h :
  target_row_hlc c t w ps = Ok h ->
  h = (r ← head (rows_at c t w ps); cell_text (cell r HLC_TIMESTAMP_COLUMN)).
Proof.
  unfold target_row_hlc, query_row. pose proof (store_selects c t w ps [HLC_TIMESTAMP_COLUMN]) as Hq.
  destruct (query c _ ps) as [rows|[]|]; cbn; try done. rewrite Hq.
  destruct (rows_at c t w ps) as [|r rs]; cbn; [by intros [= <-]|].
  unfold get_opt_string. cbn. destruct (cell r HLC_TIMESTAMP_COLUMN); cbn; try done; by intros [= <-].
Qed.

(** One entry: nothing, or the DELETE of its target unless that is newer. *)
Lemma propagate_one_effect (c : db) rep id c' rep' :
  propagate_one c rep id = Ok (c', rep') ->
  match log_target c id with
  | None => c' = c
  | Some ((t, w, ps), d) =>
      if should_propagate_delete d (r ← head (rows_at c t w ps); cell_text (cell r HLC_TIMESTAMP_COLUMN))
      then exists n, execute c (Delete t w) ps = Ok (n, c')
      else c' = c
  end.
Proof.
  unfold propagate_one, log_target, log_entry, query_row. pose proof (store_log c id) as Hq.
  destruct (query c SelectDeleteLogById _) as [rows|[]|]; try done. rewrite Hq.
  destruct (rows_at c DELETED_ROWS_TABLE _ _) as [|r rs]; [by intros [= <- _]|].
  unfold get_string, get_opt_string. cbn.
  destruct (cell r "table_name") as [| | |t|]; cbn; try done. destruct (cell r "row_pks") as [| | |pks|]; cbn; try done.
  destruct (cell r HLC_TIMESTAMP_COLUMN) as [| | |d|]; cbn; try done; [by intros [= <- _]|].
  destruct (delete_target c t pks) as [[w ps]|]; [|by intros [= <- _]]. cbn.
  intros (h & ->%target_row_hlc_rows & Hp)%bind_Ok. cbn in Hp. destruct (should_propagate_delete d _); cbn [negb] in Hp; [|by injection Hp].
  apply bind_Ok in Hp as ([n c1] & Hex%map_err_Ok & [= <- _]). by exists n.
Qed.

(** An entry that is no matter to the other rows of a clause: it leaves the log
    alone, and it is for a table of another name, for exactly the row of the clause or
    for none of the rows it selects. *)
Definition log_apart (c : db) (t : string) (w : list watom) (ps : list SqlValue) (id : string) : Prop :=
  match log_target c id with
  | Some ((t', w', ps'), _) =>
      eq_ignore_ascii_case t' DELETED_ROWS_TABLE = false /\
      (eq_ignore_ascii_case t' t = false \/
       (t' = t /\ ((w', ps') = (w, ps) \/ forall r, row_sel c t w ps r = true -> row_sel c t w' ps' r = false)))
  | None => True
  end.

(** The entry asks for the row of a clause and is at least as new as it. *)
Definition hits (c : db) (t : string) (w : list watom) (ps : list SqlValue) (h : option string) (id : string) : bool :=
  match log_target c id with
  | Some (target, d) => bool_decide (target = (t, w, ps)) && should_propagate_delete d h
  | None => false
  end.

Definition opt_hlc (o : option (gmap string SqlValue)) : option string :=
  o ≫= fun r => cell_text (cell r HLC_TIMESTAMP_COLUMN).

(** What the entries leave of the row. *)
Definition after_deletes (c : db) (t : string) (w : list watom) (ps : list SqlValue) (ids : list string)
    (o : option (gmap string SqlValue)) : option (gmap string SqlValue) :=
  if existsb (hits c t w ps (opt_hlc o)) ids then None else o.

Lemma log_target_same (c c' : db) id : same_schema c c' ->
  rows_at c' DELETED_ROWS_TABLE [WEq "id"] [SText id] = rows_at c DELETED_ROWS_TABLE [WEq "id"] [SText id] ->
  log_target c' id = log_target c id.
Proof.
  intros Hs Hr. unfold log_target, log_entry. rewrite Hr.
  destruct (head _ ≫= _) as [[[t pks] d]|]; [|done]. cbn. by rewrite (delete_target_same c c').
Qed.

Lemma propagate_one_row (c : db) rep id c' rep' t w ps o :
  propagate_one c rep id = Ok (c', rep') -> log_apart c t w ps id -> rows_at c t w ps = option_list o ->
  same_schema c c' /\ rows_at c' t w ps = option_list (after_deletes c t w ps [id] o) /\
  forall id', log_target c' id' = log_target c id'.
Proof.
  intros Hp%propagate_one_effect Hap Hr. unfold after_deletes. cbn [existsb]. rewrite orb_false_r. unfold hits.
  unfold log_apart in Hap. destruct (log_target c id) as [[[[t' w'] ps'] d]|] eqn:Hlt; [|by subst c'].
  destruct Hap as [Hlog Hap]. destruct (should_propagate_delete d _) eqn:Hsp.
  - destruct Hp as [n Hex]. pose proof (store_keeps _ _ _ _ _ Hex) as Hs. pose proof (store_others _ _ _ _ _ Hex) as Ho.
    cbn in Hs, Ho. split; [done|]. split; [|intros id'; apply log_target_same; [done|by apply Ho]].
    destruct Hap as [Hne|[-> Hap]].
    { rewrite Ho by done. rewrite bool_decide_eq_false_2; [done|]. intros [= -> _ _].
      unfold eq_ignore_ascii_case in Hne. by rewrite String.eqb_refl in Hne. }
    pose proof (store_deletes _ _ _ _ _ _ Hex w ps) as Hd. rewrite Hr in Hd.
    destruct o as [r|]; cbn [option_list option_rect] in *; [|case_bool_decide; cbn; by apply Permutation_nil_r in Hd].
    cbn [List.filter] in Hd.
    assert (row_sel c t w ps r = true) as Hsel by (apply store_sel; rewrite Hr; by left). case_bool_decide as Heq.
    + injection Heq as -> ->. rewrite Hr in Hsp. unfold opt_hlc. cbn in *. rewrite Hsp, Hsel in *. cbn in *. by apply Permutation_nil_r in Hd.
    + destruct Hap as [[= -> ->]|Hap]; [done|]. rewrite (Hap r Hsel) in Hd. cbn in *. by apply Permutation_singleton_r in Hd.
  - subst c'. split; [done|]. split; [|done]. rewrite Hr. case_bool_decide as Heq; [|done]. injection Heq as -> -> ->.
    rewrite Hr in Hsp. destruct o; [|by destruct d]. unfold opt_hlc. cbn in *. by rewrite Hsp.
Qed.

(** All the entries of a batch. *)
Lemma propagate_deletes_row ids : forall (c : db) rep c' rep' t w ps o,
  propagate_deleted_rows_to_target_tables c ids rep = Ok (c', rep') ->
  (forall id, id ∈ ids -> log_apart c t w ps id) -> rows_at c t w ps = option_list o ->
  same_schema c c' /\ rows_at c' t w ps = option_list (after_deletes c t w ps ids o).
Proof.
  induction ids as [|id ids IH]; intros c rep c' rep' t w ps o; cbn [propagate_deleted_rows_to_target_tables].
  { by intros [= <- _]. }
  intros ([c1 rep1] & Hp & Hps)%bind_Ok Hap Hr. cbn [fst snd] in Hps.
  destruct (propagate_one_row _ _ _ _ _ _ _ _ _ Hp (Hap id ltac:(by left)) Hr) as (Hs1 & Hr1 & Hlt).
  eapply IH in Hps as (Hs2 & Hr2); [|intros id' Hid'; specialize (Hap id' ltac:(by right))|exact Hr1].
  - split; [by etrans|]. rewrite Hr2. f_equal. unfold after_deletes. cbn [existsb]. rewrite orb_false_r.
    assert (forall h, existsb (hits c1 t w ps h) ids = existsb (hits c t w ps h) ids) as Heq.
    { intros h. clear -Hlt. induction ids as [|i ids IH]; [done|]. cbn. unfold hits at 1 3. by rewrite Hlt, IH. }
    rewrite Heq. destruct (hits c t w ps (opt_hlc o) id); cbn [orb]; [by destruct (existsb _ _)|done].
  - unfold log_apart in *. rewrite Hlt. destruct (log_target c id') as [[[[t' w'] ps'] d]|]; [|done].
    destruct Hap as [? [?|[? [?|Hap]]]]; split; auto. right. split; [done|]. right. intros r. rewrite !(proj2 (Hs1 t)). apply Hap.
Qed.

Lemma propagate_deletes_schema ids : forall (c : db) rep c' rep',
  propagate_deleted_rows_to_target_tables c ids rep = Ok (c', rep') -> same_schema c c'.
Proof.
  induction ids as [|id ids IH]; intros c rep c' rep'; cbn [propagate_deleted_rows_to_target_tables]; [by intros [= <- _]|].
  intros ([c1 rep1] & Hp%propagate_one_effect & Hps%IH)%bind_Ok. cbn [fst] in Hps. etrans; [|exact Hps].
  destruct (log_target c id) as [[[[t w] ps] d]|]; [|by subst c1]. destruct (should_propagate_delete _ _); [|by subst c1].
  destruct Hp as [n Hex]. exact (store_keeps _ _ _ _ _ Hex).
Qed.
End deletes.
