(* ===== verification/Batch.v ===== *)
(** * One stored row through a whole call (src/crdt/apply/engine.rs)

    [apply_remote_changes] around the row loop: what the transaction, the
    trigger gate, the other row groups of the batch and the foreign-key guard leave
    of a row, stored or absent: a committed batch merges exactly the changes under the
    row's key into it, and what it does not report as skipped is what the row holds. *)

From S2P Require Import Prelude Utf8 Hashing Names Json Sql Mini Hlc Lww Trigger Report Errors Value Scanner Preimage Policy Preflight Grouping Row Write DeleteProp Cleanup Engine EngineLemmas Apply Store Merge Deletes.

(** ** The groups of a batch *)

Definition change_key (c : ColumnChange) : string * string := (table_name c, row_pks c).
Definition changes_at (k : string * string) (changes : list ColumnChange) : list ColumnChange :=
  filter (fun c => change_key c = k) changes.

Lemma str_map_length f s : String.length (str_map f s) = String.length s.
Proof. induction s; cbn; by f_equal. Qed.

Section groups.
Context `{HashOrder}.

Lemma row_group_keys changes : NoDup (map fst (row_groups_of changes)).
Proof.
  unfold row_groups_of. rewrite (row_groups_entries _ _ _). rewrite group_entries_keys. apply first_keys_spec.
Qed.

Lemma group_of_changes (l : list (nat * ColumnChange)) k :
  map snd (group_of (fun e => change_key (snd e)) l k) = changes_at k (map snd l).
Proof.
  unfold group_of, changes_at. induction l as [|e l IH]; [done|]. cbn [map]. rewrite !filter_cons.
  destruct (decide (change_key (snd e) = k)); cbn; by rewrite IH.
Qed.

(** A row group is all the changes under its key. *)
Lemma row_group_changes changes k group :
  (k, group) ∈ row_groups_of changes -> Permutation (map snd group) (changes_at k changes) /\ group <> [].
Proof.
  unfold row_groups_of. rewrite (row_groups_entries _ _ _). intros [-> Hne]%group_entries_elem. split; [|done].
  change (fun e : nat * ColumnChange => (table_name (snd e), row_pks (snd e))) with
    (fun e : nat * ColumnChange => change_key (snd e)).
  rewrite group_of_changes. apply filter_Permutation.
  rewrite flat_map_concat_map. etransitivity; [apply Permutation_map, (ordered_groups_perm 1)|]. by rewrite imap_pair_snd.
Qed.

Lemma row_group_key changes k group :
  (k, group) ∈ row_groups_of changes -> exists c, c ∈ changes /\ change_key c = k.
Proof.
  intros [Hp Hne]%row_group_changes. destruct (map snd group) as [|c cs] eqn:Hg; [by destruct group|].
  assert (c ∈ changes_at k changes) as [Hk Hc]%list_elem_of_filter by (rewrite <- Hp; by left). by exists c.
Qed.

Lemma group_change_key changes k group i c :
  (k, group) ∈ row_groups_of changes -> (i, c) ∈ group -> change_key c = k.
Proof.
  intros [Hp _]%row_group_changes Hin. apply (list_elem_of_fmap_2 snd) in Hin.
  change (c ∈ map snd group) in Hin. rewrite Hp in Hin. by apply list_elem_of_filter in Hin as [? _].
Qed.

(** The indices of a group are the positions of its key's changes, each once. *)
Lemma row_group_indices changes k group :
  (k, group) ∈ row_groups_of changes ->
  NoDup (map fst group) /\ forall i c, (i, c) ∈ group <-> changes !! i = Some c /\ change_key c = k.
Proof.
  intros Hg. pose proof (row_groups_of_perm changes) as Hp. split; [|intros i c; split].
  - apply list_elem_of_split in Hg as (before & after & Heq). rewrite Heq, map_app, concat_app in Hp. cbn [map concat snd] in Hp.
    assert (NoDup (map fst (concat (map snd before) ++ group ++ concat (map snd after)))) as Hnd
      by (rewrite (Permutation_map fst Hp), (imap_pair_fst changes); apply NoDup_seq).
    rewrite !map_app in Hnd. by apply NoDup_app in Hnd as (_ & _ & [? _]%NoDup_app).
  - intros Hin. split; [|by eapply group_change_key].
    assert ((i, c) ∈ imap (fun i c => (i, c)) changes) as (j & c' & [= <- <-] & ?)%elem_of_lookup_imap; [|done].
    rewrite <- Hp. apply list_elem_of_In, in_concat. exists group. split; apply list_elem_of_In; [|done].
    by apply (list_elem_of_fmap_2 snd) in Hg.
  - intros [Hc <-]. assert ((i, c) ∈ concat (map snd (row_groups_of changes))) as Hin
      by (rewrite Hp; apply elem_of_lookup_imap; by exists i, c).
    apply list_elem_of_In, in_concat in Hin as (group' & Hg'%list_elem_of_In & Hi%list_elem_of_In).
    apply list_elem_of_fmap in Hg' as ([k' group''] & -> & Hg'). cbn [snd] in Hi.
    rewrite (group_change_key _ _ _ _ _ Hg' Hi) in Hg.
    assert ((k', group) = (k', group'')) as [= ->]; [|done].
    by apply (NoDup_fmap_fst_inj (row_groups_of changes) _ _ (row_group_keys changes)).
Qed.

(** The groups with the one of a key singled out. *)
Lemma row_groups_split changes k :
  (changes_at k changes = [] /\ forall g, g ∈ row_groups_of changes -> fst g <> k) \/
  exists before group after, row_groups_of changes = before ++ (k, group) :: after /\
    Permutation (map snd group) (changes_at k changes) /\ changes_at k changes <> [] /\
    forall g, g ∈ before \/ g ∈ after -> fst g <> k.
Proof.
  destruct (decide (k ∈ map fst (row_groups_of changes))) as [Hk|Hk].
  - right. apply list_elem_of_fmap in Hk as ([k' group] & -> & Hin). cbn.
    destruct (row_group_changes _ _ _ Hin) as [Hp Hne]. pose proof (row_group_keys changes) as Hnd.
    apply list_elem_of_split in Hin as (before & after & Heq). exists before, group, after.
    split; [done|]. split; [done|]. split.
    { intros Hno. rewrite Hno in Hp. apply Permutation_nil_r in Hp. by destruct group. }
    rewrite Heq, map_app in Hnd. cbn in Hnd.
    apply NoDup_app in Hnd as (_ & Hd & [Ha _]%NoDup_cons). intros g [Hg|Hg] Hkey.
    + apply (Hd (fst g)); [by apply list_elem_of_fmap_2|]. rewrite Hkey. by left.
    + apply Ha. rewrite <- Hkey. by apply list_elem_of_fmap_2.
  - left. split.
    + destruct (changes_at k changes) as [|c cs] eqn:Hc; [done|]. exfalso.
      assert (c ∈ changes_at k changes) as [Hck Hci]%list_elem_of_filter by (rewrite Hc; by left).
      assert (exists i, (i, c) ∈ concat (map snd (row_groups_of changes))) as (i & Hi).
      { apply list_elem_of_lookup in Hci as (i & Hi). exists i. rewrite row_groups_of_perm.
        apply elem_of_lookup_imap. by exists i, c. }
      apply list_elem_of_In, in_concat in Hi as (group & Hg%list_elem_of_In & Hi%list_elem_of_In).
      apply list_elem_of_fmap in Hg as ([k' group'] & -> & Hg). cbn in Hi.
      destruct (row_group_changes _ _ _ Hg) as [Hp _].
      assert (c ∈ changes_at k' changes) as [Hck' _]%list_elem_of_filter.
      { rewrite <- Hp. by apply (list_elem_of_fmap_2 snd) in Hi. }
      apply Hk. rewrite <- Hck, Hck'. by apply (list_elem_of_fmap_2 fst) in Hg.
    + intros g Hg Hkey. apply Hk. rewrite <- Hkey. by apply list_elem_of_fmap_2.
Qed.
End groups.

(** ** The other groups of the batch *)

Section others.
Context `{Unicode} `{Serde} `{!SerdeLaws} `{Uhlc} {db : Type} `{RowStore db} {P : Type} (policy : ApplyPolicy db P).
Context (Hpolicy : leaves_store policy).

(** The rows a clause selects stay as they are. *)
Definition spares (t : string) (w : list watom) (ps : list SqlValue) (c c' : db) : Prop :=
  same_schema c c' /\ Permutation (rows_at c' t w ps) (rows_at c t w ps).

#[export] Instance spares_preorder t w ps : PreOrder (spares t w ps).
Proof.
  split; [intros c; by split|]. intros c1 c2 c3 [Hs1 Hr1] [Hs2 Hr2]. split; [by etrans|]. by rewrite Hr2.
Qed.

Lemma same_store_spares t w ps c c' : same_store c c' -> spares t w ps c c'.
Proof. intros [Hs Hr]. split; [done|]. by rewrite Hr. Qed.

(** A key map addresses other rows than a clause: those of a table of another name,
    or it has a value for every key column and no row is selected by both. *)
Definition elsewhere (c : db) (t : string) (schema : list ColumnInfo) (w : list watom) (ps : list SqlValue)
    (k : string * string) : Prop :=
  eq_ignore_ascii_case (fst k) t = false \/
  (fst k = t /\ forall m w' pkv ps', from_str_map (snd k) = Some m ->
     same_names (pk_names schema) (jkeys m) = true ->
     build_pk_where_from_map m = Some (w', pkv) -> convert_params pkv = Ok ps' ->
     key_map schema m w' ps' /\ forall r, row_sel c t w ps r = true -> row_sel c t w' ps' r = false).

Lemma elsewhere_same c c' t schema w ps k :
  same_schema c c' -> elsewhere c t schema w ps k -> elsewhere c' t schema w ps k.
Proof.
  intros Hs [He|[Ht He]]; [by left|right]. split; [done|]. intros m w' pkv ps' Hm Hn Hw Hps.
  destruct (He m w' pkv ps' Hm Hn Hw Hps) as [Hk Hr]. split; [done|]. intros r. rewrite !(proj2 (Hs t)). apply Hr.
Qed.

(** An identified row: a write to another table, or one whose clause selects none
    of the rows. *)
Lemma process_identified_spares t w ps t' pks row_pks schema w' pkv' ps' group shadow (st st' : ApplyState db P) :
  process_identified_row policy t' pks row_pks schema w' pkv' group shadow st = Ok st' ->
  convert_params pkv' = Ok ps' ->
  eq_ignore_ascii_case t' t = false \/
  (t' = t /\ get_table_schema (st_tx st) t = Ok schema /\ managed schema /\
   (forall k, k ∈ pk_names schema -> is_meta_column k = false) /\ key_map schema row_pks w' ps' /\
   (forall a, a ∈ w -> is_meta_column (watom_col a) = false /\ watom_col a ∈ pk_names schema) /\
   forall r, row_sel (st_tx st) t w ps r = true -> row_sel (st_tx st) t w' ps' r = false) ->
  spares t w ps (st_tx st) (st_tx st').
Proof.
  intros (existing & input & d & p1 & tx1 & _ & _ & _ & Heff)%process_identified_effect Hps Hoff; [|done].
  destruct Heff as [(Hs & _)|(sel & skip & rep & row_max & tx2 & Hs1 & Hst & _ & _ & Hwr & _ & Hs2 & _)]; [by apply same_store_spares|].
  etrans; [by apply same_store_spares|]. etrans; [|by apply same_store_spares].
  assert (same_schema tx1 tx2 /\ forall t w ps, eq_ignore_ascii_case t' t = false -> rows_at tx2 t w ps = rows_at tx1 t w ps)
    as [Hss Hoth] by (unfold row_write in Hwr; destruct existing as [[h m]|];
      [by eapply write_update_others|by eapply write_insert_others]).
  split; [done|]. destruct Hoff as [Hne|(-> & Hsch & Hman & Hmeta & Hkm & Hw & Hdis)]; [by rewrite Hoth|].
  rewrite <- (get_schema_same _ _ _ (proj1 Hs1)) in Hsch.
  assert (forall r, row_sel tx1 t w ps r = true -> row_sel tx1 t w' ps' r = false) as Hdis1
    by (intros r; rewrite !(proj2 (proj1 Hs1 t)); apply Hdis).
  unfold row_write in Hwr. destruct existing as [[h m]|].
  - eapply write_update_effect in Hwr as (f & _ & Heff); [|done..]. rewrite (Heff w ps Hw).
    apply Permutation_refl'. etransitivity; [|apply map_id]. apply map_ext_in. intros r Hr.
    rewrite Hdis1; [done|]. apply store_sel. by apply list_elem_of_In.
  - eapply write_insert_effect in Hwr as (r0 & r1 & _ & Hheld & _ & Heff); [|done..]. rewrite (Heff w ps).
    destruct (row_sel tx1 t w ps r1) eqn:Hr1; [|by rewrite app_nil_r]. apply Hdis1 in Hr1.
    rewrite (store_key tx1 t schema w' ps' r1) in Hr1; [done|by apply get_schema_info|done].
Qed.

(** A row group: the checks leave the store alone, or it is an identified row. *)
Lemma process_row_group_cases t pks group shadow (st st' : ApplyState db P) :
  process_row_group policy shadow st ((t, pks), group) = Ok st' ->
  st_tx st' = st_tx st \/
  exists schema m w pkv ps, get_table_schema (st_tx st) t = Ok schema /\ from_str_map pks = Some m /\
    same_names (pk_names schema) (jkeys m) = true /\ build_pk_where_from_map m = Some (w, pkv) /\
    convert_params pkv = Ok ps /\ process_identified_row policy t pks m schema w pkv group shadow st = Ok st'.
Proof.
  unfold process_row_group. intros (schema & Hs%map_err_Ok & Hg)%bind_Ok.
  assert (forall reason, @Ok Error _ (set_outcome (skip_whole_group (st_outcome st) group reason) st) = Ok st' ->
    st_tx st' = st_tx st) as Hskip by by intros reason [= <-].
  destruct schema as [|ci schema]; [left; by eapply Hskip|]. destruct (_ || _); [left; by eapply Hskip|].
  destruct (from_str_map pks) as [m|] eqn:Hm; [|left; by eapply Hskip].
  destruct (pk_names (ci :: schema)) eqn:Hpk; [left; by eapply Hskip|].
  destruct (same_names _ _) eqn:Hn; cbn [negb] in Hg; [|left; by eapply Hskip].
  destruct (build_pk_where_from_map m) as [[w pkv]|] eqn:Hb; [|left; by eapply Hskip].
  destruct (convert_params pkv) as [ps| |] eqn:Hc; [|left; by eapply Hskip..].
  right. exists (ci :: schema), m, w, pkv, ps. by rewrite Hpk.
Qed.

(** A group for another row. *)
Lemma process_row_group_spares t key schema w ps k group shadow (st st' : ApplyState db P) :
  row_address (st_tx st) t key schema w ps -> elsewhere (st_tx st) t schema w ps k ->
  process_row_group policy shadow st (k, group) = Ok st' -> spares t w ps (st_tx st) (st_tx st').
Proof.
  intros Haddr Hel. destruct k as [t' pks]. intros [Heq|Hg]%process_row_group_cases; [by rewrite Heq|].
  destruct Hg as (schema' & m & w' & pkv & ps' & Hsch & Hm & Hn & Hb & Hps & Hg).
  eapply process_identified_spares; [exact Hg|exact Hps|].
  destruct Hel as [?|[Heq Hel]]; [by left|right]. cbn [fst snd] in *. subst t'.
  pose proof (row_address_columns _ _ _ _ _ _ Haddr) as Hw. destruct Haddr as [Hs Hman [_ Hmeta] _].
  rewrite Hs in Hsch. injection Hsch as <-. destruct (Hel m w' pkv ps' Hm Hn Hb Hps) as [Hk Hr]. done.
Qed.

(** No group changes a schema. *)
Lemma process_row_group_schema shadow k group (st st' : ApplyState db P) :
  process_row_group policy shadow st (k, group) = Ok st' -> same_schema (st_tx st) (st_tx st').
Proof.
  destruct k as [t pks]. intros [Heq|Hg]%process_row_group_cases; [by rewrite Heq|].
  destruct Hg as (schema & m & w & pkv & ps & _ & _ & _ & _ & Hps & Hg).
  apply (process_identified_spares (t +:+ "_") [] [] _ _ _ _ _ _ _ _ _ _ _ Hg) in Hps as [? _]; [done|].
  left. apply String.eqb_neq. intros Hk%(f_equal String.length). unfold to_ascii_lowercase in Hk.
  rewrite !str_map_length, append_length in Hk. cbn in Hk. lia.
Qed.

Lemma process_groups_spare t key schema w ps shadow gs : forall (st st' : ApplyState db P),
  row_address (st_tx st) t key schema w ps ->
  (forall g, g ∈ gs -> elsewhere (st_tx st) t schema w ps (fst g)) ->
  process_row_groups policy shadow st gs = Ok st' -> spares t w ps (st_tx st) (st_tx st').
Proof.
  induction gs as [|[k group] gs IH]; intros st st' Haddr Hel; cbn [process_row_groups]; [by intros [= <-]|].
  intros (st1 & Hg & Hr)%bind_Ok. eapply process_row_group_spares in Hg; [|exact Haddr|apply (Hel (k, group)); by left].
  etrans; [exact Hg|]. destruct Hg as [Hs _]. apply (IH st1 st'); [by eapply row_address_same| |exact Hr].
  intros g Hg. eapply elsewhere_same; [exact Hs|]. apply Hel. by right.
Qed.

Lemma process_row_groups_app shadow gs1 gs2 : forall st st' : ApplyState db P,
  process_row_groups policy shadow st (gs1 ++ gs2) = Ok st' ->
  exists st1, process_row_groups policy shadow st gs1 = Ok st1 /\ process_row_groups policy shadow st1 gs2 = Ok st'.
Proof.
  induction gs1 as [|g gs1 IH]; intros st st'; cbn [app process_row_groups]; [by exists st|].
  intros (st0 & Hg & (st1 & H1' & H2')%IH)%bind_Ok. exists st1. by rewrite Hg.
Qed.

Lemma process_groups_schema shadow gs : forall st st' : ApplyState db P,
  process_row_groups policy shadow st gs = Ok st' -> same_schema (st_tx st) (st_tx st').
Proof.
  induction gs as [|[k group] gs IH]; intros st st'; cbn [process_row_groups]; [by intros [= <-]|].
  intros (st1 & Hg%process_row_group_schema & Hr%IH)%bind_Ok. by etrans.
Qed.

(** The skip list only grows. *)
Lemma process_groups_skipped shadow gs (st st' : ApplyState db P) i :
  process_row_groups policy shadow st gs = Ok st' ->
  i ∈ map sk_input_index (skipped (st_outcome st)) -> i ∈ map sk_input_index (skipped (st_outcome st')).
Proof.
  intros (landed & new & (Hs & _) & _)%process_row_groups_done Hi. rewrite Hs, map_app. apply elem_of_app. by left.
Qed.
End others.

(** ** The whole call *)

Section call.
Context `{Unicode} `{Serde} `{!SerdeLaws} `{Uhlc} `{HashOrder} {db : Type} `{RowStore db} {P : Type}
  (policy : ApplyPolicy db P) (Hpolicy : leaves_store policy).

(** A row, stored or absent, under an address. *)
Record stored_row (c : db) (table key : string) (schema : list ColumnInfo) (w : list watom) (ps : list SqlValue)
    (o : option (gmap string SqlValue)) : Prop := {
  sr_address : row_address c table key schema w ps;
  sr_rows : rows_at c table w ps = option_list o;
  sr_wf : forall r, o = Some r -> row_wf r;
}.
Definition alone (c : db) (changes : list ColumnChange) (table key : string) (schema : list ColumnInfo)
    (w : list watom) (ps : list SqlValue) : Prop :=
  forall ch, ch ∈ changes -> change_key ch <> (table, key) -> elsewhere c table schema w ps (change_key ch).

Lemma same_store_row c c' table key schema w ps o :
  same_store c c' -> stored_row c table key schema w ps o -> stored_row c' table key schema w ps o.
Proof. intros [Hs Hr] [Ha Hro Hwf]. split; [by eapply row_address_same|by rewrite Hr|done]. Qed.
Lemma same_schema_alone c c' changes table key schema w ps :
  same_schema c c' -> alone c changes table key schema w ps -> alone c' changes table key schema w ps.
Proof. intros Hs Hal ch Hch Hne. eapply elsewhere_same; [exact Hs|by apply Hal]. Qed.
Lemma spares_row c c' table key schema w ps o :
  spares table w ps c c' -> stored_row c table key schema w ps o -> stored_row c' table key schema w ps o.
Proof.
  intros [Hs Hr] [Ha Hro Hwf]. split; [by eapply row_address_same| |done]. rewrite Hro in Hr.
  destruct o; cbn [option_list option_rect] in *; [by apply Permutation_singleton_r in Hr|by apply Permutation_nil_r in Hr].
Qed.

(** What a batch makes of a row: nothing when no change carries its key; else one
    row group of exactly those changes is put to the policy and the accepted ones are
    merged into the row, and every one of them is in the skip list or what the row
    holds. *)
Definition batch_made (changes : list ColumnChange) (skips : list nat) (table key : string) (schema : list ColumnInfo)
    (o0 o1 : option (gmap string SqlValue)) : Prop :=
  (changes_at (table, key) changes = [] /\ o1 = o0) \/
  exists group input decision q tx q' tx', Permutation (map snd group) (changes_at (table, key) changes) /\
    changes_at (table, key) changes <> [] /\
    (forall i c, (i, c) ∈ group <-> changes !! i = Some c /\ change_key c = (table, key)) /\
    asks schema group input /\ prepare_row policy q tx input = Ok (decision, q', tx') /\
    became schema o0 o1 (decided decision (eligible_of schema group)) /\
    forall i c, (i, c) ∈ group -> i ∈ skips \/
      exists r1, o1 = Some r1 /\ holds_landed schema r1 (decided decision (eligible_of schema group)) (i, c).

Lemma became_wf schema o0 o1 cands r :
  became schema o0 o1 cands -> o1 = Some r -> row_wf r.
Proof. intros Hb ->. destruct o0 as [r0|]; cbn in Hb; [apply Hb|]. destruct Hb as (r0 & _ & Hm). apply Hm. Qed.

(** The row loop: it leaves the row, but for the one group under its key. *)
Lemma row_loop_row changes shadow table key schema w ps o0 (st st' : ApplyState db P) :
  stored_row (st_tx st) table key schema w ps o0 -> alone (st_tx st) changes table key schema w ps ->
  process_row_groups policy shadow st (row_groups_of changes) = Ok st' ->
  exists o1, stored_row (st_tx st') table key schema w ps o1 /\
    batch_made changes (map sk_input_index (skipped (st_outcome st'))) table key schema o0 o1.
Proof.
  intros Hrow Halone Hp.
  assert (forall g, g ∈ row_groups_of changes -> fst g <> (table, key) -> elsewhere (st_tx st) table schema w ps (fst g)) as Hels.
  { intros [k group] Hg Hk. destruct (row_group_key _ _ _ Hg) as (c & Hc & <-). by apply Halone. }
  destruct (row_groups_split changes (table, key)) as [[Hnone Hother]|(before & group & after & Heq & Hperm & Hsome & Hother)].
  - eapply (process_groups_spare policy Hpolicy table key schema w ps) in Hp;
      [|apply Hrow|intros g Hg; by apply Hels, Hother].
    exists o0. split; [by eapply spares_row|by left].
  - destruct (row_group_indices changes (table, key) group) as [Hnd Hidx]; [rewrite Heq; apply elem_of_app; right; by left|].
    rewrite Heq in Hp, Hels. apply process_row_groups_app in Hp as (st1 & Hb & Hp).
    eapply (process_groups_spare policy Hpolicy table key schema w ps) in Hb;
      [|apply Hrow|intros g Hg; apply Hels; [apply elem_of_app; by left|by apply Hother; left]].
    cbn [process_row_groups] in Hp. apply bind_Ok in Hp as (st2 & Hg & Ha).
    pose proof (spares_row _ _ _ _ _ _ _ _ Hb Hrow) as Hrow1.
    pose proof (process_row_group_schema policy Hpolicy _ _ _ _ _ Hg) as Hs2.
    pose proof Hg as Hm. eapply (process_row_group_became policy Hpolicy) in Hm as
      (input & d & p1 & tx1 & o1 & Hask & Hprep & Hr2 & Hbec & Hland); [|apply Hrow1..].
    assert (stored_row (st_tx st2) table key schema w ps o1) as Hrow2.
    { split; [eapply row_address_same; [exact Hs2|apply Hrow1]|done|intros r; by eapply became_wf]. }
    exists o1. split.
    + eapply (process_groups_spare policy Hpolicy table key schema w ps) in Ha; [by eapply spares_row|apply Hrow2|].
      intros g Hg'. eapply elsewhere_same; [etrans; [apply Hb|exact Hs2]|].
      apply Hels; [apply elem_of_app; right; by right|by apply Hother; right].
    + right. exists group, input, d, (st_policy st1), (st_tx st1), p1, tx1. 
      do 6 (split; [done|]). intros i c Hic. destruct (Hland Hnd (i, c) Hic) as [Hi|?]; [left|by right].
      by eapply process_groups_skipped.
Qed.

(** The transaction up to the end of the row loop, and the store it has then. *)
Definition merged_state (changes : list ColumnChange) (p : P) (tx : db) : res Error (ApplyState db P) :=
  tx1 ← toggle_triggers tx "0";
  r ← begin policy p tx1 changes;
  shadow ← from_db (load_delete_shadow_map (snd r));
  process_row_groups policy shadow (mkApplyState (snd r) (fst r) default_outcome None) (row_groups_of changes).
Definition merged_store (now : nat -> Z) (conn : db) (changes : list ColumnChange) (p : P) : option db :=
  match preflight_batch now changes policy p, execute conn (SetForeignKeys false) [] with
  | Ok p1, Ok (_, c1) => match merged_state changes p1 c1 with Ok st => Some (st_tx st) | _ => None end
  | _, _ => None
  end.

(** From a store [c] to [c'] by way of [cm], the store when the deletes of the batch
    are propagated: there the row has its changes merged in, and what follows removes it
    exactly when one of the batch's delete-log entries asks for it at an HLC at least as
    new, provided the entries are no matter to the row otherwise. *)
Definition batch_row (c cm c' : db) (changes : list ColumnChange) (o : ApplyOutcome)
    (table key : string) (schema : list ColumnInfo) (w : list watom) (ps : list SqlValue)
    (o0 : option (gmap string SqlValue)) : Prop :=
  exists o1, same_schema c cm /\ stored_row cm table key schema w ps o1 /\
    batch_made changes (map sk_input_index (skipped o)) table key schema o0 o1 /\
    let ids := collect_inbound_delete_log_ids changes o in
    ((forall id, id ∈ ids -> log_apart cm table w ps id) ->
     stored_row c' table key schema w ps (after_deletes cm table w ps ids o1)).

Lemma batch_row_store c1 c2 c3 c4 cm changes o table key schema w ps o0 :
  same_store c1 c2 -> same_store c3 c4 -> batch_row c2 cm c3 changes o table key schema w ps o0 ->
  batch_row c1 cm c4 changes o table key schema w ps o0.
Proof.
  intros [H12 _] H34 (o1 & Hs & Hr & Hm & Hd). exists o1. split; [by etrans|]. do 2 (split; [done|]).
  intros ids Hap. eapply same_store_row; [exact H34|]. by apply Hd.
Qed.

Definition no_log_changes (changes : list ColumnChange) : Prop :=
  forall ch, ch ∈ changes -> table_name ch <> DELETED_ROWS_TABLE.

Lemma no_inbound_ids changes o : no_log_changes changes -> collect_inbound_delete_log_ids changes o = [].
Proof.
  intros Hno. unfold collect_inbound_delete_log_ids.
  replace (omap _ _) with (@nil string); [apply Permutation_nil; symmetry; apply hash_order_perm|].
  symmetry. destruct (omap _ _) as [|id ids] eqn:He; [done|]. exfalso.
  assert (id ∈ id :: ids) as Hid by by left. rewrite <- He in Hid.
  apply list_elem_of_omap in Hid as ([i c] & (j & c' & [= -> ->] & Hj)%elem_of_lookup_imap & Hid).
  unfold delete_log_id in Hid. apply list_elem_of_lookup_2, Hno, String.eqb_neq in Hj. by rewrite Hj in Hid.
Qed.

(** Without delete-log changes that is the merge. *)
Lemma batch_row_no_log c cm c' changes o table key schema w ps o0 :
  no_log_changes changes -> batch_row c cm c' changes o table key schema w ps o0 ->
  exists o1, stored_row c' table key schema w ps o1 /\
    batch_made changes (map sk_input_index (skipped o)) table key schema o0 o1.
Proof.
  intros Hno (o1 & _ & _ & Hm & Hd). rewrite no_inbound_ids in Hd by done. exists o1. split; [|done].
  apply Hd. by intros id Hid%elem_of_nil.
Qed.

Lemma toggle_same_store (tx tx' : db) v : toggle_triggers tx v = Ok tx' -> same_store tx tx'.
Proof. intros ([n c] & Hex%map_err_Ok & [= <-])%bind_Ok. by pose proof (store_keeps _ _ _ _ _ Hex). Qed.

Lemma apply_body_row changes p (tx : db) o m p' tx' table key schema w ps o0 :
  stored_row tx table key schema w ps o0 -> alone tx changes table key schema w ps ->
  apply_body policy changes p tx = Ok ((o, m, p'), tx') ->
  exists st, merged_state changes p tx = Ok st /\ batch_row tx (st_tx st) tx' changes o table key schema w ps o0.
Proof.
  intros Hrow Halone. unfold apply_body, merged_state. intros (tx1 & Ht1 & Hr)%bind_Ok. rewrite Ht1. apply toggle_same_store in Ht1. cbn [mbind res_bind].
  apply bind_Ok in Hr as ([p1 tx2] & Hb & Hr). rewrite Hb. apply (ls_begin policy Hpolicy) in Hb. cbn [mbind res_bind fst snd].
  apply bind_Ok in Hr as (shadow & Hsh & Hr). rewrite Hsh. cbn [mbind res_bind].
  apply bind_Ok in Hr as (st & Hst & Hr). exists st. split; [exact Hst|].
  apply bind_Ok in Hr as ([tx3 rep] & Hprop%map_err_Ok & Hr).
  apply bind_Ok in Hr as ([p2 tx4] & Hc%(ls_before_commit policy Hpolicy) & Hr).
  apply bind_Ok in Hr as (tx5 & Ht5%toggle_same_store & [= <- _ _ <-]).
  assert (same_store tx tx2) as Hs by by etrans. assert (same_store tx3 tx5) as Hs' by by etrans.
  pose proof (process_groups_schema policy Hpolicy _ _ _ _ Hst) as Hss. cbn [st_tx] in Hss.
  eapply (row_loop_row _ _ _ _ _ _ _ _ (mkApplyState tx2 p1 default_outcome None)) in Hst as (o1 & Hr & Hm);
    [|eapply same_store_row; [exact Hs|done]|eapply same_schema_alone; [apply Hs|done]].
  exists o1. split; [by etrans; [apply Hs|]|]. split; [done|]. split; [exact Hm|].
  intros ids Hap. eapply same_store_row; [exact Hs'|].
  destruct (propagate_deletes_row _ _ _ _ _ _ _ _ o1 Hprop Hap) as [Hsd Hrd]; [apply Hr|].
  split; [eapply row_address_same; [exact Hsd|apply Hr]|exact Hrd|].
  intros r Ho. apply (sr_wf _ _ _ _ _ _ _ Hr). unfold after_deletes in Ho. by destruct (existsb _ _).
Qed.

Lemma with_fk_disabled_store {E R} (from : SqlError -> E) conn (f : db -> res E R * db) r conn' :
  with_fk_disabled from conn f = (Ok r, conn') ->
  exists n c1 c2, execute conn (SetForeignKeys false) [] = Ok (n, c1) /\ f c1 = (Ok r, c2) /\ same_store c2 conn'.
Proof.
  unfold with_fk_disabled. destruct (foreign_keys_enabled conn) as [was| |]; [|done..].
  destruct (execute conn (SetForeignKeys false) []) as [[n c1]| |] eqn:Hoff; [|done..].
  destruct (f c1) as [r1 c2] eqn:Hf. intros [= -> <-]. exists n, c1, c2. do 2 (split; [done|]). unfold restore_foreign_keys.
  destruct (execute c2 (SetForeignKeys was) []) as [[n2 c3]| |] eqn:Hon; cbn; [|by split..].
  by pose proof (store_keeps _ _ _ _ _ Hon).
Qed.

(** The whole transaction. *)
Lemma commit_batch_row now conn changes p o m p' conn' table key schema w ps o0 :
  stored_row conn table key schema w ps o0 -> alone conn changes table key schema w ps ->
  commit_batch policy now conn changes p = (Ok (o, m, p'), conn') ->
  exists cm, merged_store now conn changes p = Some cm /\ batch_row conn cm conn' changes o table key schema w ps o0.
Proof.
  intros Hrow Halone. unfold commit_batch, merged_store. destruct (preflight_batch _ _ _ _) as [p1| |]; [|done..].
  intros (n & c1 & c2 & Hoff & Htx%run_tx_Ok & Hs2)%with_fk_disabled_store. rewrite Hoff.
  pose proof (store_keeps _ _ _ _ _ Hoff) as Hs1. cbn in Hs1.
  eapply apply_body_row in Htx as (st & Hst & Hb); [|by eapply same_store_row|by eapply same_schema_alone; [apply Hs1|]].
  exists (st_tx st). rewrite Hst. split; [done|]. by eapply batch_row_store.
Qed.

(** No batch changes a schema. *)
Lemma commit_batch_schema now conn changes p o m p' conn' :
  commit_batch policy now conn changes p = (Ok (o, m, p'), conn') -> same_schema conn conn'.
Proof.
  unfold commit_batch. destruct (preflight_batch _ _ _ _) as [p1| |]; [|done..].
  intros (n & c1 & c2 & Hoff & Htx%run_tx_Ok & Hs2)%with_fk_disabled_store.
  apply store_keeps in Hoff. cbn in Hoff. etrans; [apply Hoff|]. etrans; [|apply Hs2].
  revert Htx. unfold apply_body. intros (tx1 & Ht1%toggle_same_store & Hr)%bind_Ok.
  apply bind_Ok in Hr as ([p2 tx2] & Hb%(ls_begin policy Hpolicy) & Hr). apply bind_Ok in Hr as (shadow & _ & Hr).
  apply bind_Ok in Hr as (st & Hst%(process_groups_schema policy Hpolicy) & Hr). cbn [st_tx] in Hst.
  apply bind_Ok in Hr as ([tx3 rep] & Hp%map_err_Ok%propagate_deletes_schema & Hr).
  apply bind_Ok in Hr as ([p3 tx4] & Hc%(ls_before_commit policy Hpolicy) & Hr).
  apply bind_Ok in Hr as (tx5 & Ht5%toggle_same_store & [= _ _ _ <-]).
  etrans; [apply Ht1|]. etrans; [apply Hb|]. etrans; [exact Hst|]. etrans; [exact Hp|]. etrans; [apply Hc|apply Ht5].
Qed.
End call.

(** C7: a committed batch that carries no change for the delete log merges into a
    row exactly what it carries for it. The one row group of the changes under the row's key is put to the policy as those
    changes with the syncable columns eligible; every data column of a stored row holds
    afterwards the last-writer-wins merge of its former register with the changes the
    policy accepted, while the row HLC does not go back and goes on covering the HLCs of the
    columns, and an absent row stays absent
    or is created as that merge into a row nobody has written; each of the changes is in
    the skip list or is what the row holds of its column. Without a change under the key
    the row is as it was. The other groups of the batch, their failed inserts, the
    savepoints, the trigger gate and the foreign-key guard leave no trace in it. *)
Theorem batch_merges_row `{Unicode} `{Serde} `{!SerdeLaws} `{Uhlc} `{HashOrder} {db : Type} `{RowStore db} {P : Type}
    (policy : ApplyPolicy db P) now conn changes p o m p' conn' table key schema w ps o0 :
  leaves_store policy -> stored_row conn table key schema w ps o0 -> alone conn changes table key schema w ps ->
  no_log_changes changes ->
  commit_batch policy now conn changes p = (Ok (o, m, p'), conn') ->
  exists o1, rows_at conn' table w ps = option_list o1 /\
    batch_made policy changes (map sk_input_index (skipped o)) table key schema o0 o1.
Proof.
  intros Hpol Hrow Halone Hno Hc.
  destruct (commit_batch_row policy Hpol _ _ _ _ _ _ _ _ _ _ _ _ _ _ Hrow Halone Hc) as (cm & _ & Hb).
  apply batch_row_no_log in Hb as (o1 & Hr1 & Hm); [|done]. exists o1. split; [apply Hr1|done].
Qed.

(** C8: a committed batch deletes a row exactly when the delete log says so:
    after the row loop, which merges the batch's changes into the row, the row is
    removed when one of the delete-log entries the batch brought names it with an HLC
    at least as new as the row's then is, and is left as merged when every such entry
    is older; entries for other rows and tables do not touch it. *)
Theorem batch_deletes_row `{Unicode} `{Serde} `{!SerdeLaws} `{Uhlc} `{HashOrder} {db : Type} `{RowStore db} {P : Type}
    (policy : ApplyPolicy db P) now conn changes p o m p' conn' cm table key schema w ps o0 :
  leaves_store policy -> stored_row conn table key schema w ps o0 -> alone conn changes table key schema w ps ->
  commit_batch policy now conn changes p = (Ok (o, m, p'), conn') ->
  merged_store policy now conn changes p = Some cm ->
  (forall id, id ∈ collect_inbound_delete_log_ids changes o -> log_apart cm table w ps id) ->
  exists o1, rows_at cm table w ps = option_list o1 /\
    batch_made policy changes (map sk_input_index (skipped o)) table key schema o0 o1 /\
    rows_at conn' table w ps = option_list
      (if existsb (hits cm table w ps (opt_hlc o1)) (collect_inbound_delete_log_ids changes o) then None else o1).
Proof.
  intros Hpol Hrow Halone Hc Hcm Hap.
  destruct (commit_batch_row policy Hpol _ _ _ _ _ _ _ _ _ _ _ _ _ _ Hrow Halone Hc) as (cm' & Hcm' & o1 & _ & Hr & Hm & Hd).
  rewrite Hcm in Hcm'. injection Hcm' as <-. exists o1. split; [apply Hr|]. split; [done|]. apply Hd. exact Hap.
Qed.

(** ** Concrete batches *)

(** [mini_batch] merges two changes into the row [a] and inserts the row [b]. *)
Lemma mini_stored : stored_row mini_conn "items" (mini_pks "a") mini_schema [WEq "id"] [SText "a"] (Some (mini_row "a" "v" "2/b")).
Proof. split; [apply mini_address; reflexivity|reflexivity|]. intros r [= <-]. split; constructor. Qed.

Lemma mini_batch_keys ch : ch ∈ mini_batch ->
  change_key ch = ("items", mini_pks "a") \/ change_key ch = ("items", mini_pks "b").
Proof.
  unfold mini_batch. intros Hch.
  repeat (apply elem_of_cons in Hch as [->|Hch]; [first [by left|by right]|]). by apply elem_of_nil in Hch.
Qed.

(** The key maps of the concrete rows. *)
Lemma mini_key_map name : key_map mini_schema [("id", JString name)] [WEq "id"] [SText name].
Proof.
  split; [repeat constructor|by vm_compute|exists [JString name]; by split|].
  split; [intros a Ha; apply list_elem_of_singleton in Ha as ->; by exists "id"|].
  by intros Hn%list_elem_of_singleton.
Qed.

Lemma mini_elsewhere (m : Mem) : elsewhere m "items" mini_schema [WEq "id"] [SText "a"] ("items", mini_pks "b").
Proof.
  right. split; [done|]. cbn [snd].
  assert (from_str_map (mini_pks "b") = Some [("id", JString "b")]) as Hb by reflexivity. rewrite Hb.
  intros m' w pkv ps [= <-] _ [= <- <-] [= <-]. split; [apply mini_key_map|].
  intros r. cbn. destruct (bool_decide (mem_get r "id" = SText "a")) eqn:Hr; [|by rewrite ?andb_false_r].
  apply bool_decide_eq_true in Hr. by rewrite Hr.
Qed.

Lemma mini_alone : alone mini_conn mini_batch "items" (mini_pks "a") mini_schema [WEq "id"] [SText "a"].
Proof. intros ch Hch Hne. destruct (mini_batch_keys ch Hch) as [?| ->]; [done|]. apply mini_elsewhere. Qed.

Lemma batch_merges_row_witness :
  fst (commit_batch mini_policy mini_now mini_conn mini_batch tt) = Ok (mini_outcome, Some "5/c", tt) /\
  exists o1, rows_at (snd (commit_batch mini_policy mini_now mini_conn mini_batch tt)) "items" [WEq "id"] [SText "a"] = option_list o1 /\
    batch_made mini_policy mini_batch (map sk_input_index (skipped mini_outcome)) "items" (mini_pks "a") mini_schema
      (Some (mini_row "a" "v" "2/b")) o1.
Proof.
  split; [exact mini_commit|].
  apply (batch_merges_row mini_policy mini_now mini_conn mini_batch tt mini_outcome (Some "5/c") tt
    (snd (commit_batch mini_policy mini_now mini_conn mini_batch tt)) "items" (mini_pks "a") mini_schema
    [WEq "id"] [SText "a"] (Some (mini_row "a" "v" "2/b"))).
  - apply signature_leaves_store.
  - exact mini_stored.
  - exact mini_alone.
  - intros ch Hch. destruct (mini_batch_keys ch Hch) as [[= -> _]|[= -> _]]; discriminate.
  - exact (pair_result _ _ mini_commit).
Defined.

(** A delete-log entry that is newer than the row. *)
Definition mini_log_change (col v : string) : ColumnChange :=
  mkChange DELETED_ROWS_TABLE (mini_pks "d1") col "9/d" (JString v) "dev" None.
Definition mini_delete : list ColumnChange :=
  [mini_log_change "table_name" "items"; mini_log_change "row_pks" (mini_pks "a"); mini_change (mini_pks "a") "body" "5/c"].
Abbreviation mini_delete_run := (commit_batch mini_policy mini_now mini_conn mini_delete tt) (only parsing).
Definition mini_delete_outcome : ApplyOutcome := mkOutcome (mkReport 3 0 0 0 0 0 0 0 0 0 0) [].
Definition mini_merged_store : Mem := default mini_conn (merged_store mini_policy mini_now mini_conn mini_delete tt).
Lemma mini_delete_commit : fst mini_delete_run = Ok (mini_delete_outcome, Some "9/d", tt).
Proof. vm_compute. reflexivity. Qed.

Lemma mini_merged : merged_store mini_policy mini_now mini_conn mini_delete tt = Some mini_merged_store.
Proof.
  assert (match merged_store mini_policy mini_now mini_conn mini_delete tt with Some _ => true | None => false end = true) as Hs
    by (vm_compute; reflexivity).
  unfold mini_merged_store. by destruct (merged_store mini_policy mini_now mini_conn mini_delete tt).
Qed.

Lemma batch_deletes_row_witness :
  collect_inbound_delete_log_ids mini_delete mini_delete_outcome = ["d1"] /\
  rows_at (snd mini_delete_run) "items" [WEq "id"] [SText "a"] = [] /\
  exists o1, rows_at mini_merged_store "items" [WEq "id"] [SText "a"] = option_list o1 /\
    batch_made mini_policy mini_delete (map sk_input_index (skipped mini_delete_outcome)) "items" (mini_pks "a")
      mini_schema (Some (mini_row "a" "v" "2/b")) o1 /\
    rows_at (snd mini_delete_run) "items" [WEq "id"] [SText "a"] = option_list
      (if existsb (hits mini_merged_store "items" [WEq "id"] [SText "a"] (opt_hlc o1))
            (collect_inbound_delete_log_ids mini_delete mini_delete_outcome) then None else o1).
Proof.
  assert (collect_inbound_delete_log_ids mini_delete mini_delete_outcome = ["d1"]) as Hids by (vm_compute; reflexivity).
  split; [exact Hids|]. split; [vm_compute; reflexivity|].
  apply (batch_deletes_row mini_policy mini_now mini_conn mini_delete tt mini_delete_outcome
    (Some "9/d") tt (snd mini_delete_run) mini_merged_store "items" (mini_pks "a")
    mini_schema [WEq "id"] [SText "a"] (Some (mini_row "a" "v" "2/b"))).
  - apply signature_leaves_store.
  - exact mini_stored.
  - intros ch Hch Hne. unfold mini_delete in Hch. apply elem_of_cons in Hch as [->|Hch]; [by left|].
    apply elem_of_cons in Hch as [->|Hch]; [by left|]. apply list_elem_of_singleton in Hch as ->. by destruct Hne.
  - exact (pair_result _ _ mini_delete_commit).
  - exact mini_merged.
  - rewrite Hids. intros id ->%list_elem_of_singleton. unfold log_apart.
    assert (log_target mini_merged_store "d1" = Some (("items", [WEq "id"], [SText "a"]), "9/d")) as -> by (vm_compute; reflexivity).
    split; [reflexivity|]. right. split; [done|by left].
Defined.
