(* ===== verification/Tombstone.v ===== *)
(** * Deleted rows stay deleted (src/crdt/apply/delete_propagation.rs, row.rs)

    The resurrection defense on the rows of [Store]: while the delete log holds an
    entry for a row, no call brings the row back with changes that are not newer than
    the entry. With [Batch.batch_deletes_row] a delete wins over the changes it is at
    least as new as, whichever arrives first. *)

From S2P Require Import Prelude Utf8 Hashing Names Json Sql Mini Hlc Lww Trigger Report Errors Value Scanner Preimage Policy Preflight Grouping Row Write DeleteProp Cleanup Engine EngineLemmas Apply Store Merge Deletes Batch.

(** ** The shadow map *)

Section shadow.
Context `{Unicode} `{Serde} {db : Type} `{RowStore db}.

(** The delete log holds an entry for the key map [m] of a table with the HLC [d]. *)
Definition tombstone (c : db) (table : string) (m : jmap) (d : string) : Prop :=
  exists r pks m', r ∈ rows_at c DELETED_ROWS_TABLE [] [] /\ cell r "table_name" = SText table /\
    cell r "row_pks" = SText pks /\ cell r HLC_TIMESTAMP_COLUMN = SText d /\
    from_str_map pks = Some m' /\ jmap_eqb m' m = true.

Lemma tombstone_spared (c c' : db) table m d :
  Permutation (rows_at c' DELETED_ROWS_TABLE [] []) (rows_at c DELETED_ROWS_TABLE [] []) ->
  tombstone c table m d -> tombstone c' table m d.
Proof. intros Hp (r & pks & m' & Hr & Hrest). exists r, pks, m'. split; [by rewrite Hp|done]. Qed.

Lemma add_shadow_grows m entry table e :
  e ∈ default [] (m !! table) -> e ∈ default [] (add_shadow m entry !! table).
Proof.
  destruct entry as [[t pks] [h|]]; cbn; [|done]. destruct (from_str_map pks); [|done]. intros He.
  destruct (decide (t = table)) as [->|Hne]; [|by rewrite lookup_insert_ne].
  rewrite lookup_insert_eq. cbn. apply elem_of_app. by left.
Qed.

Lemma add_shadows_grow entries : forall m table e,
  e ∈ default [] (m !! table) -> e ∈ default [] (fold_left add_shadow entries m !! table).
Proof. induction entries as [|x entries IH]; intros m table e He; [done|]. by apply IH, add_shadow_grows. Qed.

Lemma add_shadows_entry entries table pks d m' : forall m, (table, pks, Some d) ∈ entries -> from_str_map pks = Some m' ->
  (m', d) ∈ default [] (fold_left add_shadow entries m !! table).
Proof.
  induction entries as [|x entries IH]; intros m Hin Hm; [by apply elem_of_nil in Hin|]. cbn.
  apply elem_of_cons in Hin as [<-|Hin]; [|by apply IH]. apply add_shadows_grow. cbn. rewrite Hm, lookup_insert_eq.
  cbn. apply elem_of_app. right. by left.
Qed.

(** The entries of the log are in the map. *)
Lemma load_shadow_tombstone (c : db) shadow table m d :
  load_delete_shadow_map c = Ok shadow -> tombstone c table m d ->
  exists m', (m', d) ∈ default [] (shadow !! table) /\ jmap_eqb m' m = true.
Proof.
  intros (rows & Hq%map_err_Ok & Hl)%bind_Ok (r & pks & m' & Hr & Ht & Hp & Hd & Hm & Heq).
  pose proof (store_log_all c) as Hlog. rewrite Hq in Hlog. subst rows.
  apply bind_Ok in Hl as (entries & He & [= <-]). exists m'. split; [|done]. eapply add_shadows_entry; [|exact Hm].
  apply try_map_Ok in He. apply list_elem_of_lookup in Hr as [i Hi].
  destruct (Forall2_lookup_l _ _ _ i (map (cell r) ["table_name"; "row_pks"; HLC_TIMESTAMP_COLUMN]) He) as (e & Hei & Hs).
  { change (map ?f ?l) with (f <$> l) at 1. by rewrite list_lookup_fmap, Hi. }
  cbn [map] in Hs. rewrite Ht, Hp, Hd in Hs. injection Hs as <-. by eapply list_elem_of_lookup_2.
Qed.
End shadow.

(** ** The row loop over a deleted row *)

Section loop.
Context `{Unicode} `{Serde} `{!SerdeLaws} `{Uhlc} `{HashOrder} {db : Type} `{RowStore db} {P : Type}
  (policy : ApplyPolicy db P) (Hpolicy : leaves_store policy).
Context (table key : string) (schema : list ColumnInfo) (w : list watom) (ps : list SqlValue) (d : string).

(** Every change of the group is at most as new as the entry. *)
Definition older (group : list (nat * ColumnChange)) : Prop :=
  forall e, e ∈ group -> cmp_le compare_hlc_strings (hlc_timestamp (snd e)) d.

Lemma shadowed_by m m' (shadow : DeleteShadowMap) row_max :
  (m', d) ∈ default [] (shadow !! table) -> jmap_eqb m' m = true -> cmp_le compare_hlc_strings row_max d ->
  insert_shadowed table m row_max shadow = true.
Proof.
  intros Hin Heq Hle. unfold insert_shadowed, insert_suppressed_by_deletes. apply existsb_exists. exists (m', d).
  split; [by apply list_elem_of_In|]. apply andb_true_iff. split; [exact Heq|].
  unfold delete_shadows_insert, cmp_le in *. cbn [snd]. by destruct (compare_hlc_strings row_max d).
Qed.

(** The group of the deleted row leaves the store. *)
Lemma shadowed_group m m' (shadow : DeleteShadowMap) group (st st' : ApplyState db P) :
  row_address (st_tx st) table key schema w ps -> from_str_map key = Some m ->
  (m', d) ∈ default [] (shadow !! table) -> jmap_eqb m' m = true -> older group ->
  rows_at (st_tx st) table w ps = [] ->
  process_row_group policy shadow st ((table, key), group) = Ok st' -> same_store (st_tx st) (st_tx st').
Proof.
  intros Haddr Hm Hin Heq Hold Hr Hg.
  destruct (process_row_group_addressed policy _ _ _ _ _ group shadow st Haddr) as (row_pks & pkv & Hm2 & _ & Hps & Hpg).
  rewrite Hm in Hm2. injection Hm2 as <-. rewrite Hpg in Hg.
  apply (process_identified_effect policy Hpolicy) in Hg as (existing & input & dec & p1 & tx1 & Hf & _ & _ & Heff).
  eapply fetch_existing_rows in Hf; [|done]. rewrite Hr in Hf. subst existing.
  destruct Heff as [(Hs & _)|(sel & skip & rep & row_max & tx2 & _ & _ & Hinv & Hmax & _ & Hsh & _ & Hgr & _)]; [done|].
  exfalso. rewrite (shadowed_by m m' shadow row_max Hin Heq) in Hsh; [by specialize (Hsh eq_refl)|].
  unfold max_hlc, expect in Hmax. destruct (hlc_max _) as [h|] eqn:Hh; [|done]. injection Hmax as <-.
  apply (max_by_spec compare_hlc_strings) in Hh as [Hh _]. apply in_map_iff in Hh as (s & <- & Hs%list_elem_of_In).
  exact (Hold _ (Hgr s Hs)).
Qed.

(** The whole loop leaves the row absent and the entries of the log alone. *)
Lemma shadowed_groups m m' (shadow : DeleteShadowMap) gs : forall (st st' : ApplyState db P),
  row_address (st_tx st) table key schema w ps -> from_str_map key = Some m ->
  (m', d) ∈ default [] (shadow !! table) -> jmap_eqb m' m = true ->
  (forall g, g ∈ gs -> (fst g = (table, key) /\ older (snd g)) \/
     (fst g <> (table, key) /\ elsewhere (st_tx st) table schema w ps (fst g))) ->
  rows_at (st_tx st) table w ps = [] ->
  process_row_groups policy shadow st gs = Ok st' -> rows_at (st_tx st') table w ps = [].
Proof.
  induction gs as [|[k group] gs IH]; intros st st' Haddr Hm Hin Heq Hgs Hr; cbn [process_row_groups]; [by intros [= <-]|].
  intros (st1 & Hg & Hl)%bind_Ok.
  assert (spares table w ps (st_tx st) (st_tx st1)) as [Hs1 Hr1].
  { destruct (Hgs (k, group) ltac:(by left)) as [[Hk Hold]|[_ Hel]]; cbn [fst snd] in *.
    - subst k. apply same_store_spares. by eapply shadowed_group.
    - by eapply (process_row_group_spares policy Hpolicy). }
  rewrite Hr in Hr1. apply Permutation_nil_r in Hr1.
  apply (IH st1 st'); [by eapply row_address_same|done..| |done|exact Hl].
  intros g Hg'. destruct (Hgs g ltac:(by right)) as [?|[Hne Hel]]; [by left|right]. split; [done|]. by eapply elsewhere_same.
Qed.

(** Groups of other tables leave the log. *)
Lemma log_spared shadow gs : forall (st st' : ApplyState db P),
  (forall g, g ∈ gs -> eq_ignore_ascii_case (fst (fst g)) DELETED_ROWS_TABLE = false) ->
  process_row_groups policy shadow st gs = Ok st' ->
  Permutation (rows_at (st_tx st') DELETED_ROWS_TABLE [] []) (rows_at (st_tx st) DELETED_ROWS_TABLE [] []).
Proof.
  induction gs as [|[[t pks] group] gs IH]; intros st st' Hgs; cbn [process_row_groups]; [by intros [= <-]|].
  intros (st1 & Hg & Hl)%bind_Ok. etransitivity; [eapply IH; [|exact Hl]; intros g Hg'; apply Hgs; by right|].
  apply (process_row_group_cases policy) in Hg as [->|(sch & m & w' & pkv & ps' & _ & _ & _ & _ & Hps & Hg)]; [done|].
  eapply (process_identified_spares policy Hpolicy) in Hg as [_ Hp]; [exact Hp|exact Hps|left].
  exact (Hgs ((t, pks), group) ltac:(by left)).
Qed.
End loop.

(** ** A whole call *)

Section call.
Context `{Unicode} `{Serde} `{!SerdeLaws} `{Uhlc} `{HashOrder} {db : Type} `{RowStore db} {P : Type}
  (policy : ApplyPolicy db P) (Hpolicy : leaves_store policy).

(** No change is for the delete log, however its name is spelled. *)
Definition off_log (changes : list ColumnChange) : Prop :=
  forall ch, ch ∈ changes -> eq_ignore_ascii_case (table_name ch) DELETED_ROWS_TABLE = false.

Lemma off_log_no_log changes : off_log changes -> no_log_changes changes.
Proof. intros Hoff ch Hch Heq. specialize (Hoff ch Hch). rewrite Heq in Hoff. by vm_compute in Hoff. Qed.

Lemma off_log_groups changes : off_log changes ->
  forall g, g ∈ row_groups_of changes -> eq_ignore_ascii_case (fst (fst g)) DELETED_ROWS_TABLE = false.
Proof. intros Hoff [k group] Hg. destruct (row_group_key _ _ _ Hg) as (c & Hc & <-). by apply Hoff. Qed.

Lemma merged_store_deleted now conn changes p cm table key schema w ps m d :
  stored_row conn table key schema w ps None -> alone conn changes table key schema w ps ->
  from_str_map key = Some m -> tombstone conn table m d ->
  (forall ch, ch ∈ changes_at (table, key) changes -> cmp_le compare_hlc_strings (hlc_timestamp ch) d) ->
  merged_store policy now conn changes p = Some cm -> rows_at cm table w ps = [].
Proof.
  intros Hrow Hal Hm Htomb Hold. unfold merged_store. destruct (preflight_batch _ _ _ _) as [p1| |]; [|done..].
  destruct (execute conn (SetForeignKeys false) []) as [[n c1]| |] eqn:Hoff; [|done..].
  apply store_keeps in Hoff. cbn in Hoff. destruct (merged_state policy changes p1 c1) as [st| |] eqn:Hst; [|done..].
  intros [= <-]. revert Hst. unfold merged_state. intros (tx1 & Ht1%toggle_same_store & Hr)%bind_Ok.
  apply bind_Ok in Hr as ([p2 tx2] & Hb%(ls_begin policy Hpolicy) & Hr). cbn [fst snd] in Hr.
  apply bind_Ok in Hr as (shadow & Hsh%map_err_Ok & Hl).
  assert (same_store conn tx2) as Hs by (etrans; [exact Hoff|]; by etrans).
  destruct (load_shadow_tombstone tx2 shadow table m d Hsh) as (m' & Hin & Heq);
    [eapply tombstone_spared; [by rewrite (proj2 Hs)|done]|].
  eapply (same_store_row conn tx2) in Hrow; [|done].
  apply (shadowed_groups policy Hpolicy table key schema w ps d m m' shadow (row_groups_of changes)
    (mkApplyState tx2 p2 default_outcome None)); [apply Hrow|done..| |apply Hrow|exact Hl].
  intros [k group] Hg. cbn [fst snd]. destruct (decide (k = (table, key))) as [->|Hne]; [left|right]; (split; [done|]).
  - intros e He. apply Hold. destruct (row_group_changes _ _ _ Hg) as [Hp _]. rewrite <- Hp.
    by apply (list_elem_of_fmap_2 snd) in He.
  - destruct (row_group_key _ _ _ Hg) as (c & Hc & <-). eapply elsewhere_same; [apply Hs|]. by apply Hal.
Qed.

Lemma commit_batch_log now conn changes p o mx p' conn' :
  off_log changes -> commit_batch policy now conn changes p = (Ok (o, mx, p'), conn') ->
  Permutation (rows_at conn' DELETED_ROWS_TABLE [] []) (rows_at conn DELETED_ROWS_TABLE [] []).
Proof.
  intros Hoff. unfold commit_batch. destruct (preflight_batch _ _ _ _) as [p1| |]; [|done..].
  intros (n & c1 & c2 & Hfk & Htx%run_tx_Ok & [_ Hr2])%with_fk_disabled_store.
  apply store_keeps in Hfk. cbn in Hfk. rewrite Hr2, <- (proj2 Hfk).
  revert Htx. unfold apply_body. intros (tx1 & [_ Ht1]%toggle_same_store & Hr)%bind_Ok.
  apply bind_Ok in Hr as ([p2 tx2] & [_ Hb]%(ls_begin policy Hpolicy) & Hr). apply bind_Ok in Hr as (shadow & _ & Hr).
  apply bind_Ok in Hr as (st & Hst & Hr). rewrite no_inbound_ids in Hr by by apply off_log_no_log.
  apply (log_spared policy Hpolicy) in Hst; [|by apply off_log_groups]. cbn [st_tx] in Hst.
  apply bind_Ok in Hr as ([tx3 rep] & [= <- <-]%map_err_Ok & Hr).
  apply bind_Ok in Hr as ([p3 tx4] & [_ Hc]%(ls_before_commit policy Hpolicy) & Hr).
  apply bind_Ok in Hr as (tx5 & [_ Ht5]%toggle_same_store & [= _ _ _ <-]).
  by rewrite Ht5, Hc, Hst, Hb, Ht1.
Qed.
End call.

(** A deleted row stays deleted: while the delete log holds an entry for a
    row that is gone, a committed batch whose changes for the row are not newer than the
    entry does not bring it back; every one of them is in the skip list, and the entry
    is still there for the next batch. *)
Theorem deleted_row_stays_deleted `{Unicode} `{Serde} `{!SerdeLaws} `{Uhlc} `{HashOrder} {db : Type} `{RowStore db} {P : Type}
    (policy : ApplyPolicy db P) now conn changes p o mx p' conn' table key schema w ps m d :
  leaves_store policy -> stored_row conn table key schema w ps None -> alone conn changes table key schema w ps ->
  off_log changes -> from_str_map key = Some m -> tombstone conn table m d ->
  (forall ch, ch ∈ changes_at (table, key) changes -> cmp_le compare_hlc_strings (hlc_timestamp ch) d) ->
  commit_batch policy now conn changes p = (Ok (o, mx, p'), conn') ->
  rows_at conn' table w ps = [] /\ tombstone conn' table m d /\
  forall i ch, changes !! i = Some ch -> change_key ch = (table, key) -> i ∈ map sk_input_index (skipped o).
Proof.
  intros Hpol Hrow Hal Hoff Hm Htomb Hold Hc.
  destruct (commit_batch_row policy Hpol _ _ _ _ _ _ _ _ _ _ _ _ _ _ Hrow Hal Hc) as (cm & Hcm & Hb).
  pose proof (merged_store_deleted policy Hpol _ _ _ _ _ _ _ _ _ _ _ _ Hrow Hal Hm Htomb Hold Hcm) as Hgone.
  destruct Hb as (o1 & _ & Hr1 & Hmade & Hd). rewrite no_inbound_ids in Hd by by apply off_log_no_log.
  destruct Hr1 as [_ Hr1 _]. rewrite Hgone in Hr1. destruct o1 as [r1|]; [done|].
  split; [apply Hd; by intros id Hid%elem_of_nil|]. split.
  { eapply tombstone_spared; [|exact Htomb]. by eapply (commit_batch_log policy Hpol). }
  intros i ch Hi Hk. destruct Hmade as [[Hnone _]|(group & input & dec & q & tx & q' & tx' & _ & _ & Hidx & _ & _ & _ & Hland)].
  - assert (ch ∈ changes_at (table, key) changes) as Hin by (apply list_elem_of_filter; split; [done|by eapply list_elem_of_lookup_2]).
    rewrite Hnone in Hin. by apply elem_of_nil in Hin.
  - destruct (Hland i ch) as [?|(r1 & Hr & _)]; [by apply Hidx|done|done].
Qed.

(** ** A concrete deleted row *)

Definition mini_log_row : gmap string SqlValue :=
  list_to_map [("id", SText "d1"); ("table_name", SText "items"); ("row_pks", SText (mini_pks "a"));
               (HLC_TIMESTAMP_COLUMN, SText "9/d"); (COLUMN_HLCS_COLUMN, SText "{}")].
Definition mini_buried : Mem :=
  mkMem (list_to_map [("items", mkMemTable mini_schema []); (DELETED_ROWS_TABLE, mkMemTable mini_log_schema [mini_log_row])])
    ∅ [] true.
Definition mini_late : list ColumnChange := [mini_change (mini_pks "a") "body" "5/c"].
Definition mini_late_outcome : ApplyOutcome := mkOutcome (mkReport 0 0 1 0 0 0 0 0 0 0 0) [mkSkipped 0 ShadowedByDelete].
Abbreviation mini_late_run := (commit_batch mini_policy mini_now mini_buried mini_late tt) (only parsing).

Lemma mini_late_commit : fst mini_late_run = Ok (mini_late_outcome, None, tt).
Proof. vm_compute. reflexivity. Qed.

Lemma mini_tombstone : tombstone mini_buried "items" [("id", JString "a")] "9/d".
Proof.
  exists mini_log_row, (mini_pks "a"), [("id", JString "a")].
  assert (rows_at mini_buried DELETED_ROWS_TABLE [] [] = [mini_log_row]) as -> by reflexivity.
  split; [by left|]. repeat (split; [reflexivity|]). reflexivity.
Qed.

Lemma deleted_row_stays_deleted_witness :
  rows_at (snd mini_late_run) "items" [WEq "id"] [SText "a"] = [] /\
  tombstone (snd mini_late_run) "items" [("id", JString "a")] "9/d" /\
  forall i ch, mini_late !! i = Some ch -> change_key ch = ("items", mini_pks "a") ->
    i ∈ map sk_input_index (skipped mini_late_outcome).
Proof.
  apply (deleted_row_stays_deleted mini_policy mini_now mini_buried mini_late tt mini_late_outcome None tt
    (snd mini_late_run) "items" (mini_pks "a") mini_schema [WEq "id"] [SText "a"] [("id", JString "a")] "9/d").
  - apply signature_leaves_store.
  - split; [apply mini_address; reflexivity|reflexivity|done].
  - intros ch Hch Hne. apply list_elem_of_singleton in Hch as ->. by destruct Hne.
  - intros ch Hch. by apply list_elem_of_singleton in Hch as ->.
  - reflexivity.
  - exact mini_tombstone.
  - intros ch [_ Hch]%list_elem_of_filter. apply list_elem_of_singleton in Hch as ->. vm_compute. discriminate.
  - exact (pair_result _ _ mini_late_commit).
Defined.
