(* ===== verification/Sync.v ===== *)
(** * A row from one replica to another (scanner/, apply/)

    What the scanner ships of a stored row and what the row loop of another
    replica makes of it: the row's columns are registers, a scan sends them and
    an apply merges them. *)

From S2P Require Import Prelude Utf8 Hashing Names Json Sql Mini Hlc Lww Trigger Report Errors Value Scanner Preimage Policy Preflight Grouping Row Write DeleteProp Engine EngineLemmas Apply Store Merge.

Abbreviation stored := (gmap string SqlValue).

(** ** What a scan ships *)

Section ship.
Context `{Unicode} `{Serde}.

Definition data_names (schema : list ColumnInfo) : list string := map ci_name (snd (partition_columns schema)).

(** The row as the scanner's SELECT reads it, and as JSON. *)
Definition scanned (schema : list ColumnInfo) (r : stored) : list SqlValue := map (cell r) (select_columns_of schema).
Definition json_row (schema : list ColumnInfo) (r : stored) : gmap string json :=
  list_to_map (map (fun c => (c, convert_value_ref_to_json (cell r c))) (select_columns_of schema)).
Definition key_json (schema : list ColumnInfo) (r : stored) : string :=
  pk_json (json_row schema r) (fst (partition_columns schema)).

(** The changes of one row in an unfiltered scan. *)
Definition shipped (schema : list ColumnInfo) (table device : string) (r : stored) : list ColumnChange :=
  flat_map (emit_column table (key_json schema r) (json_row schema r) None device None)
    (snd (partition_columns schema)).

(** The HLC a column travels with: its own, else the row's. *)
Definition column_hlc (r : stored) (col : string) : option string :=
  match (jget col (row_hlcs r) ≫= as_str) ≫= non_empty with
  | Some h => Some h
  | None => non_empty (row_hlc r)
  end.

Lemma json_row_lookup schema r c :
  json_row schema r !! c =
    if bool_decide (c ∈ select_columns_of schema) then Some (convert_value_ref_to_json (cell r c)) else None.
Proof.
  unfold json_row. induction (select_columns_of schema) as [|d cols IH]; cbn; [done|].
  destruct (decide (d = c)) as [->|Hne].
  - rewrite lookup_insert_eq. rewrite bool_decide_eq_true_2; [done|by left].
  - rewrite lookup_insert_ne, IH by done. erewrite bool_decide_ext; [done|]. rewrite elem_of_cons. naive_solver.
Qed.

Lemma read_row_cells (r : stored) cols : forall pre m,
  exists m', read_row (pre ++ map (cell r) cols) (length pre) cols m = Ok m' /\
    forall c, m' !! c = if bool_decide (c ∈ cols) then Some (convert_value_ref_to_json (cell r c)) else m !! c.
Proof.
  induction cols as [|d cols IH]; intros pre m; cbn [read_row map].
  - exists m. split; [done|]. intros c. by rewrite bool_decide_eq_false_2 by apply not_elem_of_nil.
  - assert ((pre ++ cell r d :: map (cell r) cols) !! length pre = Some (cell r d)) as ->
      by (rewrite lookup_app_r, Nat.sub_diag by lia; done).
    cbn [ok_or mbind res_bind].
    destruct (IH (pre ++ [cell r d]) (<[d := convert_value_ref_to_json (cell r d)]> m)) as (m' & Hm' & Hl).
    rewrite <- app_assoc, length_app, Nat.add_1_r in Hm'. exists m'. split; [exact Hm'|]. intros c. rewrite Hl.
    destruct (decide (c = d)) as [->|Hne].
    + rewrite lookup_insert_eq, (bool_decide_eq_true_2 (d ∈ d :: cols)) by by left. by case_bool_decide.
    + rewrite lookup_insert_ne by done. erewrite bool_decide_ext; [done|]. rewrite elem_of_cons. naive_solver.
Qed.

(** The emitter sees the row through [json_row]. *)
Lemma emit_shipped schema table device r :
  emit_row_changes (scanned schema r) (select_columns_of schema) (fst (partition_columns schema))
    (snd (partition_columns schema)) table None device None None = Ok (shipped schema table device r).
Proof.
  unfold emit_row_changes. destruct (read_row_cells r (select_columns_of schema) [] ∅) as (m & Hm & Hl).
  cbn [app length] in Hm. unfold scanned. rewrite Hm. cbn [mbind res_bind].
  assert (m = json_row schema r) as -> by (apply map_eq; intros c; by rewrite Hl, json_row_lookup, lookup_empty).
  done.
Qed.

(** The parts of a row a scan depends on are proper SQLite values. *)
Record scannable (schema : list ColumnInfo) (r : stored) : Prop := {
  scan_wf : row_wf r;
  scan_hlcs : storable (cell r COLUMN_HLCS_COLUMN) = true;
  scan_row_hlc : storable (cell r HLC_TIMESTAMP_COLUMN) = true;
  scan_data : forall c, c ∈ data_names schema -> storable (cell r c) = true;
}.

Lemma select_columns_data schema c : c ∈ data_names schema -> c ∈ select_columns_of schema.
Proof. intros Hc. unfold select_columns_of. cbn [partition_columns]. apply elem_of_app. right. apply elem_of_app. by left. Qed.
Lemma select_columns_meta schema :
  HLC_TIMESTAMP_COLUMN ∈ select_columns_of schema /\ COLUMN_HLCS_COLUMN ∈ select_columns_of schema.
Proof.
  unfold select_columns_of. cbn [partition_columns].
  split; do 2 (apply elem_of_app; right); apply elem_of_app; left; set_solver.
Qed.

Lemma all_strings_string_map m : string_map m -> all_strings m = true.
Proof.
  intros Hm. apply forallb_forall. intros e He. unfold string_map in Hm. rewrite Forall_forall in Hm.
  by destruct (Hm e) as [s ->]; [by apply list_elem_of_In|].
Qed.

Lemma column_hlcs_of_row schema r : scannable schema r -> column_hlcs_of (json_row schema r) = row_hlcs r.
Proof.
  intros [[_ Hm] Hh _ _]. unfold column_hlcs_of, row_hlcs in *. rewrite json_row_lookup.
  rewrite bool_decide_eq_true_2 by apply select_columns_meta.
  destruct (cell r COLUMN_HLCS_COLUMN) as [| | |s|]; try done. cbn in *.
  rewrite from_utf8_lossy_valid by done. unfold from_str_string_map.
  destruct (from_str_map s) as [m|]; [|done]. cbn in Hm. by rewrite all_strings_string_map.
Qed.

Lemma row_hlc_of_row schema r : scannable schema r -> row_hlc_of (json_row schema r) = non_empty (row_hlc r).
Proof.
  intros [_ _ Hh _]. unfold row_hlc_of, row_hlc. rewrite json_row_lookup.
  rewrite bool_decide_eq_true_2 by apply select_columns_meta.
  destruct (cell r HLC_TIMESTAMP_COLUMN) as [| | |s|]; try done. cbn in *. by rewrite from_utf8_lossy_valid.
Qed.

Lemma hlc_to_use_row schema r c : scannable schema r -> hlc_to_use (json_row schema r) c = column_hlc r c.
Proof.
  intros Hr. unfold hlc_to_use, column_hlc. by rewrite (column_hlcs_of_row schema), (row_hlc_of_row schema).
Qed.

(** ** What the changes write *)

Definition write_of (col : string) (c : ColumnChange) : option (string * SqlValue) :=
  if String.eqb (column_name c) col
  then match json_to_rusqlite_value (value c) with Ok v => Some (hlc_timestamp c, v) | _ => None end
  else None.

(** The register of a column as the row sends it. *)
Definition sent (schema : list ColumnInfo) (r : stored) (col : string) : list (string * SqlValue) :=
  if bool_decide (col ∈ data_names schema)
  then match column_hlc r col with Some h => [(h, cell r col)] | None => [] end
  else [].

Lemma emit_column_writes schema table device r col c :
  scannable schema r -> ci_name c ∈ data_names schema ->
  omap (write_of col) (emit_column table (key_json schema r) (json_row schema r) None device None c) =
    if String.eqb (ci_name c) col
    then match column_hlc r col with Some h => [(h, cell r col)] | None => [] end else [].
Proof.
  intros Hr Hc. unfold emit_column. rewrite (hlc_to_use_row schema) by done.
  destruct (String.eqb_spec (ci_name c) col) as [<-|Hne].
  - destruct (column_hlc r (ci_name c)) as [h|]; [|done]. cbn [passes_hlc passes_origin andb].
    rewrite json_row_lookup, bool_decide_eq_true_2 by by apply select_columns_data.
    cbn. unfold write_of. cbn. rewrite String.eqb_refl.
    by rewrite convert_round_trip by by apply (scan_data _ _ Hr).
  - destruct (column_hlc _ _) as [h|]; [|done]. cbn. unfold write_of. cbn. by apply String.eqb_neq in Hne as ->.
Qed.

Lemma shipped_writes schema table device r col :
  scannable schema r -> NoDup (data_names schema) ->
  omap (write_of col) (shipped schema table device r) = sent schema r col.
Proof.
  intros Hr. unfold shipped, sent, data_names.
  assert (forall c, c ∈ snd (partition_columns schema) -> ci_name c ∈ data_names schema) as Hin
    by (intros c Hc; by apply list_elem_of_fmap_2).
  revert Hin. induction (snd (partition_columns schema)) as [|c cols IH]; intros Hin Hnd.
  - by rewrite bool_decide_eq_false_2 by apply not_elem_of_nil.
  - cbn [flat_map map] in *. apply NoDup_cons in Hnd as [Hc Hnd].
    rewrite omap_app, emit_column_writes by (try done; apply Hin; by left).
    rewrite IH; [|intros d Hd; apply Hin; by right|done].
    destruct (String.eqb_spec (ci_name c) col) as [<-|Hne].
    + rewrite (bool_decide_eq_false_2 (_ ∈ map ci_name cols)) by done.
      rewrite bool_decide_eq_true_2 by by left. by rewrite app_nil_r.
    + cbn. erewrite bool_decide_ext; [done|]. rewrite elem_of_cons. naive_solver.
Qed.

Lemma shipped_column schema table device r c :
  c ∈ shipped schema table device r -> column_name c ∈ data_names schema /\ row_pks c = key_json schema r.
Proof.
  unfold shipped. rewrite list_elem_of_In, in_flat_map. intros (ci & Hci & Hc).
  unfold emit_column in Hc. destruct (hlc_to_use _ _); [|done]. destruct (_ && _); [|done].
  destruct Hc as [<-|[]]. cbn. split; [|done]. apply list_elem_of_fmap_2. by apply list_elem_of_In.
Qed.
End ship.

(** ** What the receiving replica makes of it *)

Section receive.
Context `{Unicode} `{Serde} `{!SerdeLaws} `{Uhlc} `{Base64} {db : Type} `{RowStore db} (provider : SignatureProvider).

(** The signature policy accepts every eligible change with the value its
    JSON stands for. *)
Lemma signature_writes schema group input p (tx : db) d p1 tx1 col :
  asks schema group input -> signature_prepare_row p tx input = Ok (d, p1, tx1) ->
  column_writes col (decided d (eligible_of schema group)) =
    omap (write_of col) (map ic_change (eligible_of schema group)).
Proof.
  unfold signature_prepare_row. intros [_ Hel] (ds & Hds & [= <- <- <-])%bind_Ok. cbn [decided].
  apply try_map_Ok in Hds. revert ds Hds. induction Hel as [|k ic idxs elig Hk Hel IH]; intros ds Hds.
  - by apply Forall2_nil_inv_l in Hds as ->.
  - apply Forall2_cons_inv_l in Hds as (d & ds' & Hd & Hds & ->). specialize (IH ds' Hds).
    unfold signature_decision in Hd. rewrite Hk in Hd. cbn in Hd.
    apply bind_Ok in Hd as (v & Hv%map_err_Ok & [= <-]).
    assert (forall A B (f : A -> option B) x l, omap f (x :: l) = match f x with Some y => y :: omap f l | None => omap f l end)
      as Homap by done.
    unfold column_writes in *. cbn [zip zip_with map]. rewrite !Homap. unfold proposed at 1, write_of at 1.
    cbn [fst snd]. rewrite Hv. destruct (String.eqb _ col); cbn [map]; by rewrite IH.
Qed.

Lemma signature_accepts schema group input p (tx : db) d p1 tx1 v sg ic :
  asks schema group input -> signature_prepare_row p tx input = Ok (d, p1, tx1) ->
  (Accept v sg, ic) ∈ decided d (eligible_of schema group) -> json_to_rusqlite_value (value (ic_change ic)) = Ok v.
Proof.
  unfold signature_prepare_row. intros [_ Hel] (ds & Hds & [= <- <- <-])%bind_Ok. cbn [decided].
  apply try_map_Ok in Hds. revert ds Hds. induction Hel as [|k ic' idxs elig Hk Hel IH]; intros ds Hds.
  - apply Forall2_nil_inv_l in Hds as ->. by intros ?%elem_of_nil.
  - apply Forall2_cons_inv_l in Hds as (d & ds' & Hd & Hds & ->).
    intros [[= <- <-]|Hin]%elem_of_cons; [|by eapply IH].
    unfold signature_decision in Hd. rewrite Hk in Hd. cbn in Hd. by apply bind_Ok in Hd as (v' & Hv%map_err_Ok & [= -> _]).
Qed.

Lemma data_names_nodup schema : NoDup (map ci_name schema) -> NoDup (data_names schema).
Proof.
  intros Hnd. unfold data_names. cbn [partition_columns snd].
  eapply sublist_NoDup; [exact Hnd|]. apply fmap_sublist, sublist_filter.
Qed.

Lemma eligible_all schema group :
  NoDup (map ci_name schema) -> (forall c, c ∈ map snd group -> column_name c ∈ data_names schema) ->
  map ic_change (eligible_of schema group) = map snd group.
Proof.
  intros Hnd Hall. unfold eligible_of.
  replace (filter _ _) with (indexed_of group); [unfold indexed_of; by rewrite map_map|].
  assert (forall ic, ic ∈ indexed_of group -> column_name (ic_change ic) ∈ data_names schema) as Hin.
  { intros ic (e & -> & He)%list_elem_of_fmap. cbn. apply Hall. by apply list_elem_of_fmap_2. }
  induction (indexed_of group) as [|ic l IH]; [done|]. rewrite filter_cons_True.
  - f_equal. apply IH. intros ic' Hic. apply Hin. by right.
  - apply (classify_eligibility_matches_scanner schema _ Hnd), Hin. by left.
Qed.

(** The row [r1] is [r0] after the registers of [rA] were merged into it. *)
Record received (schema : list ColumnInfo) (rA r0 r1 : stored) : Prop := {
  rec_wf : row_wf r1;
  rec_row_hlc : cmp_le compare_hlc_strings (row_hlc r0) (row_hlc r1);
  rec_columns : forall col, is_meta_column col = false ->
    state_register (row_hlcs r1, r1) col
      (lww_merge fst (mkReg (stored_hlc (row_hlcs r0) col) None) (sent schema rA col)) (r0 !! col);
}.

(** The cells of the synced columns are as the columns store them. *)
Definition affine (schema : list ColumnInfo) (r : stored) : Prop :=
  forall col, col ∈ data_names schema -> stored_as schema col (cell r col) = cell r col.

Lemma sent_stored schema r col : affine schema r -> map (as_stored schema col) (sent schema r col) = sent schema r col.
Proof.
  intros Ha. unfold sent. case_bool_decide as Hcol; [|done]. destruct (column_hlc r col); [|done].
  cbn. unfold as_stored. cbn. by rewrite Ha.
Qed.

Lemma receive_merges table schema device w ps rA r0 group shadow (st st' : ApplyState db unit) :
  NoDup (map ci_name schema) -> scannable schema rA -> affine schema rA ->
  Permutation (map snd group) (shipped schema table device rA) ->
  row_address (st_tx st) table (key_json schema rA) schema w ps ->
  row_of (st_tx st) table w ps = Some r0 -> row_wf r0 ->
  process_row_group (SignatureApplyPolicy provider) shadow st ((table, key_json schema rA), group) = Ok st' ->
  exists r1, row_of (st_tx st') table w ps = Some r1 /\ received schema rA r0 r1.
Proof.
  intros Hnd Hscan Haff Hperm Haddr Hr Hwf Hg.
  eapply process_row_group_merged in Hg as (input & d & p1 & tx1 & r1 & Hask & Hprep & Hr1 & Hm);
    [|apply signature_leaves_store|done..].
  exists r1. split; [done|]. destruct Hm as (Hwf1 & [Hle _] & Hcols). split; [done|done|]. intros col Hcol.
  assert (forall c, c ∈ map snd group -> column_name c ∈ data_names schema) as Hin.
  { intros c Hc. rewrite Hperm in Hc. by apply shipped_column in Hc as [? _]. }
  change (signature_prepare_row (st_policy st) (st_tx st) input = Ok (d, p1, tx1)) in Hprep.
  pose proof (signature_writes _ _ _ _ _ _ _ _ col Hask Hprep) as Hws.
  rewrite (eligible_all _ _ Hnd Hin) in Hws.
  assert (column_writes col (decided d (eligible_of schema group)) = sent schema rA col) as Hsent;
    [|specialize (Hcols col Hcol); by rewrite Hsent, sent_stored in Hcols].
  rewrite Hws. pose proof (omap_Permutation (write_of col) _ _ Hperm) as Hp.
  rewrite (shipped_writes schema table device rA col Hscan (data_names_nodup _ Hnd)) in Hp.
  unfold sent in *. destruct (bool_decide _); [|by apply Permutation_nil_r in Hp].
  destruct (column_hlc rA col); [by apply Permutation_singleton_r in Hp|by apply Permutation_nil_r in Hp].
Qed.
End receive.

(** ** Scanning a table of stored rows *)

(** The rows the cursor predicate admits: [hlc > ?] compares TEXT byte by byte,
    numbers are below it and BLOBs above; and the rows without an HLC. *)
Definition after_cursor (h : string) (r : stored) : bool :=
  match cell r HLC_TIMESTAMP_COLUMN with
  | SNull | SBlob _ => true
  | SText s => String.eqb s EmptyString || match String.compare s h with Gt => true | _ => false end
  | _ => false
  end.

(** What is relied on of SQLite: an unfiltered SELECT reads the rows of the
    table, each with the cells of the columns asked for, one with the cursor predicate
    those it admits, and a cell holds a value as its column stores it. *)
Class RowScan (db : Type) `{Affinity} `{Rusqlite db} := {
  rows_of : db -> string -> list stored;
  scan_selects : forall c t cols rows, query c (Scan cols t []) [] = Ok rows ->
    rows = map (fun r => map (cell r) cols) (rows_of c t);
  scan_after : forall c t cols h rows, query c (Scan cols t [AfterHlc 1]) [SText h] = Ok rows ->
    exists admitted, rows = map (fun r => map (cell r) cols) admitted /\
      Permutation admitted (List.filter (after_cursor h) (rows_of c t));
  scan_stored : forall c t schema r col, table_info c t = Ok schema -> r ∈ rows_of c t ->
    stored_as schema col (cell r col) = cell r col;
}.

Definition changes_of_row (key : string) (changes : list ColumnChange) : list ColumnChange :=
  List.filter (fun c => String.eqb (row_pks c) key) changes.

Section table.
Context `{Unicode} `{Serde} {db : Type} `{RowScan db}.

Lemma scan_table_shipped (c : db) table device schema changes :
  scan_table_for_local_changes c table None device default_filters = Ok changes ->
  get_table_schema c table = Ok schema ->
  changes = flat_map (shipped schema table device) (rows_of c table).
Proof.
  unfold scan_table_for_local_changes. cbn [column_eq default_filters mbind res_bind].
  intros Hs Hsch. rewrite Hsch in Hs. cbn [db_from_sql map_err mbind res_bind] in Hs.
  destruct schema as [|ci schema]; [injection Hs as <-; by induction (rows_of c table)|].
  set (sch := ci :: schema) in *. destruct (fst (partition_columns sch)) eqn:Hpk; [done|].
  destruct (missing_columns sch); [|done].
  change (scan_rows c table sch None device default_filters) with
    (rows ← @db_from_sql (list (list SqlValue)) (query c (Scan (select_columns_of sch) table []) []);
     css ← try_map (fun row => emit_row_changes row (select_columns_of sch) (fst (partition_columns sch))
                      (snd (partition_columns sch)) table None device None None) rows;
     Ok (concat css)) in Hs.
  clearbody sch. apply bind_Ok in Hs as (rows & Hq%map_err_Ok & (css & Hc & [= <-])%bind_Ok).
  apply scan_selects in Hq as ->. apply try_map_Ok in Hc.
  revert css Hc. induction (rows_of c table) as [|r rs IH]; intros css Hc; cbn [map] in Hc.
  - by apply Forall2_nil_inv_l in Hc as ->.
  - apply Forall2_cons_inv_l in Hc as (cs & css' & Hcs & Hc & ->). cbn [concat flat_map].
    f_equal; [|by apply IH]. pose proof (emit_shipped sch table device r) as He. unfold scanned in He. congruence.
Qed.

Lemma changes_of_shipped schema table device r key :
  changes_of_row key (shipped schema table device r) =
    if String.eqb (key_json schema r) key then shipped schema table device r else [].
Proof.
  pose proof (fun c Hc => proj2 (shipped_column schema table device r c Hc)) as Hk. unfold changes_of_row.
  destruct (String.eqb_spec (key_json schema r) key) as [<-|Hne].
  - induction (shipped schema table device r) as [|c l IH]; [done|]. cbn.
    rewrite (Hk c), String.eqb_refl by by left. f_equal. apply IH. intros d Hd. apply Hk. by right.
  - induction (shipped schema table device r) as [|c l IH]; [done|]. cbn.
    rewrite (Hk c) by by left. apply String.eqb_neq in Hne as ->. apply IH. intros d Hd. apply Hk. by right.
Qed.

(** The changes under a row's key are those of that row alone. *)
Lemma changes_of_scanned schema table device rows r :
  NoDup (map (key_json schema) rows) -> r ∈ rows ->
  changes_of_row (key_json schema r) (flat_map (shipped schema table device) rows) = shipped schema table device r.
Proof.
  intros Hnd Hr. induction rows as [|r' rows IH]; [by apply elem_of_nil in Hr|]. cbn [map flat_map] in *.
  apply NoDup_cons in Hnd as [Hk Hnd]. unfold changes_of_row in *. rewrite List.filter_app.
  fold (changes_of_row (key_json schema r) (shipped schema table device r')). rewrite changes_of_shipped.
  apply elem_of_cons in Hr as [->|Hr].
  - rewrite String.eqb_refl. rewrite <- (app_nil_r (shipped schema table device r')) at 2. f_equal.
    clear IH Hnd. induction rows as [|r rows IH]; [done|]. cbn [map flat_map] in *.
    apply not_elem_of_cons in Hk as [Hne Hk]. rewrite List.filter_app, IH by done.
    fold (changes_of_row (key_json schema r') (shipped schema table device r)). rewrite changes_of_shipped.
    apply not_eq_sym, String.eqb_neq in Hne as ->. done.
  - rewrite IH by done. destruct (String.eqb_spec (key_json schema r') (key_json schema r)) as [Heq|]; [|done].
    destruct Hk. rewrite Heq. by apply list_elem_of_fmap_2.
Qed.
End table.

(** ** One transfer *)

Section transfer.
Context `{Unicode} `{Serde} `{!SerdeLaws} `{Uhlc} `{Base64} {db : Type} `{HAff : Affinity} `{HR : Rusqlite db} `{!RowStore db} `{!RowScan db}.

(** [changes] is an unfiltered scan of a table that holds the row [r]. *)
Record exports (c : db) (table device : string) (schema : list ColumnInfo) (r : stored)
    (changes : list ColumnChange) : Prop := {
  exp_scan : scan_table_for_local_changes c table None device default_filters = Ok changes;
  exp_schema : get_table_schema c table = Ok schema;
  exp_keys : NoDup (map (key_json schema) (rows_of c table));
  exp_row : r ∈ rows_of c table;
  exp_ok : scannable schema r;
}.

(** The transaction holds the row [r] under the key the changes carry. *)
Record imports (tx : db) (table key : string) (schema : list ColumnInfo) (w : list watom) (ps : list SqlValue)
    (r : stored) : Prop := {
  imp_names : NoDup (map ci_name schema);
  imp_address : row_address tx table key schema w ps;
  imp_row : row_of tx table w ps = Some r;
  imp_wf : row_wf r;
}.

Lemma scanned_affine (c : db) table schema r :
  get_table_schema c table = Ok schema -> r ∈ rows_of c table -> affine schema r.
Proof. intros Hs%get_schema_info Hr col _. by eapply scan_stored. Qed.

Lemma transfer provider c table device schema rA changes w ps r0 group shadow (st st' : ApplyState db unit) :
  exports c table device schema rA changes ->
  imports (st_tx st) table (key_json schema rA) schema w ps r0 ->
  Permutation (map snd group) (changes_of_row (key_json schema rA) changes) ->
  process_row_group (SignatureApplyPolicy provider) shadow st ((table, key_json schema rA), group) = Ok st' ->
  exists r1, row_of (st_tx st') table w ps = Some r1 /\ received schema rA r0 r1.
Proof.
  intros [Hscan Hsch Hkeys Hrow Hok] [Hnd Haddr Hr Hwf] Hperm Hg.
  rewrite (scan_table_shipped _ _ _ _ _ Hscan Hsch), changes_of_scanned in Hperm by done.
  eapply receive_merges; [done..| |exact Hperm|done|done|done|exact Hg]. by eapply scanned_affine.
Qed.

(** A column of the receiving row takes the sender's register when that is
    newer, and is left alone otherwise. *)
Definition takes (rA r0 r1 : stored) (col : string) : Prop :=
  let unchanged := stored_hlc (row_hlcs r1) col = stored_hlc (row_hlcs r0) col /\ r1 !! col = r0 !! col in
  match column_hlc rA col with
  | Some h =>
      if complete_hlc h && hlc_is_newer h (stored_hlc (row_hlcs r0) col)
      then stored_hlc (row_hlcs r1) col = h /\ r1 !! col = Some (cell rA col)
      else unchanged
  | None => unchanged
  end.

Lemma data_name_not_meta schema col : col ∈ data_names schema -> is_meta_column col = false.
Proof.
  intros (c & -> & [Hd _]%list_elem_of_filter)%list_elem_of_fmap. unfold is_data_column in Hd. split_bool.
  destruct (is_meta_column (ci_name c)) eqn:Hm; [|done]. apply meta_column_no_sync in Hm. congruence.
Qed.

Lemma sent_takes schema rA r0 r1 col :
  col ∈ data_names schema ->
  state_register (row_hlcs r1, r1) col
    (lww_merge fst (mkReg (stored_hlc (row_hlcs r0) col) None) (sent schema rA col)) (r0 !! col) ->
  takes rA r0 r1 col.
Proof.
  intros Hcol [Hh Hv]. cbn [fst snd] in *.
  unfold sent in *. rewrite bool_decide_eq_true_2 in Hh, Hv by done. unfold takes.
  destruct (column_hlc rA col) as [h|]; [|done]. unfold lww_merge, lww_write in *. cbn [fold_left fst reg_hlc] in *.
  by destruct (complete_hlc h && _).
Qed.

Lemma received_takes schema rA r0 r1 col :
  received schema rA r0 r1 -> col ∈ data_names schema -> takes rA r0 r1 col.
Proof.
  intros [_ _ Hcols] Hcol. apply (sent_takes schema); [done|]. apply Hcols. by eapply data_name_not_meta.
Qed.

Lemma received_other schema rA r0 r1 col :
  received schema rA r0 r1 -> is_meta_column col = false -> col ∉ data_names schema ->
  stored_hlc (row_hlcs r1) col = stored_hlc (row_hlcs r0) col /\ r1 !! col = r0 !! col.
Proof.
  intros [_ _ Hcols] Hm Hcol. destruct (Hcols col Hm) as [Hh Hv]. cbn [fst snd] in *.
  unfold sent in *. by rewrite bool_decide_eq_false_2 in Hh, Hv by done.
Qed.

(** Scan on one replica, apply on another: of a row both hold, every synced
    column whose register is newer at the sender - its own HLC or, for lack of one,
    the row's, compared with the receiver's - arrives with that HLC and exactly the
    sender's value; every other column of the receiver, key columns and [_no_sync]
    columns included, keeps its HLC and its value, and the receiver's row HLC does
    not go back. *)
Theorem scanned_row_merges provider c table device schema rA changes w ps r0 group shadow (st st' : ApplyState db unit) :
  exports c table device schema rA changes ->
  imports (st_tx st) table (key_json schema rA) schema w ps r0 ->
  Permutation (map snd group) (changes_of_row (key_json schema rA) changes) ->
  process_row_group (SignatureApplyPolicy provider) shadow st ((table, key_json schema rA), group) = Ok st' ->
  exists r1, row_of (st_tx st') table w ps = Some r1 /\ row_wf r1 /\
    cmp_le compare_hlc_strings (row_hlc r0) (row_hlc r1) /\
    forall col, is_meta_column col = false ->
      if bool_decide (col ∈ data_names schema) then takes rA r0 r1 col
      else stored_hlc (row_hlcs r1) col = stored_hlc (row_hlcs r0) col /\ r1 !! col = r0 !! col.
Proof.
  intros Hexp Himp Hperm Hg. destruct (transfer _ _ _ _ _ _ _ _ _ _ _ _ _ _ Hexp Himp Hperm Hg) as (r1 & Hr1 & Hrec).
  exists r1. split; [done|]. split; [by eapply rec_wf|]. split; [by eapply rec_row_hlc|]. intros col Hm.
  case_bool_decide; [by eapply received_takes|by eapply received_other].
Qed.
End transfer.

(** ** Both ways *)

Section both_ways.
Context `{Unicode} `{Serde} `{!SerdeLaws} `{Uhlc} `{Base64} {db : Type} `{HAff : Affinity} `{HR : Rusqlite db} `{!RowStore db} `{!RowScan db}.

(** Every synced column has a complete HLC of its own, and two replicas that
    wrote a column at the same HLC wrote the same. *)
Definition fully_stamped (schema : list ColumnInfo) (r : stored) : Prop :=
  forall col, col ∈ data_names schema -> complete_hlc (stored_hlc (row_hlcs r) col) = true.
Definition consistent (schema : list ColumnInfo) (rA rB : stored) : Prop :=
  forall col, col ∈ data_names schema ->
    compare_hlc_strings (stored_hlc (row_hlcs rA) col) (stored_hlc (row_hlcs rB) col) = Eq ->
    stored_hlc (row_hlcs rA) col = stored_hlc (row_hlcs rB) col /\ cell rA col = cell rB col.

Lemma stamped_column_hlc r col h :
  complete_hlc (stored_hlc (row_hlcs r) col) = true -> stored_hlc (row_hlcs r) col = h -> column_hlc r col = Some h.
Proof.
  unfold stored_hlc, column_hlc. destruct (jget col (row_hlcs r) ≫= as_str) as [s|]; cbn; [|done].
  intros Hc <-. unfold non_empty. by destruct s.
Qed.

Lemma key_json_same schema r r' :
  (forall c, c ∈ pk_names schema -> cell r c = cell r' c) -> key_json schema r = key_json schema r'.
Proof.
  intros Hk. unfold key_json, pk_json. do 2 f_equal. f_equal. apply map_ext_in. intros pk Hpk%list_elem_of_In.
  unfold pk_entry. rewrite !json_row_lookup, (Hk (ci_name pk)); [done|]. by apply list_elem_of_fmap_2.
Qed.

Lemma takes_stamped schema rA r0 r1 col :
  fully_stamped schema rA -> col ∈ data_names schema -> takes rA r0 r1 col ->
  if hlc_is_newer (stored_hlc (row_hlcs rA) col) (stored_hlc (row_hlcs r0) col)
  then stored_hlc (row_hlcs r1) col = stored_hlc (row_hlcs rA) col /\ cell r1 col = cell rA col
  else stored_hlc (row_hlcs r1) col = stored_hlc (row_hlcs r0) col /\ cell r1 col = cell r0 col.
Proof.
  intros Hst Hcol. specialize (Hst col Hcol). unfold takes. rewrite (stamped_column_hlc _ _ _ Hst eq_refl), Hst.
  cbn [andb]. destruct (hlc_is_newer _ _); intros [Hh Hv]; (split; [done|]); unfold cell at 1; by rewrite Hv.
Qed.

(** A row that holds a complete HLC of every synced column or an older one than
    the sender, as a row has that nobody has written. *)
Definition receptive (schema : list ColumnInfo) (rA r0 : stored) : Prop :=
  forall col, col ∈ data_names schema ->
    complete_hlc (stored_hlc (row_hlcs r0) col) = true \/
    hlc_is_newer (stored_hlc (row_hlcs rA) col) (stored_hlc (row_hlcs r0) col) = true.

Lemma takes_keeps_stamped schema rA r0 r1 :
  fully_stamped schema rA -> receptive schema rA r0 ->
  (forall col, col ∈ data_names schema -> takes rA r0 r1 col) -> fully_stamped schema r1.
Proof.
  intros HA H0' Ht col Hcol. pose proof (takes_stamped _ _ _ _ _ HA Hcol (Ht col Hcol)) as Hc.
  destruct (H0' col Hcol) as [Hx|Hx]; [|rewrite Hx in Hc; destruct Hc as [-> _]; auto].
  destruct (hlc_is_newer _ _); destruct Hc as [-> _]; auto.
Qed.

(** A row that took what was newer, and then gave back. *)
Lemma both_ways_agree schema rA rB rA' rB' :
  fully_stamped schema rA -> receptive schema rA rB -> consistent schema rA rB ->
  (forall col, col ∈ data_names schema -> takes rA rB rB' col) ->
  (forall col, col ∈ data_names schema -> takes rB' rA rA' col) ->
  forall col, col ∈ data_names schema ->
    stored_hlc (row_hlcs rA') col = stored_hlc (row_hlcs rB') col /\ cell rA' col = cell rB' col.
Proof.
  intros HsA HsB Hcon HtB HtA col Hcol. pose proof (takes_keeps_stamped _ _ _ _ HsA HsB HtB) as HsB'.
  pose proof (takes_stamped _ _ _ _ _ HsA Hcol (HtB col Hcol)) as H1'.
  pose proof (takes_stamped _ _ _ _ _ HsB' Hcol (HtA col Hcol)) as H2'.
  destruct (hlc_is_newer (stored_hlc (row_hlcs rA) col) (stored_hlc (row_hlcs rB) col)) eqn:Hn;
    destruct H1' as [Hh1 Hv1]; rewrite Hh1, Hv1 in *.
  - rewrite hlc_is_newer_irrefl in H2'. exact H2'.
  - destruct (hlc_is_newer (stored_hlc (row_hlcs rB) col) (stored_hlc (row_hlcs rA) col)) eqn:Hm; [done|].
    destruct H2' as [-> ->]. apply Hcon; [done|]. by apply (cmp_le_antisym _); apply hlc_not_newer_le.
Qed.

(** Two replicas that scan and apply each other's copy of a row agree on
    every synced column afterwards, value and HLC: B merges what A ships, A merges
    what B then ships, and whichever register of a column was newer is the one both
    hold, provided that equal HLCs carry equal writes. *)
Theorem two_way_sync_converges provA provB table devA devB schema
    cA changesA rA groupA shadowB (stB stB' : ApplyState db unit) wB psB rB
    cB changesB groupB shadowA (stA stA' : ApplyState db unit) wA psA :
  exports cA table devA schema rA changesA ->
  imports (st_tx stB) table (key_json schema rA) schema wB psB rB ->
  Permutation (map snd groupA) (changes_of_row (key_json schema rA) changesA) ->
  process_row_group (SignatureApplyPolicy provB) shadowB stB ((table, key_json schema rA), groupA) = Ok stB' ->
  (forall rB', row_of (st_tx stB') table wB psB = Some rB' ->
     exports cB table devB schema rB' changesB /\
     imports (st_tx stA) table (key_json schema rB') schema wA psA rA /\
     Permutation (map snd groupB) (changes_of_row (key_json schema rB') changesB) /\
     process_row_group (SignatureApplyPolicy provA) shadowA stA ((table, key_json schema rB'), groupB) = Ok stA') ->
  fully_stamped schema rA -> fully_stamped schema rB -> consistent schema rA rB ->
  exists rA' rB', row_of (st_tx stA') table wA psA = Some rA' /\ row_of (st_tx stB') table wB psB = Some rB' /\
    forall col, col ∈ data_names schema ->
      stored_hlc (row_hlcs rA') col = stored_hlc (row_hlcs rB') col /\ cell rA' col = cell rB' col.
Proof.
  intros HeA HiB HpA HgA HB HsA HsB Hcon.
  destruct (transfer _ _ _ _ _ _ _ _ _ _ _ _ _ _ HeA HiB HpA HgA) as (rB' & HrB' & HrecB).
  destruct (HB rB' HrB') as (HeB & HiA & HpB & HgB).
  destruct (transfer _ _ _ _ _ _ _ _ _ _ _ _ _ _ HeB HiA HpB HgB) as (rA' & HrA' & HrecA).
  exists rA', rB'. split; [done|]. split; [done|].
  apply (both_ways_agree schema rA rB); [done|intros col Hcol; left; by apply HsB|done| |]; intros col Hcol; by eapply received_takes.
Qed.
End both_ways.

(** ** A concrete transfer *)

#[export] Instance mini_scan : RowScan Mem.
Proof.
  refine {| rows_of := mem_rows |}; [| |intros; apply mini_stored_as].
  - intros c t cols rows Hq. cbn in Hq. apply bind_Ok in Hq as (mt & Hmt & [= <-]).
    rewrite (mem_table_rows _ _ _ Hmt). f_equal. by apply forallb_filter_id, forallb_forall.
  - intros c t cols h rows Hq. cbn in Hq. apply bind_Ok in Hq as (mt & Hmt & [= <-]).
    rewrite (mem_table_rows _ _ _ Hmt). exists (List.filter (after_cursor h) (mt_rows mt)). split; [|done].
    f_equal. apply List.filter_ext. intros r. unfold after_cursor, cell, mem_get.
    destruct (default SNull (r !! HLC_TIMESTAMP_COLUMN)); cbn; by rewrite ?andb_true_r.
Defined.

(** Two replicas of one note: [body] is newer at the sender, [title] at the
    receiver. *)
Definition note_schema : list ColumnInfo :=
  [mkColumn "id" "TEXT" true; mkColumn "body" "TEXT" false; mkColumn "title" "TEXT" false;
   mkColumn "cursor_no_sync" "TEXT" false; mkColumn HLC_TIMESTAMP_COLUMN "TEXT" false;
   mkColumn COLUMN_HLCS_COLUMN "TEXT" false; mkColumn COLUMN_SIGS_COLUMN "TEXT" false].
Definition note_row (id body title body_hlc title_hlc row_hlc : string) : stored :=
  list_to_map [("id", SText id); ("body", SText body); ("title", SText title); ("cursor_no_sync", SText id);
    (HLC_TIMESTAMP_COLUMN, SText row_hlc);
    (COLUMN_HLCS_COLUMN, SText (print_json (JObject [("body", JString body_hlc); ("title", JString title_hlc)])));
    (COLUMN_SIGS_COLUMN, SText "{}")].
Definition note_mem (rows : list stored) : Mem :=
  mkMem (list_to_map [("notes", mkMemTable note_schema rows); (DELETED_ROWS_TABLE, mkMemTable mini_log_schema [])])
    ∅ [] true.

Definition note_a : stored := note_row "a" "new" "one" "5/c" "1/a" "5/c".
Definition note_b : stored := note_row "a" "old" "two" "2/b" "6/b" "6/b".
Definition note_other : stored := note_row "b" "x" "y" "3/c" "3/c" "3/c".
Definition note_source : Mem := note_mem [note_other; note_a].
Definition note_key : string := key_json note_schema note_a.

Definition note_start (rows : list stored) : ApplyState Mem unit :=
  mkApplyState (note_mem rows) tt default_outcome None.
Definition note_changes (m : Mem) : list ColumnChange :=
  match scan_table_for_local_changes m "notes" None "dev" default_filters with Ok cs => cs | _ => [] end.
Definition note_group (m : Mem) : list (nat * ColumnChange) :=
  imap pair (changes_of_row note_key (note_changes m)).
Definition note_apply (st : ApplyState Mem unit) (m : Mem) : res Error (ApplyState Mem unit) :=
  process_row_group (SignatureApplyPolicy NoopSignatureProvider) ∅ st (("notes", note_key), note_group m).
Definition note_state (r : res Error (ApplyState Mem unit)) : ApplyState Mem unit :=
  match r with Ok st => st | _ => note_start [] end.

Definition note_b1 := note_state (note_apply (note_start [note_b]) note_source).
Definition note_a1 := note_state (note_apply (note_start [note_other; note_a]) (st_tx note_b1)).

Ltac run := vm_compute; reflexivity.

Definition note_merged : stored := note_row "a" "new" "two" "5/c" "6/b" "6/b".

Lemma note_names : NoDup (map ci_name note_schema).
Proof. apply (bool_decide_unpack (NoDup (map ci_name note_schema))). vm_compute. exact I. Qed.

(** What a concrete row of [note_schema] has to satisfy, by evaluation. *)
Definition note_row_ok (r : stored) : bool :=
  forallb storable (map (cell r) ["body"; "title"; COLUMN_HLCS_COLUMN; HLC_TIMESTAMP_COLUMN]) &&
  match row_hlcs r with
  | [(k, JString _); (k', JString _)] => String.eqb k "body" && String.eqb k' "title"
  | _ => false
  end &&
  forallb (fun col => complete_hlc (stored_hlc (row_hlcs r) col)) ["body"; "title"].

Lemma note_row_wf r : note_row_ok r = true -> row_wf r.
Proof.
  intros Hr. unfold note_row_ok in Hr. split_bool. unfold row_wf.
  destruct (row_hlcs r) as [|[k [| | |v| |]] [|[k' [| | |v'| |]] [|]]]; try done. split_bool.
  repeat match goal with H : String.eqb _ _ = true |- _ => apply String.eqb_eq in H; subst end.
  split; [repeat constructor|]. repeat constructor; cbn; eauto.
Qed.
Lemma note_data_names col : col ∈ data_names note_schema -> col = "body" \/ col = "title".
Proof. change (data_names note_schema) with ["body"; "title"]. set_solver. Qed.
Lemma note_scannable r : note_row_ok r = true -> scannable note_schema r.
Proof.
  intros Hr. pose proof (note_row_wf r Hr). unfold note_row_ok in Hr. cbn [map forallb] in Hr. split_bool.
  split; [done..|]. by intros c [->| ->]%note_data_names.
Qed.
Lemma note_fully_stamped r : note_row_ok r = true -> fully_stamped note_schema r.
Proof. intros Hr col. unfold note_row_ok in Hr. cbn [forallb] in Hr. split_bool. by intros [->| ->]%note_data_names. Qed.

Lemma note_managed : managed note_schema.
Proof. split; [exact note_names|done..| |]; intros s; apply mini_stored_as. Qed.
Lemma note_key_map name : key_map note_schema [("id", JString name)] [WEq "id"] [SText name].
Proof.
  split; [repeat constructor|by vm_compute|exists [JString name]; by split|].
  split; [intros a Ha; apply list_elem_of_singleton in Ha as ->; by exists "id"|].
  by intros Hn%list_elem_of_singleton.
Qed.

Lemma note_address (m : Mem) : get_table_schema m "notes" = Ok note_schema ->
  row_address m "notes" note_key note_schema [WEq "id"] [SText "a"].
Proof.
  intros Hm. split; [exact Hm | exact note_managed | split; [discriminate|] |].
  - intros k Hk. change (pk_names note_schema) with ["id"] in Hk. by apply list_elem_of_singleton in Hk as ->.
  - exists [("id", JString "a")]. split; [reflexivity|]. by apply note_key_map.
Qed.

Lemma note_exports m r :
  scan_table_for_local_changes m "notes" None "dev" default_filters = Ok (note_changes m) ->
  get_table_schema m "notes" = Ok note_schema ->
  bool_decide (NoDup (map (key_json note_schema) (rows_of m "notes"))) = true ->
  bool_decide (r ∈ rows_of m "notes") = true -> note_row_ok r = true ->
  exports m "notes" "dev" note_schema r (note_changes m).
Proof.
  intros Hs Hsch Hk%bool_decide_eq_true Hr%bool_decide_eq_true Hok. split; [done..|]. by apply note_scannable.
Qed.

(** The comparison of rows is left to the decision procedure, which does not
    build the maps' terms. *)
Definition holds_note (m : Mem) (r : stored) : bool :=
  bool_decide (row_of m "notes" [WEq "id"] [SText "a"] = Some r).
Lemma holds_note_row m r : holds_note m r = true -> row_of m "notes" [WEq "id"] [SText "a"] = Some r.
Proof. apply bool_decide_eq_true. Qed.

Lemma note_imports (m : Mem) r :
  get_table_schema m "notes" = Ok note_schema ->
  holds_note m r = true -> note_row_ok r = true ->
  imports m "notes" note_key note_schema [WEq "id"] [SText "a"] r.
Proof.
  intros Hs Hr%holds_note_row Hok. split; [apply note_names|by apply note_address|done|by apply note_row_wf].
Qed.
Lemma note_applied st m :
  is_ok (note_apply st m) = true -> note_apply st m = Ok (note_state (note_apply st m)).
Proof. by destruct (note_apply st m). Qed.

Lemma note_first : note_apply (note_start [note_b]) note_source = Ok note_b1.
Proof. apply note_applied. run. Qed.
Lemma note_second : note_apply (note_start [note_other; note_a]) (st_tx note_b1) = Ok note_a1.
Proof. apply note_applied. run. Qed.

Lemma scanned_row_merges_witness :
  note_apply (note_start [note_b]) note_source = Ok note_b1 /\
  exists r1, row_of (st_tx note_b1) "notes" [WEq "id"] [SText "a"] = Some r1 /\ row_wf r1 /\
    cmp_le compare_hlc_strings (row_hlc note_b) (row_hlc r1) /\
    forall col, is_meta_column col = false ->
      if bool_decide (col ∈ data_names note_schema) then takes note_a note_b r1 col
      else stored_hlc (row_hlcs r1) col = stored_hlc (row_hlcs note_b) col /\ r1 !! col = note_b !! col.
Proof.
  split; [exact note_first|].
  eapply (scanned_row_merges NoopSignatureProvider note_source "notes" "dev" note_schema note_a
    (note_changes note_source) [WEq "id"] [SText "a"] note_b (note_group note_source) ∅ (note_start [note_b]) note_b1).
  - apply note_exports; run.
  - apply note_imports; run.
  - unfold note_group. rewrite imap_pair_snd. reflexivity.
  - exact note_first.
Defined.

Lemma two_way_sync_converges_witness :
  row_of (st_tx note_a1) "notes" [WEq "id"] [SText "a"] = Some note_merged /\
  exists rA' rB', row_of (st_tx note_a1) "notes" [WEq "id"] [SText "a"] = Some rA' /\
    row_of (st_tx note_b1) "notes" [WEq "id"] [SText "a"] = Some rB' /\
    forall col, col ∈ data_names note_schema ->
      stored_hlc (row_hlcs rA') col = stored_hlc (row_hlcs rB') col /\ cell rA' col = cell rB' col.
Proof.
  split; [apply holds_note_row; run|].
  assert (row_of (st_tx note_b1) "notes" [WEq "id"] [SText "a"] = Some note_merged) as Hb
    by (apply holds_note_row; run).
  assert (key_json note_schema note_merged = note_key) as Hkey by run.
  apply (two_way_sync_converges NoopSignatureProvider NoopSignatureProvider "notes" "dev" "dev" note_schema
    note_source (note_changes note_source) note_a (note_group note_source) ∅ (note_start [note_b]) note_b1
    [WEq "id"] [SText "a"] note_b (st_tx note_b1) (note_changes (st_tx note_b1)) (note_group (st_tx note_b1)) ∅
    (note_start [note_other; note_a]) note_a1 [WEq "id"] [SText "a"]).
  - apply note_exports; run.
  - apply note_imports; run.
  - unfold note_group. rewrite imap_pair_snd. reflexivity.
  - exact note_first.
  - intros r Hr. rewrite Hb in Hr. injection Hr as <-. rewrite Hkey. split; [apply note_exports; run|].
    split; [apply note_imports; run|]. split; [unfold note_group; by rewrite imap_pair_snd|exact note_second].
  - apply note_fully_stamped. run.
  - apply note_fully_stamped. run.
  - intros col [->| ->]%note_data_names; vm_compute; discriminate.
Defined.
