(* ===== verification/Creates.v ===== *)
(** * When a call creates a row (src/crdt/apply/engine.rs, row.rs, write.rs)

    What becomes of an absent row under [apply_remote_changes] with the signature
    policy: it is created when one of the row's changes can win a column nobody has
    written, unless the delete log holds an entry at least as new as the changes or a
    constraint refuses the INSERT, which the outcome then says of a change of the row. *)

From S2P Require Import Prelude Utf8 Hashing Names Json Sql Mini Hlc Lww Trigger Report Errors Value Scanner Preimage Policy Preflight Grouping Row Write DeleteProp Cleanup Engine EngineLemmas Apply Store Merge Deletes Batch Tombstone Sync.

(** ** Changes that can create a row *)

(** A change of a synced column whose HLC is complete and newer than none, and whose
    value the store has a form for. *)
Definition viable `{Serde} (schema : list ColumnInfo) (c : ColumnChange) : Prop :=
  column_name c ∈ data_names schema /\ complete_hlc (hlc_timestamp c) = true /\
  hlc_is_newer (hlc_timestamp c) EmptyString = true /\ is_ok (json_to_rusqlite_value (value c)) = true.

(** The outcome names a change of the row as refused by a constraint. *)
Definition constraint_skip (changes : list ColumnChange) (k : string * string) (skips : list SkippedChange) : Prop :=
  exists i c reason, changes !! i = Some c /\ change_key c = k /\ constraint_reason reason = true /\
    mkSkipped i reason ∈ skips.

Section eligible.
Context `{Unicode} `{Serde}.

Lemma eligible_data schema col :
  NoDup (map ci_name schema) -> col ∈ data_names schema ->
  classify_eligibility col (list_to_set (map ci_name schema)) (list_to_set (pk_names schema)) = None.
Proof. intros Hnd Hcol. by apply (classify_eligibility_matches_scanner schema col Hnd). Qed.

(** The writes to a data column are those of all changes under the key. *)
Lemma eligible_writes schema group col :
  NoDup (map ci_name schema) -> col ∈ data_names schema ->
  omap (write_of col) (map ic_change (eligible_of schema group)) = omap (write_of col) (map snd group).
Proof.
  intros Hnd Hcol. pose proof (eligible_data _ _ Hnd Hcol) as Hel. unfold eligible_of, indexed_of.
  induction group as [|[i c] group IH]; [done|]. cbn [map fst snd].
  assert (forall A B (f : A -> option B) x l, omap f (x :: l) = match f x with Some y => y :: omap f l | None => omap f l end)
    as Homap by done.
  rewrite Homap, <- IH, filter_cons. case_decide as Hc; [cbn [map ic_change]; by rewrite Homap|].
  unfold write_of at 2. destruct (String.eqb_spec (column_name c) col) as [Heq|]; [|done].
  cbn in Hc. rewrite Heq in Hc. done.
Qed.
End eligible.

(** ** The shadow map holds nothing but the log *)

Section shadow.
Context `{Unicode} `{Serde} {db : Type} `{RowStore db}.

Lemma add_shadows_from entries table m' d : forall m,
  (m', d) ∈ default [] (fold_left add_shadow entries m !! table) ->
  (m', d) ∈ default [] (m !! table) \/
  exists pks, (table, pks, Some d) ∈ entries /\ from_str_map pks = Some m'.
Proof.
  induction entries as [|[[t pks] h] entries IH]; intros m; cbn [fold_left]; [by left|].
  intros [Hin|(pks' & He & Hm)]%IH; [|right; exists pks'; split; [by right|done]]. revert Hin. cbn [add_shadow].
  destruct h as [h|]; [|by left]. destruct (from_str_map pks) as [mp|] eqn:Hmp; [|by left].
  destruct (decide (t = table)) as [->|Hne]; [|rewrite lookup_insert_ne by done; by left].
  rewrite lookup_insert_eq. cbn [default from_option id].
  intros [?|Hl%list_elem_of_singleton]%elem_of_app; [by left|right]. injection Hl as -> ->.
  exists pks. split; [by left|done].
Qed.

Lemma shadow_tombstone (c : db) shadow table m m' d :
  load_delete_shadow_map c = Ok shadow -> (m', d) ∈ default [] (shadow !! table) -> jmap_eqb m' m = true ->
  tombstone c table m d.
Proof.
  intros (rows & Hq%map_err_Ok & Hl)%bind_Ok Hin Heq.
  pose proof (store_log_all c) as Hlog. rewrite Hq in Hlog. subst rows.
  apply bind_Ok in Hl as (entries & He & [= <-]).
  apply add_shadows_from in Hin as [Hin|(pks & Hin & Hm)]; [rewrite lookup_empty in Hin; by apply elem_of_nil in Hin|].
  apply try_map_Ok in He. apply list_elem_of_lookup in Hin as [i Hi].
  destruct (Forall2_lookup_r _ _ _ _ _ He Hi) as (row & Hrow & Hs).
  apply list_elem_of_lookup_2, list_elem_of_fmap in Hrow as (r & -> & Hr).
  exists r, pks, m'. split; [done|]. revert Hs. unfold shadow_row. cbn [map].
  intros Hs%map_err_Ok. cbn in Hs. 
  destruct (cell r "table_name") eqn:Ht; try done. destruct (cell r "row_pks") eqn:Hp; try done.
  destruct (cell r HLC_TIMESTAMP_COLUMN) eqn:Hh; try done. cbn in Hs. by injection Hs as -> -> ->.
Qed.
End shadow.

(** ** The row group of an absent row *)

Section fate.
Context `{Unicode} `{Serde} `{!SerdeLaws} `{Uhlc} `{Base64} `{HashOrder} {db : Type} `{RowStore db}
  (provider : SignatureProvider) (table key : string) (schema : list ColumnInfo)
  (Hnames : NoDup (map ci_name schema)) (w : list watom) (ps : list SqlValue).
Abbreviation policy := (SignatureApplyPolicy (db := db) provider).
Abbreviation k := (table, key).

(** A viable change writes its column. *)
Lemma viable_write (group : list (nat * ColumnChange)) i c : (i, c) ∈ group -> viable schema c ->
  exists v, (hlc_timestamp c, v) ∈ omap (write_of (column_name c)) (map snd group).
Proof.
  intros Hic (_ & _ & _ & Hconv). destruct (json_to_rusqlite_value (value c)) as [v| |] eqn:Hv; [|done..]. exists v.
  apply list_elem_of_omap. exists c. split; [by apply (list_elem_of_fmap_2 snd) in Hic|].
  unfold write_of. by rewrite String.eqb_refl, Hv.
Qed.

(** A viable change of the group is beaten by the newest staged column only. *)
Lemma viable_beaten group input p (tx : db) d p1 tx1 skip rep sel row_max i c :
  asks schema group input -> signature_prepare_row p tx input = Ok (d, p1, tx1) ->
  selection_inv [] (decided d (eligible_of schema group)) skip rep sel -> max_hlc (sel_staged sel) = Ok row_max ->
  (i, c) ∈ group -> viable schema c -> cmp_le compare_hlc_strings (hlc_timestamp c) row_max.
Proof.
  intros Hask Hprep Hinv Hmax Hic Hvia. destruct (viable_write _ _ _ Hic Hvia) as (v & Hw).
  destruct Hvia as (Hcol & Hcomp & Hnew & _).
  pose proof (selection_merge _ _ _ _ _ (column_name c) Hinv) as Hsel.
  rewrite (signature_writes _ _ _ _ _ _ _ _ _ Hask Hprep), (eligible_writes _ _ _ Hnames Hcol) in Hsel.
  destruct (lww_merge_result fst (omap (write_of (column_name c)) (map snd group)) (mkReg (stored_hlc [] (column_name c)) None))
    as [_ _ Hge].
  specialize (Hge _ Hw Hcomp). rewrite Hsel in Hge. cbn [fst] in Hge.
  destruct (find_staged (column_name c) (sel_staged sel)) as [s|] eqn:Hf; cbn [reg_hlc] in Hge.
  - apply find_staged_Some in Hf as [Hs _]. eapply cmp_le_trans; [apply _|exact Hge|by eapply max_hlc_covers].
  - apply hlc_is_newer_Gt in Hnew. done.
Qed.

(** A staged column of a row nobody has written carries a viable change. *)
Lemma staged_viable group input p (tx : db) d p1 tx1 skip rep sel s :
  asks schema group input -> signature_prepare_row p tx input = Ok (d, p1, tx1) ->
  selection_inv [] (decided d (eligible_of schema group)) skip rep sel -> s ∈ sel_staged sel ->
  viable schema (sc_change s).
Proof.
  intros Hask Hprep Hinv Hs. destruct (staged_accepted _ _ _ _ _ _ Hinv Hs) as [Hacc Hcomp].
  pose proof (signature_accepts _ _ _ _ _ _ _ _ _ _ _ Hask Hprep Hacc) as Hv. cbn [ic_change] in Hv.
  split; [|split; [exact Hcomp|split; [exact (staged_newer _ _ _ _ _ _ Hinv Hs)|by rewrite Hv]]].
  assert (mkIndexed (sc_input_index s) (sc_change s) ∈ eligible_of schema group) as [Hel _]%list_elem_of_filter.
  { unfold signature_prepare_row in Hprep. apply bind_Ok in Hprep as (ds & _ & [= <- _ _]). by eapply elem_of_zip_r. }
  by apply (classify_eligibility_matches_scanner schema _ Hnames) in Hel.
Qed.

(** The delete log shadows the row at [h] or later. *)
Definition shadowed_at (m : jmap) (shadow : DeleteShadowMap) (h : string) : Prop :=
  exists m' d, (m', d) ∈ default [] (shadow !! table) /\ jmap_eqb m' m = true /\ cmp_le compare_hlc_strings h d.

Lemma insert_shadowed_at m row_max shadow h :
  insert_shadowed table m row_max shadow = true -> cmp_le compare_hlc_strings h row_max -> shadowed_at m shadow h.
Proof.
  unfold insert_shadowed, insert_suppressed_by_deletes.
  intros ([m' d] & Hin%list_elem_of_In & [Heq Hd]%andb_true_iff)%existsb_exists Hle. cbn [fst snd] in *.
  exists m', d. do 2 (split; [done|]). eapply cmp_le_trans; [apply _|exact Hle|].
  unfold delete_shadows_insert in Hd. unfold cmp_le. by destruct (compare_hlc_strings row_max d).
Qed.

(** The group of an absent row: it creates the row only with a viable change, and one
    that does not was shadowed or refused. *)
Lemma absent_group m (shadow : DeleteShadowMap) group (st st' : ApplyState db unit) :
  row_address (st_tx st) table key schema w ps -> from_str_map key = Some m ->
  rows_at (st_tx st) table w ps = [] ->
  process_row_group policy shadow st (k, group) = Ok st' ->
  (rows_at (st_tx st') table w ps <> [] -> exists e, e ∈ group /\ viable schema (snd e)) /\
  (rows_at (st_tx st') table w ps = [] -> forall e, e ∈ group -> viable schema (snd e) ->
     shadowed_at m shadow (hlc_timestamp (snd e)) \/
     exists e' reason, e' ∈ group /\ constraint_reason reason = true /\ mkSkipped (fst e') reason ∈ skipped (st_outcome st')).
Proof.
  intros Haddr Hm Hr Hg.
  destruct (process_row_group_addressed policy _ _ _ _ _ group shadow st Haddr) as (row_pks & pkv & Hm2 & Hkm & Hps & Hpg).
  rewrite Hm in Hm2. injection Hm2 as <-. rewrite Hpg in Hg. destruct Haddr as [Hsch Hman [_ Hmeta] _].
  apply (process_identified_effect policy (signature_leaves_store provider)) in Hg as (existing & input & d & p1 & tx1 & Hf & Hask & Hprep & Heff).
  eapply fetch_existing_rows in Hf; [|done]. rewrite Hr in Hf. subst existing. cbn [default from_option id snd] in Heff.
  change (signature_prepare_row (st_policy st) (st_tx st) input = Ok (d, p1, tx1)) in Hprep.
  destruct Heff as [([_ Hs] & _ & Hwhy)|(sel & skip & rep & row_max & tx2 & [Hs1 Hr1] & Hst & Hinv & Hmax & Hwr & _ & [_ Hr2] & Hin & _)].
  - rewrite Hs. split; [done|]. intros _ [i c] Hic Hvia. cbn [fst snd] in *.
    destruct Hwhy as [(_ & sel & skip & rep & row_max & reason & Hinv & Hmax & Hwhy & Hsk)|Hidle].
    + pose proof (viable_beaten _ _ _ _ _ _ _ _ _ _ _ _ _ Hask Hprep Hinv Hmax Hic Hvia) as Hle.
      destruct Hwhy as [Hsh|Hcr]; [left; by eapply insert_shadowed_at|right].
      destruct (max_hlc_elem _ _ Hmax) as (s & Hss & _). destruct (Hsk s Hss) as [Hsg Hsr]. by exists (landed_of s), reason.
    + exfalso. destruct (viable_write _ _ _ Hic Hvia) as (v & Hw). destruct Hvia as (Hcol & Hcomp & Hnew & _).
      specialize (Hidle (column_name c)).
      rewrite (signature_writes _ _ _ _ _ _ _ _ _ Hask Hprep), (eligible_writes _ _ _ Hnames Hcol) in Hidle.
      destruct (lww_merge_result fst (omap (write_of (column_name c)) (map snd group)) (mkReg (stored_hlc [] (column_name c)) None))
        as [_ _ Hge]. rewrite Hidle in Hge. apply hlc_is_newer_Gt in Hnew. by apply (Hge (hlc_timestamp c, v)).
  - split.
    + intros _. destruct (max_hlc_elem _ _ Hmax) as (s & Hs & _). exists (landed_of s). split; [by apply Hin|]. by eapply staged_viable.
    + intros Hno. exfalso. eapply merge_insert in Hwr as (r0 & r1 & _ & Hrows & _); [|by rewrite (get_schema_same _ _ _ Hs1)|done|done|
        exact Hkm|done|by rewrite Hr1|exact Hinv|exact Hmax]. by rewrite Hr2, Hrows in Hno.
Qed.

(** ** The whole call *)

Lemma process_groups_skips (shadow : DeleteShadowMap) gs (st st' : ApplyState db unit) s :
  process_row_groups policy shadow st gs = Ok st' ->
  s ∈ skipped (st_outcome st) -> s ∈ skipped (st_outcome st').
Proof.
  intros (landed & new & (Hs & _) & _)%process_row_groups_done Hi. rewrite Hs. apply elem_of_app. by left.
Qed.

(** What a committed call says of an absent row: [gone] of the row after it. *)
Definition fate (changes : list ColumnChange) (shadowed : string -> Prop) (skips : list SkippedChange) (gone : bool) : Prop :=
  if gone
  then forall ch, ch ∈ changes_at k changes -> viable schema ch ->
    shadowed (hlc_timestamp ch) \/ constraint_skip changes k skips
  else exists ch, ch ∈ changes_at k changes /\ viable schema ch.
Definition gone_from (c : db) : bool := match rows_at c table w ps with [] => true | _ => false end.

Lemma absent_loop m (shadow : DeleteShadowMap) changes (st st' : ApplyState db unit) :
  stored_row (st_tx st) table key schema w ps None -> alone (st_tx st) changes table key schema w ps ->
  from_str_map key = Some m -> process_row_groups policy shadow st (row_groups_of changes) = Ok st' ->
  fate changes (shadowed_at m shadow) (skipped (st_outcome st')) (gone_from (st_tx st')).
Proof.
  intros Hrow Hal Hm Hp. pose proof (signature_leaves_store (db := db) provider) as Hpol.
  assert (forall g, g ∈ row_groups_of changes -> fst g <> k -> elsewhere (st_tx st) table schema w ps (fst g)) as Hels.
  { intros [k' group] Hg Hk. destruct (row_group_key _ _ _ Hg) as (c & Hc & <-). by apply Hal. }
  destruct (row_groups_split changes k) as [[Hnone Hother]|(before & group & after & Heq & Hperm & Hsome & Hother)].
  - eapply (process_groups_spare policy Hpol table key schema w ps) in Hp;
      [|apply Hrow|intros g Hg; by apply Hels, Hother].
    pose proof (spares_row _ _ _ _ _ _ _ _ Hp Hrow) as [_ Hr _]. unfold gone_from. rewrite Hr. cbn.
    intros ch Hch. rewrite Hnone in Hch. by apply elem_of_nil in Hch.
  - destruct (row_group_indices changes k group) as [_ Hidx]; [rewrite Heq; apply elem_of_app; right; by left|].
    rewrite Heq in Hp, Hels. apply process_row_groups_app in Hp as (st1 & Hb & Hp).
    eapply (process_groups_spare policy Hpol table key schema w ps) in Hb;
      [|apply Hrow|intros g Hg; apply Hels; [apply elem_of_app; by left|by apply Hother; left]].
    cbn [process_row_groups] in Hp. apply bind_Ok in Hp as (st2 & Hg & Ha).
    pose proof (spares_row _ _ _ _ _ _ _ _ Hb Hrow) as Hrow1.
    pose proof (process_row_group_schema policy Hpol _ _ _ _ _ Hg) as Hs2.
    pose proof Ha as Hsp. eapply (process_groups_spare policy Hpol table key schema w ps) in Hsp as [_ Hsp];
      [|eapply row_address_same; [exact Hs2|apply Hrow1]|].
    2:{ intros g Hg'. eapply elsewhere_same; [etrans; [apply Hb|exact Hs2]|].
        apply Hels; [apply elem_of_app; right; by right|by apply Hother; right]. }
    destruct (absent_group m shadow group st1 st2 (sr_address _ _ _ _ _ _ _ Hrow1) Hm (sr_rows _ _ _ _ _ _ _ Hrow1) Hg)
      as [Hmade Hgone]. unfold gone_from, fate.
    destruct (rows_at (st_tx st') table w ps) as [|r rs] eqn:Hr'.
    + apply Permutation_nil_l in Hsp. intros ch Hch Hvia. rewrite <- Hperm in Hch.
      apply list_elem_of_fmap in Hch as (e & -> & He).
      destruct (Hgone (eq_sym Hsp) e He Hvia) as [?|([i c] & reason & Hic & Hcr & Hin)]; [by left|right].
      apply Hidx in Hic as [Hi Hk]. exists i, c, reason. do 3 (split; [done|]). by eapply process_groups_skips.
    + destruct Hmade as (e & He & Hvia); [intros Hno; rewrite Hno in Hsp; by apply Permutation_nil_r in Hsp|].
      exists (snd e). split; [|done]. rewrite <- Hperm. by apply list_elem_of_fmap_2.
Qed.

(** A committed call on an absent row, as the store is when its deletes are
    propagated. *)
Lemma absent_call now (conn : db) changes o mx conn' cm m :
  stored_row conn table key schema w ps None -> alone conn changes table key schema w ps ->
  from_str_map key = Some m -> commit_batch policy now conn changes tt = (Ok (o, mx, tt), conn') ->
  merged_store policy now conn changes tt = Some cm ->
  fate changes (fun h => exists d, tombstone conn table m d /\ cmp_le compare_hlc_strings h d) (skipped o) (gone_from cm).
Proof.
  intros Hrow Hal Hm. pose proof (signature_leaves_store (db := db) provider) as Hpol. unfold commit_batch, merged_store.
  destruct (preflight_batch _ _ _ _) as [p1| |]; [|done..].
  intros (n & c1 & c2 & Hoff & Htx%run_tx_Ok & _)%with_fk_disabled_store. rewrite Hoff.
  pose proof (store_keeps _ _ _ _ _ Hoff) as Hs1. cbn in Hs1. revert Htx. unfold apply_body, merged_state.
  intros (tx1 & Ht1 & Hr)%bind_Ok. rewrite Ht1. apply toggle_same_store in Ht1. cbn [mbind res_bind].
  apply bind_Ok in Hr as ([p2 tx2] & Hb & Hr). rewrite Hb. apply (ls_begin policy Hpol) in Hb. cbn [mbind res_bind fst snd].
  apply bind_Ok in Hr as (shadow & Hsh & Hr). rewrite Hsh. cbn [mbind res_bind]. apply map_err_Ok in Hsh.
  apply bind_Ok in Hr as (st & Hst & Hr). rewrite Hst. intros [= <-].
  assert (skipped (st_outcome st) = skipped o) as <-.
  { apply bind_Ok in Hr as ([tx3 rep] & _ & Hr). apply bind_Ok in Hr as ([p3 tx4] & _ & Hr).
    by apply bind_Ok in Hr as (tx5 & _ & [= <- _ _ _]). }
  assert (same_store conn tx2) as Hs by (etrans; [exact Hs1|]; by etrans).
  apply (absent_loop m) in Hst; [|by eapply same_store_row|by eapply same_schema_alone; [apply Hs|]|done]. cbn [st_tx] in Hst.
  unfold fate in *. destruct (gone_from (st_tx st)); [|done]. intros ch Hch Hvia.
  destruct (Hst ch Hch Hvia) as [(m' & d & Hin & Heq & Hle)|?]; [left|by right]. exists d. split; [|done].
  eapply tombstone_spared; [by rewrite <- (proj2 Hs)|]. by eapply shadow_tombstone.
Qed.
End fate.
