(* ===== verification/Incremental.v ===== *)
(** * Scans since a cursor (src/crdt/scanner/)

    What a scan with an [after_hlc] cursor leaves out of a full one. The cursor filters
    twice: whole rows by the row HLC, in SQL and as text, and then columns by their own
    HLC, as numbers. *)

From S2P Require Import Prelude Utf8 Hashing Names Json Sql Mini Hlc Lww Trigger Report Errors Value Scanner Preimage Policy Preflight Grouping Row Write DeleteProp Engine EngineLemmas Apply Store Merge Sync.

Section incremental.
Context `{Unicode} `{Serde} {db : Type} `{RowScan db}.

Definition newer_change (h : string) (c : ColumnChange) : bool := hlc_is_newer (hlc_timestamp c) h.

Lemma filter_flat_map {A B} (f : A -> list B) (Q : B -> bool) l :
  List.filter Q (flat_map f l) = flat_map (fun x => List.filter Q (f x)) l.
Proof. induction l as [|x l IH]; [done|]. cbn. by rewrite List.filter_app, IH. Qed.

Lemma emit_column_after table pk m h device col :
  emit_column table pk m (Some h) device None col = List.filter (newer_change h) (emit_column table pk m None device None col).
Proof.
  unfold emit_column. destruct (hlc_to_use m (ci_name col)) as [hlc|]; [|done].
  unfold passes_hlc, passes_origin. rewrite andb_true_r. cbn. unfold newer_change. cbn. by destruct (hlc_is_newer hlc h).
Qed.

(** The columns of a row since a cursor. *)
Definition shipped_after (h : string) (schema : list ColumnInfo) (table device : string) (r : stored) : list ColumnChange :=
  List.filter (newer_change h) (shipped schema table device r).

Lemma emit_shipped_after h schema table device r :
  emit_row_changes (scanned schema r) (select_columns_of schema) (fst (partition_columns schema))
    (snd (partition_columns schema)) table (Some h) device None None = Ok (shipped_after h schema table device r).
Proof.
  pose proof (emit_shipped schema table device r) as Hs. unfold emit_row_changes in *.
  destruct (read_row _ _ _ _) as [m| |]; [|done..]. cbn [mbind res_bind] in *. injection Hs as Hs. f_equal.
  unfold shipped_after. rewrite <- Hs, filter_flat_map. apply flat_map_ext. intros col. apply emit_column_after.
Qed.

(** The scan of a table, with the rows its SELECT returned. *)
Lemma scan_table_rows (c : db) table after device schema changes :
  scan_table_for_local_changes c table after device default_filters = Ok changes ->
  get_table_schema c table = Ok schema -> schema <> [] ->
  exists rows css,
    query c (Scan (select_columns_of schema) table (fst (scan_predicates after None))) (snd (scan_predicates after None)) = Ok rows /\
    Forall2 (fun row cs => emit_row_changes row (select_columns_of schema) (fst (partition_columns schema))
      (snd (partition_columns schema)) table after device None None = Ok cs) rows css /\ changes = concat css.
Proof.
  unfold scan_table_for_local_changes. cbn [column_eq default_filters mbind res_bind].
  intros Hs Hsch Hne. rewrite Hsch in Hs. cbn [db_from_sql map_err mbind res_bind] in Hs.
  destruct schema as [|ci schema]; [done|].
  set (sch := ci :: schema) in *. destruct (fst (partition_columns sch)) eqn:Hpk; [done|].
  destruct (missing_columns sch); [|done].
  change (scan_rows c table sch after device default_filters) with
    (let '(predicates, params) := scan_predicates after None in
     rows ← @db_from_sql (list (list SqlValue)) (query c (Scan (select_columns_of sch) table predicates) params);
     css ← try_map (fun row => emit_row_changes row (select_columns_of sch) (fst (partition_columns sch))
                      (snd (partition_columns sch)) table after device None None) rows;
     Ok (concat css)) in Hs.
  destruct (scan_predicates after None) as [preds params]. cbn [fst snd].
  apply bind_Ok in Hs as (rows & Hq%map_err_Ok & (css & Hc & [= <-])%bind_Ok). exists rows, css.
  split; [exact Hq|]. split; [|done]. apply try_map_Ok in Hc. by rewrite <- Hpk.
Qed.

Lemma scanned_after (c : db) table device schema h changes :
  scan_table_for_local_changes c table (Some h) device default_filters = Ok changes ->
  get_table_schema c table = Ok schema -> schema <> [] ->
  Permutation changes (flat_map (shipped_after h schema table device) (List.filter (after_cursor h) (rows_of c table))).
Proof.
  intros Hs Hsch Hne. destruct (scan_table_rows _ _ _ _ _ _ Hs Hsch Hne) as (rows & css & Hq & Hf & ->). cbn [scan_predicates fst snd] in Hq.
  apply scan_after in Hq as (admitted & -> & Hp). rewrite <- Hp.
  assert (concat css = flat_map (shipped_after h schema table device) admitted) as ->; [|done]. clear Hs Hp.
  revert css Hf. induction admitted as [|r rs IH]; intros css Hf; cbn [map] in Hf.
  - by apply Forall2_nil_inv_l in Hf as ->.
  - apply Forall2_cons_inv_l in Hf as (cs & css' & Hcs & Hf & ->). cbn [concat flat_map].
    f_equal; [|by apply IH]. pose proof (emit_shipped_after h schema table device r) as He. unfold scanned in He. rewrite He in Hcs. by injection Hcs.
Qed.

(** A row the cursor's predicate leaves out has nothing newer than the cursor. *)
Record since_ok (h : string) (schema : list ColumnInfo) (r : stored) : Prop := {
  since_scannable : scannable schema r;
  since_covers : row_hlc_covers r;
  since_text : forall s, cell r HLC_TIMESTAMP_COLUMN = SText s -> hlc_is_newer s h = true -> String.compare s h = Gt;
}.

Lemma not_newer_trans a b h : cmp_le compare_hlc_strings a b -> hlc_is_newer b h = false -> hlc_is_newer a h = false.
Proof.
  intros Hab Hb. apply hlc_not_newer_le in Hb. apply hlc_not_newer_le. by eapply cmp_le_trans; [apply _| |].
Qed.

Lemma left_out_not_newer h schema r :
  since_ok h schema r -> after_cursor h r = false -> hlc_is_newer (row_hlc r) h = false.
Proof.
  intros [_ _ Ht]. unfold after_cursor, row_hlc. destruct (cell r HLC_TIMESTAMP_COLUMN) as [|i|f|s|b] eqn:Hc; try done.
  - intros _. apply hlc_not_newer_le, empty_hlc_least.
  - intros _. apply hlc_not_newer_le, empty_hlc_least.
  - intros [_ Hcmp]%orb_false_iff. destruct (hlc_is_newer s h) eqn:Hn; [|done]. by rewrite (Ht s) in Hcmp.
Qed.

Lemma left_out_ships_nothing h schema table device r :
  since_ok h schema r -> after_cursor h r = false -> shipped_after h schema table device r = [].
Proof.
  intros Hok Hout. pose proof (left_out_not_newer _ _ _ Hok Hout) as Hrow. destruct Hok as [Hscan Hcov _].
  unfold shipped_after, shipped. rewrite filter_flat_map. induction (snd (partition_columns schema)) as [|col cols IH]; [done|].
  cbn [flat_map]. rewrite IH, app_nil_r. rewrite <- emit_column_after. unfold emit_column.
  rewrite (hlc_to_use_row schema) by done. unfold column_hlc.
  assert (forall s, non_empty s = Some s \/ non_empty s = None) as Hns by (intros s; unfold non_empty; destruct (is_empty s); auto).
  destruct ((jget (ci_name col) (row_hlcs r) ≫= as_str) ≫= non_empty) as [s|] eqn:Hs.
  - assert (stored_hlc (row_hlcs r) (ci_name col) = s) as Heq.
    { unfold stored_hlc. destruct (jget _ _ ≫= as_str) as [s'|]; [|done]. cbn in *. destruct (Hns s') as [Hx|Hx]; congruence. }
    specialize (Hcov (ci_name col)). rewrite Heq in Hcov. cbn [passes_hlc].
    by rewrite (not_newer_trans _ _ _ Hcov Hrow).
  - destruct (Hns (row_hlc r)) as [->| ->]; [|done]. cbn [passes_hlc]. by rewrite Hrow.
Qed.
End incremental.

(** C13: an incremental scan is a full scan without what the cursor has seen: on a
    table whose row HLCs cover their columns - which merging keeps so - and whose newer
    row HLCs also compare as greater text, a scan since a cursor ships exactly the
    changes of the full scan that are newer than the cursor; the row filter in SQL drops
    nothing that is. *)
Theorem incremental_scan_complete `{Unicode} `{Serde} {db : Type} `{RowScan db}
    (c : db) table device schema h full since :
  get_table_schema c table = Ok schema -> schema <> [] ->
  scan_table_for_local_changes c table None device default_filters = Ok full ->
  scan_table_for_local_changes c table (Some h) device default_filters = Ok since ->
  (forall r, r ∈ rows_of c table -> since_ok h schema r) ->
  Permutation since (List.filter (newer_change h) full).
Proof.
  intros Hsch Hne Hfull Hsince Hok. rewrite (scan_table_shipped _ _ _ _ _ Hfull Hsch), filter_flat_map.
  rewrite (scanned_after _ _ _ _ _ _ Hsince Hsch Hne). clear Hfull Hsince. apply Permutation_refl'.
  change (fun x => List.filter (newer_change h) (shipped schema table device x)) with (shipped_after h schema table device).
  induction (rows_of c table) as [|r rs IH]; [done|]. cbn [List.filter flat_map].
  rewrite <- IH by (intros r' Hr'; apply Hok; by right). destruct (after_cursor h r) eqn:Ha; [done|].
  pose proof (left_out_ships_nothing h schema table device r (Hok r ltac:(by left)) Ha) as Hl.
  unfold shipped_after in Hl |- *. by rewrite Hl.
Qed.

(** ** A concrete scan *)

Lemma covers_by_entries `{Serde} (r : stored) :
  forallb (fun e => match as_str (snd e) with Some s => negb (hlc_is_newer s (row_hlc r)) | None => true end) (row_hlcs r) = true ->
  row_hlc_covers r.
Proof.
  intros Hall col. unfold stored_hlc. destruct (jget col (row_hlcs r)) as [v|] eqn:Hj; cbn; [|apply empty_hlc_least].
  destruct (as_str v) as [s|] eqn:Hs; cbn; [|apply empty_hlc_least].
  rewrite forallb_forall in Hall. apply jget_In in Hj. apply Hall in Hj. cbn [snd] in Hj. rewrite Hs in Hj.
  apply hlc_not_newer_le. by apply negb_true_iff.
Qed.

Definition note_since : list ColumnChange :=
  match scan_table_for_local_changes note_source "notes" (Some "4/a") "dev" default_filters with Ok cs => cs | _ => [] end.

Lemma note_since_ok r : note_row_ok r = true ->
  forallb (fun e => match as_str (snd e) with Some s => negb (hlc_is_newer s (row_hlc r)) | None => true end) (row_hlcs r) = true ->
  match cell r HLC_TIMESTAMP_COLUMN with
  | SText s => if hlc_is_newer s "4/a" then match String.compare s "4/a" with Gt => true | _ => false end else true
  | _ => false
  end = true ->
  since_ok "4/a" note_schema r.
Proof.
  intros Hok Hcov Ht. split; [by apply note_scannable|by apply covers_by_entries|].
  intros s Hs Hn. rewrite Hs, Hn in Ht. by destruct (String.compare s "4/a").
Qed.

Lemma incremental_scan_complete_witness :
  map column_name note_since = ["body"] /\ length (note_changes note_source) = 4%nat /\
  Permutation note_since (List.filter (newer_change "4/a") (note_changes note_source)).
Proof.
  split; [run|]. split; [run|].
  apply (incremental_scan_complete note_source "notes" "dev" note_schema "4/a").
  - run.
  - discriminate.
  - run.
  - run.
  - change (rows_of note_source "notes") with [note_other; note_a]. intros r Hr.
    apply elem_of_cons in Hr as [->|Hr]; [|apply list_elem_of_singleton in Hr as ->]; apply note_since_ok; run.
Defined.
