(* ===== verification/Replicas.v ===== *)
(** * Replicas that exchange batches (src/crdt/apply/engine.rs, src/crdt/scanner/)

    Runs of [apply_remote_changes] calls against a stored row: what a run of calls
    leaves in the row's registers depends on the set of changes that were delivered,
    not on how they were batched, ordered, repeated or interrupted by refused calls;
    and two replicas that exchange scans agree. *)

From S2P Require Import Prelude Utf8 Hashing Names Json Sql Mini Hlc Lww Trigger Report Errors Value Scanner Preimage Policy Preflight Grouping Row Write DeleteProp Cleanup Engine EngineLemmas Apply Store Merge Deletes Batch Tombstone Sync Creates.

(** ** What a batch writes to a column *)

Definition writes_at `{Serde} `{Affinity} (schema : list ColumnInfo) (k : string * string) (col : string)
    (batch : list ColumnChange) : list (string * SqlValue) :=
  map (as_stored schema col) (omap (write_of col) (changes_at k batch)).

Lemma changes_at_app k b1 b2 : changes_at k (b1 ++ b2) = changes_at k b1 ++ changes_at k b2.
Proof. apply filter_app. Qed.
Lemma changes_at_cons k c b :
  changes_at k (c :: b) = if decide (change_key c = k) then c :: changes_at k b else changes_at k b.
Proof. unfold changes_at. by rewrite filter_cons. Qed.

Section registers.
Context `{Unicode} `{Serde}.

(** The register of a column after [ws] were written to the row [r0]. *)
Definition writes_give (r0 r1 : stored) (col : string) (ws : list (string * SqlValue)) : Prop :=
  state_register (row_hlcs r1, r1) col
    (lww_merge fst (mkReg (stored_hlc (row_hlcs r0) col) None) ws) (r0 !! col).

Lemma writes_give_app r0 r1 r2 col ws1 ws2 :
  writes_give r0 r1 col ws1 -> writes_give r1 r2 col ws2 -> writes_give r0 r2 col (ws1 ++ ws2).
Proof.
  unfold writes_give, state_register. cbn [fst snd]. intros [Hh1 Hv1] [Hh2 Hv2]. rewrite lww_merge_app.
  destruct (lww_merge fst (mkReg (stored_hlc (row_hlcs r0) col) None) ws1) as [h x]. cbn [reg_hlc reg_value] in *.
  subst h. rewrite (lww_merge_initial _ _ _ x).
  destruct (reg_value (lww_merge _ _ ws2)) as [y|] eqn:Hy; [by rewrite Hy|]. cbn [reg_hlc reg_value].
  rewrite Hh2, Hv2. split; [|done].
  destruct (lww_merge_result fst ws2 (mkReg (stored_hlc (row_hlcs r1) col) None)) as [[->|(y & _ & _ & _ & Hm)] _ _]; [done|].
  by rewrite Hm in Hy.
Qed.

(** Writes the register has already seen leave it alone. *)
Lemma writes_give_stale r0 r1 r2 col ws ws' :
  writes_give r0 r1 col ws -> (forall x, x ∈ ws' -> x ∈ ws) -> writes_give r1 r2 col ws' ->
  stored_hlc (row_hlcs r2) col = stored_hlc (row_hlcs r1) col /\ r2 !! col = r1 !! col.
Proof.
  unfold writes_give, state_register. cbn [fst snd]. intros [Hh1 _] Hin [Hh2 Hv2].
  destruct (lww_merge_result fst ws (mkReg (stored_hlc (row_hlcs r0) col) None)) as [_ _ Hge].
  destruct (lww_merge_result fst ws' (mkReg (stored_hlc (row_hlcs r1) col) None)) as [[Hm|(y & Hy & Hc & Hn & _)] _ _].
  - by rewrite Hm in Hh2, Hv2.
  - exfalso. apply Hin in Hy. specialize (Hge y Hy Hc). rewrite <- Hh1 in Hge. cbn [reg_hlc] in *.
    apply hlc_is_newer_Gt in Hn. done.
Qed.

(** The same writes give the same register, and the same value unless the
    column has no HLC. *)
Lemma writes_give_same rA rA' rB rB' col wsA wsB :
  writes_give rA rA' col wsA -> writes_give rB rB' col wsB ->
  stored_hlc (row_hlcs rA) col = stored_hlc (row_hlcs rB) col ->
  no_ties fst wsA -> (forall x, x ∈ wsA <-> x ∈ wsB) ->
  stored_hlc (row_hlcs rA') col = stored_hlc (row_hlcs rB') col /\
  (cell rA col = cell rB col \/ stored_hlc (row_hlcs rA') col <> stored_hlc (row_hlcs rA) col -> cell rA' col = cell rB' col).
Proof.
  unfold writes_give, state_register, cell. cbn [fst snd]. intros [HhA HvA] [HhB HvB] Hh Htie Hin.
  rewrite Hh in HhA, HvA. rewrite (lww_merge_set fst _ _ _ Htie Hin) in HhA, HvA.
  destruct (lww_merge_result fst wsB (mkReg (stored_hlc (row_hlcs rB) col) None)) as [[Hm|(y & _ & _ & _ & Hm)] _ _];
    rewrite Hm in HhA, HhB, HvA, HvB; cbn [reg_hlc reg_value] in *; rewrite HhA, HhB, HvA, HvB, Hh; split; [done| |done|done].
  by intros [->|].
Qed.
End registers.

(** ** One call *)

Section calls.
Context `{Unicode} `{Serde} `{!SerdeLaws} `{Uhlc} `{Base64} `{HashOrder} {db : Type} `{RowStore db}
  (provider : SignatureProvider) (table key : string) (schema : list ColumnInfo)
  (Hnames : NoDup (map ci_name schema)) (w : list watom) (ps : list SqlValue).
Abbreviation policy := (SignatureApplyPolicy (db := db) provider).
Abbreviation k := (table, key).

(** The connection a call leaves, and whether its transaction was committed. *)
Definition call_conn (now : nat -> Z) (now_commit : Z) (conn : db) (batch : list ColumnChange) (svc : HlcService) : db :=
  snd (fst (apply_remote_changes policy now now_commit conn batch svc tt)).
Definition call_commits (now : nat -> Z) (conn : db) (batch : list ColumnChange) : bool :=
  is_ok (fst (commit_batch policy now conn batch tt)).

Lemma call_conn_commit now now_commit conn batch svc :
  call_conn now now_commit conn batch svc = snd (commit_batch policy now conn batch tt).
Proof.
  unfold call_conn, apply_remote_changes. destruct (commit_batch _ _ _ _ _) as [[[[o [m|]] p]| |] c]; [|done..].
  destruct (advance_past_remote _ _ _) as [[]]; done.
Qed.

(** The row [r0] with the writes of [changes] to every data column. *)
Definition registers (r0 r1 : stored) (changes : list ColumnChange) : Prop :=
  forall col, col ∈ data_names schema ->
    exists ws, Permutation ws (writes_at schema k col changes) /\ writes_give r0 r1 col ws.

(** A row starts from what is stored, an absent one from a row nobody has written. *)
Definition starts (o : option stored) (r0 : stored) : Prop :=
  match o with Some r => r0 = r | None => blank r0 end.
(** Some change of the row can create it. *)
Definition any_viable (changes : list ColumnChange) : Prop := exists ch, ch ∈ changes_at k changes /\ viable schema ch.
Definition moved (o0 o1 : option stored) (changes : list ColumnChange) : Prop :=
  match o1 with
  | Some r1 => (o0 = None -> any_viable changes) /\ exists r0, starts o0 r0 /\ registers r0 r1 changes
  | None => o0 = None /\ ~ any_viable changes
  end.

Lemma any_viable_app b1 b2 : any_viable (b1 ++ b2) <-> any_viable b1 \/ any_viable b2.
Proof.
  unfold any_viable. rewrite changes_at_app. setoid_rewrite elem_of_app. naive_solver.
Qed.

Lemma registers_none r changes : changes_at k changes = [] -> registers r r changes.
Proof. intros Hno col _. exists []. unfold writes_at. by rewrite Hno. Qed.

Lemma moved_nothing o : moved o o [].
Proof.
  destruct o as [r|]; [|split; [done|by intros (ch & Hch%elem_of_nil & _)]]. split; [done|]. exists r.
  split; [done|by apply registers_none].
Qed.

(** Changes that cannot create a row change nothing of a row nobody has written. *)
Lemma idle_writes col ws changes : col ∈ data_names schema -> ~ any_viable changes ->
  Permutation ws (writes_at schema k col changes) ->
  lww_merge fst (mkReg EmptyString None) ws = mkReg EmptyString None.
Proof.
  intros Hcol Hno Hp. destruct (lww_merge_result fst ws (mkReg EmptyString None)) as [[Hm|(x & Hx & Hcomp & Hnew & _)] _ _]; [done|].
  exfalso. rewrite Hp in Hx. unfold writes_at in Hx. apply list_elem_of_fmap in Hx as (y & -> & Hy).
  apply list_elem_of_omap in Hy as (c & Hc & Hw). apply Hno. exists c. split; [done|]. unfold write_of in Hw.
  destruct (String.eqb_spec (column_name c) col) as [<-|]; [|done].
  destruct (json_to_rusqlite_value (value c)) as [v| |] eqn:Hv; [|done..]. injection Hw as <-. split; [done|]. by rewrite Hv.
Qed.

Lemma moved_trans o0 o1 o2 b1 b2 : moved o0 o1 b1 -> moved o1 o2 b2 -> moved o0 o2 (b1 ++ b2).
Proof.
  unfold moved at 2. destruct o2 as [r2|].
  - intros H01 (Hc2 & r1 & Hst1 & Hg2). destruct o1 as [r1'|]; cbn in H01, Hst1.
    + subst r1'. destruct H01 as (Hc1 & r0 & Hst0 & Hg1). split.
      { intros Ho%Hc1. apply any_viable_app. by left. }
      exists r0. split; [done|]. intros col Hcol.
      destruct (Hg1 col Hcol) as (ws1 & Hp1 & Hw1), (Hg2 col Hcol) as (ws2 & Hp2 & Hw2).
      exists (ws1 ++ ws2). split; [|by eapply writes_give_app].
      unfold writes_at. rewrite changes_at_app, omap_app, map_app. by apply Permutation_app.
    + destruct H01 as [-> Hno]. split; [intros _; apply any_viable_app; right; by apply Hc2|]. exists r1. split; [done|].
      intros col Hcol. destruct (Hg2 col Hcol) as (ws2 & Hp2 & Hw2). exists (writes_at schema k col b1 ++ ws2). split.
      { unfold writes_at at 2. rewrite changes_at_app, omap_app, map_app. by apply Permutation_app. }
      unfold writes_give, state_register in *. rewrite lww_merge_app.
      destruct Hst1 as [Hh _]. rewrite Hh in Hw2 |- *. change (stored_hlc [] col) with EmptyString in *.
      by rewrite (idle_writes col _ b1 Hcol Hno).
  - intros H01 [-> Hno]. destruct H01 as [-> Hno1]. split; [done|]. rewrite any_viable_app. tauto.
Qed.

(** What a row HLC did: it went no further than the columns of the row. *)
Definition row_moves (r0 r1 : stored) : Prop :=
  cmp_le compare_hlc_strings (row_hlc r0) (row_hlc r1) /\ (row_hlc_covers r0 -> row_hlc_covers r1) /\
  (row_hlc r1 = row_hlc r0 \/ exists col, col ∈ data_names schema /\ row_hlc r1 = stored_hlc (row_hlcs r1) col).

Lemma merged_writes r0 r1 batch group input d q (tx : db) q' tx' :
  Permutation (map snd group) (changes_at k batch) -> asks schema group input ->
  signature_prepare_row q tx input = Ok (d, q', tx') ->
  merged schema r0 r1 (decided d (eligible_of schema group)) -> registers r0 r1 batch /\ row_moves r0 r1.
Proof.
  intros Hp Hask Hprep (_ & (Hle & Hcov & Hfrom) & Hm). split.
  - intros col Hcol.
    specialize (Hm col (data_name_not_meta _ _ Hcol)). rewrite (signature_writes _ _ _ _ _ _ _ _ col Hask Hprep) in Hm.
    rewrite (eligible_writes _ _ _ Hnames Hcol) in Hm. eexists. split; [|exact Hm].
    unfold writes_at. apply Permutation_map. exact (omap_Permutation (write_of col) _ _ Hp).
  - split; [done|]. split; [done|]. destruct Hfrom as [?|([dc ic] & Hic & Heq)]; [by left|right].
    exists (column_name (ic_change ic)). split; [|done].
    assert (ic ∈ eligible_of schema group) as [Hel _]%list_elem_of_filter.
    { destruct d as [|ds]; cbn [decided] in Hic; [|by apply elem_of_zip_r in Hic]. by apply list_elem_of_fmap in Hic as (? & [= _ ->] & ?). }
    by apply (classify_eligibility_matches_scanner schema _ Hnames) in Hel.
Qed.

(** What a committed batch made of a row, in terms of its registers. *)
Definition wrote (o0 o1 : option stored) (batch : list ColumnChange) : Prop :=
  match o1 with
  | Some r1 => (o0 = None -> changes_at k batch <> []) /\
      exists r0, starts o0 r0 /\ registers r0 r1 batch /\ row_moves r0 r1
  | None => o0 = None
  end.

Lemma made_writes batch skips o0 o1 :
  batch_made policy batch skips table key schema o0 o1 -> wrote o0 o1 batch.
Proof.
  intros [[Hnone ->]|(group & input & d & q & tx & q' & tx' & Hp & Hsome & _ & Hask & Hprep & Hb & _)].
  - destruct o0 as [r0|]; [|done]. split; [done|]. exists r0. split; [done|]. split; [by apply registers_none|].
    split; [apply cmp_le_refl, _|]. split; [done|by left].
  - change (signature_prepare_row q tx input = Ok (d, q', tx')) in Hprep. destruct o1 as [r1|], o0 as [r0|]; try done.
    + split; [done|]. exists r0. split; [done|]. by eapply merged_writes.
    + split; [done|]. destruct Hb as (r0 & Hbl & Hm). exists r0. split; [done|]. by eapply merged_writes.
Qed.

(** Nothing keeps a call from creating the row it brings: no constraint refuses a change
    of the row, and one that can create it is newer than every entry the delete log holds
    for the row. *)
Definition not_refused (now : nat -> Z) (c : db) (batch : list ColumnChange) : Prop :=
  match fst (commit_batch policy now c batch tt) with
  | Ok (o, _, _) => ~ constraint_skip batch k (skipped o)
  | _ => True
  end.
Definition unburied (c : db) (batch : list ColumnChange) : Prop :=
  exists ch, ch ∈ changes_at k batch /\ viable schema ch /\
    forall m d, from_str_map key = Some m -> tombstone c table m d -> hlc_is_newer (hlc_timestamp ch) d = true.
Definition unhindered (now : nat -> Z) (c : db) (batch : list ColumnChange) (c' : db) : Prop :=
  rows_at c table w ps = [] -> any_viable batch -> not_refused now c batch /\ unburied c batch.

Lemma call_committed now now_commit conn batch svc o0 :
  stored_row conn table key schema w ps o0 -> alone conn batch table key schema w ps -> no_log_changes batch ->
  call_commits now conn batch = true -> unhindered now conn batch (call_conn now now_commit conn batch svc) ->
  exists o1, stored_row (call_conn now now_commit conn batch svc) table key schema w ps o1 /\
    same_schema conn (call_conn now now_commit conn batch svc) /\ moved o0 o1 batch.
Proof.
  intros Hrow Halone Hno. unfold call_commits, unhindered, not_refused. rewrite call_conn_commit.
  destruct (commit_batch policy now conn batch tt) as [[[[o m] []]| |] conn'] eqn:Hc; [|done..]. intros _ Hun. cbn [fst snd] in *.
  pose proof (commit_batch_schema _ (signature_leaves_store provider) _ _ _ _ _ _ _ _ Hc) as Hss.
  destruct (commit_batch_row policy (signature_leaves_store provider) _ _ _ _ _ _ _ _ _ _ _ _ _ _ Hrow Halone Hc)
    as (cm & Hcm & o1 & _ & Hrm & Hmade & Hd). rewrite no_inbound_ids in Hd by done.
  exists o1. split; [apply Hd; by intros id Hid%elem_of_nil|]. split; [done|].
  pose proof (made_writes _ _ _ _ Hmade) as Hg. unfold wrote in Hg.
  destruct (sr_address _ _ _ _ _ _ _ Hrow) as [_ _ _ (mk & Hmk & _)].
  assert (o0 = None -> fate table key schema batch (fun h => exists d, tombstone conn table mk d /\ cmp_le compare_hlc_strings h d)
    (skipped o) (gone_from table w ps cm)) as Hfate
    by (intros ->; by eapply (absent_call provider table key schema Hnames w ps)).
  unfold gone_from in Hfate. rewrite (sr_rows _ _ _ _ _ _ _ Hrm) in Hfate. destruct o1 as [r1|]; cbn in Hfate.
  - destruct Hg as (_ & r0 & Hst & Hreg & _). split; [exact Hfate|]. by exists r0.
  - split; [done|]. intros Hany. subst o0. destruct Hun as [Hcs (ch & Hch & Hvia & Hnew)]; [apply Hrow|done|].
    destruct (Hfate eq_refl ch Hch Hvia) as [(d & Ht & Hle)|?]; [|done].
    specialize (Hnew mk d Hmk Ht). apply hlc_is_newer_Gt in Hnew. done.
Qed.

(** A change that is not in the skip list is what the row holds of its column. *)
Lemma made_landed batch skips o0 o1 i ch :
  batch_made policy batch skips table key schema o0 o1 -> batch !! i = Some ch -> change_key ch = (table, key) -> i ∉ skips ->
  exists r v, o1 = Some r /\ json_to_rusqlite_value (value ch) = Ok v /\
    r !! column_name ch = Some (stored_as schema (column_name ch) v) /\
    stored_hlc (row_hlcs r) (column_name ch) = hlc_timestamp ch.
Proof.
  intros [[Hnone _]|(group & input & d & q & tx & q' & tx' & Hp & _ & Hidx & Hask & Hprep & _ & Hland)] Hi Hk Hsk.
  - assert (ch ∈ changes_at (table, key) batch) as Hin by (apply list_elem_of_filter; split; [done|by eapply list_elem_of_lookup_2]).
    rewrite Hnone in Hin. by apply elem_of_nil in Hin.
  - destruct (Hland i ch) as [?|(r1 & -> & v & sg & Hacc & Hh & Hv)]; [by apply Hidx|done|]. exists r1, v.
    split; [done|]. split; [|by split].
    change (signature_prepare_row q tx input = Ok (d, q', tx')) in Hprep.
    by pose proof (signature_accepts _ _ _ _ _ _ _ _ _ _ _ Hask Hprep Hacc).
Qed.

(** C6: what a call reports as applied is what the row holds: of a successful
    call without delete-log changes, every change that the outcome does not name as
    skipped is found in the row of its key - which was stored before or is created by
    the call - with the value its JSON stands for, as the column stores it, and with the
    change's HLC as the HLC of the column. *)
Theorem applied_change_is_held now now_commit conn changes svc o conn' svc' i ch o0 :
  apply_remote_changes policy now now_commit conn changes svc tt = (Ok (o, tt), conn', svc') ->
  stored_row conn table key schema w ps o0 -> alone conn changes table key schema w ps -> no_log_changes changes ->
  changes !! i = Some ch -> change_key ch = (table, key) -> i ∉ map sk_input_index (skipped o) ->
  exists r v, rows_at conn' table w ps = [r] /\ json_to_rusqlite_value (value ch) = Ok v /\
    r !! column_name ch = Some (stored_as schema (column_name ch) v) /\
    stored_hlc (row_hlcs r) (column_name ch) = hlc_timestamp ch.
Proof.
  unfold apply_remote_changes. intros Hc Hrow Halone Hno Hi Hk Hsk.
  destruct (commit_batch policy now conn changes tt) as [[[[o' m] p]| |] c] eqn:Hb; [|done..].
  assert (o' = o /\ c = conn') as [-> ->].
  { destruct m; [|by injection Hc]. destruct (advance_past_remote _ _ _) as [[]]; by injection Hc. }
  destruct (commit_batch_row policy (signature_leaves_store provider) _ _ _ _ _ _ _ _ _ _ _ _ _ _ Hrow Halone Hb)
    as (cm & _ & (o1 & Hr1 & Hg)%batch_row_no_log); [|done].
  destruct (made_landed _ _ _ _ _ _ Hg Hi Hk Hsk) as (r & v & -> & Hv & Hcell & Hh). exists r, v. split; [apply Hr1|done].
Qed.

(** A refused call leaves the store. *)
Lemma refused_leaves_store now now_commit conn batch svc :
  call_commits now conn batch = false -> same_store conn (call_conn now now_commit conn batch svc).
Proof.
  unfold call_commits. rewrite call_conn_commit. unfold commit_batch.
  destruct (preflight_batch _ _ _ _) as [p1| |]; [|by split..]. unfold with_fk_disabled.
  destruct (foreign_keys_enabled conn) as [was| |]; [|by split..].
  destruct (execute conn (SetForeignKeys false) []) as [[n c1]| |] eqn:Hoff; [|by split..].
  destruct (run_tx _ _ c1 _) as [r c2] eqn:Htx. cbn [fst snd]. intros Hr. apply run_tx_fail in Htx; [|done]. subst c2.
  apply store_keeps in Hoff. cbn in Hoff. unfold restore_foreign_keys.
  destruct (execute c1 (SetForeignKeys was) []) as [[n2 c3]| |] eqn:Hon; cbn; [|done|done].
  apply store_keeps in Hon. cbn in Hon. by etrans.
Qed.

(** ** A run of calls *)

(** A run of calls and the changes it delivers: those of its committed calls, each of
    which meets [ok]; refused calls deliver nothing, and clock readings and clocks are
    arbitrary. *)
Inductive runs (ok : (nat -> Z) -> db -> list ColumnChange -> db -> Prop) : db -> list ColumnChange -> db -> Prop :=
| runs_nothing conn : runs ok conn [] conn
| runs_call now now_commit conn batch svc rest conn' :
    call_commits now conn batch = true -> ok now conn batch (call_conn now now_commit conn batch svc) ->
    runs ok (call_conn now now_commit conn batch svc) rest conn' ->
    runs ok conn (batch ++ rest) conn'
| runs_refused now now_commit conn batch svc rest conn' :
    call_commits now conn batch = false ->
    runs ok (call_conn now now_commit conn batch svc) rest conn' ->
    runs ok conn rest conn'.

(** Nothing keeps its calls from creating the row. *)
Definition delivers : db -> list ColumnChange -> db -> Prop := runs unhindered.

Lemma delivers_moved conn changes conn' : delivers conn changes conn' -> forall o0,
  stored_row conn table key schema w ps o0 -> alone conn changes table key schema w ps -> no_log_changes changes ->
  exists o1, stored_row conn' table key schema w ps o1 /\ same_schema conn conn' /\ moved o0 o1 changes.
Proof.
  induction 1 as [conn|now nowc conn batch svc rest conn' Hc Hcr _ IH|now nowc conn batch svc rest conn' Hc _ IH];
    intros o0 Hrow Hal Hno.
  - exists o0. split; [done|]. split; [done|apply moved_nothing].
  - destruct (call_committed now nowc conn batch svc o0 Hrow) as (o1 & Hr1 & Hs1 & Hg1); [| |done..|].
    + intros ch Hch. apply Hal. apply elem_of_app. by left.
    + intros ch Hch. apply Hno. apply elem_of_app. by left.
    + destruct (IH o1 Hr1) as (o2 & Hr2 & Hs2 & Hg2).
      * eapply same_schema_alone; [exact Hs1|]. intros ch Hch. apply Hal. apply elem_of_app. by right.
      * intros ch Hch. apply Hno. apply elem_of_app. by right.
      * exists o2. split; [done|]. split; [by etrans|by eapply moved_trans].
  - pose proof (refused_leaves_store now nowc conn batch svc Hc) as Hs.
    destruct (IH o0) as (o1 & Hr1 & Hs1 & Hg1); [by eapply same_store_row|by eapply same_schema_alone; [apply Hs|]|done|].
    exists o1. split; [done|]. split; [|done]. etrans; [apply Hs|exact Hs1].
Qed.

Lemma delivers_stored conn changes conn' r0 : delivers conn changes conn' ->
  stored_row conn table key schema w ps (Some r0) -> alone conn changes table key schema w ps -> no_log_changes changes ->
  exists r1, stored_row conn' table key schema w ps (Some r1) /\ same_schema conn conn' /\ registers r0 r1 changes.
Proof.
  intros Hd Hr Ha Hl. destruct (delivers_moved _ _ _ Hd _ Hr Ha Hl) as ([r1|] & Hr1 & Hs & Hm); [|by destruct Hm].
  destruct Hm as (_ & r0' & -> & Hg). by exists r1.
Qed.
End calls.

(** ** What runs of calls agree on *)

Definition same_changes (k : string * string) (b1 b2 : list ColumnChange) : Prop :=
  forall c, change_key c = k -> (c ∈ b1 <-> c ∈ b2).

(** Equal HLCs carry equal writes: one transaction writes a column once. *)
Definition no_conflicts (k : string * string) (b : list ColumnChange) : Prop :=
  forall c d, c ∈ b -> d ∈ b -> change_key c = k -> change_key d = k -> column_name c = column_name d ->
    compare_hlc_strings (hlc_timestamp c) (hlc_timestamp d) = Eq ->
    hlc_timestamp c = hlc_timestamp d /\ value c = value d.

(** What a replica holds of a column; nothing of an absent row. *)
Definition hlc_of `{Serde} (o : option stored) (col : string) : string :=
  match o with Some r => stored_hlc (row_hlcs r) col | None => EmptyString end.
Definition cell_of (o : option stored) (col : string) : SqlValue := from_option (fun r => cell r col) SNull o.

(** Two replicas agree on a row: both hold it or neither does, each synced column
    has the same HLC, and where it has one the same value. *)
Record agree_on `{Serde} (schema : list ColumnInfo) (o1 o2 : option stored) : Prop := {
  agree_stored : o1 = None <-> o2 = None;
  agree_hlc : forall col, col ∈ data_names schema -> hlc_of o1 col = hlc_of o2 col;
  agree_value : forall col, col ∈ data_names schema -> hlc_of o1 col <> EmptyString -> cell_of o1 col = cell_of o2 col;
}.

Definition agree `{Serde} (schema : list ColumnInfo) (r1 r2 : stored) : Prop :=
  forall col, col ∈ data_names schema ->
    stored_hlc (row_hlcs r1) col = stored_hlc (row_hlcs r2) col /\ cell r1 col = cell r2 col.

(** The replica holds [o] of the row, and of the changes it is sent the ones under
    other keys name other rows and none is a delete. *)
Record ready `{Unicode} `{Serde} {db} `{RowStore db} (conn : db) (changes : list ColumnChange)
    (table key : string) (schema : list ColumnInfo) (w : list watom) (ps : list SqlValue) (o : option stored) : Prop := {
  ready_row : stored_row conn table key schema w ps o;
  ready_alone : alone conn changes table key schema w ps;
  ready_log : no_log_changes changes;
}.

Section agreement.
Context `{Unicode} `{Serde} `{!SerdeLaws} `{Uhlc} `{Base64} `{HashOrder} {db : Type} `{RowStore db}.

Lemma writes_at_in schema k col batch x :
  x ∈ writes_at schema k col batch <->
  exists c, c ∈ batch /\ change_key c = k /\ column_name c = col /\
    exists y, write_of col c = Some y /\ x = as_stored schema col y.
Proof.
  unfold writes_at, changes_at. split.
  - intros (y & -> & Hy)%list_elem_of_fmap. apply list_elem_of_omap in Hy as (c & [Hk Hc]%list_elem_of_filter & Hw).
    exists c. do 2 (split; [done|]). split; [unfold write_of in Hw; by destruct (String.eqb_spec (column_name c) col)|eauto].
  - intros (c & Hc & Hk & _ & y & Hw & ->). apply list_elem_of_fmap_2, list_elem_of_omap. exists c. by rewrite list_elem_of_filter.
Qed.

Lemma writes_no_ties schema k col batch ws :
  no_conflicts k batch -> Permutation ws (writes_at schema k col batch) -> no_ties fst ws.
Proof.
  intros Hno Hp x y Hx Hy Heq. rewrite Hp in Hx, Hy.
  apply writes_at_in in Hx as (c & Hc & Hkc & Hnc & x' & Hwc & ->), Hy as (d & Hd & Hkd & Hnd & y' & Hwd & ->).
  assert (x' = y') as ->; [|done]. unfold write_of in *.
  rewrite (proj2 (String.eqb_eq _ _) Hnc) in Hwc. rewrite (proj2 (String.eqb_eq _ _) Hnd) in Hwd.
  destruct (json_to_rusqlite_value (value c)) eqn:Hvc, (json_to_rusqlite_value (value d)) eqn:Hvd; try done.
  injection Hwc as <-. injection Hwd as <-. cbn [fst as_stored] in Heq.
  destruct (Hno c d Hc Hd Hkc Hkd ltac:(congruence) Heq) as [Hh Hv]. congruence.
Qed.

Lemma same_changes_viable table key schema b1 b2 : same_changes (table, key) b1 b2 ->
  any_viable table key schema b1 -> any_viable table key schema b2.
Proof.
  intros Hs (ch & [Hk Hch]%list_elem_of_filter & Hvia). exists ch. split; [|done]. apply list_elem_of_filter.
  split; [done|]. by apply Hs.
Qed.

Lemma starts_hlc o r0 col : starts o r0 -> stored_hlc (row_hlcs r0) col = hlc_of o col.
Proof. destruct o as [r|]; cbn; [by intros ->|]. by intros [-> _]. Qed.

Lemma starts_both oA oB rA rB :
  (oA = None <-> oB = None) -> oA <> None -> starts oA rA -> starts oB rB -> oA = Some rA /\ oB = Some rB.
Proof.
  intros Hex Hne HA HB. destruct oA as [rA'|]; [|done]. destruct oB as [rB'|]; [|by discriminate (proj2 Hex eq_refl)].
  cbn in HA, HB. by subst.
Qed.

(** C11: strong eventual consistency of a row: two replicas that agree on a row,
    stored or absent, and were delivered the same set of changes for it agree on it
    again - they hold it or not alike, every synced column has the same HLC and, where it
    has one, the same value - however the changes were split into batches, ordered,
    repeated, mixed with changes of other rows or interrupted by refused calls on either
    side, and whatever the clocks said; columns that never had an HLC keep agreeing when
    they did. It is provided that equal HLCs carry equal writes, that no change is for the
    delete log, and that nothing keeps a replica that lacks the row from creating it: of a
    call that brings a change able to create it, no change of the row is refused by a
    constraint, and one able to create it is newer than every entry the replica's delete
    log holds for the row. *)
Theorem calls_converge provA provB table key schema
    (cA cA' cB cB' : db) changesA changesB wA psA oA wB psB oB :
  NoDup (map ci_name schema) ->
  ready cA changesA table key schema wA psA oA -> ready cB changesB table key schema wB psB oB ->
  delivers provA table key schema wA psA cA changesA cA' -> delivers provB table key schema wB psB cB changesB cB' ->
  agree_on schema oA oB -> same_changes (table, key) changesA changesB -> no_conflicts (table, key) changesA ->
  exists oA' oB', rows_at cA' table wA psA = option_list oA' /\ rows_at cB' table wB psB = option_list oB' /\
    agree_on schema oA' oB' /\
    forall col, col ∈ data_names schema -> oA <> None -> cell_of oA col = cell_of oB col -> cell_of oA' col = cell_of oB' col.
Proof.
  intros Hnd [HrA HaA HlA] [HrB HaB HlB] HdA HdB [Hex Hhlc Hval] Hsame Hno.
  destruct (delivers_moved provA table key schema Hnd wA psA _ _ _ HdA oA HrA HaA HlA) as (oA' & HrA' & _ & HgA).
  destruct (delivers_moved provB table key schema Hnd wB psB _ _ _ HdB oB HrB HaB HlB) as (oB' & HrB' & _ & HgB).
  exists oA', oB'. split; [apply HrA'|]. split; [apply HrB'|].
  assert (any_viable table key schema changesA <-> any_viable table key schema changesB) as Hvia
    by (split; apply same_changes_viable; [done|intros c Hk; symmetry; by apply Hsame]).
  destruct oA' as [rA'|], oB' as [rB'|].
  - destruct HgA as (_ & rA & HsA & HgA), HgB as (_ & rB & HsB & HgB).
    assert (forall col, col ∈ data_names schema -> hlc_of (Some rA') col = hlc_of (Some rB') col /\
      (cell rA col = cell rB col \/ hlc_of (Some rA') col <> stored_hlc (row_hlcs rA) col -> cell rA' col = cell rB' col)) as Hcol.
    { intros col Hcol. destruct (HgA col Hcol) as (wsA & HpA & HwA), (HgB col Hcol) as (wsB & HpB & HwB).
      apply (writes_give_same rA rA' rB rB' col wsA wsB); [done..| |by eapply writes_no_ties|].
      - rewrite (starts_hlc oA rA col HsA), (starts_hlc oB rB col HsB). by apply Hhlc.
      - intros x. rewrite HpA, HpB, !writes_at_in.
        split; intros (c & Hin & Hk & Hrest); exists c; (split; [by apply Hsame|done]). }
    split; [split|].
    + done.
    + intros col Hc. by apply Hcol.
    + intros col Hc Hne. cbn. apply (Hcol col Hc).
      destruct (decide (hlc_of (Some rA') col = stored_hlc (row_hlcs rA) col)) as [Heq|]; [left|by right].
      rewrite Heq, (starts_hlc oA rA col HsA) in Hne. specialize (Hval col Hc Hne).
      destruct (starts_both oA oB rA rB) as [-> ->]; [done|by intros ->|done..].
    + intros col Hc HoA Heq. cbn. apply (Hcol col Hc). left.
      by destruct (starts_both oA oB rA rB) as [-> ->].
  - exfalso. destruct HgA as [HgA _], HgB as [HoB HcB]. by apply HcB, Hvia, HgA, Hex.
  - exfalso. destruct HgB as [HgB _], HgA as [HoA HcA]. by apply HcA, Hvia, HgB, Hex.
  - split; [by split|done].
Qed.

(** Redelivery changes nothing: a run that delivers only changes the replica
    was delivered before leaves the HLC and the value of every synced column of the
    row as they are. *)
Theorem redelivery_changes_nothing prov table key schema (c1 c2 c3 : db) first again w ps r1 :
  NoDup (map ci_name schema) -> ready c1 (first ++ again) table key schema w ps (Some r1) ->
  delivers prov table key schema w ps c1 first c2 -> delivers prov table key schema w ps c2 again c3 ->
  (forall c, c ∈ again -> change_key c = (table, key) -> c ∈ first) ->
  exists r2 r3, row_of c2 table w ps = Some r2 /\ row_of c3 table w ps = Some r3 /\
    forall col, col ∈ data_names schema ->
      stored_hlc (row_hlcs r3) col = stored_hlc (row_hlcs r2) col /\ r3 !! col = r2 !! col.
Proof.
  intros Hnd [Hr Ha Hl] Hd1 Hd2 Hin.
  destruct (delivers_stored prov table key schema Hnd w ps _ _ _ r1 Hd1 Hr) as (r2 & Hr2 & Hs2 & Hg2).
  { intros ch Hch. apply Ha. apply elem_of_app. by left. }
  { intros ch Hch. apply Hl. apply elem_of_app. by left. }
  destruct (delivers_stored prov table key schema Hnd w ps _ _ _ r2 Hd2 Hr2) as (r3 & Hr3 & _ & Hg3).
  { eapply same_schema_alone; [exact Hs2|]. intros ch Hch. apply Ha. apply elem_of_app. by right. }
  { intros ch Hch. apply Hl. apply elem_of_app. by right. }
  exists r2, r3. rewrite !row_of_Some. split; [apply Hr2|]. split; [apply Hr3|]. intros col Hcol.
  destruct (Hg2 col Hcol) as (ws2 & Hp2 & Hw2), (Hg3 col Hcol) as (ws3 & Hp3 & Hw3).
  eapply writes_give_stale; [exact Hw2| |exact Hw3]. intros x. rewrite Hp2, Hp3, !writes_at_in.
  intros (c & Hc & Hk & Hrest). exists c. split; [by apply Hin|done].
Qed.
End agreement.

(** ** Replicas that exchange scans *)

Section exchange.
Context `{Unicode} `{Serde} `{!SerdeLaws} `{Uhlc} `{Base64} `{HashOrder} {db : Type} `{HAff : Affinity} `{HR : Rusqlite db}
  `{!RowStore db} `{!RowScan db}.

(** The changes carry the row as the scan shipped it. *)
Definition carries (batch scan : list ColumnChange) (table key : string) : Prop :=
  Permutation (changes_at (table, key) batch) (changes_of_row key scan).

Lemma delivered_takes prov cA table devA schema rA scan batch (cB cB' : db) wB psB oB :
  NoDup (map ci_name schema) -> exports cA table devA schema rA scan ->
  ready cB batch table (key_json schema rA) schema wB psB oB -> carries batch scan table (key_json schema rA) ->
  delivers prov table (key_json schema rA) schema wB psB cB batch cB' ->
  exists oB', rows_at cB' table wB psB = option_list oB' /\
    match oB' with
    | Some rB' => exists r0, starts oB r0 /\ forall col, col ∈ data_names schema -> takes rA r0 rB' col
    | None => oB = None /\ forall c, c ∈ shipped schema table devA rA -> ~ viable schema c
    end.
Proof.
  intros Hnd [Hscan Hsch Hkeys Hrow Hok] [Hr Ha Hl] Hc Hd.
  destruct (delivers_moved prov _ _ schema Hnd wB psB _ _ _ Hd oB Hr Ha Hl) as (oB' & Hr' & _ & Hm).
  exists oB'. split; [apply Hr'|].
  unfold carries in Hc. rewrite (scan_table_shipped _ _ _ _ _ Hscan Hsch), changes_of_scanned in Hc by done.
  destruct oB' as [rB'|].
  - destruct Hm as (_ & r0 & Hst & Hg). exists r0. split; [done|]. intros col Hcol. destruct (Hg col Hcol) as (ws & Hp & Hw).
    unfold writes_at in Hp. rewrite (Permutation_map _ (omap_Permutation (write_of col) _ _ Hc)) in Hp.
    rewrite (shipped_writes schema table devA rA col Hok (data_names_nodup _ Hnd)), sent_stored in Hp by by eapply scanned_affine.
    apply (sent_takes schema); [done|]. replace (sent schema rA col) with ws; [exact Hw|].
    unfold sent in *. destruct (bool_decide _); [|by apply Permutation_nil_r in Hp].
    destruct (column_hlc rA col); [by apply Permutation_singleton_r in Hp|by apply Permutation_nil_r in Hp].
  - destruct Hm as [-> Hno]. split; [done|]. intros c Hin Hvia. apply Hno. exists c. by rewrite Hc.
Qed.

(** What the receiver may hold: the row with every synced column stamped and no
    conflict with the sender, or nothing of a row whose columns have proper HLCs. *)
Definition compatible (schema : list ColumnInfo) (rA : stored) (oB : option stored) : Prop :=
  match oB with
  | Some rB => fully_stamped schema rB /\ consistent schema rA rB
  | None => data_names schema <> [] /\
      forall col, col ∈ data_names schema -> hlc_is_newer (stored_hlc (row_hlcs rA) col) EmptyString = true
  end.

Lemma compatible_starts schema rA oB r0 :
  compatible schema rA oB -> starts oB r0 -> receptive schema rA r0 /\ consistent schema rA r0.
Proof.
  destruct oB as [rB|]; cbn.
  - intros [Hst Hcon] ->. split; [|done]. intros col Hcol. left. by apply Hst.
  - intros [_ Hnew] [Hh _]. unfold receptive, consistent. rewrite Hh. split; intros col Hcol; specialize (Hnew col Hcol).
    + by right.
    + intros Heq. cbn in Heq. apply hlc_is_newer_Gt in Hnew. change (stored_hlc [] col) with EmptyString in Heq. congruence.
Qed.

Lemma shipped_viable schema table device r col :
  scannable schema r -> NoDup (data_names schema) -> fully_stamped schema r -> col ∈ data_names schema ->
  hlc_is_newer (stored_hlc (row_hlcs r) col) EmptyString = true ->
  exists c, c ∈ shipped schema table device r /\ viable schema c.
Proof.
  intros Hok Hnd Hst Hcol Hnew. pose proof (Hst col Hcol) as Hcomp.
  pose proof (shipped_writes schema table device r col Hok Hnd) as Hw. unfold sent in Hw.
  rewrite bool_decide_eq_true_2, (stamped_column_hlc r col _ Hcomp eq_refl) in Hw by done.
  assert ((stored_hlc (row_hlcs r) col, cell r col) ∈ omap (write_of col) (shipped schema table device r)) as Hin
    by (rewrite Hw; by left).
  apply list_elem_of_omap in Hin as (c & Hc & Hw'). exists c. split; [done|]. unfold write_of in Hw'.
  destruct (String.eqb_spec (column_name c) col) as [<-|]; [|done].
  destruct (json_to_rusqlite_value (value c)) as [v| |] eqn:Hv; [|done..]. injection Hw' as Hh _.
  split; [done|]. rewrite Hh, Hv. done.
Qed.

(** C12: a two-way exchange of scans converges: B is delivered what a scan of A
    shipped of a row that B holds or lacks, A is delivered what a scan of B then ships,
    each in any number of calls, and afterwards both hold the row and agree on every
    synced column, value and HLC. It is provided that every synced column has an HLC of its
    own, newer than none when B lacks the row, that equal HLCs carry equal writes, that no
    change is for the delete log, and that nothing keeps B from creating the row: of
    a call that brings it, no change of the row is refused by a constraint, and one able
    to create it is newer than every entry B's delete log holds for the row. *)
Theorem exchange_converges provA provB table devA devB schema
    (cA cA' cB cB' : db) rA oB scanA scanB batchA batchB wA psA wB psB :
  NoDup (map ci_name schema) ->
  exports cA table devA schema rA scanA ->
  ready cB batchA table (key_json schema rA) schema wB psB oB -> carries batchA scanA table (key_json schema rA) ->
  delivers provB table (key_json schema rA) schema wB psB cB batchA cB' ->
  (forall rB', row_of cB' table wB psB = Some rB' ->
     exports cB' table devB schema rB' scanB /\
     ready cA batchB table (key_json schema rB') schema wA psA (Some rA) /\ carries batchB scanB table (key_json schema rB') /\
     delivers provA table (key_json schema rB') schema wA psA cA batchB cA') ->
  fully_stamped schema rA -> compatible schema rA oB ->
  exists rA' rB', row_of cA' table wA psA = Some rA' /\ row_of cB' table wB psB = Some rB' /\ agree schema rA' rB'.
Proof.
  intros Hnd HeA HrB HcA HdB Hback HsA Hcomp.
  destruct (delivered_takes _ _ _ _ _ _ _ _ _ _ _ _ _ Hnd HeA HrB HcA HdB) as ([rB'|] & HrB' & HtB).
  - destruct HtB as (r0 & Hst0 & HtB). destruct (compatible_starts _ _ _ _ Hcomp Hst0) as [Hrec Hcon].
    apply row_of_Some in HrB'. destruct (Hback rB' HrB') as (HeB & HrA & HcB & HdA).
    destruct (delivered_takes _ _ _ _ _ _ _ _ _ _ _ _ _ Hnd HeB HrA HcB HdA) as ([rA'|] & HrA' & HtA); [|by destruct HtA].
    destruct HtA as (rA0 & Heq & HtA). cbn in Heq. subst rA0.
    exists rA', rB'. rewrite row_of_Some. split; [done|]. split; [done|]. intros col Hcol. by apply (both_ways_agree schema rA r0).
  - destruct HtB as [-> Hno], Hcomp as [Hne Hnew]. exfalso.
    destruct (data_names schema) as [|col cols] eqn:Hd; [done|].
    assert (col ∈ data_names schema) as Hcol by (rewrite Hd; by left).
    destruct (shipped_viable schema table devA rA col) as (c & Hc & Hvia);
      [apply HeA|by apply data_names_nodup|done|done|apply Hnew; by left|]. by apply (Hno c).
Qed.
End exchange.

(** ** Concrete runs *)

Definition other_key : string := key_json note_schema note_other.
Definition note_change (col hlc v : string) : ColumnChange :=
  mkChange "notes" note_key col hlc (JString v) "dev" None.

(** The changes are for the row [a] or for the row [b]. *)
Definition note_batch_ok (changes : list ColumnChange) : bool :=
  forallb (fun c => String.eqb (table_name c) "notes" &&
    (String.eqb (row_pks c) note_key || String.eqb (row_pks c) other_key)) changes.
Definition note_holds (m : Mem) (o : option stored) : bool :=
  bool_decide (rows_at m "notes" [WEq "id"] [SText "a"] = option_list o) &&
  match o with Some r => note_row_ok r | None => true end.

Lemma note_elsewhere (m : Mem) : elsewhere m "notes" note_schema [WEq "id"] [SText "a"] ("notes", other_key).
Proof.
  right. split; [done|]. cbn [snd].
  assert (from_str_map other_key = Some [("id", JString "b")]) as Hb by (vm_compute; reflexivity). rewrite Hb.
  intros m' w pkv ps [= <-] _ [= <- <-] [= <-]. split; [apply note_key_map|].
  intros r. cbn. destruct (bool_decide (mem_get r "id" = SText "a")) eqn:Hr; [|by rewrite ?andb_false_r].
  apply bool_decide_eq_true in Hr. by rewrite Hr.
Qed.

Lemma note_ready (m : Mem) changes o :
  get_table_schema m "notes" = Ok note_schema -> note_holds m o = true -> note_batch_ok changes = true ->
  ready m changes "notes" note_key note_schema [WEq "id"] [SText "a"] o.
Proof.
  intros Hs Hr Hb. assert (row_address m "notes" note_key note_schema [WEq "id"] [SText "a"]) as Haddr by exact (note_address m Hs).
  clear Hs. unfold note_batch_ok in Hb. rewrite forallb_forall in Hb.
  apply andb_true_iff in Hr as [Hr%bool_decide_eq_true Hok].
  assert (forall c, c ∈ changes -> change_key c = ("notes", note_key) \/ change_key c = ("notes", other_key)) as Hkey.
  { intros c Hc%list_elem_of_In%Hb. apply andb_true_iff in Hc as [Ht%String.eqb_eq Hp]. unfold change_key. rewrite Ht.
    apply orb_true_iff in Hp as [Hp|Hp]; apply String.eqb_eq in Hp; rewrite Hp; [left|right]; reflexivity. }
  split.
  - split; [exact Haddr|exact Hr|]. intros r' ->. by apply note_row_wf.
  - intros c Hc Hne. destruct (Hkey c Hc) as [?| ->]; [done|]. apply note_elsewhere.
  - intros c Hc. destruct (Hkey c Hc) as [[= -> _]|[= -> _]]; discriminate.
Qed.

(** A call that creates the row it brings. *)
Definition note_c1 := note_change "body" "7/d" "p".
Definition note_c2 := note_change "title" "3/d" "q".
Definition note_absent : Mem := note_mem [note_other].
Definition note_created_call := apply_remote_changes (SignatureApplyPolicy NoopSignatureProvider) mini_now 1000 note_absent [note_c1; note_c2] mini_svc tt.
Definition note_created_outcome : ApplyOutcome := mkOutcome (mkReport 2 0 0 0 0 0 0 0 0 0 0) [].

Lemma applied_change_is_held_witness :
  skipped note_created_outcome = [] /\
  exists r v, rows_at (snd (fst note_created_call)) "notes" [WEq "id"] [SText "a"] = [r] /\
    json_to_rusqlite_value (value note_c1) = Ok v /\
    r !! "body" = Some (stored_as note_schema "body" v) /\ stored_hlc (row_hlcs r) "body" = "7/d".
Proof.
  split; [reflexivity|].
  apply (applied_change_is_held NoopSignatureProvider "notes" note_key note_schema [WEq "id"] [SText "a"]
    mini_now 1000 note_absent [note_c1; note_c2] mini_svc note_created_outcome (snd (fst note_created_call))
    (snd note_created_call) 0 note_c1 None).
  - apply (triple_result note_created_call). vm_compute. reflexivity.
  - split; [apply note_address; vm_compute; reflexivity|vm_compute; reflexivity|done].
  - intros c Hc Hne. destruct Hne. apply elem_of_cons in Hc as [->|Hc]; [reflexivity|].
    by apply list_elem_of_singleton in Hc as ->.
  - intros c Hc. apply elem_of_cons in Hc as [->|Hc]; [|apply list_elem_of_singleton in Hc as ->]; discriminate.
  - reflexivity.
  - reflexivity.
  - by intros ?%elem_of_nil.
Defined.

Abbreviation note_call m batch := (call_conn NoopSignatureProvider mini_now 1000 m batch mini_svc).
Abbreviation note_run := (delivers NoopSignatureProvider "notes" note_key note_schema [WEq "id"] [SText "a"]).

(** No change is refused by a constraint, and the delete log is empty. *)
Definition no_refusal_b (m : Mem) (batch : list ColumnChange) : bool :=
  match fst (commit_batch (SignatureApplyPolicy NoopSignatureProvider) mini_now m batch tt) with
  | Ok (o, _, _) => forallb (fun s => negb (constraint_reason (sk_reason s))) (skipped o)
  | _ => true
  end.
Definition note_there (m : Mem) : bool :=
  match rows_at m "notes" [WEq "id"] [SText "a"] with [] => false | _ => true end.

Lemma no_refusal_check (m : Mem) batch table key : no_refusal_b m batch = true ->
  not_refused NoopSignatureProvider table key mini_now m batch.
Proof.
  unfold no_refusal_b, not_refused. destruct (fst _) as [[[o mx] p]| |]; [|done..]. rewrite forallb_forall.
  intros Hall (i & c & reason & _ & _ & Hcr & Hin%list_elem_of_In%Hall). cbn in Hin. by rewrite Hcr in Hin.
Qed.

Lemma note_step (m : Mem) batch rest m' :
  call_commits NoopSignatureProvider mini_now m batch && no_refusal_b m batch &&
    bool_decide (rows_at m DELETED_ROWS_TABLE [] [] = []) = true ->
  note_run (note_call m batch) rest m' -> note_run m (batch ++ rest) m'.
Proof.
  intros [[Hc Hn]%andb_true_iff Hl%bool_decide_eq_true]%andb_true_iff. apply runs_call; [done|].
  intros _ (ch & Hch & Hvia). split; [by apply no_refusal_check|]. exists ch. do 2 (split; [done|]).
  intros mk d _ (r & _ & _ & Hr & _). rewrite Hl in Hr. by apply elem_of_nil in Hr.
Qed.
Lemma note_skip (m : Mem) batch rest m' :
  call_commits NoopSignatureProvider mini_now m batch = false ->
  note_run (note_call m batch) rest m' -> note_run m rest m'.
Proof. apply runs_refused. Qed.

(** Three changes of a row that neither replica has. One gets them in two calls
    with a refused one in between, the other in two calls in another order, one change
    twice. *)
Definition note_c3 := note_change "body" "6/e" "z".
Definition note_refused := [note_c3; note_change "body" (print_u64 (2 ^ 60) +:+ "/c") "far ahead"].
Definition note_x0 : Mem := note_mem [note_other].
Definition note_x1 : Mem := note_call note_x0 [note_c1; note_c2].
Definition note_x2 : Mem := note_call note_x1 note_refused.
Definition note_x3 : Mem := note_call note_x2 [note_c3].
Definition note_y0 : Mem := note_mem [].
Definition note_y1 : Mem := note_call note_y0 [note_c3; note_c1].
Definition note_y2 : Mem := note_call note_y1 [note_c2; note_c1].

Lemma note_run_x : note_run note_x0 [note_c1; note_c2; note_c3] note_x3.
Proof.
  apply (note_step _ [note_c1; note_c2] [note_c3]); [run|].
  apply (note_skip _ note_refused); [run|]. apply (note_step _ [note_c3] []); [run|]. apply runs_nothing.
Qed.
Lemma note_run_y : note_run note_y0 [note_c3; note_c1; note_c2; note_c1] note_y2.
Proof.
  apply (note_step _ [note_c3; note_c1] [note_c2; note_c1]); [run|].
  apply (note_step _ [note_c2; note_c1] []); [run|]. apply runs_nothing.
Qed.

Lemma calls_converge_witness :
  exists oA' oB', rows_at note_x3 "notes" [WEq "id"] [SText "a"] = option_list oA' /\
    rows_at note_y2 "notes" [WEq "id"] [SText "a"] = option_list oB' /\ agree_on note_schema oA' oB' /\
    forall col, col ∈ data_names note_schema -> None <> @None stored -> cell_of None col = cell_of None col -> cell_of oA' col = cell_of oB' col.
Proof.
  apply (calls_converge NoopSignatureProvider NoopSignatureProvider "notes" note_key note_schema
    note_x0 note_x3 note_y0 note_y2 [note_c1; note_c2; note_c3] [note_c3; note_c1; note_c2; note_c1]
    [WEq "id"] [SText "a"] None [WEq "id"] [SText "a"] None).
  - exact note_names.
  - apply note_ready; run.
  - apply note_ready; run.
  - exact note_run_x.
  - exact note_run_y.
  - split; [done|done|]. by intros col _ [].
  - intros c _. rewrite !elem_of_cons. tauto.
  - intros c d Hc Hd _ _. rewrite !elem_of_cons, elem_of_nil in Hc, Hd.
    destruct Hc as [->|[->|[->|[]]]], Hd as [->|[->|[->|[]]]]; cbn [note_c1 note_c2 note_c3 note_change column_name];
      intros Hn He; try discriminate Hn; try (vm_compute in He; discriminate He); by split.
Defined.

Definition note_w0 : Mem := note_mem [note_other; note_b].
Definition note_w1 : Mem := note_call note_w0 [note_c1; note_c2].

Lemma redelivery_changes_nothing_witness :
  exists r2 r3, row_of note_w1 "notes" [WEq "id"] [SText "a"] = Some r2 /\
    row_of (note_call note_w1 [note_c1]) "notes" [WEq "id"] [SText "a"] = Some r3 /\
    forall col, col ∈ data_names note_schema ->
      stored_hlc (row_hlcs r3) col = stored_hlc (row_hlcs r2) col /\ r3 !! col = r2 !! col.
Proof.
  apply (redelivery_changes_nothing NoopSignatureProvider "notes" note_key note_schema
    note_w0 note_w1 (note_call note_w1 [note_c1]) [note_c1; note_c2] [note_c1] [WEq "id"] [SText "a"] note_b).
  - exact note_names.
  - apply note_ready; run.
  - apply (note_step _ [note_c1; note_c2] []); [run|]. apply runs_nothing.
  - apply (note_step _ [note_c1] []); [run|]. apply runs_nothing.
  - intros c ->%list_elem_of_singleton _. by left.
Defined.

(** A ships its table, B applies it and ships its own back: the row B lacked
    arrives with it. *)
Definition note_z0 : Mem := note_mem [note_b].
Definition note_z1 : Mem := note_call note_z0 (note_changes note_source).
Definition note_z2 : Mem := note_call note_source (note_changes note_z1).

Lemma note_carries scan :
  forallb (fun c => String.eqb (table_name c) "notes") scan = true -> carries scan scan "notes" note_key.
Proof.
  intros Ht. assert (changes_at ("notes", note_key) scan = changes_of_row note_key scan) as Heq; [|by unfold carries; rewrite Heq].
  induction scan as [|c scan IH]; [done|]. cbn [forallb] in Ht. apply andb_true_iff in Ht as [Hc%String.eqb_eq Ht].
  rewrite changes_at_cons, (IH Ht). unfold change_key. rewrite Hc. unfold changes_of_row. cbn [List.filter].
  destruct (String.eqb_spec (row_pks c) note_key) as [Heq|Hne]; case_decide as Hd; [done| | |done].
  - destruct Hd. by rewrite Heq.
  - injection Hd as Heq. done.
Qed.

Lemma exchange_converges_witness :
  exists rA' rB', row_of note_z2 "notes" [WEq "id"] [SText "a"] = Some rA' /\
    row_of note_z1 "notes" [WEq "id"] [SText "a"] = Some rB' /\ agree note_schema rA' rB'.
Proof.
  assert (row_of note_z1 "notes" [WEq "id"] [SText "a"] = Some note_merged) as Hb by (apply holds_note_row; run).
  assert (key_json note_schema note_merged = note_key) as Hkey by run.
  apply (exchange_converges NoopSignatureProvider NoopSignatureProvider "notes" "dev" "dev" note_schema
    note_source note_z2 note_z0 note_z1 note_a (Some note_b) (note_changes note_source) (note_changes note_z1)
    (note_changes note_source) (note_changes note_z1) [WEq "id"] [SText "a"] [WEq "id"] [SText "a"]).
  - exact note_names.
  - apply note_exports; run.
  - apply note_ready; run.
  - apply note_carries; run.
  - rewrite <- (app_nil_r (note_changes note_source)). apply note_step; [run|]. apply runs_nothing.
  - intros r Hr. rewrite Hb in Hr. injection Hr as <-. rewrite Hkey. split; [apply note_exports; run|].
    split; [apply note_ready; run|]. split; [apply note_carries; run|].
    rewrite <- (app_nil_r (note_changes note_z1)). apply note_step; [run|]. apply runs_nothing.
  - apply note_fully_stamped. run.
  - split; [apply note_fully_stamped; run|]. intros col [->| ->]%note_data_names; vm_compute; discriminate.
Defined.
