(* ===== verification/DeleteRuns.v ===== *)
(** * Deletes and runs of calls (src/crdt/apply/engine.rs, delete_propagation.rs)

    What becomes of a row that a delete-log entry is delivered for, over a whole run of
    [apply_remote_changes] calls: the delete wins over every change that is not newer,
    and a newer write survives it, however the calls batch, order and repeat them. *)

From S2P Require Import Prelude Utf8 Hashing Names Json Sql Mini Hlc Lww Trigger Report Errors Value Scanner Preimage Policy Preflight Grouping Row Write DeleteProp Cleanup Engine EngineLemmas Apply Store Merge Deletes Batch Tombstone Sync Creates Replicas.

(** ** A row through one call *)

Section calls.
Context `{Unicode} `{Serde} `{!SerdeLaws} `{Uhlc} `{Base64} `{HashOrder} {db : Type} `{RowStore db}
  (provider : SignatureProvider).
Abbreviation policy := (SignatureApplyPolicy (db := db) provider).

(** Every delete-log entry that a committed batch brings, looked up in the store it is
    propagated in, satisfies [Q]. *)
Definition each_inbound (Q : db -> string -> Prop) (now : nat -> Z) (conn : db) (batch : list ColumnChange) : Prop :=
  match fst (commit_batch policy now conn batch tt), merged_store policy now conn batch tt with
  | Ok (o, _, _), Some cm => forall id, id ∈ collect_inbound_delete_log_ids batch o -> Q cm id
  | _, _ => True
  end.

(** They are no matter to the other rows of a clause. *)
Definition deletes_apart (t : string) (w : list watom) (ps : list SqlValue) :=
  each_inbound (fun cm id => log_apart cm t w ps id).

Lemma call_commits_Ok now (conn : db) batch : call_commits provider now conn batch = true ->
  exists o m, fst (commit_batch policy now conn batch tt) = Ok (o, m, tt).
Proof. unfold call_commits. destruct (fst _) as [[[o m] []]| |]; [|done..]. by exists o, m. Qed.

Lemma call_outcome now nowc (conn : db) batch svc o conn' svc' :
  apply_remote_changes policy now nowc conn batch svc tt = (Ok (o, tt), conn', svc') ->
  call_conn provider now nowc conn batch svc = conn' /\ same_schema conn conn' /\
  exists m, fst (commit_batch policy now conn batch tt) = Ok (o, m, tt).
Proof.
  intros Hc. split; [unfold call_conn; by rewrite Hc|]. unfold apply_remote_changes in Hc.
  destruct (commit_batch policy now conn batch tt) as [[[[o' m] []]| |] c] eqn:Hb; [|done..].
  assert (o' = o /\ c = conn') as [-> ->].
  { destruct m; [|by injection Hc]. destruct (advance_past_remote _ _ _) as [[]]; by injection Hc. }
  split; [exact (commit_batch_schema _ (signature_leaves_store provider) _ _ _ _ _ _ _ _ Hb)|by exists m].
Qed.

Lemma alone_incl (c : db) changes changes' t key schema w ps :
  (forall ch, ch ∈ changes' -> ch ∈ changes) -> alone c changes t key schema w ps -> alone c changes' t key schema w ps.
Proof. intros Hin Hal ch Hch. by apply Hal, Hin. Qed.

Section row.
Context (t key : string) (schema : list ColumnInfo) (Hnames : NoDup (map ci_name schema)) (w : list watom) (ps : list SqlValue).

Lemma call_row now nowc conn batch svc o m o0 :
  stored_row conn t key schema w ps o0 -> alone conn batch t key schema w ps ->
  fst (commit_batch policy now conn batch tt) = Ok (o, m, tt) -> deletes_apart t w ps now conn batch ->
  exists cm o1, merged_store policy now conn batch tt = Some cm /\ same_schema conn cm /\
    same_schema conn (call_conn provider now nowc conn batch svc) /\
    stored_row cm t key schema w ps o1 /\ wrote t key schema o0 o1 batch /\
    batch_made policy batch (map sk_input_index (skipped o)) t key schema o0 o1 /\
    stored_row (call_conn provider now nowc conn batch svc) t key schema w ps
      (after_deletes cm t w ps (collect_inbound_delete_log_ids batch o) o1).
Proof.
  intros Hrow Hal. rewrite call_conn_commit. unfold deletes_apart, each_inbound.
  destruct (commit_batch policy now conn batch tt) as [r conn'] eqn:Hc. cbn [fst snd]. intros -> Hap.
  pose proof (commit_batch_schema _ (signature_leaves_store provider) _ _ _ _ _ _ _ _ Hc) as Hss.
  destruct (commit_batch_row policy (signature_leaves_store provider) _ _ _ _ _ _ _ _ _ _ _ _ _ _ Hrow Hal Hc)
    as (cm & Hcm & o1 & Hs & Hr1 & Hmade & Hd). rewrite Hcm in Hap.
  exists cm, o1. do 4 (split; [done|]). split; [by eapply made_writes|]. split; [done|by apply Hd].
Qed.

(** A run keeps what its calls and its deletes keep. *)
Lemma runs_keep (ok : (nat -> Z) -> db -> list ColumnChange -> db -> Prop) (Q : ColumnChange -> Prop) (J : option stored -> Prop)
    conn changes conn' :
  (forall now c batch c', ok now c batch c' -> deletes_apart t w ps now c batch) ->
  (forall o0 o1 batch, (forall ch, ch ∈ batch -> Q ch) -> wrote t key schema o0 o1 batch -> J o0 -> J o1) -> J None ->
  runs provider ok conn changes conn' -> forall o0, (forall ch, ch ∈ changes -> Q ch) ->
  stored_row conn t key schema w ps o0 -> alone conn changes t key schema w ps -> J o0 ->
  exists o1, stored_row conn' t key schema w ps o1 /\ same_schema conn conn' /\ J o1.
Proof.
  intros Hok Hstep Hnone. induction 1 as [conn|now nowc conn batch svc rest conn' Hc Ho _ IH|now nowc conn batch svc rest conn' Hc _ IH];
    intros o0 HQ Hrow Hal HJ.
  - by exists o0.
  - destruct (call_commits_Ok _ _ _ Hc) as (o & m & Ho').
    destruct (call_row now nowc conn batch svc o m o0 Hrow) as (cm & o1 & _ & _ & Hs & _ & Hw & _ & Hr1); [|done|by eapply Hok|].
    { intros ch Hch. apply Hal. apply elem_of_app. by left. }
    destruct (IH _ ltac:(intros ch Hch; apply HQ; apply elem_of_app; by right) Hr1) as (o2 & Hr2 & Hs2 & HJ2).
    + eapply same_schema_alone; [exact Hs|]. intros ch Hch. apply Hal. apply elem_of_app. by right.
    + unfold after_deletes. destruct (existsb _ _); [done|]. eapply Hstep; [|exact Hw|done].
      intros ch Hch. apply HQ. apply elem_of_app. by left.
    + exists o2. split; [done|]. split; [by etrans|done].
  - pose proof (refused_leaves_store provider now nowc conn batch svc Hc) as Hs.
    destruct (IH o0 HQ) as (o1 & Hr1 & Hs1 & HJ1); [by eapply same_store_row|by eapply same_schema_alone; [apply Hs|]|done|].
    exists o1. split; [done|]. split; [|done]. etrans; [apply Hs|exact Hs1].
Qed.
End row.
End calls.

(** ** Rows no newer than a delete *)

Section old.
Context `{Unicode} `{Serde} `{!SerdeLaws} `{Affinity}.

(** The row HLC covers the columns. *)
Definition tidy (o : option stored) : Prop := forall r, o = Some r -> row_hlc_covers r.
(** And is not newer than [d]. *)
Definition old (d : string) (o : option stored) : Prop :=
  forall r, o = Some r -> cmp_le compare_hlc_strings (row_hlc r) d /\ row_hlc_covers r.

Lemma starts_tidy o r0 : starts o r0 -> tidy o -> row_hlc_covers r0.
Proof. destruct o as [r|]; cbn; [intros -> Ht; by apply Ht|]. intros Hb _. by apply blank_covers. Qed.
Lemma starts_old d o r0 : starts o r0 -> old d o -> cmp_le compare_hlc_strings (row_hlc r0) d.
Proof. destruct o as [r|]; cbn; [intros -> Ho; by apply Ho|]. intros [_ ->] _. apply empty_hlc_least. Qed.
Lemma old_tidy d o : old d o -> tidy o.
Proof. intros Ho r Hr. by apply Ho. Qed.

Context (t key : string) (schema : list ColumnInfo).

Lemma wrote_tidy o0 o1 batch : wrote t key schema o0 o1 batch -> tidy o0 -> tidy o1.
Proof. intros Hw Ht r1 ->. destruct Hw as (_ & r0 & Hst & _ & _ & Hcov & _). apply Hcov. by eapply starts_tidy. Qed.

(** A column holds its former HLC or that of a change. *)
Lemma registers_hlc r0 r1 batch col : registers t key schema r0 r1 batch -> col ∈ data_names schema ->
  stored_hlc (row_hlcs r1) col = stored_hlc (row_hlcs r0) col \/
  exists ch, ch ∈ batch /\ change_key ch = (t, key) /\ stored_hlc (row_hlcs r1) col = hlc_timestamp ch.
Proof.
  intros Hreg Hcol. destruct (Hreg col Hcol) as (ws & Hp & [Hh _]). cbn [fst snd] in Hh.
  destruct (lww_merge_result fst ws (mkReg (stored_hlc (row_hlcs r0) col) None)) as [[Hm|(x & Hx & _ & _ & Hm)] _ _];
    rewrite Hm in Hh; cbn [reg_hlc] in Hh; [by left|right].
  rewrite Hp in Hx. apply writes_at_in in Hx as (ch & Hch & Hk & _ & y & Hy & ->). exists ch. do 2 (split; [done|]).
  rewrite Hh. unfold write_of in Hy. destruct (String.eqb _ _); [|done]. destruct (json_to_rusqlite_value _); [|done..].
  by injection Hy as <-.
Qed.

Lemma wrote_old d o0 o1 batch :
  (forall ch, ch ∈ batch -> change_key ch = (t, key) -> cmp_le compare_hlc_strings (hlc_timestamp ch) d) ->
  wrote t key schema o0 o1 batch -> old d o0 -> old d o1.
Proof.
  intros Hle Hw Ho r1 ->. split; [|by eapply wrote_tidy; [exact Hw|by eapply old_tidy|done]].
  destruct Hw as (_ & r0 & Hst & Hreg & _ & _ & [->|(col & Hcol & ->)]); [by eapply starts_old|].
  destruct (registers_hlc _ _ _ _ Hreg Hcol) as [->|(ch & Hch & Hk & ->)]; [|by apply Hle].
  eapply cmp_le_trans; [apply _|eapply starts_tidy; [exact Hst|by eapply old_tidy]|by eapply starts_old].
Qed.

(** What every write of a column agrees on stays or becomes its value. *)
Lemma wrote_cell o0 r1 r0 batch col v :
  wrote t key schema o0 (Some r1) batch -> o0 = Some r0 -> col ∈ data_names schema -> stored_as schema col v = v ->
  (forall ch, ch ∈ batch -> change_key ch = (t, key) -> column_name ch = col -> json_to_rusqlite_value (value ch) = Ok v) ->
  cell r0 col = v -> cell r1 col = v.
Proof.
  intros (_ & r0' & Hst & Hreg & _) -> Hcol Haff Hall Hc. cbn in Hst. subst r0'.
  destruct (Hreg col Hcol) as (ws & Hp & [_ Hv]). cbn [fst snd] in Hv. unfold cell in *. rewrite Hv.
  destruct (lww_merge_result fst ws (mkReg (stored_hlc (row_hlcs r0) col) None)) as [[Hm|(x & Hx & _ & _ & Hm)] _ _];
    rewrite Hm; cbn [reg_value]; [done|].
  rewrite Hp in Hx. apply writes_at_in in Hx as (ch & Hch & Hk & Hn & y & Hy & ->).
  unfold write_of in Hy. rewrite (proj2 (String.eqb_eq _ _) Hn), (Hall ch Hch Hk Hn) in Hy. by injection Hy as <-.
Qed.
End old.

(** ** A buried row *)

Section burial.
Context `{Unicode} `{Serde} `{!SerdeLaws} `{Uhlc} `{Base64} `{HashOrder} {db : Type} `{RowStore db}
  (provider : SignatureProvider) (table key : string) (schema : list ColumnInfo)
  (Hnames : NoDup (map ci_name schema)) (w : list watom) (ps : list SqlValue) (lk id : string) (ls : list ColumnInfo).
Abbreviation policy := (SignatureApplyPolicy (db := db) provider).

(** The row of the delete log with the id: its key map has the id, and its columns keep
    text as it is. *)
Record log_row : Prop := {
  lr_names : NoDup (map ci_name ls);
  lr_id : from_str_map lk ≫= jget "id" = Some (JString id);
  lr_columns : forall col, col ∈ ["table_name"; "row_pks"] -> col ∈ data_names ls /\ stores_text ls col;
}.
Context (Hlog : log_row).
Abbreviation log_stored c o := (stored_row c DELETED_ROWS_TABLE lk ls [WEq "id"] [SText id] o).
Abbreviation log_alone c changes := (alone c changes DELETED_ROWS_TABLE lk ls [WEq "id"] [SText id]).

(** It is an entry for the row, and not older than [d]. *)
Definition entry_for (d : string) (r : stored) : Prop :=
  cell r "table_name" = SText table /\ cell r "row_pks" = SText key /\ cmp_le compare_hlc_strings d (row_hlc r).
Definition buries (c : db) (d : string) : Prop := exists r, log_stored c (Some r) /\ entry_for d r.

(** Changes of it that are for the same row. *)
Definition repeats (changes : list ColumnChange) : Prop :=
  forall ch, ch ∈ changes -> change_key ch = (DELETED_ROWS_TABLE, lk) ->
    (column_name ch = "table_name" -> value ch = JString table) /\ (column_name ch = "row_pks" -> value ch = JString key).

Lemma row_hlc_cell d (r : stored) :
  hlc_is_newer d EmptyString = true -> cmp_le compare_hlc_strings d (row_hlc r) -> cell r HLC_TIMESTAMP_COLUMN = SText (row_hlc r).
Proof. unfold row_hlc. intros Hd%hlc_is_newer_Gt Hle. by destruct (cell r HLC_TIMESTAMP_COLUMN). Qed.

Lemma buries_tombstone c d m :
  buries c d -> hlc_is_newer d EmptyString = true -> from_str_map key = Some m ->
  exists d', cmp_le compare_hlc_strings d d' /\ tombstone c table m d'.
Proof.
  intros (r & Hr & Ht & Hk & Hle) Hd Hm. exists (row_hlc r). split; [done|]. exists r, key, m.
  split; [apply (store_all c _ [WEq "id"] [SText id]); rewrite (sr_rows _ _ _ _ _ _ _ Hr); by left|].
  do 2 (split; [done|]). split; [by eapply row_hlc_cell|]. split; [done|apply jmap_eqb_refl].
Qed.

(** The entry asks for the row. *)
Lemma buries_target c d :
  buries c d -> hlc_is_newer d EmptyString = true -> row_address c table key schema w ps ->
  exists d', cmp_le compare_hlc_strings d d' /\ log_target c id = Some ((table, w, ps), d').
Proof.
  intros (r & Hr & Ht & Hk & Hle) Hd [Hsch [_ Hh Hhs _ _] [Hne _] (m & Hm & [_ Hn (pkv & Hw & Hps) _])].
  exists (row_hlc r). split; [done|]. unfold log_target, log_entry. rewrite (sr_rows _ _ _ _ _ _ _ Hr). cbn.
  rewrite Ht, Hk, (row_hlc_cell d r Hd Hle). cbn. unfold delete_target.
  assert (is_safe_identifier table = true) as -> by (unfold get_table_schema in Hsch; by destruct (is_safe_identifier table)).
  rewrite Hm, Hsch, Hh, Hhs, Hn, Hw, Hps. cbn. by destruct (pk_names schema).
Qed.

(** No entry asks for a row of the log. *)
Lemma hits_not_log (c : db) ids h :
  (forall i, i ∈ ids -> log_apart c table w ps i) -> existsb (hits c DELETED_ROWS_TABLE [WEq "id"] [SText id] h) ids = false.
Proof.
  intros Hap. apply not_true_is_false. intros (i & Hi%list_elem_of_In & Hh)%existsb_exists. specialize (Hap i Hi).
  unfold hits, log_apart in *. destruct (log_target c i) as [[[[t w'] ps'] dt]|]; [|done]. destruct Hap as [Hne _].
  apply andb_true_iff in Hh as [[= -> _ _]%bool_decide_eq_true _]. by vm_compute in Hne.
Qed.

Lemma apart_log now conn batch :
  deletes_apart provider table w ps now conn batch ->
  deletes_apart provider DELETED_ROWS_TABLE [WEq "id"] [SText id] now conn batch.
Proof.
  unfold deletes_apart, each_inbound. destruct (fst _) as [[[o m] p]| |]; [|done..]. destruct (merged_store _ _ _ _ _); [|done].
  intros Hap i Hi. specialize (Hap i Hi). unfold log_apart in *. destruct (log_target _ i) as [[[[t w'] ps'] dt]|]; [|done].
  destruct Hap as [Hne _]. split; [done|by left].
Qed.

(** A committed call keeps the rows of the log. *)
Lemma call_log_row now nowc conn batch svc o m oL :
  log_stored conn oL -> log_alone conn batch -> fst (commit_batch policy now conn batch tt) = Ok (o, m, tt) ->
  deletes_apart provider table w ps now conn batch ->
  exists cm oL', merged_store policy now conn batch tt = Some cm /\ log_stored cm oL' /\
    log_stored (call_conn provider now nowc conn batch svc) oL' /\ wrote DELETED_ROWS_TABLE lk ls oL oL' batch /\
    batch_made policy batch (map sk_input_index (skipped o)) DELETED_ROWS_TABLE lk ls oL oL'.
Proof.
  intros Hr Hal Ho Hap. pose proof (apart_log _ _ _ Hap) as HapL.
  destruct (call_row provider _ _ ls (lr_names Hlog) _ _ now nowc conn batch svc o m oL Hr Hal Ho HapL)
    as (cm & oL' & Hcm & _ & _ & Hrm & Hw & Hmade & Hr'). exists cm, oL'. do 2 (split; [done|]).
  unfold deletes_apart, each_inbound in Hap. rewrite Ho, Hcm in Hap.
  unfold after_deletes in Hr'. by rewrite hits_not_log in Hr'.
Qed.

Lemma entry_kept oL r d batch : repeats batch ->
  wrote DELETED_ROWS_TABLE lk ls (Some r) oL batch -> entry_for d r -> exists r', oL = Some r' /\ entry_for d r'.
Proof.
  intros Hrep Hw (Ht & Hk & Hle). destruct oL as [r'|]; [|done]. exists r'. split; [done|].
  destruct (lr_columns Hlog "table_name") as [Htd Htt]; [by left|]. destruct (lr_columns Hlog "row_pks") as [Hkd Hkt]; [by right; left|].
  split; [|split].
  - eapply wrote_cell; [exact Hw|done..| |done]. intros ch Hch Hck Hn. by rewrite (proj1 (Hrep ch Hch Hck) Hn).
  - eapply wrote_cell; [exact Hw|done..| |done]. intros ch Hch Hck Hn. by rewrite (proj2 (Hrep ch Hch Hck) Hn).
  - destruct Hw as (_ & r0 & Hst & _ & Hmono & _). cbn in Hst. subst r0. by eapply cmp_le_trans; [apply _| |].
Qed.

(** The row is gone and the log says so. *)
Definition buried (c : db) (d : string) : Prop := stored_row c table key schema w ps None /\ buries c d.

(** No change of the row is newer than the delete. *)
Definition none_newer (d : string) (changes : list ColumnChange) : Prop :=
  forall ch, ch ∈ changes -> change_key ch = (table, key) -> cmp_le compare_hlc_strings (hlc_timestamp ch) d.

Lemma buried_call now nowc conn batch svc d :
  buried conn d -> hlc_is_newer d EmptyString = true -> alone conn batch table key schema w ps -> log_alone conn batch ->
  none_newer d batch -> repeats batch -> call_commits provider now conn batch = true ->
  deletes_apart provider table w ps now conn batch -> buried (call_conn provider now nowc conn batch svc) d.
Proof.
  intros [Hrow Hb] Hd Hal HalL Hold Hrep (o & m & Ho)%call_commits_Ok Hap.
  destruct (call_row provider _ _ _ Hnames _ _ now nowc conn batch svc o m None Hrow Hal Ho Hap)
    as (cm & o1 & Hcm & _ & _ & Hrm & _ & _ & Hr').
  destruct (addr_where _ _ _ _ _ _ (sr_address _ _ _ _ _ _ _ Hrow)) as (pks & Hpks & _).
  destruct (buries_tombstone conn d pks Hb Hd Hpks) as (d' & Hdd & Htomb).
  assert (rows_at cm table w ps = []) as Hgone.
  { eapply (merged_store_deleted policy (signature_leaves_store provider) now conn batch); [done..| |exact Hcm].
    intros ch [Hk Hch]%list_elem_of_filter. eapply cmp_le_trans; [apply _|by apply Hold|done]. }
  rewrite (sr_rows _ _ _ _ _ _ _ Hrm) in Hgone. destruct o1 as [r1|]; [done|]. split.
  { unfold after_deletes in Hr'. by destruct (existsb _ _). }
  destruct Hb as (r & Hr & Hent).
  destruct (call_log_row now nowc conn batch svc o m (Some r) Hr HalL Ho Hap) as (_ & oL & _ & _ & HrL & Hw & _).
  destruct (entry_kept oL r d batch Hrep Hw Hent) as (r' & -> & Hent'). by exists r'.
Qed.

Lemma inbound_id batch (o : ApplyOutcome) i ch :
  batch !! i = Some ch -> change_key ch = (DELETED_ROWS_TABLE, lk) -> i ∉ map sk_input_index (skipped o) ->
  id ∈ collect_inbound_delete_log_ids batch o.
Proof.
  intros Hi [= Ht Hk] Hsk. unfold collect_inbound_delete_log_ids. rewrite (hash_order_perm 3).
  apply elem_of_remove_dups, list_elem_of_omap. exists (i, ch). split; [apply elem_of_lookup_imap; by exists i, ch|].
  unfold delete_log_id. rewrite Ht, String.eqb_refl, Hk, (lr_id Hlog). cbn [negb orb]. rewrite bool_decide_eq_false_2; [done|].
  rewrite elem_of_list_to_set. intros (s & Hs & [_ Hin]%list_elem_of_filter)%list_elem_of_fmap. apply Hsk. rewrite Hs. by apply list_elem_of_fmap_2.
Qed.

(** The call that brings the entry: its table name at [i] and its key at [j]. *)
Record brings (batch : list ColumnChange) (o : ApplyOutcome) (d : string) : Prop := {
  br_table : exists i ch, batch !! i = Some ch /\ i ∉ map sk_input_index (skipped o) /\
    change_key ch = (DELETED_ROWS_TABLE, lk) /\ column_name ch = "table_name" /\ value ch = JString table /\ hlc_timestamp ch = d;
  br_key : exists j ch, batch !! j = Some ch /\ j ∉ map sk_input_index (skipped o) /\
    change_key ch = (DELETED_ROWS_TABLE, lk) /\ column_name ch = "row_pks" /\ value ch = JString key;
}.

Lemma brings_entry batch o d oL oL' :
  brings batch o d -> batch_made policy batch (map sk_input_index (skipped o)) DELETED_ROWS_TABLE lk ls oL oL' ->
  tidy oL' -> exists r, oL' = Some r /\ entry_for d r.
Proof.
  intros [(i & ch & Hi & Hsk & Hk & Hn & Hv & Hh) (j & ch' & Hj & Hskj & Hkj & Hnj & Hvj)] Hmade Ht.
  destruct (made_landed provider _ _ ls _ _ _ _ _ _ Hmade Hi Hk Hsk) as (r & v & -> & Hrv & Hc & Hch).
  destruct (made_landed provider _ _ ls _ _ _ _ _ _ Hmade Hj Hkj Hskj) as (r2 & v2 & [= <-] & Hrv2 & Hc2 & _).
  rewrite Hv in Hrv. rewrite Hvj in Hrv2. injection Hrv as <-. injection Hrv2 as <-. rewrite Hn in Hc, Hch. rewrite Hnj in Hc2.
  exists r. split; [done|]. split; [|split].
  - unfold cell. rewrite Hc. cbn. apply (lr_columns Hlog). by left.
  - unfold cell. rewrite Hc2. cbn. apply (lr_columns Hlog). by right; left.
  - rewrite <- Hh, <- Hch. by apply Ht.
Qed.

Lemma burying_call now nowc conn batch svc o m d o0 oL :
  stored_row conn table key schema w ps o0 -> old d o0 -> log_stored conn oL -> tidy oL ->
  hlc_is_newer d EmptyString = true -> alone conn batch table key schema w ps -> log_alone conn batch ->
  none_newer d batch -> fst (commit_batch policy now conn batch tt) = Ok (o, m, tt) -> brings batch o d ->
  deletes_apart provider table w ps now conn batch -> buried (call_conn provider now nowc conn batch svc) d.
Proof.
  intros Hrow Hold HrL HtL Hd Hal HalL Hnew Ho Hbr Hap.
  destruct (call_log_row now nowc conn batch svc o m oL HrL HalL Ho Hap) as (cm & oL' & Hcm & HrmL & HrL' & HwL & HmL).
  destruct (brings_entry batch o d oL oL' Hbr HmL (wrote_tidy _ _ _ _ _ _ HwL HtL)) as (r & -> & Hent).
  split; [|by exists r].
  destruct (call_row provider _ _ _ Hnames _ _ now nowc conn batch svc o m o0 Hrow Hal Ho Hap)
    as (cm' & o1 & Hcm' & _ & _ & Hrm & Hw & _ & Hr'). rewrite Hcm in Hcm'. injection Hcm' as <-.
  destruct (buries_target cm d) as (d' & Hdd & Htg); [by exists r|done|apply Hrm|].
  unfold after_deletes in Hr'. rewrite (proj2 (existsb_exists _ _)) in Hr'; [done|]. exists id. split.
  { destruct Hbr as [(i & ch & Hi & Hsk & Hk & _) _]. apply list_elem_of_In. by eapply inbound_id. }
  unfold hits. rewrite Htg, bool_decide_eq_true_2 by done. cbn [andb].
  destruct o1 as [r1|]; [|done]. destruct (wrote_old _ _ _ d o0 (Some r1) batch Hnew Hw Hold r1 eq_refl) as [Hle _].
  unfold opt_hlc. cbn. destruct (cell r1 HLC_TIMESTAMP_COLUMN) as [| | |s|] eqn:Hs; try done. cbn.
  assert (cmp_le compare_hlc_strings s d') as Hsd.
  { eapply cmp_le_trans; [apply _| |exact Hdd]. unfold row_hlc in Hle. by rewrite Hs in Hle. }
  unfold cmp_le in Hsd. by destruct (compare_hlc_strings s d').
Qed.

(** A run of calls whose deletes are no matter to other rows. *)
Definition calls := runs provider (fun now c batch _ => deletes_apart provider table w ps now c batch).

Lemma calls_old conn changes conn' d o0 : calls conn changes conn' -> none_newer d changes ->
  stored_row conn table key schema w ps o0 -> alone conn changes table key schema w ps -> old d o0 ->
  exists o1, stored_row conn' table key schema w ps o1 /\ same_schema conn conn' /\ old d o1.
Proof.
  intros Hr Hnew Hrow Hal Hold.
  eapply (runs_keep provider table key schema Hnames w ps (fun now c batch _ => deletes_apart provider table w ps now c batch)
    (fun ch => change_key ch = (table, key) -> cmp_le compare_hlc_strings (hlc_timestamp ch) d) (old d)); [done| |done|exact Hr|done..].
  intros ???. by apply wrote_old.
Qed.

Lemma calls_log_tidy conn changes conn' oL : calls conn changes conn' ->
  log_stored conn oL -> log_alone conn changes -> tidy oL -> exists oL', log_stored conn' oL' /\ tidy oL'.
Proof.
  intros Hr Hrow Hal Ht.
  assert (exists o1, log_stored conn' o1 /\ same_schema conn conn' /\ tidy o1) as (o1 & Hr1 & _ & Ht1); [|by exists o1].
  eapply (runs_keep provider DELETED_ROWS_TABLE lk ls (lr_names Hlog) [WEq "id"] [SText id]
    (fun now c batch _ => deletes_apart provider table w ps now c batch) (fun _ => True) tidy);
    [intros now c batch c'; apply apart_log| |done|exact Hr|done..].
  intros ??? _. by apply wrote_tidy.
Qed.

Lemma buried_runs conn changes conn' d : calls conn changes conn' -> hlc_is_newer d EmptyString = true ->
  none_newer d changes -> repeats changes -> alone conn changes table key schema w ps -> log_alone conn changes ->
  buried conn d -> buried conn' d.
Proof.
  intros Hruns Hd. induction Hruns as [conn|now nowc conn batch svc rest conn' Hc Hap _ IH|now nowc conn batch svc rest conn' Hc _ IH];
    intros Hnew Hrep Hal HalL Hbur; [done| |].
  - assert (forall ch, ch ∈ batch -> ch ∈ batch ++ rest) as Hb by (intros ch Hch; apply elem_of_app; by left).
    assert (forall ch, ch ∈ rest -> ch ∈ batch ++ rest) as Hr by (intros ch Hch; apply elem_of_app; by right).
    assert (same_schema conn (call_conn provider now nowc conn batch svc)) as Hs.
    { destruct (call_commits_Ok _ _ _ _ Hc) as (o & m & Ho). destruct Hbur as [Hrow _].
      by destruct (call_row provider _ _ _ Hnames _ _ now nowc conn batch svc o m None Hrow ltac:(intros ch Hch; by apply Hal, Hb) Ho Hap)
        as (_ & _ & _ & _ & Hs & _). }
    apply IH; [intros ch Hch; by apply Hnew, Hr|intros ch Hch; by apply Hrep, Hr|..].
    + eapply same_schema_alone; [exact Hs|]. intros ch Hch. by apply Hal, Hr.
    + eapply same_schema_alone; [exact Hs|]. intros ch Hch. by apply HalL, Hr.
    + apply buried_call; auto; intros ch Hch; [by apply Hal, Hb|by apply HalL, Hb|by apply Hnew, Hb|by apply Hrep, Hb].
  - pose proof (refused_leaves_store provider now nowc conn batch svc Hc) as Hs.
    apply IH; [done|done|by eapply same_schema_alone; [apply Hs|]|by eapply same_schema_alone; [apply Hs|]|].
    destruct Hbur as [Hrow (r & Hr & Hent)]. split; [by eapply same_store_row|]. exists r. split; [by eapply same_store_row|done].
Qed.
End burial.

Section wins.
Context `{Unicode} `{Serde} `{!SerdeLaws} `{Uhlc} `{Base64} `{HashOrder} {db : Type} `{RowStore db}.

(** C9: a delete wins over every change that is not newer, whenever it arrives: when
    a call of a run brings the delete-log entry of a row, and neither the row the run
    started from nor any of the changes that it delivers for the row - in calls before, in
    the same call or in calls after, in any batches and any order - is newer than the
    entry, the row is gone at the end of the
    run and the log still holds an entry for it that is no older. So any two replicas that
    were delivered the entry agree that the row is deleted. *)
Theorem delete_wins prov table key schema w ps lk id ls (c0 c1 c2 c3 : db) before batch after now now_commit svc svc' o o0 oL d :
  NoDup (map ci_name schema) -> log_row lk id ls -> hlc_is_newer d EmptyString = true ->
  stored_row c0 table key schema w ps o0 -> old d o0 -> alone c0 (before ++ batch ++ after) table key schema w ps ->
  stored_row c0 DELETED_ROWS_TABLE lk ls [WEq "id"] [SText id] oL -> tidy oL ->
  alone c0 (before ++ batch ++ after) DELETED_ROWS_TABLE lk ls [WEq "id"] [SText id] ->
  none_newer table key d (before ++ batch ++ after) -> repeats table key lk after ->
  calls prov table w ps c0 before c1 ->
  apply_remote_changes (SignatureApplyPolicy prov) now now_commit c1 batch svc tt = (Ok (o, tt), c2, svc') ->
  deletes_apart prov table w ps now c1 batch -> brings table key lk batch o d ->
  calls prov table w ps c2 after c3 ->
  rows_at c3 table w ps = [] /\ buries table key lk id ls c3 d.
Proof.
  intros Hnd Hlog Hd Hrow Hold Hal HrL HtL HalL Hnew Hrep Hr1 Hc Hap Hbr Hr2.
  assert (forall ch, ch ∈ before -> ch ∈ before ++ batch ++ after) as Hb1 by (intros ch Hch; rewrite !elem_of_app; auto).
  assert (forall ch, ch ∈ batch -> ch ∈ before ++ batch ++ after) as Hb2 by (intros ch Hch; rewrite !elem_of_app; auto).
  assert (forall ch, ch ∈ after -> ch ∈ before ++ batch ++ after) as Hb3 by (intros ch Hch; rewrite !elem_of_app; auto).
  destruct (call_outcome _ _ _ _ _ _ _ _ _ Hc) as (<- & Hs2 & m & Ho).
  destruct (calls_old prov table key schema Hnd w ps c0 before c1 d o0 Hr1) as (o1 & Hrow1 & Hs1 & Hold1);
    [intros ch Hch; by apply Hnew, Hb1|done|by eapply alone_incl|done|].
  destruct (calls_log_tidy prov table w ps lk id ls Hlog c0 before c1 oL Hr1) as (oL1 & HrL1 & HtL1);
    [done|by eapply alone_incl|done|].
  assert (buried table key schema w ps lk id ls (call_conn prov now now_commit c1 batch svc) d) as Hbur.
  { eapply burying_call; [done|done|exact Hrow1|done|exact HrL1|done|done| | | |exact Ho|done|done].
    - eapply same_schema_alone; [exact Hs1|by eapply alone_incl].
    - eapply same_schema_alone; [exact Hs1|by eapply alone_incl].
    - intros ch Hch. by apply Hnew, Hb2. }
  assert (same_schema c0 (call_conn prov now now_commit c1 batch svc)) as Hs by by etrans.
  destruct (buried_runs prov table key schema Hnd w ps lk id ls Hlog _ after c3 d Hr2 Hd) as [Hgone Hb];
    [intros ch Hch; by apply Hnew, Hb3|done| | |done|split; [apply Hgone|done]].
  - eapply same_schema_alone; [exact Hs|by eapply alone_incl].
  - eapply same_schema_alone; [exact Hs|by eapply alone_incl].
Qed.
End wins.

(** ** A newer write *)

Section survival.
Context `{Unicode} `{Serde} `{!SerdeLaws} `{Uhlc} `{Base64} `{HashOrder} {db : Type} `{RowStore db}
  (provider : SignatureProvider) (table key : string) (schema : list ColumnInfo)
  (Hnames : NoDup (map ci_name schema)) (w : list watom) (ps : list SqlValue) (d : string).
Abbreviation policy := (SignatureApplyPolicy (db := db) provider).
Abbreviation k := (table, key).

(** The entries a call brings for the row are not newer than [d]. *)
Definition deletes_up_to :=
  each_inbound provider (fun cm id => match log_target cm id with
    | Some (target, d') => target = (table, w, ps) -> cmp_le compare_hlc_strings d' d
    | None => True
    end).

(** So are the entries its delete log holds when a call starts. *)
Definition log_up_to (c : db) : Prop :=
  forall m d', from_str_map key = Some m -> tombstone c table m d' -> cmp_le compare_hlc_strings d' d.

(** Calls under deletes that are not newer than [d], none of which has a change of the row
    refused by a constraint. *)
Definition under_deletes (now : nat -> Z) (c : db) (batch : list ColumnChange) (c' : db) : Prop :=
  deletes_apart provider table w ps now c batch /\ deletes_up_to now c batch /\ log_up_to c /\
  not_refused provider table key now c batch.

Context (ch : ColumnChange) (v : SqlValue) (Hkey : change_key ch = k) (Hcol : column_name ch ∈ data_names schema)
  (Hnew : hlc_is_newer (hlc_timestamp ch) d = true) (Hcomplete : complete_hlc (hlc_timestamp ch) = true)
  (Hv : json_to_rusqlite_value (value ch) = Ok v).
Abbreviation col := (column_name ch).
Abbreviation h := (hlc_timestamp ch).

(** The row holds the write, or something older of the column. *)
Definition holds_write (o : option stored) : Prop :=
  exists r, o = Some r /\ stored_hlc (row_hlcs r) col = h /\ r !! col = Some (stored_as schema col v).
Definition older_write (o : option stored) : Prop := hlc_is_newer h (hlc_of o col) = true.
Definition behind (o : option stored) : Prop := (older_write o \/ holds_write o) /\ tidy o.

(** The write is the newest of its column among [changes]. *)
Definition newest_in (changes : list ColumnChange) : Prop :=
  forall ch', ch' ∈ changes -> change_key ch' = k -> column_name ch' = col ->
    hlc_is_newer (hlc_timestamp ch') h = false /\
    (compare_hlc_strings h (hlc_timestamp ch') = Eq -> hlc_timestamp ch' = h /\ value ch' = value ch).

Lemma newer_than_nothing : hlc_is_newer h EmptyString = true.
Proof. apply hlc_is_newer_Gt. apply hlc_is_newer_Gt in Hnew. eapply cmp_gt_le_trans; [apply _|exact Hnew|apply empty_hlc_least]. Qed.

Lemma old_older o : old d o -> older_write o.
Proof.
  intros Ho. unfold older_write. destruct o as [r|]; cbn; [|apply newer_than_nothing]. destruct (Ho r eq_refl) as [Hle Hcov].
  apply hlc_is_newer_Gt. apply hlc_is_newer_Gt in Hnew. eapply cmp_gt_le_trans; [apply _|exact Hnew|].
  eapply cmp_le_trans; [apply _|apply Hcov|done].
Qed.

(** The writes of the column are at most as new, and the same when as new. *)
Lemma newest_writes changes ws x : newest_in changes -> Permutation ws (writes_at schema k col changes) -> x ∈ ws ->
  hlc_is_newer (fst x) h = false /\ (compare_hlc_strings h (fst x) = Eq -> x = as_stored schema col (h, v)).
Proof.
  intros Hn Hp Hx. rewrite Hp in Hx. apply writes_at_in in Hx as (ch' & Hch' & Hk' & Hn' & y & Hy & ->).
  destruct (Hn ch' Hch' Hk' Hn') as [Hle Heq]. unfold write_of in Hy. rewrite (proj2 (String.eqb_eq _ _) Hn') in Hy.
  destruct (json_to_rusqlite_value (value ch')) as [v'| |] eqn:Hv'; [|done..]. injection Hy as <-. split; [exact Hle|].
  cbn [as_stored fst snd]. intros [Hh Hval]%Heq. rewrite Hval, Hv in Hv'. injection Hv' as <-. unfold as_stored. by rewrite Hh.
Qed.

Lemma behind_wrote o0 o1 batch : newest_in batch -> wrote table key schema o0 o1 batch -> behind o0 ->
  behind o1 /\ (holds_write o0 \/ (ch ∈ batch /\ o1 <> None) -> holds_write o1).
Proof.
  intros Hn Hw [Hb Ht]. pose proof (wrote_tidy _ _ _ _ _ _ Hw Ht) as Ht1. destruct o1 as [r1|].
  2:{ cbn in Hw. subst o0. split; [done|]. intros [Hh|[_ ?]]; done. }
  destruct Hw as (_ & r0 & Hst & Hreg & _). destruct (Hreg col Hcol) as (ws & Hp & [Hh1 Hv1]). cbn [fst snd] in Hh1, Hv1.
  pose proof (lww_merge_result fst ws (mkReg (stored_hlc (row_hlcs r0) col) None)) as [Hm _ Hge].
  set (m := lww_merge _ _ _) in *. rewrite (starts_hlc o0 r0 col Hst) in Hm.
  assert (ch ∈ batch -> cmp_le compare_hlc_strings h (reg_hlc m)) as Hin.
  { intros Hch. apply (Hge (as_stored schema col (h, v))); [|exact Hcomplete]. rewrite Hp. apply writes_at_in. exists ch.
    do 3 (split; [done|]). exists (h, v). split; [|done]. unfold write_of. by rewrite String.eqb_refl, Hv. }
  destruct Hm as [Hm|(x & Hx & _ & Hxn & Hm)].
  - rewrite Hm in Hh1, Hv1, Hin. cbn [reg_hlc reg_value] in *. destruct Hb as [Hold|(r & -> & Hrh & Hrv)].
    + split; [split; [left; by unfold older_write; cbn; rewrite Hh1|done]|].
      apply hlc_is_newer_Gt in Hold. intros [(r & -> & Hrh & _)|[Hch _]].
      * cbn in Hold. rewrite Hrh in Hold. by rewrite (cmp_refl compare_hlc_strings) in Hold.
      * by specialize (Hin Hch).
    + cbn in Hst. subst r0. assert (holds_write (Some r1)) as Hhold by (exists r1; split; [done|]; cbn in Hh1; by rewrite Hh1, Hv1).
      by split; [split; [right|]|].
  - destruct (newest_writes batch ws x Hn Hp Hx) as [Hle Heq]. rewrite Hm in Hh1, Hv1, Hin. cbn [reg_hlc reg_value] in *.
    destruct (compare_hlc_strings h (fst x)) eqn:Hc.
    + assert (holds_write (Some r1)) as Hhold; [|by split; [split; [right|]|]].
      exists r1. split; [done|]. rewrite Hh1, Hv1, (Heq eq_refl). done.
    + exfalso. apply not_true_iff_false in Hle. apply Hle, hlc_is_newer_Gt. by rewrite (cmp_swap compare_hlc_strings h), Hc.
    + split; [split; [left; unfold older_write; cbn; rewrite Hh1; by apply hlc_is_newer_Gt|done]|].
      intros [(r & -> & Hrh & _)|[Hch _]]; [|by specialize (Hin Hch)].
      cbn in Hxn. rewrite Hrh in Hxn. congruence.
Qed.

(** Deletes that are not newer than [d] leave the row that holds the write. *)
Lemma held_not_hit (cm : db) r id : holds_write (Some r) -> row_hlc_covers r ->
  match log_target cm id with Some (target, d') => target = (table, w, ps) -> cmp_le compare_hlc_strings d' d | None => True end ->
  hits cm table w ps (opt_hlc (Some r)) id = false.
Proof.
  intros (r' & [= <-] & Hh & _) Hcov Hle. unfold hits. destruct (log_target cm id) as [[target d']|]; [|done].
  case_bool_decide as Ht; [|done]. specialize (Hle Ht). cbn [andb]. specialize (Hcov col). rewrite Hh in Hcov.
  unfold opt_hlc. cbn. rewrite (row_hlc_cell h r newer_than_nothing Hcov). cbn.
  assert (compare_hlc_strings (row_hlc r) d' = Gt) as ->; [|done].
  eapply cmp_le_gt_trans; [apply _|exact Hcov|]. apply hlc_is_newer_Gt in Hnew. by eapply cmp_gt_le_trans; [apply _| |].
Qed.

(** The write is not kept from creating the row. *)
Lemma write_creates now (conn : db) batch o mx cm :
  stored_row conn table key schema w ps None -> alone conn batch table key schema w ps -> ch ∈ batch ->
  fst (commit_batch policy now conn batch tt) = Ok (o, mx, tt) -> log_up_to conn ->
  not_refused provider table key now conn batch -> merged_store policy now conn batch tt = Some cm ->
  stored_row cm table key schema w ps None -> False.
Proof.
  intros Hrow Hal Hch Ho Hlog Hcr Hcm Hrm.
  destruct (commit_batch policy now conn batch tt) as [r conn'] eqn:Hc. cbn [fst] in Ho. subst r.
  unfold not_refused in Hcr. rewrite Hc in Hcr. cbn [fst] in Hcr.
  destruct (sr_address _ _ _ _ _ _ _ Hrow) as [_ _ _ (mk & Hmk & _)].
  pose proof (absent_call provider table key schema Hnames w ps _ _ _ _ _ _ _ _ Hrow Hal Hmk Hc Hcm) as Hfate.
  unfold gone_from in Hfate. rewrite (sr_rows _ _ _ _ _ _ _ Hrm) in Hfate.
  destruct (Hfate ch) as [(d' & Ht & Hle)|?]; [by apply list_elem_of_filter| | |done].
  - split; [done|]. split; [done|]. split; [apply newer_than_nothing|]. by rewrite Hv.
  - apply hlc_is_newer_Gt in Hnew. apply (cmp_le_trans compare_hlc_strings _ _ d) in Hle; [done|by apply (Hlog mk)].
Qed.

Lemma behind_call now nowc conn batch svc o0 : newest_in batch -> call_commits provider now conn batch = true ->
  under_deletes now conn batch (call_conn provider now nowc conn batch svc) ->
  stored_row conn table key schema w ps o0 -> alone conn batch table key schema w ps -> behind o0 ->
  exists o1, stored_row (call_conn provider now nowc conn batch svc) table key schema w ps o1 /\
    same_schema conn (call_conn provider now nowc conn batch svc) /\ behind o1 /\ (holds_write o0 \/ ch ∈ batch -> holds_write o1).
Proof.
  intros Hn (o & m & Ho)%call_commits_Ok (Hap & Hup & Hlog & Hcr) Hrow Hal Hb.
  destruct (call_row provider _ _ _ Hnames _ _ now nowc conn batch svc o m o0 Hrow Hal Ho Hap)
    as (cm & o1 & Hcm & _ & Hs & Hrm & Hw & _ & Hr').
  assert (o0 = None -> ch ∈ batch -> o1 <> None) as Hmade by (intros -> Hch ->; by apply (write_creates now conn batch o m cm)). eexists. split; [exact Hr'|]. split; [done|].
  destruct (behind_wrote o0 o1 batch Hn Hw Hb) as [Hb1 Hh1].
  assert (holds_write o1 -> holds_write (after_deletes cm table w ps (collect_inbound_delete_log_ids batch o) o1)) as Hkeep.
  { intros Hh. destruct o1 as [r1|]; [|by destruct Hh as (? & ? & _)]. unfold after_deletes.
    destruct (existsb _ _) eqn:Hex; [|done]. apply existsb_exists in Hex as (id & Hid%list_elem_of_In & Hhit).
    unfold deletes_up_to, each_inbound in Hup. rewrite Ho, Hcm in Hup.
    rewrite (held_not_hit cm r1 id Hh) in Hhit; [done|by apply Hb1|by apply Hup]. }
  split.
  - destruct Hb1 as [[Hold|Hh] Ht1]; (split; [|unfold after_deletes; by destruct (existsb _ _)]); [left|right; by apply Hkeep].
    unfold after_deletes. destruct (existsb _ _); [apply newer_than_nothing|done].
  - intros Hh. apply Hkeep, Hh1. destruct Hh as [Hh|Hch]; [by left|right]. split; [done|]. intros ->. cbn in Hw. by apply Hmade.
Qed.

Lemma behind_runs conn changes conn' : runs provider under_deletes conn changes conn' -> forall o0, newest_in changes ->
  stored_row conn table key schema w ps o0 -> alone conn changes table key schema w ps -> behind o0 ->
  exists o1, stored_row conn' table key schema w ps o1 /\ (holds_write o0 \/ ch ∈ changes -> holds_write o1).
Proof.
  induction 1 as [conn|now nowc conn batch svc rest conn' Hc Hu _ IH|now nowc conn batch svc rest conn' Hc _ IH];
    intros o0 Hn Hrow Hal Hb.
  - exists o0. split; [done|]. by intros [?|?%elem_of_nil].
  - destruct (behind_call now nowc conn batch svc o0) as (o1 & Hr1 & Hs1 & Hb1 & Hh1); [|done|done|done| |done|].
    + intros ch' Hch'. apply Hn, elem_of_app. by left.
    + eapply alone_incl; [|done]. intros ch' Hch'. apply elem_of_app. by left.
    + destruct (IH o1) as (o2 & Hr2 & Hh2); [intros ch' Hch'; apply Hn, elem_of_app; by right|done| |done|].
      { eapply same_schema_alone; [exact Hs1|]. eapply alone_incl; [|done]. intros ch' Hch'. apply elem_of_app. by right. }
      exists o2. split; [done|]. rewrite elem_of_app. intros Hh. apply Hh2. destruct Hh as [Hh|[Hh|Hh]]; auto.
  - pose proof (refused_leaves_store provider now nowc conn batch svc Hc) as Hs.
    apply IH; [done|by eapply same_store_row|by eapply same_schema_alone; [apply Hs|]|done].
Qed.
End survival.

(** C10: a write that is newer than the deletes survives them: when a run of calls
    delivers a write of a synced column, with a complete HLC and a value the store has a
    form for, that is newer than the row at the start, than every
    delete-log entry the run brings for the row and than every entry the log holds for it
    when a call starts, and the write is the newest of its column in the run, the row is
    there at the end and the column holds the value and the HLC of the write - whether the
    entries arrived before it, with it or after it, whatever else was delivered, repeated
    or refused in between. A row that the write finds absent is created by the call that
    brings it; it is provided that no committed call names a change of the row as refused by
    a constraint, and that the entries do not name other rows that overlap with it. So any
    two replicas that were delivered the write agree on the column. *)
Theorem newer_write_survives `{Unicode} `{Serde} `{!SerdeLaws} `{Uhlc} `{Base64} `{HashOrder} {db : Type} `{RowStore db}
    prov table key schema w ps (c0 c1 : db) changes o0 d ch v :
  NoDup (map ci_name schema) ->
  stored_row c0 table key schema w ps o0 -> old d o0 -> alone c0 changes table key schema w ps ->
  runs prov (under_deletes prov table key w ps d) c0 changes c1 ->
  ch ∈ changes -> change_key ch = (table, key) -> column_name ch ∈ data_names schema ->
  hlc_is_newer (hlc_timestamp ch) d = true -> complete_hlc (hlc_timestamp ch) = true ->
  json_to_rusqlite_value (value ch) = Ok v -> newest_in table key ch changes ->
  exists r, rows_at c1 table w ps = [r] /\ stored_hlc (row_hlcs r) (column_name ch) = hlc_timestamp ch /\
    r !! column_name ch = Some (stored_as schema (column_name ch) v).
Proof.
  intros Hnd Hrow Hold Hal Hruns Hin Hk Hcol Hnew Hcomp Hv Hmax.
  destruct (behind_runs prov table key schema Hnd w ps d ch v Hk Hcol Hnew Hcomp Hv c0 changes c1 Hruns o0)
    as (o1 & Hr1 & Hh); [done..| |].
  - split; [left; by eapply (old_older d ch Hnew)|by eapply old_tidy].
  - destruct Hh as (r & -> & Hh & Hval); [by right|]. exists r. split; [apply Hr1|done].
Qed.

(** ** Concrete runs *)

(** An entry of the delete log for the note [a], and a title written after it. *)
Definition grave_key : string := mini_pks "d1".
Definition grave_change (col hlc v : string) : ColumnChange :=
  mkChange DELETED_ROWS_TABLE grave_key col hlc (JString v) "dev" None.
Definition grave_batch : list ColumnChange :=
  [grave_change "table_name" "9/d" "notes"; grave_change "row_pks" "9/d" note_key].
Definition later_title : ColumnChange := note_change "title" "12/e" "again".

Definition each_inbound_b (q : Mem -> string -> bool) (m : Mem) (batch : list ColumnChange) : bool :=
  match fst (commit_batch (SignatureApplyPolicy NoopSignatureProvider) mini_now m batch tt),
        merged_store (SignatureApplyPolicy NoopSignatureProvider) mini_now m batch tt with
  | Ok (o, _, _), Some cm => forallb (q cm) (collect_inbound_delete_log_ids batch o)
  | _, _ => true
  end.
Lemma each_inbound_check (Q : Mem -> string -> Prop) q m batch :
  (forall cm id, q cm id = true -> Q cm id) -> each_inbound_b q m batch = true ->
  each_inbound NoopSignatureProvider Q mini_now m batch.
Proof.
  intros Hq. unfold each_inbound_b, each_inbound. destruct (fst _) as [[[o mx] p]| |]; [|done..].
  destruct (merged_store _ _ _ _ _); [|done]. rewrite forallb_forall. intros Hall id Hid%list_elem_of_In. by apply Hq, Hall.
Qed.

Definition note_target : string * list watom * list SqlValue := ("notes", [WEq "id"], [SText "a"]).
Definition apart_b (cm : Mem) (id : string) : bool :=
  match log_target cm id with
  | Some (target, _) => bool_decide (target = note_target)
  | None => true
  end.
Definition up_to_b (d : string) (cm : Mem) (id : string) : bool :=
  match log_target cm id with Some (_, d') => negb (hlc_is_newer d' d) | None => true end.

Lemma note_apart m batch : each_inbound_b apart_b m batch = true ->
  deletes_apart NoopSignatureProvider "notes" [WEq "id"] [SText "a"] mini_now m batch.
Proof.
  apply each_inbound_check. intros cm id. unfold apart_b, log_apart. destruct (log_target cm id) as [[target dt]|]; [|done].
  intros ->%bool_decide_eq_true. split; [reflexivity|]. right. split; [done|by left].
Qed.
Lemma note_up_to d m batch : each_inbound_b (up_to_b d) m batch = true ->
  deletes_up_to NoopSignatureProvider "notes" [WEq "id"] [SText "a"] d mini_now m batch.
Proof.
  apply each_inbound_check. intros cm id. unfold up_to_b. destruct (log_target cm id) as [[target d']|]; [|done].
  intros Hn%negb_true_iff _. by apply hlc_not_newer_le.
Qed.

Lemma grave_address (m : Mem) : get_table_schema m DELETED_ROWS_TABLE = Ok mini_log_schema ->
  row_address m DELETED_ROWS_TABLE grave_key mini_log_schema [WEq "id"] [SText "d1"].
Proof.
  intros Hm. split; [exact Hm| |split; [discriminate|]|].
  - split; [apply (bool_decide_unpack (NoDup _)); vm_compute; exact I|done..| |]; intros s; apply mini_stored_as.
  - intros k' Hk. change (pk_names mini_log_schema) with ["id"] in Hk. by apply list_elem_of_singleton in Hk as ->.
  - exists [("id", JString "d1")]. split; [reflexivity|].
    split; [repeat constructor|by vm_compute|exists [JString "d1"]; by split|].
    split; [intros a Ha; apply list_elem_of_singleton in Ha as ->; by exists "id"|].
    by intros Hn%list_elem_of_singleton.
Qed.

Lemma grave_log_row : log_row grave_key "d1" mini_log_schema.
Proof.
  split; [apply (bool_decide_unpack (NoDup _)); vm_compute; exact I|reflexivity|].
  intros col Hcol. split; [|intros s; apply mini_stored_as].
  repeat (apply elem_of_cons in Hcol as [->|Hcol]; [apply (bool_decide_unpack (_ ∈ _)); vm_compute; exact I|]). by apply elem_of_nil in Hcol.
Qed.

Definition note_or_grave (c : ColumnChange) : bool :=
  bool_decide (change_key c = ("notes", note_key)) || bool_decide (change_key c = (DELETED_ROWS_TABLE, grave_key)).
Lemma grave_alone (m : Mem) changes : forallb note_or_grave changes = true ->
  alone m changes "notes" note_key note_schema [WEq "id"] [SText "a"] /\
  alone m changes DELETED_ROWS_TABLE grave_key mini_log_schema [WEq "id"] [SText "d1"].
Proof.
  rewrite forallb_forall. intros Hall. split; intros c Hc Hne; left;
    (apply list_elem_of_In, Hall, orb_true_iff in Hc as [Hk|Hk]; apply bool_decide_eq_true in Hk; rewrite Hk in *; [try done|try done]); reflexivity.
Qed.

(** The note is created, deleted, and its changes and the entry come again. *)
Definition grave_outcome : ApplyOutcome := mkOutcome (mkReport 2 0 0 0 0 0 0 0 0 0 0) [].
Definition grave_after : list ColumnChange := note_c3 :: grave_batch.
Definition grave_m1 : Mem := note_x1.
Definition grave_call := apply_remote_changes (SignatureApplyPolicy NoopSignatureProvider) mini_now 1000 grave_m1 grave_batch mini_svc tt.
Definition grave_m2 : Mem := snd (fst grave_call).
Definition grave_m3 : Mem := note_call grave_m2 grave_after.

Lemma grave_step (m : Mem) batch rest m' :
  call_commits NoopSignatureProvider mini_now m batch && each_inbound_b apart_b m batch = true ->
  calls NoopSignatureProvider "notes" [WEq "id"] [SText "a"] (note_call m batch) rest m' ->
  calls NoopSignatureProvider "notes" [WEq "id"] [SText "a"] m (batch ++ rest) m'.
Proof. intros [Hc Ha]%andb_true_iff. apply runs_call; [done|by apply note_apart]. Qed.

Lemma old_absent d : old d None.
Proof. by intros r. Qed.
Lemma note_none_newer d changes :
  forallb (fun c => negb (hlc_is_newer (hlc_timestamp c) d) || bool_decide (change_key c <> ("notes", note_key))) changes = true ->
  none_newer "notes" note_key d changes.
Proof.
  rewrite forallb_forall. intros Hall c Hc Hk. apply list_elem_of_In, Hall, orb_true_iff in Hc as [Hc|Hc].
  - by apply hlc_not_newer_le, negb_true_iff.
  - by apply bool_decide_eq_true in Hc.
Qed.

Lemma delete_wins_witness :
  rows_at grave_m1 "notes" [WEq "id"] [SText "a"] <> [] /\
  rows_at grave_m3 "notes" [WEq "id"] [SText "a"] = [] /\
  buries "notes" note_key grave_key "d1" mini_log_schema grave_m3 "9/d".
Proof.
  assert (forallb note_or_grave ([note_c1; note_c2] ++ grave_batch ++ grave_after) = true) as Hkeys by run.
  destruct (grave_alone note_x0 _ Hkeys) as [Hal HalL].
  split; [intros Hno; assert (note_there grave_m1 = true) as Ht by run; unfold note_there in Ht; by rewrite Hno in Ht|].
  apply (delete_wins NoopSignatureProvider "notes" note_key note_schema [WEq "id"] [SText "a"] grave_key "d1" mini_log_schema
    note_x0 grave_m1 grave_m2 grave_m3 [note_c1; note_c2] grave_batch grave_after mini_now 1000 mini_svc (snd grave_call)
    grave_outcome None None "9/d"); [exact note_names|exact grave_log_row|run| |apply old_absent|exact Hal| |done|exact HalL|..].
  - split; [apply note_address; run|run|done].
  - split; [apply grave_address; run|run|done].
  - apply note_none_newer. run.
  - intros c Hc _. unfold grave_after, grave_batch in Hc. rewrite !elem_of_cons, elem_of_nil in Hc.
    by destruct Hc as [->|[->|[->|[]]]].
  - apply (grave_step note_x0 [note_c1; note_c2] []); [run|apply runs_nothing].
  - apply (triple_result grave_call). run.
  - apply note_apart. run.
  - split; [exists 0%nat, (grave_change "table_name" "9/d" "notes")|exists 1%nat, (grave_change "row_pks" "9/d" note_key)];
      repeat (split; [first [reflexivity|by intros ?%elem_of_nil]|]); reflexivity.
  - apply (grave_step grave_m2 grave_after []); [run|apply runs_nothing].
Defined.

(** The note is created, deleted, written again and deleted again by the old entry. *)
Definition later_m2 : Mem := note_call grave_m1 grave_batch.
Definition later_m3 : Mem := note_call later_m2 [later_title].
Definition later_m4 : Mem := note_call later_m3 grave_batch.
Definition later_changes : list ColumnChange := [note_c1; note_c2] ++ grave_batch ++ [later_title] ++ grave_batch.
Abbreviation note_under := (under_deletes NoopSignatureProvider "notes" note_key [WEq "id"] [SText "a"]).

Definition log_up_to_b (d : string) (m : Mem) : bool :=
  forallb (fun r => match cell r HLC_TIMESTAMP_COLUMN with SText d' => negb (hlc_is_newer d' d) | _ => true end)
    (rows_at m DELETED_ROWS_TABLE [] []).
Lemma log_up_to_check d (m : Mem) table key : log_up_to_b d m = true -> log_up_to table key d m.
Proof.
  unfold log_up_to_b. rewrite forallb_forall. intros Hall mk d' _ (r & _ & _ & Hr%list_elem_of_In%Hall & _ & _ & Hh & _).
  rewrite Hh in Hr. by apply hlc_not_newer_le, negb_true_iff.
Qed.

Lemma later_step (m : Mem) batch rest m' :
  call_commits NoopSignatureProvider mini_now m batch && each_inbound_b apart_b m batch && each_inbound_b (up_to_b "9/d") m batch &&
    log_up_to_b "9/d" m && no_refusal_b m batch = true ->
  runs NoopSignatureProvider (note_under "9/d") (note_call m batch) rest m' ->
  runs NoopSignatureProvider (note_under "9/d") m (batch ++ rest) m'.
Proof.
  intros [[[[Hc Ha]%andb_true_iff Hu]%andb_true_iff Hl]%andb_true_iff Hn]%andb_true_iff. apply runs_call; [done|].
  split; [by apply note_apart|]. split; [by apply note_up_to|]. split; [by apply log_up_to_check|by apply no_refusal_check].
Qed.

Lemma newer_write_survives_witness :
  rows_at later_m2 "notes" [WEq "id"] [SText "a"] = [] /\
  exists r, rows_at later_m4 "notes" [WEq "id"] [SText "a"] = [r] /\
    stored_hlc (row_hlcs r) "title" = "12/e" /\ r !! "title" = Some (stored_as note_schema "title" (SText "again")).
Proof.
  split; [run|].
  apply (newer_write_survives NoopSignatureProvider "notes" note_key note_schema [WEq "id"] [SText "a"]
    note_x0 later_m4 later_changes None "9/d" later_title (SText "again")).
  - exact note_names.
  - split; [apply note_address; run|run|done].
  - apply old_absent.
  - by apply grave_alone.
  - apply (later_step note_x0 [note_c1; note_c2]); [run|]. apply (later_step grave_m1 grave_batch); [run|].
    apply (later_step later_m2 [later_title]); [run|]. rewrite <- (app_nil_r grave_batch).
    apply (later_step later_m3 grave_batch); [run|apply runs_nothing].
  - unfold later_changes. rewrite !elem_of_app. right. right. left. by left.
  - reflexivity.
  - apply (bool_decide_unpack (_ ∈ _)). vm_compute. exact I.
  - run.
  - run.
  - reflexivity.
  - intros c Hc Hk Hn. unfold later_changes, grave_batch in Hc. cbn [app] in Hc. rewrite !elem_of_cons, elem_of_nil in Hc.
    repeat (destruct Hc as [->|Hc]; [first [discriminate Hk|discriminate Hn|idtac]|]); [..|done];
      (split; [run|intros He; first [by split|vm_compute in He; discriminate He]]).
Defined.

(** What the deleted row held of other columns depends on the order: two replicas
    that were delivered the same changes of the note, the same entry and the same newer
    title end with different bodies, the one that deleted the note before the title
    arrived with none. *)
Lemma older_columns_depend_on_order :
  let early := note_call (note_call grave_m1 grave_batch) [later_title] in
  let late := note_call (note_call grave_m1 [later_title]) grave_batch in
  map (fun r => (cell r "body", cell r "title")) (rows_at early "notes" [WEq "id"] [SText "a"]) = [(SNull, SText "again")] /\
  map (fun r => (cell r "body", cell r "title")) (rows_at late "notes" [WEq "id"] [SText "a"]) = [(SText "p", SText "again")].
Proof. split; run. Qed.
