(* ===== verification/Guard.v ===== *)
(** * Guarded execution (src/database/guard.rs)

    A consumer's authorizer, progress callback and value limit around one
    statement. The connection's hooks are a state of their own: rusqlite's calls
    that set them are parameters of the model, and a statement is what SQLite does
    under the hooks installed while it runs. *)

From S2P Require Import Prelude Sql Hlc Trigger Report Errors SqlAst.

(** ** What the authorizer judges *)

Inductive AuthAction :=
| ActRead (o : opaque)
| ActSelect
| ActFunction (o : opaque)
| ActRecursive
| ActOther (o : opaque).
(** The action with the database and accessor names. *)
Record AuthContext := mkAuthContext { action : AuthAction; auth_rest : opaque }.
Inductive Authorization := Allow | Ignore | Deny.
Definition SqlAuthorizer := AuthContext -> Authorization.

(** The calls of [rusqlite::Connection]. *)
Class ConnHooks := {
  hooks : Type;
  SqlProgress : Type;
  set_authorizer : hooks -> option SqlAuthorizer -> res SqlError hooks;
  progress_handler : hooks -> Z -> option SqlProgress -> res SqlError hooks;
  get_limit : hooks -> res SqlError Z;
  set_limit : hooks -> Z -> res SqlError hooks;
}.

Record SqlGuard `{ConnHooks} := mkGuard {
  authorizer : SqlAuthorizer;
  progress : option (Z * SqlProgress);
  max_value_bytes : option Z;
}.
Arguments mkGuard {_}.

Definition i32_max : Z := 2 ^ 31 - 1.
(** [i32::try_from(bytes).unwrap_or(i32::MAX)], [bytes] a [usize]. *)
Definition limit_value (bytes : Z) : Z := if bytes <=? i32_max then bytes else i32_max.

Record GuardedWriteOptions := mkOptions { schema_mode : bool; local_mode : bool }.
Definition GuardedWriteOptions_default : GuardedWriteOptions := mkOptions false false.

Record QueryRows (T : Type) := mkQueryRows { qr_columns : list string; qr_rows : list T }.
Arguments mkQueryRows {T}.
Arguments qr_columns {T}.
Arguments qr_rows {T}.

Inductive GuardScope := ScopeWrite | ScopeRead.

Definition read_only_rule : SqlAuthorizer := fun context =>
  match action context with
  | ActRead _ | ActSelect | ActFunction _ | ActRecursive => Allow
  | ActOther _ => Deny
  end.

Section guard.
Context `{ConnHooks}.

Definition install_read_only (h : hooks) : res SqlError hooks := set_authorizer h (Some read_only_rule).

(** The authorizer the scope installs. *)
Definition scoped_authorizer (guard : SqlGuard) (scope : GuardScope) : SqlAuthorizer :=
  match scope with
  | ScopeWrite => fun context => authorizer guard context
  | ScopeRead => fun context =>
      match read_only_rule context with
      | Allow => authorizer guard context
      | denied => denied
      end
  end.

Definition set_io (f : hooks -> res SqlError hooks) : conn_io hooks SqlError unit :=
  io_exec (fun h => h' ← f h; Ok (tt, h')).

Definition install (guard : SqlGuard) (scope : GuardScope) : conn_io hooks SqlError (option Z) :=
  (_a <- set_io (fun h => set_authorizer h (Some (scoped_authorizer guard scope))) ;;
   _p <- match progress guard with
         | Some (instructions, callback) => set_io (fun h => progress_handler h instructions (Some callback))
         | None => io_ret tt
         end ;;
   match max_value_bytes guard with
   | None => io_ret None
   | Some bytes =>
       (current <- io_read get_limit ;;
        _l <- set_io (fun h => set_limit h (Z.min current (limit_value bytes))) ;;
        io_ret (Some current))
   end)%io.

Definition uninstall (scope : GuardScope) (previous_limit : option Z) : conn_io hooks SqlError unit := fun h =>
  let '(limit, h1) := match previous_limit with
                      | None => (Ok tt, h)
                      | Some previous => set_io (fun h => set_limit h previous) h
                      end in
  (_p <- set_io (fun h => progress_handler h 0 None) ;;
   _a <- set_io (fun h => match scope with
                          | ScopeWrite => set_authorizer h None
                          | ScopeRead => install_read_only h
                          end) ;;
   io_read (fun _ => limit))%io h1.

(** A statement of the caller: its result, the answers the installed
    progress callback gave while it ran, and the rest of the connection after
    it. SQL has no access to the hooks. *)
Definition statement (S T : Type) := hooks -> S -> res SqlError T * list bool * S.

(** [run_guarded]; a panic of the statement is re-raised after the hooks are
    put back. *)
Definition run_guarded {S T} (guard : SqlGuard) (scope : GuardScope) (run : statement S T) (h : hooks) (s : S)
    : res SqlError (res SqlError T * bool) * hooks * S :=
  match install guard scope h with
  | (Err error, h1) => (Err error, snd (uninstall scope None h1), s)
  | (Panic m, h1) => (Panic m, h1, s)
  | (Ok previous_limit, h1) =>
      let '(outcome, answers, s1) := run h1 s in
      let '(restored, h2) := uninstall scope previous_limit h1 in
      let interrupted := match progress guard with Some _ => existsb id answers | None => false end in
      match outcome with
      | Panic m => (Panic m, h2, s1)
      | Ok _ | Err _ => (_ ← restored; Ok (outcome, interrupted), h2, s1)
      end
  end.
End guard.

Definition statement_error (sql : string) (source : SqlError) : DatabaseError :=
  match source with
  | MultipleStatement => MultipleStatements sql
  | _ =>
      match sqlite_error_code source with
      | Some code =>
          if code =? SQLITE_AUTH then SqlGuardDenied sql source
          else if code =? SQLITE_TOOBIG then ValueTooLarge sql
          else ExecutionError sql None source
      | None => ExecutionError sql None source
      end
  end.

(** ** What the hooks do *)

(** Each call sets its own hook; taking a hook away, or installing the
    crate's own read-only rule, does not fail; the limit can be set to anything
    up to SQLite's compile-time maximum. *)
Class HookLaws `{ConnHooks} := {
  h_authorizer : hooks -> option SqlAuthorizer;
  h_progress : hooks -> option (Z * SqlProgress);
  h_limit : hooks -> Z;
  hard_limit : Z;
  limit_in_range : forall h, 0 <= h_limit h <= hard_limit;
  set_authorizer_sets : forall h a h', set_authorizer h a = Ok h' ->
    h_authorizer h' = a /\ h_progress h' = h_progress h /\ h_limit h' = h_limit h;
  set_authorizer_no_panic : forall h a m, set_authorizer h a <> Panic m;
  clear_authorizer : forall h, exists h', set_authorizer h None = Ok h';
  read_only_installs : forall h, exists h', install_read_only h = Ok h';
  progress_sets : forall h n p h', progress_handler h n p = Ok h' ->
    h_progress h' = ((fun c => (n, c)) <$> p) /\ h_authorizer h' = h_authorizer h /\ h_limit h' = h_limit h;
  progress_no_panic : forall h n p m, progress_handler h n p <> Panic m;
  clear_progress : forall h, exists h', progress_handler h 0 None = Ok h';
  get_limit_is : forall h, get_limit h = Ok (h_limit h);
  set_limit_sets : forall h n, 0 <= n <= hard_limit -> exists h', set_limit h n = Ok h' /\
    h_limit h' = n /\ h_authorizer h' = h_authorizer h /\ h_progress h' = h_progress h;
}.

(** What a scope leaves behind. *)
Definition scope_rule (scope : GuardScope) : option SqlAuthorizer :=
  match scope with ScopeWrite => None | ScopeRead => Some read_only_rule end.

Section restore.
Context `{HookLaws}.

Lemma uninstall_restores scope previous h :
  match previous with Some p => 0 <= p <= hard_limit | None => True end ->
  exists h', uninstall scope previous h = (Ok tt, h') /\ h_authorizer h' = scope_rule scope /\
    h_progress h' = None /\ h_limit h' = match previous with Some p => p | None => h_limit h end.
Proof.
  intros Hp. unfold uninstall.
  assert (exists h1, match previous with None => (Ok tt, h) | Some p => set_io (fun h => set_limit h p) h end = (Ok tt, h1) /\
    h_limit h1 = match previous with Some p => p | None => h_limit h end) as (h1 & -> & Hl).
  { destruct previous as [p|]; [|by exists h]. destruct (set_limit_sets h p Hp) as (h1 & Hs & Hl & _).
    exists h1. unfold set_io, io_exec. by rewrite Hs. }
  destruct (clear_progress h1) as (h2 & Hp2). destruct (progress_sets _ _ _ _ Hp2) as (Hpr & _ & Hl2).
  assert (exists h3, match scope with ScopeWrite => set_authorizer h2 None | ScopeRead => install_read_only h2 end = Ok h3 /\
    h_authorizer h3 = scope_rule scope /\ h_progress h3 = h_progress h2 /\ h_limit h3 = h_limit h2)
    as (h3 & Ha & Hrule & Hp3 & Hl3).
  { destruct scope.
    - destruct (clear_authorizer h2) as [h3 Hc]. exists h3. split; [done|]. by apply set_authorizer_sets.
    - destruct (read_only_installs h2) as [h3 Hc]. exists h3. split; [done|]. by apply set_authorizer_sets. }
  exists h3. unfold set_io, io_exec, io_bind. rewrite Hp2. cbn. rewrite Ha. cbn.
  unfold io_read. split; [done|]. split; [done|]. split; [by rewrite Hp3|congruence].
Qed.

(** The hooks while the statement runs. *)
Definition guarded_hooks (guard : SqlGuard) (scope : GuardScope) (h hr : hooks) : Prop :=
  h_authorizer hr = Some (scoped_authorizer guard scope) /\
  h_progress hr = match progress guard with Some p => Some p | None => h_progress h end /\
  h_limit hr = match max_value_bytes guard with
               | Some bytes => Z.min (h_limit h) (limit_value bytes)
               | None => h_limit h
               end.

Lemma install_cases guard scope h :
  (forall bytes, max_value_bytes guard = Some bytes -> 0 <= bytes) ->
  match install guard scope h with
  | (Ok previous, hr) => guarded_hooks guard scope h hr /\
      match previous with
      | Some p => p = h_limit h
      | None => h_limit hr = h_limit h
      end
  | (Err _, hr) => h_limit hr = h_limit h
  | (Panic _, _) => False
  end.
Proof.
  intros Hb. unfold install, set_io, io_exec, io_bind, guarded_hooks.
  destruct (set_authorizer h _) as [h1| |m] eqn:Ha; [|done|by apply set_authorizer_no_panic in Ha]. cbn.
  apply set_authorizer_sets in Ha as (Ha & Hp1 & Hl1).
  assert (match match progress guard with
          | Some (n, c) => set_io (fun h => progress_handler h n (Some c))
          | None => io_ret tt end h1 with
    | (Ok _, h2) => h_authorizer h2 = h_authorizer h1 /\ h_limit h2 = h_limit h1 /\
        h_progress h2 = match progress guard with Some p => Some p | None => h_progress h1 end
    | (Err _, h2) => h_limit h2 = h_limit h1
    | (Panic _, _) => False end) as Hprog.
  { destruct (progress guard) as [[n c]|]; [|done]. unfold set_io, io_exec.
    destruct (progress_handler h1 n (Some c)) as [h2| |m] eqn:Hp; cbn; [|done|by apply progress_no_panic in Hp].
    apply progress_sets in Hp as (Hp & Ha2 & Hl2). by rewrite Hp. }
  unfold set_io, io_exec in Hprog. destruct (_ h1) as [[[]| |] h2]; [|congruence|done].
  destruct Hprog as (Ha2 & Hl2 & Hp2).
  destruct (max_value_bytes guard) as [bytes|] eqn:Hm; cbn; [|by rewrite Ha2, Hl2, Hp2, Hp1].
  unfold io_read. rewrite get_limit_is.
  pose proof (limit_in_range h2). specialize (Hb bytes eq_refl).
  destruct (set_limit_sets h2 (Z.min (h_limit h2) (limit_value bytes))) as (h3 & Hs & Hl3 & Ha3 & Hp3).
  { unfold limit_value, i32_max in *. destruct (_ <=? _); lia. }
  rewrite Hs. cbn. rewrite Ha3, Hp3, Hl3, Ha2, Hp2, Hp1. split; [|congruence].
  split; [done|]. split; [done|]. congruence.
Qed.
End restore.

(** What a run under the guard amounts to. *)
Definition guarded_run `{HookLaws} {S T} (guard : SqlGuard) (scope : GuardScope) (run : statement S T)
    (h : hooks) (s : S) (r : res SqlError (res SqlError T * bool)) (h' : hooks) (s' : S) : Prop :=
  h_authorizer h' = scope_rule scope /\ h_progress h' = None /\ h_limit h' = h_limit h /\
  ((exists e, r = Err e /\ s' = s) \/
   exists hr outcome answers, run hr s = (outcome, answers, s') /\
     guarded_hooks guard scope h hr /\ h_limit hr <= h_limit h /\
     (forall context, scoped_authorizer guard scope context = Allow <->
        authorizer guard context = Allow /\ (scope = ScopeRead -> read_only_rule context = Allow)) /\
     match outcome with
     | Panic m => r = Panic m
     | _ => r = Ok (outcome, match progress guard with Some _ => existsb id answers | None => false end)
     end).

Lemma run_guarded_spec `{HookLaws} {S T} guard scope (run : statement S T) h s r h' s' :
  (forall bytes, max_value_bytes guard = Some bytes -> 0 <= bytes) ->
  run_guarded guard scope run h s = (r, h', s') -> guarded_run guard scope run h s r h' s'.
Proof.
  intros Hb. unfold run_guarded. pose proof (install_cases guard scope h Hb) as Hi.
  destruct (install guard scope h) as [[previous|e|] h1]; [|intros [= <- <- <-]|done].
  - destruct Hi as [Hg Hprev]. destruct (run h1 s) as [[outcome answers] s1] eqn:Hrun.
    destruct (uninstall_restores scope previous h1) as (h2 & -> & Ha & Hp & Hl).
    { destruct previous; [subst; apply limit_in_range|done]. }
    intros Hr. assert (h2 = h' /\ s1 = s') as [-> ->] by (destruct outcome; by injection Hr).
    split; [done|]. split; [done|]. split; [destruct previous; congruence|]. right.
    exists h1, outcome, answers. split; [done|]. split; [done|]. split.
    { destruct Hg as (_ & _ & ->). destruct (max_value_bytes guard); lia. }
    split; [|destruct outcome; injection Hr as <-; done].
    intros context. destruct scope; cbn; [naive_solver|]. destruct (read_only_rule context); naive_solver.
  - destruct (uninstall_restores scope None h1 I) as (h2 & -> & Ha & Hp & Hl). cbn [snd].
    split; [done|]. split; [done|]. split; [congruence|]. left. by exists e.
Qed.

(** C25: a guard lasts exactly as long as the statement: whatever the statement
    does - succeed, fail, panic - and whatever the consumer's guard is, afterwards
    the authorizer is the scope's own (none for a write, the read-only rule for a
    read), no progress callback is left and the value limit is what it was; if the
    guard could not be installed the statement has not run; otherwise it ran once,
    under an authorizer that allows an access only where the guard - and in a read
    the read-only rule as well - allows it, with the guard's progress callback and
    with a limit the guard can only have lowered; and its outcome, with whether
    the callback asked to stop, is what comes back. *)
Theorem run_guarded_restores `{HookLaws} {S T} guard scope (run : statement S T) h s r h' s' :
  (forall bytes, max_value_bytes guard = Some bytes -> 0 <= bytes) ->
  run_guarded guard scope run h s = (r, h', s') ->
  h_authorizer h' = scope_rule scope /\ h_progress h' = None /\ h_limit h' = h_limit h /\
  ((exists e, r = Err e /\ s' = s) \/
   exists hr outcome answers, run hr s = (outcome, answers, s') /\
     guarded_hooks guard scope h hr /\ h_limit hr <= h_limit h /\
     (forall context, scoped_authorizer guard scope context = Allow <->
        authorizer guard context = Allow /\ (scope = ScopeRead -> read_only_rule context = Allow)) /\
     match outcome with
     | Panic m => r = Panic m
     | _ => r = Ok (outcome, match progress guard with Some _ => existsb id answers | None => false end)
     end).
Proof. apply run_guarded_spec. Qed.

(** ** Concrete hooks, for the witnesses *)

Record MiniHooks := mkMiniHooks { mh_authorizer : option SqlAuthorizer; mh_progress : option (Z * bool); mh_limit : Z }.
Definition mini_hard_limit : Z := 1000000000.
Definition mh_clamp (n : Z) : Z := Z.max 0 (Z.min mini_hard_limit n).

#[export] Instance mini_hooks : ConnHooks := {|
  hooks := MiniHooks;
  SqlProgress := bool;
  set_authorizer h a := Ok (mkMiniHooks a (mh_progress h) (mh_limit h));
  progress_handler h n p := Ok (mkMiniHooks (mh_authorizer h) ((fun c => (n, c)) <$> p) (mh_limit h));
  get_limit h := Ok (mh_clamp (mh_limit h));
  set_limit h n := Ok (mkMiniHooks (mh_authorizer h) (mh_progress h) n);
|}.
#[export] Instance mini_hook_laws : HookLaws.
Proof.
  refine {| h_authorizer := mh_authorizer; h_progress := mh_progress; h_limit h := mh_clamp (mh_limit h);
            hard_limit := mini_hard_limit |}; try done.
  - intros h. unfold mh_clamp, mini_hard_limit. lia.
  - by intros h a h' [= <-].
  - intros h. by eexists.
  - intros h. by eexists.
  - by intros h n p h' [= <-].
  - intros h. by eexists.
  - intros h n Hn. eexists. split; [done|]. cbn. split; [|done]. unfold mh_clamp. lia.
Defined.

Definition mini_plain_hooks : MiniHooks := mkMiniHooks None None mini_hard_limit.
Definition mini_guard : SqlGuard :=
  mkGuard (fun context => match action context with ActFunction _ => Deny | _ => Allow end) (Some (1000, true)) (Some 5000).
(** A statement that is interrupted and panics. *)
Definition mini_run : statement nat nat := fun h s => (Panic "row mapper", [false; true], (s + 1)%nat).

Lemma run_guarded_restores_witness :
  fst (fst (run_guarded mini_guard ScopeWrite mini_run mini_plain_hooks 0%nat)) = Panic "row mapper" /\
  h_limit (snd (fst (run_guarded mini_guard ScopeWrite mini_run mini_plain_hooks 0%nat))) = h_limit mini_plain_hooks.
Proof.
  split; [reflexivity|].
  apply (run_guarded_restores mini_guard ScopeWrite mini_run mini_plain_hooks 0%nat (Panic "row mapper")
    (snd (fst (run_guarded mini_guard ScopeWrite mini_run mini_plain_hooks 0%nat))) 1%nat); [|reflexivity].
  intros bytes [= <-]. lia.
Defined.
