(* ===== verification/Schema.v ===== *)
(** * Schema changes inside a guarded write (src/database/schema.rs)

    The savepoint around a CREATE or ALTER TABLE with the trigger work before
    and after it, and the rewriting of a table rebuild's copy. *)

From S2P Require Import Prelude Utf8 Hashing Names Json Sql Mini Hlc Context Trigger Report Errors SqlAst Prefix Transform CrdtWrite Value Scanner Policy Engine.

Definition SAVEPOINT := "haex_crdt_schema_change".
Definition NO_SYNC_SUFFIX := "_no_sync".

Inductive SchemaChange :=
| Created (table : string)
| Altered (table : string) (renamed_to : option string).

Definition last_ident (name : ObjectName) : option string := id_value <$> (last name ≫= as_ident).

Definition is_no_sync (table : string) : bool := ends_with NO_SYNC_SUFFIX (to_ascii_lowercase table).

(** [find_map]. *)
Fixpoint renamed_to (operations : list AlterTableOperation) : option string :=
  match operations with
  | [] => None
  | op :: rest =>
      match (match op with
             | RenameTableTo name | RenameTableAs name => last_ident name
             | OtherAlter _ => None
             end) with
      | Some new => Some new
      | None => renamed_to rest
      end
  end.

(** The table of an unqualified name or one qualified with [main]. *)
Definition main_table (name : ObjectName) : option string :=
  match name with
  | [_] => last_ident name
  | [schema; _] =>
      match as_ident schema with
      | Some ident => if eq_ignore_ascii_case (id_value ident) "main" then last_ident name else None
      | None => None
      end
  | _ => None
  end.

Definition SchemaChange_of (statement : Statement) (table : string) : option SchemaChange :=
  match statement with
  | StCreateTable create => if negb (ct_temporary create) then Some (Created table) else None
  | StAlterTable alter => Some (Altered table (renamed_to (al_operations alter)))
  | _ => None
  end.

(** [DatabaseError::into]: the crate's error. *)
Definition db_err {A} (e : DatabaseError) : res Error A := Err (Database e).

Section statements.
Context `{SqlParser}.

Definition check_rename (statement : Statement) : res Error unit :=
  match statement with
  | StAlterTable alter =>
      match last_ident (al_name alter), renamed_to (al_operations alter) with
      | Some old, Some new =>
          if eqb (is_no_sync old) (is_no_sync new) then Ok tt
          else db_err (UnsupportedStatement "renaming a table across the _no_sync boundary is not supported"
                         (statement_to_string statement))
      | _, _ => Ok tt
      end
  | _ => Ok tt
  end.
End statements.

(** ** On the transaction *)

Section transaction.
Context `{Unicode} `{SqlParser} {db : Type} `{Rusqlite db}.

Definition main_crdt_table_sql : string :=
  "SELECT m.name FROM sqlite_master m JOIN pragma_table_info(m.name) p " +:+
  "WHERE m.type = 'table' AND m.name = ?1 COLLATE NOCASE " +:+
  "AND p.name = '" +:+ HLC_TIMESTAMP_COLUMN +:+ "'".
Definition shadow_sql : string :=
  "SELECT 1 FROM sqlite_temp_master WHERE type = 'table' AND name = ?1 COLLATE NOCASE".

Definition main_crdt_table (tx : db) (table : string) : res Error (option string) :=
  from_db (db_from_sql (optional
    (row ← query_row tx (RawSql main_crdt_table_sql) [SText table]; get_string row 0))).

Definition crdt_table (tx : db) (table : string) : res Error (option string) :=
  actual ← main_crdt_table tx table;
  match actual with
  | None => Ok None
  | Some actual =>
      shadowed ← from_db (db_from_sql (optional (query_row tx (RawSql shadow_sql) [SText table])));
      match shadowed with
      | Some _ => db_err (UnsupportedStatement "a temporary table shadows this synced table" actual)
      | None => Ok (Some actual)
      end
  end.

Definition transforms_in_local_mode (tx : db) (statement : Statement) : res Error bool :=
  let of_target target :=
    match target with
    | Some table => t ← crdt_table tx table; Ok (bool_decide (is_Some t))
    | None => Ok true
    end in
  match statement with
  | StCreateTable _ => Ok false
  | StInsert insert =>
      of_target match in_table insert with TableName name => last_ident name | OtherTable _ => None end
  | StUpdate update =>
      of_target match tw_relation (up_table update) with TfTable name _ => last_ident name | _ => None end
  | _ => Ok true
  end.

(** A statement that gives back only the connection. *)
Definition batch (st : Stmt) : conn_io db Error unit :=
  io_exec (fun tx => r ← from_db (db_from_sql (execute tx st [])); Ok (tt, snd r)).

(** [rollback]: [let _ =]. *)
Definition rollback (tx : db) : db := snd (batch (RollbackRelease SAVEPOINT) tx).
Definition release : conn_io db Error unit := batch (Release SAVEPOINT).

(** [inspect_err(|_| rollback(tx))]. *)
Definition or_rollback {A} (m : conn_io db Error A) : conn_io db Error A := fun tx =>
  match m tx with
  | (Err e, tx') => (Err e, rollback tx')
  | r => r
  end.

(** [begin]. *)
Definition begin_change (change : SchemaChange) : conn_io db Error unit :=
  (_s <- batch (Savepoint SAVEPOINT) ;;
   or_rollback
     match change with
     | Altered table _ =>
         (actual <- io_read (fun tx => crdt_table tx table) ;;
          match actual with
          | Some actual =>
              io_exec (fun tx => tx' ← from_db (map_err CrdtSetup (drop_triggers_for_table tx actual)); Ok (tt, tx'))
          | None => io_ret tt
          end)
     | Created _ => io_ret tt
     end)%io.

Definition changed_table (change : SchemaChange) : string :=
  match change with
  | Created table => table
  | Altered table new => default table new
  end.

(** [complete]. *)
Definition complete (change : SchemaChange) : conn_io db Error unit :=
  (actual <- io_read (fun tx => crdt_table tx (changed_table change)) ;;
   _t <- match actual with
         | Some actual =>
             io_exec (fun tx => r ← from_db (map_err CrdtSetup (setup_triggers_for_table tx actual true)); Ok (tt, snd r))
         | None => io_ret tt
         end ;;
   release)%io.

(** ** The copy of a table rebuild *)

Definition meta_projection : list SelectItem :=
  map (fun column => UnnamedExpr (EIdentifier (Ident_new column))) meta_columns.
Definition meta_names : list ObjectName := map (fun column => name_of_ident (Ident_new column)) meta_columns.

Definition copy_source (insert : Insert) : option string :=
  match in_source insert with
  | Some (mkQuery (SetSelect select) _) =>
      match sel_from select with
      | [mkTable (TfTable name _) []] => main_table name
      | _ => None
      end
  | _ => None
  end.
Definition copy_target (insert : Insert) : option string :=
  match in_table insert with TableName name => main_table name | OtherTable _ => None end.
Definition wildcard_copy (insert : Insert) : bool :=
  match in_source insert with
  | Some (mkQuery (SetSelect select) _) => existsb is_wildcard (sel_projection select)
  | Some _ => true
  | None => false
  end.

Definition extend_source (q : Query) : Query :=
  match q with
  | mkQuery (SetSelect (mkSelect projection from selection r)) qr =>
      mkQuery (SetSelect (mkSelect (projection ++ meta_projection) from selection r)) qr
  | _ => q
  end.
(** The metadata columns appended on both sides. *)
Definition copy_metadata (insert : Insert) : Insert :=
  mkInsert (in_table insert) (in_columns insert ++ meta_names) (extend_source <$> in_source insert)
    (in_on insert) (in_returning insert) (in_rest insert).

Definition rewrite_rebuild_copy (tx : db) (statement : Statement) : res Error Statement :=
  let refuse {A} reason : res Error A :=
    db_err (UnsupportedStatement ("copy_rows_verbatim: " +:+ reason) (statement_to_string statement)) in
  match statement with
  | StInsert insert =>
      if bool_decide (in_columns insert = []) || bool_decide (is_Some (in_on insert)) ||
         bool_decide (is_Some (in_returning insert))
      then refuse "needs a column list and no ON CONFLICT or RETURNING"
      else
        match copy_target insert, copy_source insert with
        | Some target, Some source =>
            if wildcard_copy insert then refuse "a wildcard projection is not supported"
            else
              t ← crdt_table tx target;
              s ← crdt_table tx source;
              match t, s with
              | None, None => Ok statement
              | Some _, Some _ => Ok (StInsert (copy_metadata insert))
              | _, _ => refuse "both tables must carry CRDT columns, or neither"
              end
        | _, _ => refuse "expected INSERT INTO <table> (…) SELECT … FROM <table> on main tables"
        end
  | _ => refuse "expected INSERT INTO … SELECT … FROM …"
  end.

(** [begin_verbatim_copy]: the previous value of the trigger gate. *)
Definition begin_verbatim_copy : conn_io db Error string :=
  (_s <- batch (Savepoint SAVEPOINT) ;;
   or_rollback
     (previous <- io_read (fun tx => from_db (db_from_sql (optional
         (row ← query_row tx ConfigGet [SText CONFIG_KEY_TRIGGERS_ENABLED]; get_string row 0)))) ;;
      _t <- io_exec (fun tx => tx' ← toggle_triggers tx "0"; Ok (tt, tx')) ;;
      io_ret (default "1" previous)))%io.

Definition end_verbatim_copy (previous : string) : conn_io db Error unit :=
  (_t <- io_exec (fun tx => tx' ← toggle_triggers tx previous; Ok (tt, tx')) ;;
   release)%io.

(** ** The foreign key check before the commit of a migration *)

(** A [BTreeSet<String>] as its sorted elements. *)
Definition btree_set (l : list string) : list string := sort_by String.compare (remove_dups l).

Definition foreign_key_check (tx : db) : res Error unit :=
  rows ← from_db (db_from_sql (query tx (RawSql "PRAGMA foreign_key_check") []));
  names ← from_db (db_from_sql (try_map (fun row => get_string row 0) rows));
  match btree_set names with
  | [] => Ok tt
  | tables => db_err (ForeignKeyCheckFailed tables)
  end.
End transaction.

(** ** Savepoints *)

(** What SQLite's savepoints do: a stack of what the database held when each
    was opened; rolling back to the topmost one restores that and closes it, and
    no other statement touches the stack. *)
Class SavepointLaws (db : Type) `{Rusqlite db} := {
  content : Type;
  snapshot : db -> content;
  stack : db -> list (string * content);
  savepoint_opens : forall c n k c', execute c (Savepoint n) [] = Ok (k, c') ->
    snapshot c' = snapshot c /\ stack c' = (n, snapshot c) :: stack c;
  rollback_restores : forall c n v rest, stack c = (n, v) :: rest ->
    exists k c', execute c (RollbackRelease n) [] = Ok (k, c') /\ snapshot c' = v /\ stack c' = rest;
  release_closes : forall c n k c', execute c (Release n) [] = Ok (k, c') ->
    snapshot c' = snapshot c /\ stack c' = tail (stack c);
  others_keep_stack : forall c st ps k c',
    match st with Savepoint _ | Release _ | RollbackRelease _ => False | _ => True end ->
    execute c st ps = Ok (k, c') -> stack c' = stack c;
}.
Arguments snapshot {db H _} c : rename.
Arguments stack {db H _} c : rename.

(** ** What the steps keep

    [R] is a preorder that no statement but a savepoint's leaves: something of
    the connection that stays as it is, or that only grows. A step of this file then
    does not leave it either. *)
Definition same {A X} (obs : A -> X) : relation A := fun c c' => obs c' = obs c.
#[export] Instance same_preorder {A X} (obs : A -> X) : PreOrder (same obs).
Proof. unfold same. split; [done|]. intros x y z Hxy Hyz. by rewrite Hyz. Qed.

Definition outside_savepoints (st : Stmt) : Prop :=
  match st with Savepoint _ | Release _ | RollbackRelease _ => False | _ => True end.

Section keeps.
Context `{Unicode} `{SqlParser} {db : Type} `{HR : Rusqlite db} (R : relation db) `{!PreOrder R}.

(** An action that does not leave it. *)
Definition grows {E A} (m : conn_io db E A) : Prop := forall tx r tx', m tx = (r, tx') -> R tx tx'.

Lemma kept_ret {E A} (a : A) : grows (io_ret (E := E) a).
Proof. by intros tx r tx' [= <- <-]. Qed.
Lemma kept_read {E A} (f : db -> res E A) : grows (io_read f).
Proof. by intros tx r tx' [= <- <-]. Qed.
Lemma kept_exec {E A} (f : db -> res E (A * db)) :
  (forall tx a tx', f tx = Ok (a, tx') -> R tx tx') -> grows (io_exec f).
Proof. intros Hf tx r tx'. unfold io_exec. destruct (f tx) as [[a tx2]| |] eqn:Hact; intros [= <- <-]; [by eapply Hf|done..]. Qed.
Lemma kept_bind {E A B} (m : conn_io db E A) (f : A -> conn_io db E B) :
  grows m -> (forall a, grows (f a)) -> grows (io_bind m f).
Proof.
  intros Hm Hf tx r tx'. unfold io_bind. destruct (m tx) as [[a| |] tx1] eqn:Hact.
  - intros Hr. etrans; [by eapply Hm|by eapply Hf].
  - intros [= <- <-]. by eapply Hm.
  - intros [= <- <-]. by eapply Hm.
Qed.
Lemma kept_map_err {E F A} (f : E -> F) (m : conn_io db E A) : grows m -> grows (io_map_err f m).
Proof. intros Hm tx r tx'. unfold io_map_err. destruct (m tx) as [r1 tx1] eqn:Hact. intros [= <- <-]. by eapply Hm. Qed.

Hypothesis R_step : forall c st ps k c', outside_savepoints st -> execute c st ps = Ok (k, c') -> R c c'.

Lemma exec_batch_keeps (tx : db) sql tx' : exec_batch tx sql = Ok tx' -> R tx tx'.
Proof.
  unfold exec_batch. intros ([k c] & He & [= <-])%bind_Ok. exact (R_step _ (ExecBatch sql) _ _ _ I He).
Qed.

Lemma drop_triggers_keeps (tx : db) t tx' : drop_triggers_for_table tx t = Ok tx' -> R tx tx'.
Proof.
  unfold drop_triggers_for_table. destruct (negb _); [done|]. intros Hd%map_err_Ok. by eapply exec_batch_keeps.
Qed.

Lemma setup_triggers_keeps (tx : db) t b r tx' :
  setup_triggers_for_table tx t b = Ok (r, tx') -> R tx tx'.
Proof.
  unfold setup_triggers_for_table. intros (cols & _ & Hs)%bind_Ok. destruct cols; [by injection Hs as <- <-|].
  destruct (negb _); [done|]. destruct (pk_names _); [done|]. destruct (first_unsafe _); [done|].
  apply bind_Ok in Hs as (t1 & H1 & Hs). apply bind_Ok in Hs as (t2 & H2%map_err_Ok%exec_batch_keeps & Hs).
  apply bind_Ok in Hs as (t3 & H3%map_err_Ok%exec_batch_keeps & Hs). apply bind_Ok in Hs as (t4 & H4 & [= <- <-]).
  assert (R tx t1) as E1 by (destruct b; [by eapply drop_triggers_keeps | by injection H1 as <-]).
  assert (R t3 t4) as E4.
  { destruct (negb _); [by apply map_err_Ok, exec_batch_keeps in H4 | by injection H4 as <-]. }
  etrans; [exact E1|]. etrans; [exact H2|]. by etrans.
Qed.

Lemma toggle_triggers_keeps (tx : db) v tx' : toggle_triggers tx v = Ok tx' -> R tx tx'.
Proof.
  unfold toggle_triggers. intros ([k c] & He%map_err_Ok & [= <-])%bind_Ok.
  exact (R_step _ ToggleTriggers _ _ _ I He).
Qed.

Lemma kept_drop actual : grows (io_exec (fun tx : db => tx' ← from_db (map_err CrdtSetup (drop_triggers_for_table tx actual)); Ok (tt, tx'))).
Proof.
  apply kept_exec. intros tx a c3 (c4 & Hd%map_err_Ok & [= <- <-])%bind_Ok.
  apply map_err_Ok in Hd. by eapply drop_triggers_keeps.
Qed.
Lemma kept_setup actual :
  grows (io_exec (fun tx : db => r ← from_db (map_err CrdtSetup (setup_triggers_for_table tx actual true)); Ok (tt, snd r))).
Proof.
  apply kept_exec. intros tx a c3 ([b c4] & Hd%map_err_Ok & [= <- <-])%bind_Ok.
  apply map_err_Ok in Hd. by eapply setup_triggers_keeps.
Qed.
Lemma kept_toggle v : grows (io_exec (fun tx : db => tx' ← toggle_triggers tx v; Ok (tt, tx'))).
Proof. apply kept_exec. intros tx a c4 (c5 & Ht & [= <- <-])%bind_Ok. by eapply toggle_triggers_keeps. Qed.
End keeps.
Abbreviation kept obs := (grows (same obs)).

(** Applies a lemma of this section and finds its preorder. *)
Tactic Notation "kapply" uconstr(lemma) := apply lemma; try lazymatch goal with |- PreOrder _ => apply _ end.

#[export] Hint Resolve same_preorder kept_ret kept_read kept_bind kept_map_err kept_drop kept_setup kept_toggle : haex.

Section savepoints.
Context `{Unicode} `{SqlParser} {db : Type} `{HR : Rusqlite db} `{!SavepointLaws db}.

Lemma stack_kept (c : db) st ps k c' : outside_savepoints st -> execute c st ps = Ok (k, c') -> same stack c c'.
Proof. apply others_keep_stack. Qed.
#[local] Hint Resolve stack_kept : haex.

Lemma batch_Ok st (tx : db) tx' : batch st tx = (Ok tt, tx') -> exists k, execute tx st [] = Ok (k, tx').
Proof.
  unfold batch, io_exec. destruct (execute tx st []) as [[k c]| |]; cbn; [|done..]. intros [= <-]. by exists k.
Qed.
Lemma batch_fails st (tx : db) r tx' : batch st tx = (r, tx') -> is_ok r = false -> tx' = tx.
Proof.
  unfold batch, io_exec. destruct (execute tx st []) as [[k c]| |]; cbn; by intros [= <- <-].
Qed.

Lemma rollback_spec (tx : db) v rest : stack tx = (SAVEPOINT, v) :: rest ->
  snapshot (rollback tx) = v /\ stack (rollback tx) = rest.
Proof.
  intros Hs. destruct (rollback_restores tx SAVEPOINT v rest Hs) as (k & c & He & Hc & Hr).
  unfold rollback, batch, io_exec. by rewrite He.
Qed.

(** Opened, the savepoint holds what was there; not opened, nothing has
    changed. *)
Definition opened {A} (tx : db) (r : res Error A) (tx' : db) : Prop :=
  match r with
  | Ok _ => stack tx' = (SAVEPOINT, snapshot tx) :: stack tx
  | Err _ => snapshot tx' = snapshot tx /\ stack tx' = stack tx
  | Panic _ => True
  end.

Lemma or_rollback_opened {A} (m : conn_io db Error A) tx tx1 r tx' :
  stack tx1 = (SAVEPOINT, snapshot tx) :: stack tx -> kept stack m ->
  or_rollback m tx1 = (r, tx') -> opened tx r tx'.
Proof.
  intros Hs Hm. unfold or_rollback. destruct (m tx1) as [r2 tx2] eqn:Hr. apply Hm in Hr. unfold same in Hr.
  destruct r2 as [a|e|msg]; intros [= <- <-]; cbn; [congruence| |done].
  apply rollback_spec. congruence.
Qed.

Lemma savepoint_then {A} (m : conn_io db Error A) tx r tx' : kept stack m ->
  io_bind (batch (Savepoint SAVEPOINT)) (fun _ => or_rollback m) tx = (r, tx') -> opened tx r tx'.
Proof.
  intros Hm. unfold io_bind.
  destruct (batch (Savepoint SAVEPOINT) tx) as [[[]|e|] tx1] eqn:Hb; [|intros [= <- <-]|by intros [= <- <-]].
  - apply batch_Ok in Hb as (k & [Hsn Hst]%savepoint_opens). by apply or_rollback_opened.
  - by apply batch_fails in Hb as ->.
Qed.

Lemma begin_change_opens change tx r tx' : begin_change change tx = (r, tx') -> opened tx r tx'.
Proof.
  apply savepoint_then. destruct change as [t|t new]; [eauto with haex|].
  kapply kept_bind; [eauto with haex|]. intros [actual|]; [kapply kept_drop|]; eauto with haex.
Qed.

Lemma begin_verbatim_opens tx r tx' : begin_verbatim_copy tx = (r, tx') -> opened tx r tx'.
Proof.
  apply savepoint_then. kapply kept_bind; [eauto with haex|]. intros previous.
  kapply kept_bind; [kapply kept_toggle|]; eauto with haex.
Qed.

(** Closed on success, still open on failure. *)
Definition closed {A} (tx : db) (r : res Error A) (tx' : db) : Prop :=
  match r with Ok _ => stack tx' = tail (stack tx) | _ => stack tx' = stack tx end.

Lemma then_release {A} (m : conn_io db Error A) tx r tx' : kept stack m ->
  io_bind m (fun _ => release) tx = (r, tx') -> closed tx r tx'.
Proof.
  intros Hm. unfold io_bind. destruct (m tx) as [[a| |] tx1] eqn:Hact; apply Hm in Hact; [|by intros [= <- <-]..].
  unfold same in Hact. unfold release. intros Hr. destruct r as [[]| |]; cbn.
  - apply batch_Ok in Hr as (k & [_ ->]%release_closes). by rewrite Hact.
  - by apply batch_fails in Hr as ->.
  - by apply batch_fails in Hr as ->.
Qed.

Lemma complete_closes change tx r tx' : complete change tx = (r, tx') -> closed tx r tx'.
Proof.
  unfold complete. unfold io_bind at 1, io_read at 1. destruct (crdt_table tx (changed_table change)) as [actual| |];
    [|by intros [= <- <-]..].
  apply then_release. destruct actual as [actual|]; [kapply kept_setup|]; eauto with haex.
Qed.

Lemma end_verbatim_closes previous tx r tx' : end_verbatim_copy previous tx = (r, tx') -> closed tx r tx'.
Proof. apply then_release. kapply kept_toggle. eauto with haex. Qed.
End savepoints.

(** What every statement keeps, savepoints included, every step keeps. *)
Section keeps_all.
Context `{Unicode} `{SqlParser} {db : Type} `{HR : Rusqlite db} (R : relation db) `{!PreOrder R}.
Hypothesis R_always : forall c st ps k c', execute c st ps = Ok (k, c') -> R c c'.

Lemma R_outside c st ps k c' : outside_savepoints st -> execute c st ps = Ok (k, c') -> R c c'.
Proof. intros _. apply R_always. Qed.
#[local] Hint Resolve R_outside : haex.

Lemma kept_batch st : grows R (batch st).
Proof. kapply kept_exec. intros c a c' ([k c1] & He%map_err_Ok%map_err_Ok & [= <- <-])%bind_Ok. by eapply R_always. Qed.
#[local] Hint Resolve kept_batch : haex.

Lemma rollback_keeps (c : db) : R c (rollback c).
Proof. unfold rollback. destruct (batch (RollbackRelease SAVEPOINT) c) as [r c'] eqn:Hact. by apply kept_batch in Hact. Qed.

Lemma kept_or_rollback {A} (m : conn_io db Error A) : grows R m -> grows R (or_rollback m).
Proof.
  intros Hm c r c'. unfold or_rollback. destruct (m c) as [[a|e|] c1] eqn:Hact; apply Hm in Hact; intros [= <- <-]; [done| |done].
  etrans; [exact Hact|apply rollback_keeps].
Qed.
#[local] Hint Resolve kept_or_rollback : haex.

Lemma kept_begin_change change : grows R (begin_change change).
Proof.
  kapply kept_bind; [eauto with haex|]. intros _. kapply kept_or_rollback. destruct change as [t|t new]; [eauto with haex|].
  kapply kept_bind; [eauto with haex|]. intros [actual|]; [kapply kept_drop|]; eauto with haex.
Qed.

Lemma kept_complete change : grows R (complete change).
Proof.
  kapply kept_bind; [eauto with haex|]. intros actual. kapply kept_bind; [ |intros _; kapply kept_batch].
  destruct actual as [actual|]; [kapply kept_setup|]; eauto with haex.
Qed.

Lemma kept_begin_verbatim : grows R begin_verbatim_copy.
Proof.
  kapply kept_bind; [eauto with haex|]. intros _. kapply kept_or_rollback. kapply kept_bind; [eauto with haex|].
  intros previous. kapply kept_bind; [kapply kept_toggle|]; eauto with haex.
Qed.

Lemma kept_end_verbatim previous : grows R (end_verbatim_copy previous).
Proof. kapply kept_bind; [kapply kept_toggle; eauto with haex|]. intros _. kapply kept_batch. Qed.
End keeps_all.

(** ** The copy keeps what the other side wrote *)

Lemma position_app {A} (p : A -> bool) l l' :
  position p (l ++ l') = match position p l with
                         | Some i => Some i
                         | None => (fun j => (length l + j)%nat) <$> position p l'
                         end.
Proof.
  induction l as [|x l IH]; cbn; [by destruct (position p l')|]. destruct (p x); [done|]. rewrite IH.
  destruct (position p l); [done|]. by destruct (position p l').
Qed.

Lemma copied_value cols (proj : list SelectItem) c :
  length proj = length cols ->
  value_at (cols ++ meta_names) (proj ++ meta_projection) c =
    match position (names_column c) cols with
    | Some _ => value_at cols proj c
    | None => value_at meta_names meta_projection c
    end.
Proof.
  intros Hl. unfold value_at. rewrite position_app. destruct (position (names_column c) cols) as [i|] eqn:Hp.
  - cbn. apply lookup_app_l. rewrite Hl. by eapply position_lt.
  - destruct (position (names_column c) meta_names) as [j|]; [|done]. cbn.
    rewrite <- Hl, lookup_app_r by lia. f_equal. lia.
Qed.

Lemma meta_value m : In m meta_columns ->
  value_at meta_names meta_projection m = Some (UnnamedExpr (EIdentifier (Ident_new m))).
Proof. by intros [<-|[<-|[<-|[]]]]. Qed.
Lemma no_meta_value c : ~ In c meta_columns -> value_at meta_names meta_projection c = None.
Proof.
  intros Hc. unfold value_at. destruct (position _ _) as [i|] eqn:Hp; [|done]. exfalso. apply Hc.
  apply position_Some in Hp as [(x & Hx & Hn) _]. apply list_elem_of_lookup_2 in Hx.
  unfold meta_names in Hx. apply list_elem_of_fmap in Hx as (m & -> & Hm).
  cbn in Hn. apply String.eqb_eq in Hn as <-. by apply list_elem_of_In.
Qed.

(** C24: a rebuild copies the metadata row for row: [copy_rows_verbatim] takes
    only a plain [INSERT INTO T (cols) SELECT exprs FROM S] - a column list, no ON
    CONFLICT, no RETURNING and no wildcard among the expressions - between two tables of
    the main schema that both carry metadata columns or both do not. Without them
    the statement is unchanged; with them the target, the options of the INSERT and of
    the query, the FROM, the WHERE and the rest of the SELECT stay, the caller's columns
    and expressions come first as written, each metadata column of the new row is the
    same column of the old one, and every other column gets the expression the caller
    wrote. *)
Theorem rebuild_copy_verbatim `{Unicode} `{SqlParser} {db} `{Rusqlite db} (tx : db) insert stmt' :
  spares_metadata (StInsert insert) ->
  rewrite_rebuild_copy tx (StInsert insert) = Ok stmt' ->
  exists target source t s proj from selection r qr,
    copy_target insert = Some target /\ copy_source insert = Some source /\
    crdt_table tx target = Ok t /\ crdt_table tx source = Ok s /\ in_columns insert <> [] /\
    insert = mkInsert (in_table insert) (in_columns insert)
      (Some (mkQuery (SetSelect (mkSelect proj from selection r)) qr)) None None (in_rest insert) /\
    (forall item, item ∈ proj -> is_wildcard item = false) /\
    ((t = None /\ s = None /\ stmt' = StInsert insert) \/
     exists cols' proj', is_Some t /\ is_Some s /\
       stmt' = StInsert (mkInsert (in_table insert) cols'
         (Some (mkQuery (SetSelect (mkSelect proj' from selection r)) qr)) None None (in_rest insert)) /\
       in_columns insert `prefix_of` cols' /\ proj `prefix_of` proj' /\
       (length proj = length (in_columns insert) ->
        length proj' = length cols' /\
        forall c, value_at cols' proj' c =
          if is_meta_column c then Some (UnnamedExpr (EIdentifier (Ident_new c)))
          else value_at (in_columns insert) proj c)).
Proof.
  intros Hsp. unfold rewrite_rebuild_copy. destruct insert as [tab cols src on ret rest].
  cbn [in_columns in_on in_returning in_table in_rest in_source] in *.
  do 3 (case_bool_decide; cbn [orb]; [done|]).
  destruct (copy_target _) as [target|] eqn:Ht; [|done]. destruct (copy_source _) as [source|] eqn:Hs; [|done].
  destruct (wildcard_copy _) eqn:Hw; [done|].
  intros (t & Hct & Hr)%bind_Ok. apply bind_Ok in Hr as (s & Hcs & Hr).
  pose proof Hs as Hsel. unfold copy_source in Hsel. cbn [in_source] in Hsel.
  destruct src as [[[sl| | | | | |] qr]|]; try done. clear Hsel. destruct sl as [proj from selection r].
  assert (on = None) as -> by by apply eq_None_not_Some. assert (ret = None) as -> by by apply eq_None_not_Some.
  exists target, source, t, s, proj, from, selection, r, qr. do 6 (split; [done|]). split.
  { intros item Hin%list_elem_of_In. destruct (is_wildcard item) eqn:Hi; [|done]. exfalso.
    cbn [wildcard_copy in_source sel_projection] in Hw. apply not_true_iff_false in Hw. apply Hw, existsb_exists. eauto. }
  destruct t as [t|], s as [s|]; try done; injection Hr as <-; [right | by left].
  exists (cols ++ meta_names), (proj ++ meta_projection).
  split; [by eexists|]. split; [by eexists|]. split; [done|]. split; [by eexists|]. split; [by eexists|].
  intros Hl. split; [rewrite !length_app, Hl; done|].
  intros c. rewrite copied_value by done. destruct (is_meta_column c) eqn:Hm.
  - apply is_meta_column_spec in Hm. rewrite (meta_value c Hm).
    destruct (position (names_column c) cols) as [i|] eqn:Hp; [|done]. exfalso.
    apply position_Some in Hp as [(x & Hx & Hn) _]. unfold names_column in Hn.
    destruct (SqlAst.last_ident x) as [v|] eqn:Hv; [|done].
    apply String.eqb_eq in Hn as ->. assert (In x cols) as Hin by (apply list_elem_of_lookup_2 in Hx; by apply list_elem_of_In).
    specialize (Hsp x c c Hin Hv Hm). unfold eq_ignore_ascii_case in Hsp. by rewrite String.eqb_refl in Hsp.
  - rewrite no_meta_value; [unfold value_at; by destruct (position (names_column c) cols)|].
    intros Hin%is_meta_column_spec. congruence.
Qed.

(** ** A database with savepoints, for the witnesses *)

(** [sp_base] is the database as the transaction found it, [sp_flags] the
    pragmas query_only and foreign_keys. *)
Record Sp := mkSp { sp_base : Mem; sp_mem : Mem; sp_stack : list (string * Mem); sp_flags : bool * bool }.
Definition sp_query_only (c : Sp) : bool := fst (sp_flags c).

#[local] Instance ColumnInfo_eq_dec : EqDecision ColumnInfo.
Proof. solve_decision. Defined.
#[local] Instance MemTable_eq_dec : EqDecision MemTable.
Proof. solve_decision. Defined.
#[export] Instance Mem_eq_dec : EqDecision Mem.
Proof. solve_decision. Defined.

Definition sp_execute (c : Sp) (st : Stmt) (ps : list SqlValue) : res SqlError (nat * Sp) :=
  match st with
  | Savepoint n => Ok (0%nat, mkSp (sp_base c) (sp_mem c) ((n, sp_mem c) :: sp_stack c) (sp_flags c))
  | Release n => Ok (0%nat, mkSp (sp_base c) (sp_mem c) (tail (sp_stack c)) (sp_flags c))
  | RollbackRelease n =>
      match sp_stack c with
      | (_, v) :: rest => Ok (0%nat, mkSp (sp_base c) v rest (sp_flags c))
      | [] => Err (OtherSqlError "no such savepoint")
      end
  | RawSql _ => Ok (0%nat, c)
  | SetForeignKeys on => Ok (0%nat, mkSp (sp_base c) (sp_mem c) (sp_stack c) (fst (sp_flags c), on))
  | _ => r ← mem_execute (sp_mem c) st ps; Ok (fst r, mkSp (sp_base c) (snd r) (sp_stack c) (sp_flags c))
  end.

Definition sp_query (c : Sp) (st : Stmt) (ps : list SqlValue) : res SqlError (list (list SqlValue)) :=
  match st, ps with
  | RawSql sql, [SText t] =>
      if String.eqb sql main_crdt_table_sql
      then Ok (match m_tables (sp_mem c) !! t with
               | Some mt => if mt_synced mt then [[SText t]] else []
               | None => []
               end)
      else Ok []
  | PragmaForeignKeys, _ => Ok [[SInteger (if snd (sp_flags c) then 1 else 0)]]
  | _, _ => mem_query (sp_mem c) st ps
  end.

#[export] Instance sp_db : Rusqlite Sp := {
  prepare c st := Ok tt;
  execute := sp_execute;
  query := sp_query;
  table_info c t := Ok (match m_tables (sp_mem c) !! t with Some mt => mt_schema mt | None => [] end);
  begin_immediate c :=
    if bool_decide (sp_base c = sp_mem c) && bool_decide (length (sp_stack c) = 0%nat)
    then Ok tt else Err (OtherSqlError "within a transaction");
  begin_deferred c := Ok tt;
  commit c := Ok tt;
}.

#[export] Instance sp_savepoints : SavepointLaws Sp.
Proof.
  refine {| snapshot := sp_mem; stack := sp_stack |}.
  - by intros c n k c' [= <- <-].
  - intros c n v rest Hs. cbn. rewrite Hs. by eexists _, _.
  - by intros c n k c' [= <- <-].
  - intros c st ps k c' Hst He. destruct st; try done; try (by injection He as <- <-);
      apply bind_Ok in He as ([n m] & _ & [= <- <-]); done.
Defined.

Definition sp_start : Sp := mkSp (mini_mem []) (mini_mem []) [] (false, true).
#[local] Instance mini_sql0 : SqlParser := mini_sql [].

Definition mini_copy : Insert :=
  mkInsert (TableName (ident_name DELETED_ROWS_TABLE)) [ident_name "id"]
    (Some (mkQuery (SetSelect (mkSelect [UnnamedExpr (EIdentifier (Ident_new "id"))]
       [mkTable (TfTable [PartIdentifier (Ident_new "MAIN"); PartIdentifier (Ident_new "items")] none) []] None none)) none))
    None None none.

Lemma rebuild_copy_verbatim_witness :
  exists cols' proj', rewrite_rebuild_copy sp_start (StInsert mini_copy) =
      Ok (StInsert (mkInsert (in_table mini_copy) cols' (Some (mkQuery (SetSelect (mkSelect proj'
        [mkTable (TfTable [PartIdentifier (Ident_new "MAIN"); PartIdentifier (Ident_new "items")] none) []] None none)) none))
        None None none)) /\
    value_at cols' proj' HLC_TIMESTAMP_COLUMN = Some (UnnamedExpr (EIdentifier (Ident_new HLC_TIMESTAMP_COLUMN))).
Proof.
  assert (rewrite_rebuild_copy sp_start (StInsert mini_copy) = Ok (StInsert (copy_metadata mini_copy))) as Hcopy
    by (vm_compute; reflexivity).
  destruct (rebuild_copy_verbatim sp_start mini_copy (StInsert (copy_metadata mini_copy)))
    as (target & source & t & s & proj & from & selection & r & qr & _ & _ & Ht & _ & _ & Hi & _ & Hr).
  - intros name col meta [<-|[]] [= <-] Hm. by destruct Hm as [<-|[<-|[<-|[]]]].
  - exact Hcopy.
  - injection Hi as <- <- <- <- <-.
    destruct Hr as [(_ & _ & Heq)|(cols' & proj' & _ & _ & Heq & _ & _ & Hv)]; [discriminate Heq|].
    exists cols', proj'. split; [rewrite Hcopy; f_equal; exact Heq|]. exact (proj2 (Hv eq_refl) HLC_TIMESTAMP_COLUMN).
Defined.
