(* ===== verification/Session.v ===== *)
(** * The transactional write and read paths (src/database/write.rs)

    [CrdtTransaction] and what its calls do to the connection, the transaction
    around a caller's closure, and the read-only view. A closure is the tree of the
    calls it makes: after each it goes on with the result, which it is free to
    ignore. *)

From S2P Require Import Prelude Utf8 Hashing Names Json Sql Mini Hlc Context Trigger Report Errors SqlAst Prefix Transform CrdtWrite Value Scanner Policy Cleanup Engine Guard Schema.

(** ** The connection *)

(** The hooks, the database with what its hooks share, and the reports the
    change observer has received. *)
Record Conn {U : Uhlc} {K : ConnHooks} (db : Type) := mkConn {
  cn_hooks : hooks;
  cn_live : LiveTx db;
  cn_reports : list (gset string);
}.
Arguments mkConn {U K db}.
Arguments cn_hooks {U K db}.
Arguments cn_live {U K db}.
Arguments cn_reports {U K db}.

Definition with_live {U : Uhlc} {K : ConnHooks} {db} (c : Conn db) (l : LiveTx db) : Conn db :=
  mkConn (cn_hooks c) l (cn_reports c).
Definition with_hooks {U : Uhlc} {K : ConnHooks} {db} (c : Conn db) (h : hooks) : Conn db :=
  mkConn h (cn_live c) (cn_reports c).

(** The database a statement left, after the hooks have seen its events and the
    observer what they reported. *)
Definition with_raised {U : Uhlc} {K : ConnHooks} {db} (c : Conn db) (d : db) (evs : list event) : Conn db :=
  mkConn (cn_hooks c) (mkLive d (fst (Context.run (lt_conn (cn_live c)) evs)))
    (cn_reports c ++ reports (snd (Context.run (lt_conn (cn_live c)) evs))).

#[export] Instance conn_rusqlite {U : Uhlc} {K : ConnHooks} {db} `{LiveDb db} : Rusqlite (Conn db) := {
  prepare c st := prepare (cn_live c) st;
  execute c st ps :=
    let d := lt_db (cn_live c) in
    r ← execute d st ps; Ok (fst r, with_raised c (snd r) (raised d st ps));
  query c st ps := query (cn_live c) st ps;
  table_info c t := table_info (cn_live c) t;
  begin_immediate c := begin_immediate (cn_live c);
  begin_deferred c := begin_deferred (cn_live c);
  commit c := commit (cn_live c);
}.

(** ** Parameters *)

(** A [&dyn ToSql]: a value, one of the outputs that have no size
    ([ZeroBlob] and the like), or a failed conversion. *)
Inductive sql_param :=
| PValue (v : SqlValue)
| POther (o : opaque)
| PFailed (e : SqlError).

Definition value_bytes (value : SqlValue) : Z :=
  match value with
  | SNull => 0
  | SInteger _ | SReal _ => 8
  | SText bytes | SBlob bytes => Z.of_nat (String.length bytes)
  end.

Definition param_bytes (param : sql_param) : res SqlError Z :=
  match param with
  | PValue value => Ok (value_bytes value)
  | POther _ => Ok usize_max
  | PFailed e => Err e
  end.

(** [try_fold]. *)
Fixpoint add_parameter_bytes (total : Z) (params : list sql_param) : res SqlError Z :=
  match params with
  | [] => Ok total
  | param :: rest => b ← param_bytes param; add_parameter_bytes (saturating_add total b) rest
  end.
Definition serialized_parameter_bytes (params : list sql_param) : res SqlError Z := add_parameter_bytes 0 params.

(** ** Statements *)

(** What stepping a statement of the caller does: its result, the answers of
    the progress callback, the database after it, the hook events it raised and
    whether the connection is in autocommit mode afterwards (SQLite may end the
    transaction by itself). *)
Record outcome (db T : Type) := mkOutcome {
  oc_result : res SqlError T;
  oc_answers : list bool;
  oc_db : db;
  oc_events : list event;
  oc_autocommit : bool;
}.
Arguments mkOutcome {db T}.
Arguments oc_result {db T}.
Arguments oc_answers {db T}.
Arguments oc_db {db T}.
Arguments oc_events {db T}.
Arguments oc_autocommit {db T}.

Definition map_outcome {db A B} (f : res SqlError A -> res SqlError B) (o : outcome db A) : outcome db B :=
  mkOutcome (f (oc_result o)) (oc_answers o) (oc_db o) (oc_events o) (oc_autocommit o).

(** rusqlite's statements, under the installed hooks: [execute], the column
    names of a prepared statement, [query_map] collected, and [query_row]. The
    flag is whether the connection is in autocommit mode when they start. Also
    [pragma_update] of query_only, which the authorizer judges like any statement: the
    error it fails with, the database after it and its hook events. *)
Class Statements {K : ConnHooks} (db : Type) := {
  st_execute : string -> list sql_param -> hooks -> bool -> db -> outcome db nat;
  st_columns : string -> hooks -> db -> res SqlError (list string);
  st_rows : forall T, string -> list sql_param -> (list SqlValue -> res SqlError T) ->
    hooks -> bool -> db -> outcome db (list T);
  st_row : forall T, string -> list sql_param -> (list SqlValue -> res SqlError T) ->
    hooks -> bool -> db -> outcome db T;
  st_last_insert_rowid : db -> Z;
  st_query_only : bool -> hooks -> db -> option SqlError * db * list event;
}.

(** [query_rows]. *)
Definition query_rows {K : ConnHooks} {db} `{!Statements db} {T} (sql : string) (params : list sql_param)
    (f : list SqlValue -> res SqlError T) (h : hooks) (autocommit : bool) (d : db) : outcome db (QueryRows T) :=
  match st_columns sql h d with
  | Ok columns => map_outcome (fun r => rows ← r; Ok (mkQueryRows columns rows)) (st_rows T sql params f h autocommit d)
  | Err e => mkOutcome (Err e) [] d [] autocommit
  | Panic m => mkOutcome (Panic m) [] d [] autocommit
  end.

(** ** One transaction *)

Record CrdtTransaction {U : Uhlc} {K : ConnHooks} (db : Type) := mkTx {
  tx : Conn db;
  tx_autocommit : bool;
  written_bytes : Z;
  max_bytes : Z;
  tx_guard : option SqlGuard;
  options : GuardedWriteOptions;
  aborted : option string;
}.
Arguments mkTx {U K db}.
Arguments tx {U K db}.
Arguments tx_autocommit {U K db}.
Arguments written_bytes {U K db}.
Arguments max_bytes {U K db}.
Arguments tx_guard {U K db}.
Arguments options {U K db}.
Arguments aborted {U K db}.

Record PreparedStatement := mkPrepared { ps_sql : string; ps_schema : option SchemaChange }.

Section session.
Context `{Unicode} {U : Uhlc} `{SqlParser} {db : Type} `{HL : LiveDb db} {K : ConnHooks} `{!Statements db}.

Abbreviation txn := (CrdtTransaction db).

Definition set_conn (t : txn) (c : Conn db) : txn :=
  mkTx c (tx_autocommit t) (written_bytes t) (max_bytes t) (tx_guard t) (options t) (aborted t).
Definition set_aborted (reason : string) (t : txn) : txn :=
  mkTx (tx t) (tx_autocommit t) (written_bytes t) (max_bytes t) (tx_guard t) (options t) (Some reason).

(** A step on the connection, and one on the database and its shared state. *)
Definition on_conn {A} (m : conn_io (Conn db) Error A) : conn_io txn Error A := fun t =>
  let '(r, c) := m (tx t) in (r, set_conn t c).
Definition on_live {A} (m : conn_io (LiveTx db) DatabaseError A) : conn_io txn Error A := fun t =>
  let '(r, l) := m (cn_live (tx t)) in (map_err Database r, set_conn t (with_live (tx t) l)).

Definition ensure_open : conn_io txn Error unit := fun t =>
  match aborted t with
  | Some reason => (Err (Database (TransactionAborted reason)), t)
  | None => (Ok tt, t)
  end.

(** [tx_autocommit] is [tx.is_autocommit()], kept up to date by every statement of the
    caller. A statement of the crate's own that fails leaves the database as it was: that
    SQLite may give the transaction up under one is not represented (the code does not
    look at it either while it prepares a statement, [WritePath.prepare_never_aborts]). *)
Definition note_rollback (t : txn) : txn :=
  match aborted t with
  | None => if tx_autocommit t then set_aborted "SQLite rolled the transaction back" t else t
  | Some _ => t
  end.

Definition finish {T} (sql : string) (result : res SqlError T) (interrupted : bool) : conn_io txn Error T := fun t =>
  if interrupted
  then (Err (Database (SqlGuardInterrupted sql)), set_aborted "the progress callback interrupted a statement" t)
  else
    match result with
    | Ok value => (Ok value, t)
    | Err source => (Err (Database (statement_error sql source)), note_rollback t)
    | Panic m => (Panic m, t)
    end.

Definition charge (params : list sql_param) : conn_io txn Error unit := fun t =>
  match serialized_parameter_bytes params with
  | Ok bytes =>
      let written := saturating_add (written_bytes t) bytes in
      let t' := mkTx (tx t) (tx_autocommit t) written (max_bytes t) (tx_guard t) (options t) (aborted t) in
      if max_bytes t <? written then (Err (Database (TransactionTooLarge written (max_bytes t))), t') else (Ok tt, t')
  | Err e => (Err (Database (DbSqlite e)), t)
  | Panic m => (Panic m, t)
  end.

(** [prepare] from the charge on; [nows] are the clock readings of the
    stamping. *)
Definition prepare_write (nows : Z * Z) (params : list sql_param) (statement : Statement)
    : conn_io txn Error PreparedStatement :=
  (_c <- charge params ;;
   guarded <- io_read (fun t => Ok (bool_decide (is_Some (tx_guard t)))) ;;
   if guarded : bool then
     (_r <- io_read (fun _ => check_rename statement) ;;
      local <- io_read (fun t => Ok (local_mode (options t))) ;;
      transforms <- (if local : bool then io_read (fun t => transforms_in_local_mode (tx t) statement) else io_ret true) ;;
      if negb transforms
      then io_ret (mkPrepared (strip_main_schema_prefix (statement_to_string statement)) None)
      else
        (w <- on_live (transform_write (fst nows) (snd nows) statement) ;;
         io_ret (mkPrepared (tw_sql w) (tw_schema_changed w ≫= SchemaChange_of (tw_statement w)))))
   else
     (w <- on_live (transform_write (fst nows) (snd nows) statement) ;;
      io_ret (mkPrepared (tw_sql w) None)))%io.

Definition prepare_statement (nows : Z * Z) (sql : string) (params : list sql_param)
    : conn_io txn Error PreparedStatement :=
  (statement <- io_read (fun _ => map_err Database (parse_crdt_write sql)) ;;
   match statement with
   | StQuery _ => io_ret (mkPrepared sql None)
   | _ => prepare_write nows params statement
   end)%io.

(** The statement [exec] on the whole connection: the database changes and
    the hooks see its events. *)
Definition stepping {T} (exec : hooks -> bool -> db -> outcome db T) : statement (Conn db * bool) T :=
  fun h s =>
    let '(c, autocommit) := s in
    let o := exec h autocommit (lt_db (cn_live c)) in
    (oc_result o, oc_answers o, (with_raised c (oc_db o) (oc_events o), oc_autocommit o)).

Definition set_stepped (t : txn) (h : hooks) (s : Conn db * bool) : txn :=
  mkTx (with_hooks (fst s) h) (snd s) (written_bytes t) (max_bytes t) (tx_guard t) (options t) (aborted t).

(** The statement without a guard. *)
Definition run_plain {T} (sql : string) (exec : hooks -> bool -> db -> outcome db T) : conn_io txn Error T := fun t =>
  let h := cn_hooks (tx t) in
  let '(result, _, s) := stepping exec h (tx t, tx_autocommit t) in
  finish sql result false (set_stepped t h s).

(** The statement inside the guard window, up to [finish]. *)
Definition run_window {T} (guard : SqlGuard) (sql : string) (exec : hooks -> bool -> db -> outcome db T)
    : conn_io txn Error T := fun t =>
  let '(r, h, s) := run_guarded guard ScopeWrite (stepping exec) (cn_hooks (tx t)) (tx t, tx_autocommit t) in
  let t' := set_stepped t h s in
  match r with
  | Ok (result, interrupted) => finish sql result interrupted t'
  | Err source => (Err (Database (DbSqlite source)), t')
  | Panic m => (Panic m, t')
  end.

(** [run]: [exec] gets the SQL that was prepared. *)
Definition run {T} (nows : Z * Z) (sql : string) (params : list sql_param)
    (exec : string -> hooks -> bool -> db -> outcome db T) : conn_io txn Error T :=
  (_o <- ensure_open ;;
   prepared <- prepare_statement nows sql params ;;
   fun t =>
     match tx_guard t with
     | None => run_plain (ps_sql prepared) (exec (ps_sql prepared)) t
     | Some guard =>
         match ps_schema prepared with
         | None => run_window guard (ps_sql prepared) (exec (ps_sql prepared)) t
         | Some change =>
             (_b <- on_conn (begin_change change) ;;
              fun t1 =>
                match (value <- run_window guard (ps_sql prepared) (exec (ps_sql prepared)) ;;
                       _c <- on_conn (complete change) ;;
                       io_ret value)%io t1 with
                | (Err e, t2) => (Err e, note_rollback (set_conn t2 (rollback (tx t2))))
                | r => r
                end)%io t
         end
     end)%io.

(** ** The calls *)

Definition execute_call (nows : Z * Z) (sql : string) (params : list sql_param) : conn_io txn Error nat :=
  run nows sql params (fun sql => st_execute sql params).

Definition query_with_columns {T} (nows : Z * Z) (sql : string) (params : list sql_param)
    (f : list SqlValue -> res SqlError T) : conn_io txn Error (QueryRows T) :=
  run nows sql params (fun sql => query_rows sql params f).

Definition query_map {T} (nows : Z * Z) (sql : string) (params : list sql_param)
    (f : list SqlValue -> res SqlError T) : conn_io txn Error (list T) :=
  (rows <- query_with_columns nows sql params f ;; io_ret (qr_rows rows))%io.

Definition query_row_call {T} (nows : Z * Z) (sql : string) (params : list sql_param)
    (f : list SqlValue -> res SqlError T) : conn_io txn Error (option T) :=
  run nows sql params (fun sql h a d => map_outcome optional (st_row T sql params f h a d)).

Definition last_insert_rowid (t : txn) : Z := st_last_insert_rowid (lt_db (cn_live (tx t))).

Definition or_schema_rollback {A} (m : conn_io txn Error A) : conn_io txn Error A := fun t =>
  match m t with
  | (Err e, t') => (Err e, set_conn t' (rollback (tx t')))
  | r => r
  end.

Definition copy_rows_verbatim (sql : string) (params : list sql_param) : conn_io txn Error nat :=
  (_o <- ensure_open ;;
   fun t =>
     match tx_guard t with
     | Some guard =>
         if schema_mode (options t) then
           (statement <- io_read (fun _ => map_err Database (parse_crdt_write sql)) ;;
            statement <- io_read (fun t => rewrite_rebuild_copy (tx t) statement) ;;
            _c <- charge params ;;
            let sql := strip_main_schema_prefix (statement_to_string statement) in
            previous <- on_conn begin_verbatim_copy ;;
            or_schema_rollback
              (copied <- run_window guard sql (st_execute sql params) ;;
               _e <- on_conn (end_verbatim_copy previous) ;;
               io_ret copied))%io t
         else (db_err (UnsupportedStatement "copy_rows_verbatim needs a guarded write in schema mode" sql), t)
     | None => (db_err (UnsupportedStatement "copy_rows_verbatim needs a guarded write in schema mode" sql), t)
     end)%io.

(** ** The caller's closure *)

Inductive closure (R T : Type) :=
| Done (r : res Error R)
| Execute (nows : Z * Z) (sql : string) (params : list sql_param) (k : res Error nat -> closure R T)
| QueryColumns (nows : Z * Z) (sql : string) (params : list sql_param) (f : list SqlValue -> res SqlError T)
    (k : res Error (QueryRows T) -> closure R T)
| QueryRow (nows : Z * Z) (sql : string) (params : list sql_param) (f : list SqlValue -> res SqlError T)
    (k : res Error (option T) -> closure R T)
| CopyRows (sql : string) (params : list sql_param) (k : res Error nat -> closure R T)
| LastRowid (k : Z -> closure R T).
Arguments Done {R T}.
Arguments Execute {R T}.
Arguments QueryColumns {R T}.
Arguments QueryRow {R T}.
Arguments CopyRows {R T}.
Arguments LastRowid {R T}.

Fixpoint run_closure {R T} (f : closure R T) (t : txn) : res Error R * txn :=
  match f with
  | Done r => (r, t)
  | Execute nows sql params k => let '(r, t') := execute_call nows sql params t in run_closure (k r) t'
  | QueryColumns nows sql params g k => let '(r, t') := query_with_columns nows sql params g t in run_closure (k r) t'
  | QueryRow nows sql params g k => let '(r, t') := query_row_call nows sql params g t in run_closure (k r) t'
  | CopyRows sql params k => let '(r, t') := copy_rows_verbatim sql params t in run_closure (k r) t'
  | LastRowid k => run_closure (k (last_insert_rowid t)) t
  end.

(** ** The transaction around it *)

(** Dropping a [Transaction]: a rollback to the connection's database before
    it, unless the connection is back in autocommit mode. *)
Definition drop_tx (conn : Conn db) (t : txn) : Conn db :=
  if tx_autocommit t then tx t
  else with_live (tx t) (mkLive (lt_db (cn_live conn))
         (rollback_hook (fst (lt_conn (cn_live (tx t)))), snd (lt_conn (cn_live (tx t))))).

Definition no_transaction : SqlError := SqliteFailure 1.

(** The commit hook on a connection, and what it reports. *)
Definition committed (c : Conn db) : Conn db :=
  let l := cn_live c in
  let '(ctx, report) := commit_hook (fst (lt_conn l)) in
  mkConn (cn_hooks c) (mkLive (lt_db l) (ctx, snd (lt_conn l)))
    (cn_reports c ++ match report with Some r => [r] | None => [] end).

(** The transaction when SQLite fails its commit. *)
Definition uncommitted (t : txn) : txn :=
  if commit_fails_late (lt_db (cn_live (tx t))) then set_conn t (committed (tx t)) else t.

(** [tx.commit()]. *)
Definition commit_tx (conn : Conn db) (t : txn) : res SqlError unit * Conn db :=
  match (if tx_autocommit t then Err no_transaction else commit (tx t)) with
  | Ok _ => (Ok tt, committed (tx t))
  | Err e => (Err e, drop_tx conn (if tx_autocommit t then t else uncommitted t))
  | Panic m => (Panic m, drop_tx conn t)
  end.

Definition begin_tx (conn : Conn db) (max : Z) (guard : option SqlGuard) (opts : GuardedWriteOptions) : txn :=
  mkTx conn false 0 max guard opts None.

(** The checks between the closure and the commit. *)
Definition before_commit (opts : GuardedWriteOptions) : conn_io txn Error unit :=
  (_o <- ensure_open ;;
   if schema_mode opts then io_read (fun t => foreign_key_check (tx t)) else io_ret tt)%io.

Definition run_write {R T} (max : Z) (guard : option SqlGuard) (opts : GuardedWriteOptions) (f : closure R T)
    : conn_io (Conn db) Error R := fun conn =>
  match begin_immediate conn with
  | Err e => (Err (Database (DbSqlite e)), conn)
  | Panic m => (Panic m, conn)
  | Ok _ =>
      match (value <- run_closure f ;;
             _k <- before_commit opts ;;
             io_ret value)%io (begin_tx conn max guard opts) with
      | (Ok value, t) =>
          match commit_tx conn t with
          | (Ok _, conn') => (Ok value, conn')
          | (Err e, conn') => (Err (Database (DbSqlite e)), conn')
          | (Panic m, conn') => (Panic m, conn')
          end
      | (Err e, t) => (Err e, drop_tx conn t)
      | (Panic m, t) => (Panic m, drop_tx conn t)
      end
  end.
(** ** The read-only view *)

Record ReadOnlyConnection := mkReadOnly { ro_conn : Conn db; ro_guard : option SqlGuard }.

(** A statement of the view with its scope's hooks: the result, whether it
    was interrupted, and the connection. *)
Definition view_step {T} (exec : hooks -> bool -> db -> outcome db T) (v : ReadOnlyConnection)
    : res SqlError (res SqlError T * bool) * ReadOnlyConnection :=
  let c := ro_conn v in
  let after h (s : Conn db * bool) := mkReadOnly (with_hooks (fst s) h) (ro_guard v) in
  match ro_guard v with
  | None =>
      let '(result, _, s) := stepping exec (cn_hooks c) (c, true) in
      (match result with Panic m => Panic m | _ => Ok (result, false) end, after (cn_hooks c) s)
  | Some guard =>
      let '(r, h, s) := run_guarded guard ScopeRead (stepping exec) (cn_hooks c) (c, true) in (r, after h s)
  end.

(** [guarded]. *)
Definition view_guarded {T} (exec : hooks -> bool -> db -> outcome db T) : conn_io ReadOnlyConnection SqlError T := fun v =>
  let '(r, v') := view_step exec v in (p ← r; fst p, v').

Definition view_query_row {T} (sql : string) (params : list sql_param) (f : list SqlValue -> res SqlError T)
    : conn_io ReadOnlyConnection SqlError T := view_guarded (st_row T sql params f).

Definition view_query_map {T} (sql : string) (params : list sql_param) (f : list SqlValue -> res SqlError T)
    : conn_io ReadOnlyConnection SqlError (list T) :=
  view_guarded (fun h a d => map_outcome (fun r => rows ← r; Ok (qr_rows rows)) (query_rows sql params f h a d)).

Definition view_query_with_columns {T} (sql : string) (params : list sql_param) (f : list SqlValue -> res SqlError T)
    : conn_io ReadOnlyConnection Error (QueryRows T) := fun v =>
  let '(r, v') := view_step (query_rows sql params f) v in
  (p ← map_err (fun e => Database (DbSqlite e)) r;
   let '(result, interrupted) := p in
   if interrupted : bool then Err (Database (SqlGuardInterrupted sql))
   else map_err (fun source => Database (statement_error sql source)) result, v').

Inductive read_closure (R T : Type) :=
| ReadDone (r : res Error R)
| ReadRow (sql : string) (params : list sql_param) (f : list SqlValue -> res SqlError T)
    (k : res SqlError T -> read_closure R T)
| ReadMap (sql : string) (params : list sql_param) (f : list SqlValue -> res SqlError T)
    (k : res SqlError (list T) -> read_closure R T)
| ReadColumns (sql : string) (params : list sql_param) (f : list SqlValue -> res SqlError T)
    (k : res Error (QueryRows T) -> read_closure R T).
Arguments ReadDone {R T}.
Arguments ReadRow {R T}.
Arguments ReadMap {R T}.
Arguments ReadColumns {R T}.

Fixpoint run_view {R T} (f : read_closure R T) (v : ReadOnlyConnection) : res Error R * ReadOnlyConnection :=
  match f with
  | ReadDone r => (r, v)
  | ReadRow sql params g k => let '(r, v') := view_query_row sql params g v in run_view (k r) v'
  | ReadMap sql params g k => let '(r, v') := view_query_map sql params g v in run_view (k r) v'
  | ReadColumns sql params g k => let '(r, v') := view_query_with_columns sql params g v in run_view (k r) v'
  end.

Definition set_query_only (on : bool) (c : Conn db) : option SqlError * Conn db :=
  let '(e, d, evs) := st_query_only on (cn_hooks c) (lt_db (cn_live c)) in (e, with_raised c d evs).

(** [QueryOnly]: [enable] and the [Drop] that ignores errors. *)
Definition QueryOnly_enable : conn_io (Conn db) Error unit := fun c =>
  let '(e, c') := set_query_only true c in
  (match e with Some e => Err (Database (DbSqlite e)) | None => Ok tt end, c').
Definition QueryOnly_drop (c : Conn db) : Conn db := snd (set_query_only false c).

Definition ReadOnlyConnection_enable (c : Conn db) (guard : option SqlGuard) : res Error ReadOnlyConnection :=
  h ← from_db (db_from_sql (install_read_only (cn_hooks c))); Ok (mkReadOnly (with_hooks c h) guard).

(** [run_read] under the connection lock. *)
Definition run_read {R T} (guard : option SqlGuard) (f : read_closure R T) : conn_io (Conn db) Error R := fun conn =>
  match QueryOnly_enable conn with
  | (Err e, conn1) => (Err e, conn1)
  | (Panic m, conn1) => (Panic m, conn1)
  | (Ok _, conn1) =>
      match ReadOnlyConnection_enable conn1 guard with
      | Err error => (Err error, QueryOnly_drop conn1)
      | Panic m => (Panic m, QueryOnly_drop conn1)
      | Ok read_only =>
          let '(result, v) := run_view f read_only in
          let conn2 := ro_conn v in
          let conn3 := match set_authorizer (cn_hooks conn2) None with Ok h => with_hooks conn2 h | _ => conn2 end in
          (result, QueryOnly_drop conn3)
      end
  end.
End session.
Arguments ReadDone {R T}.
Arguments ReadRow {R T}.
Arguments ReadMap {R T}.
Arguments ReadColumns {R T}.
Arguments Done {R T}.
Arguments Execute {R T}.
Arguments QueryColumns {R T}.
Arguments QueryRow {R T}.
Arguments CopyRows {R T}.
Arguments LastRowid {R T}.
