(* ===== verification/WritePath.v ===== *)
(** * What a write and a read guarantee (src/database/write.rs)

    The laws of SQLite's transactions the write path relies on, the invariant a
    transaction keeps across any closure, and the theorems on [run_write],
    [run], [copy_rows_verbatim], [charge] and [run_read]. *)

From S2P Require Import Prelude Utf8 Hashing Names Json Sql Mini Hlc Context Trigger Report Errors SqlAst Prefix Transform CrdtWrite Value Scanner Policy Cleanup Engine Guard Schema Session.

(** ** What SQLite promises of a transaction *)

Definition db_of {U : Uhlc} {K : ConnHooks} {db} (c : Conn db) : db := lt_db (cn_live c).

(** [durable] is what stays when the transaction ends without a commit. A
    statement that is no transaction control leaves it alone; and if SQLite ends
    the transaction by itself the statement fails and the database is back at it,
    with no savepoint left. The commit hook runs for no such statement, the
    rollback hook for one that ends the transaction, as the last thing it does. *)
Class TxLaws {U : Uhlc} (db : Type) `{HR : Rusqlite db} `{!LiveDb db} {K : ConnHooks} `{!Statements db}
    `{!SavepointLaws db} := {
  durable : db -> content;
  is_control : string -> bool;
  begins_outside : forall d, begin_immediate d = Ok tt -> stack d = [] /\ durable d = snapshot d;
  internal_durable : forall d st ps k d', execute d st ps = Ok (k, d') -> durable d' = durable d;
  raised_in_tx : forall d st ps, forallb in_tx (raised d st ps) = true;
  no_savepoint : forall d n, stack d = [] -> is_ok (execute d (RollbackRelease n) []) = false;
  sound {T} (d : db) (o : outcome db T) : Prop :=
    durable (oc_db o) = durable d /\ orderly (oc_autocommit o) (oc_events o) /\
    (if oc_autocommit o
     then (exists code, oc_result o = Err (SqliteFailure code)) /\ snapshot (oc_db o) = durable d /\ stack (oc_db o) = []
     else stack (oc_db o) = stack d);
  sound_execute : forall sql params h d, is_control sql = false -> sound d (st_execute sql params h false d);
  sound_rows : forall T sql params f h d, is_control sql = false -> sound d (st_rows T sql params f h false d);
  sound_row : forall T sql params f h d, is_control sql = false -> sound d (st_row T sql params f h false d);
}.

Section conn_laws.
Context {U : Uhlc} {db : Type} `{HL : LiveDb db} {K : ConnHooks}.

Lemma conn_execute_Ok (c : Conn db) st ps k c' :
  execute c st ps = Ok (k, c') <->
  exists d, execute (db_of c) st ps = Ok (k, d) /\
    c' = with_raised c d (raised (db_of c) st ps).
Proof.
  cbn. unfold db_of. destruct (execute (lt_db (cn_live c)) st ps) as [[n d]| |]; cbn.
  - split; [intros [= <- <-]; by exists d | by intros (d' & [= -> ->] & ->)].
  - split; [done | by intros (? & ? & _)].
  - split; [done | by intros (? & ? & _)].
Qed.

#[export] Instance conn_savepoints `{!SavepointLaws db} : SavepointLaws (Conn db).
Proof.
  refine {| snapshot c := snapshot (db_of c); stack c := stack (db_of c) |}.
  - intros c n k c' (d & He & ->)%conn_execute_Ok. by apply savepoint_opens in He.
  - intros c n v rest Hs. destruct (rollback_restores _ _ _ _ Hs) as (k & d & He & Hc & Hr).
    eexists k, _. split; [apply conn_execute_Ok; by exists d|]. done.
  - intros c n k c' (d & He & ->)%conn_execute_Ok. by apply release_closes in He.
  - intros c st ps k c' Hst (d & He & ->)%conn_execute_Ok. by apply others_keep_stack in He.
Defined.
End conn_laws.

(** ** The state a transaction keeps *)

Section invariant.
Context `{Unicode} {U : Uhlc} `{SqlParser} {db : Type} `{HL : LiveDb db} {K : ConnHooks} `{!HookLaws}
  `{!Statements db} `{!SavepointLaws db} `{HT : !TxLaws db}.

Abbreviation txn := (CrdtTransaction db).

(** No guard is left on the connection and its value limit is [limit]. *)
Definition unguarded (limit : Z) (h : hooks) : Prop :=
  h_authorizer h = None /\ h_progress h = None /\ h_limit h = limit.
Definition guard_sane (guard : option SqlGuard) : Prop :=
  forall g bytes, guard = Some g -> max_value_bytes g = Some bytes -> 0 <= bytes.

(** What the observer has been told, and what it will be told with. *)
Definition watch_of (c : Conn db) := (cn_reports c, watch (fst (lt_conn (cn_live c)))).

Record tx_inv (base : content) (limit : Z) w (t : txn) : Prop := {
  inv_watch : watch_of (tx t) = w;
  inv_durable : durable (db_of (tx t)) = base;
  inv_hooks : unguarded limit (cn_hooks (tx t));
  inv_guard : guard_sane (tx_guard t);
  inv_ended : tx_autocommit t = true ->
    is_Some (aborted t) /\ snapshot (db_of (tx t)) = base /\ stack (db_of (tx t)) = [] /\
    forgotten (fst (lt_conn (cn_live (tx t))));
}.

(** What the crate's own steps keep. *)
Definition conn_frame (c : Conn db) := (watch_of c, durable (db_of c), cn_hooks c).
Definition frame (t : txn) :=
  (conn_frame (tx t), tx_autocommit t, aborted t, tx_guard t, options t, max_bytes t).

Lemma conn_frame_always (c : Conn db) st ps k c' : execute c st ps = Ok (k, c') -> same conn_frame c c'.
Proof.
  intros (d & He & ->)%conn_execute_Ok. unfold same, conn_frame, watch_of. cbn.
  by rewrite run_watch, run_in_tx_silent, app_nil_r, (internal_durable _ _ _ _ _ He) by apply raised_in_tx.
Qed.

Lemma kept_on_conn {A} (m : conn_io (Conn db) Error A) : kept conn_frame m -> kept frame (on_conn m).
Proof.
  intros Hm t r t'. unfold on_conn. destruct (m (tx t)) as [r1 c] eqn:Hact. intros [= <- <-].
  apply Hm in Hact. unfold same, frame in *. cbn. by rewrite Hact.
Qed.

Lemma transform_write_grows (R : relation (LiveTx db)) `{!PreOrder R} now now2 stmt :
  (forall c now r ctx svc, current_or_new_tx_hlc (fst (lt_conn c)) (snd (lt_conn c)) now = (r, ctx, svc) ->
     R c (mkLive (lt_db c) (ctx, svc))) ->
  (forall c now t r svc, update_with_timestamp (snd (lt_conn c)) now t = (r, svc) ->
     R c (mkLive (lt_db c) (fst (lt_conn c), svc))) ->
  (forall c st ps k c', execute c st ps = Ok (k, c') -> R c c') ->
  grows R (transform_write now now2 stmt).
Proof.
  intros Hcur Hup Hex. kapply kept_bind; [|intros; kapply kept_bind; [kapply kept_read|intros; kapply kept_ret]].
  kapply kept_bind; [|intros s; kapply kept_bind; [kapply kept_read|intros t; kapply kept_bind; [|intros _; kapply kept_bind; [|intros; kapply kept_ret]]]].
  - kapply kept_map_err. intros c r c'. unfold select_current_hlc. destruct (prepare _ _); [|by intros [= <- <-]..].
    destruct (current_or_new_tx_hlc _ _ _) as [[r1 ctx] svc] eqn:Hc. intros [= <- <-]. by eapply Hcur.
  - kapply kept_map_err. intros c r c'. unfold on_hlc. destruct (update_with_timestamp _ _ _) as [r1 svc] eqn:Hu.
    intros [= <- <-]. by eapply Hup.
  - kapply kept_map_err. kapply kept_exec. intros c a c' (c1 & Hp & [= <- <-])%bind_Ok. unfold persist_timestamp in Hp.
    apply map_err_Ok, bind_Ok in Hp as ([n c2] & He & [= <-]). by eapply Hex.
Qed.

Definition live_frame (c : LiveTx db) := (durable (lt_db c), watch (fst (lt_conn c))).

Lemma transform_write_keeps now now2 stmt : kept live_frame (transform_write now now2 stmt).
Proof.
  apply (transform_write_grows _); unfold same, live_frame.
  - intros c n r ctx svc Hc. cbn. by apply current_or_new_watch in Hc as [-> _].
  - done.
  - intros c st ps k c' He. cbn in He. apply bind_Ok in He as ([n d] & He & [= <- <-]). cbn.
    by rewrite run_watch, (internal_durable _ _ _ _ _ He).
Qed.

Lemma kept_on_live {A} (m : conn_io (LiveTx db) DatabaseError A) :
  kept live_frame m -> kept frame (on_live m).
Proof.
  intros Hm t r t'. unfold on_live. destruct (m (cn_live (tx t))) as [r1 l] eqn:Hact. intros [= <- <-].
  apply Hm in Hact. unfold same, frame, conn_frame, live_frame, watch_of, db_of in *. cbn.
  by apply pair_equal_spec in Hact as [-> ->].
Qed.

Lemma kept_charge params : kept frame (charge params).
Proof.
  intros t r t'. unfold charge. destruct (serialized_parameter_bytes params); [|by intros [= <- <-]..].
  destruct (_ <? _); by intros [= <- <-].
Qed.

(** Preparing a statement charges it and stamps it, and does nothing else. *)
Lemma prepare_statement_grows (R : relation txn) `{!PreOrder R} nows sql params :
  grows R (charge params) ->
  (forall now now2 stmt, grows R (on_live (transform_write (db := db) now now2 stmt))) ->
  grows R (prepare_statement nows sql params).
Proof.
  intros Hch Htr. assert (forall A now now2 stmt (k : Transformed -> A),
    grows R (io_bind (on_live (transform_write (db := db) now now2 stmt)) (fun w => io_ret (E := Error) (k w)))) as Htw.
  { intros. kapply kept_bind; [apply Htr | intros; kapply kept_ret]. }
  assert (forall stmt, grows R (prepare_write nows params stmt)) as Hpw.
  { intros stmt. kapply kept_bind; [exact Hch|]. intros _. kapply kept_bind; [kapply kept_read|]. intros [|]; [|apply Htw].
    kapply kept_bind; [kapply kept_read|]. intros _. kapply kept_bind; [kapply kept_read|]. intros loc.
    kapply kept_bind; [destruct loc; [kapply kept_read | kapply kept_ret]|]. intros [|]; [apply Htw | kapply kept_ret]. }
  kapply kept_bind; [kapply kept_read|]. intros stmt. destruct stmt; try apply Hpw. kapply kept_ret.
Qed.

Lemma prepare_statement_keeps nows sql params : kept frame (prepare_statement nows sql params).
Proof.
  kapply prepare_statement_grows; [apply kept_charge|]. intros. apply kept_on_live, transform_write_keeps.
Qed.

Lemma frame_inv base limit w t t' : frame t' = frame t -> tx_autocommit t = false -> tx_inv base limit w t ->
  tx_inv base limit w t' /\ tx_autocommit t' = false /\ aborted t' = aborted t /\ tx_guard t' = tx_guard t.
Proof.
  unfold frame, conn_frame. intros ([[[[[[Hv Hd]%pair_equal_spec Hh]%pair_equal_spec Ha]%pair_equal_spec
    Hb]%pair_equal_spec Hg]%pair_equal_spec _]%pair_equal_spec & _)%pair_equal_spec Hopen [Hw Hi1 Hi2 Hi3 Hi4].
  split; [split; [by rewrite Hv|by rewrite Hd|by rewrite Hh|by rewrite Hg|intros Hc; congruence]|]. split; [congruence|]. by split.
Qed.

(** A result that leaves the transaction ended only by failing. *)
Definition ended_well {T} (base : content) (result : res SqlError T) (t : txn) : Prop :=
  tx_autocommit t = true ->
  (exists code, result = Err (SqliteFailure code)) /\ snapshot (db_of (tx t)) = base /\ stack (db_of (tx t)) = [] /\
  forgotten (fst (lt_conn (cn_live (tx t)))).

Lemma finish_inv {T} base limit w sql (result : res SqlError T) interrupted t r t' :
  watch_of (tx t) = w -> durable (db_of (tx t)) = base -> unguarded limit (cn_hooks (tx t)) -> guard_sane (tx_guard t) ->
  ended_well base result t -> finish sql result interrupted t = (r, t') ->
  tx_inv base limit w t' /\ tx t' = tx t /\ tx_autocommit t' = tx_autocommit t /\ tx_guard t' = tx_guard t /\
  (is_ok r = true -> tx_autocommit t' = false).
Proof.
  intros Hw Hd Hu Hg He. unfold finish. destruct interrupted.
  - intros [= <- <-]. split; [|done]. split; [done..|]. intros Ha. destruct (He Ha) as (_ & Hs). by split.
  - destruct result as [a|e|m].
    + intros [= <- <-]. assert (tx_autocommit t = false) as Hc.
      { destruct (tx_autocommit t) eqn:Ha; [|done]. by destruct (He Ha) as ([? [=]] & _). }
      split; [|by repeat split]. split; [done..|congruence].
    + unfold note_rollback. destruct (aborted t) eqn:Hab; [|destruct (tx_autocommit t) eqn:Hac]; intros [= <- <-]; (split; [|done]);
        (split; [done..|]); intros Ha; [|by destruct (He Hac) as (_ & Hs)|congruence].
      destruct (He Ha) as (_ & Hs). split; [by rewrite Hab; eexists|done].
    + intros [= <- <-]. split; [|done]. split; [done..|]. intros Ha. by destruct (He Ha) as ([? [=]] & _).
Qed.

Lemma stepping_sound {T} (exec : hooks -> bool -> db -> outcome db T) h c result answers s :
  sound (db_of c) (exec h false (db_of c)) -> stepping exec h (c, false) = (result, answers, s) ->
  watch_of (fst s) = watch_of c /\ durable (db_of (fst s)) = durable (db_of c) /\
  (if snd s
   then (exists code, result = Err (SqliteFailure code)) /\ snapshot (db_of (fst s)) = durable (db_of c) /\
     stack (db_of (fst s)) = [] /\ forgotten (fst (lt_conn (cn_live (fst s))))
   else stack (db_of (fst s)) = stack (db_of c)).
Proof.
  intros (Hd & Ho & Ha) [= <- <- <-]. unfold db_of in *. destruct (run_orderly (lt_conn (cn_live c)) _ _ Ho) as [Hr Hf].
  split; [unfold watch_of; cbn; by rewrite Hr, run_watch, app_nil_r|]. split; [done|]. cbn.
  destruct (oc_autocommit _); [|done]. destruct Ha as (Hc & Hs & Hk). do 3 (split; [done|]). by apply Hf.
Qed.

(** After a statement the transaction is as sound as before, has not ended if
    the statement succeeded, and unless it has ended the same savepoints are open. *)
Definition after_statement {T} (base : content) (limit : Z) w (t : txn) (r : res Error T) (t' : txn) : Prop :=
  tx_inv base limit w t' /\ tx_guard t' = tx_guard t /\ (is_ok r = true -> tx_autocommit t' = false) /\
  (tx_autocommit t' = false -> stack (db_of (tx t')) = stack (db_of (tx t))).

Lemma run_plain_inv {T} base limit w sql (exec : hooks -> bool -> db -> outcome db T) t r t' :
  tx_inv base limit w t -> tx_autocommit t = false -> (forall h, sound (db_of (tx t)) (exec h false (db_of (tx t)))) ->
  run_plain sql exec t = (r, t') -> after_statement base limit w t r t'.
Proof.
  intros [Hw Hd Hu Hg _] Hopen Hs. unfold run_plain. rewrite Hopen.
  destruct (stepping exec (cn_hooks (tx t)) (tx t, false)) as [[result answers] s] eqn:Hst.
  destruct (stepping_sound _ _ _ _ _ _ (Hs _) Hst) as (Hw' & Hd' & Ha). intros Hf.
  destruct (finish_inv base limit w sql result false (set_stepped t (cn_hooks (tx t)) s) r t') as (Hi & Htx & Hac & Hgd & Hok); try done.
  - exact (eq_trans Hw' Hw).
  - exact (eq_trans Hd' Hd).
  - intros Hend. cbn in Hend. rewrite Hend in Ha. destruct Ha as (He & Hsn & Hst'). split; [done|].
    split; [exact (eq_trans Hsn Hd)|done].
  - split; [done|]. split; [done|]. split; [done|]. rewrite Hac. cbn. intros Hend. rewrite Hend in Ha. by rewrite Htx.
Qed.

Lemma run_window_inv {T} base limit w guard sql (exec : hooks -> bool -> db -> outcome db T) t r t' :
  tx_inv base limit w t -> tx_autocommit t = false -> tx_guard t = Some guard ->
  (forall h, sound (db_of (tx t)) (exec h false (db_of (tx t)))) ->
  run_window guard sql exec t = (r, t') -> after_statement base limit w t r t'.
Proof.
  intros [Hw Hd (Hu1 & Hu2 & Hu3) Hg Hen] Hopen Hguard Hs. unfold run_window. rewrite Hopen.
  destruct (run_guarded guard ScopeWrite (stepping exec) (cn_hooks (tx t)) (tx t, false)) as [[rg h] s] eqn:Hr.
  apply run_guarded_spec in Hr; [|by intros bytes; apply Hg]. destruct Hr as (Ha & Hp & Hl & Hr).
  assert (unguarded limit h) as Hu by (split; [done|split; [done|congruence]]).
  destruct Hr as [(e & -> & ->)|(hr & result & answers & Hst & _ & _ & _ & Hres)].
  - intros [= <- <-]. split; [|done]. split; try done.
  - destruct (stepping_sound _ _ _ _ _ _ (Hs _) Hst) as (Hw' & Hd' & Hac). cbn [fst snd] in *.
    assert (ended_well base result (set_stepped t h s)) as Hew.
    { intros Hend. cbn in Hend. rewrite Hend in Hac. destruct Hac as (He & Hsn & Hst'). split; [done|].
      split; [exact (eq_trans Hsn Hd)|done]. }
    assert (durable (db_of (tx (set_stepped t h s))) = base) as Hdb by exact (eq_trans Hd' Hd).
    assert (watch_of (tx (set_stepped t h s)) = w) as Hwb by exact (eq_trans Hw' Hw).
    assert (forall t2, tx t2 = tx (set_stepped t h s) -> tx_autocommit t2 = snd s ->
      tx_autocommit t2 = false -> stack (db_of (tx t2)) = stack (db_of (tx t))) as Hstk.
    { intros t2 -> -> Hend. rewrite Hend in Hac. exact Hac. }
    destruct result as [a|e|m]; subst rg.
    + intros (Hi & Htx & Hat & Hgd & Hok)%(finish_inv base limit w); try done. do 3 (split; [done|]). by apply Hstk.
    + intros (Hi & Htx & Hat & Hgd & Hok)%(finish_inv base limit w); try done. do 3 (split; [done|]). by apply Hstk.
    + intros [= <- <-]. split; [|split; [done|split; [done|by apply Hstk]]]. split; try done.
      intros Hend. by destruct (Hew Hend) as ([? [=]] & _).
Qed.

Lemma rollback_ended (c : Conn db) : stack (db_of c) = [] -> rollback c = c.
Proof.
  intros Hs. unfold rollback, batch, io_exec.
  destruct (execute c (RollbackRelease SAVEPOINT) []) as [[k c']| |] eqn:He; [|done..].
  apply conn_execute_Ok in He as (d & He & _). pose proof (no_savepoint _ SAVEPOINT Hs) as Hno. by rewrite He in Hno.
Qed.

Lemma rollback_inv base limit w t : tx_inv base limit w t ->
  tx_inv base limit w (set_conn t (rollback (tx t))).
Proof.
  intros [Hw Hd Hu Hg He]. pose proof (rollback_keeps (same conn_frame) conn_frame_always (tx t)) as Hk.
  unfold same, conn_frame in Hk. apply pair_equal_spec in Hk as [[Hk0 Hk1]%pair_equal_spec Hk2].
  split; [exact (eq_trans Hk0 Hw)|exact (eq_trans Hk1 Hd)|cbn; congruence|done|].
  cbn. intros Ha. destruct (He Ha) as (Hab & Hs & Hst & Hf). by rewrite rollback_ended.
Qed.

Lemma note_rollback_inv base limit w t : tx_inv base limit w t -> tx_inv base limit w (note_rollback t).
Proof.
  intros Hi. unfold note_rollback. destruct (aborted t) eqn:Ha; [done|]. destruct (tx_autocommit t) eqn:Hc; [|done].
  destruct Hi as [_ _ _ _ Hen]. destruct (Hen Hc) as ([? Hx] & _). congruence.
Qed.

Lemma kept_inv {A} (m : conn_io txn Error A) base limit w t r t' :
  kept frame m -> tx_inv base limit w t -> tx_autocommit t = false -> m t = (r, t') ->
  tx_inv base limit w t' /\ tx_autocommit t' = false /\ aborted t' = aborted t /\ tx_guard t' = tx_guard t.
Proof. intros Hm Hi Ho Hr. apply Hm in Hr. by apply (frame_inv base limit w t). Qed.

Lemma kept_begin change : kept frame (on_conn (begin_change (db := Conn db) change)).
Proof. apply kept_on_conn. kapply kept_begin_change. apply conn_frame_always. Qed.
Lemma kept_complete_tx change : kept frame (on_conn (complete (db := Conn db) change)).
Proof. apply kept_on_conn. kapply kept_complete. apply conn_frame_always. Qed.
Lemma kept_begin_copy : kept frame (on_conn (begin_verbatim_copy (db := Conn db))).
Proof. apply kept_on_conn. kapply kept_begin_verbatim. apply conn_frame_always. Qed.
Lemma kept_end_copy previous : kept frame (on_conn (end_verbatim_copy (db := Conn db) previous)).
Proof. apply kept_on_conn. kapply kept_end_verbatim. apply conn_frame_always. Qed.

(** An ended transaction lets no further step through. *)
Lemma open_autocommit base limit w t : tx_inv base limit w t -> aborted t = None -> tx_autocommit t = false.
Proof. intros [_ _ _ _ He] Ha. destruct (tx_autocommit t); [|done]. destruct He as ([? Hx] & _); [done|congruence]. Qed.

(** A statement, then a step of the crate's own that runs only when it
    succeeded. *)
Lemma window_then_inv {T} base limit w guard sql (exec : hooks -> bool -> db -> outcome db T) (m : conn_io txn Error unit) t r t' :
  tx_inv base limit w t -> tx_autocommit t = false -> tx_guard t = Some guard ->
  (forall h, sound (db_of (tx t)) (exec h false (db_of (tx t)))) -> kept frame m ->
  (value <- run_window guard sql exec ;; _c <- m ;; io_ret value)%io t = (r, t') -> tx_inv base limit w t'.
Proof.
  intros Hi Ho Hg Hs Hm. unfold io_bind at 1. destruct (run_window guard sql exec t) as [r1 t1] eqn:Hw.
  destruct (run_window_inv _ _ _ _ _ _ _ _ _ Hi Ho Hg Hs Hw) as (Hi1 & _ & Ho1 & _).
  destruct r1 as [v|e|msg]; [|by intros [= <- <-]..]. specialize (Ho1 eq_refl).
  unfold io_bind. destruct (m t1) as [r2 t2] eqn:Hr2. destruct (kept_inv _ _ _ _ _ _ _ Hm Hi1 Ho1 Hr2) as (Hi2 & _).
  destruct r2; by intros [= <- <-].
Qed.

(** The SQL a call prepares is no transaction control. *)
Definition calm (sql : string) : Prop :=
  forall nows params (t : txn) p t', prepare_statement nows sql params t = (Ok p, t') -> is_control (ps_sql p) = false.
Definition sound_exec {T} (exec : string -> hooks -> bool -> db -> outcome db T) : Prop :=
  forall sql h d, is_control sql = false -> sound d (exec sql h false d).

Lemma run_inv {T} base limit w nows sql params (exec : string -> hooks -> bool -> db -> outcome db T) t r t' :
  calm sql -> sound_exec exec -> tx_inv base limit w t -> run nows sql params exec t = (r, t') -> tx_inv base limit w t'.
Proof.
  intros Hcalm Hex Hi. unfold run. unfold io_bind at 1, ensure_open. destruct (aborted t) eqn:Hab; [by intros [= <- <-]|].
  pose proof (open_autocommit _ _ _ _ Hi Hab) as Ho. unfold io_bind at 1.
  destruct (prepare_statement nows sql params t) as [rp t1] eqn:Hp. specialize (Hcalm nows params t).
  destruct (kept_inv _ _ _ _ _ _ _ (prepare_statement_keeps nows sql params) Hi Ho Hp) as (Hi1 & Ho1 & _ & _).
  destruct rp as [p|e|m]; [|by intros [= <- <-]..]. specialize (Hcalm _ _ Hp).
  destruct (tx_guard t1) as [guard|] eqn:Hg.
  - destruct (ps_schema p) as [change|].
    + unfold io_bind at 1. destruct (on_conn (begin_change change) t1) as [rb t2] eqn:Hb.
      destruct (kept_inv _ _ _ _ _ _ _ (kept_begin change) Hi1 Ho1 Hb) as (Hi2 & Ho2 & _ & Hg2). rewrite Hg in Hg2.
      destruct rb as [[]|e|m]; [|by intros [= <- <-]..].
      cbv beta; lazymatch goal with |- (match ?m t2 with _ => _ end) = _ -> _ => destruct (m t2) as [r3 t3] eqn:H3 end.
      assert (tx_inv base limit w t3) as Hi3.
      { eapply (window_then_inv base limit w guard _ _ (on_conn (complete change)) t2);
          [done|done|done|intros h; by apply Hex|apply kept_complete_tx|exact H3]. }
      destruct r3; intros [= <- <-]; [done| |done]. by apply note_rollback_inv, rollback_inv.
    + intros Hr. eapply (run_window_inv base limit w guard); [exact Hi1|done|done| |exact Hr]. intros h. by apply Hex.
  - intros Hr. eapply (run_plain_inv base limit w); [exact Hi1|done| |exact Hr]. intros h. by apply Hex.
Qed.

(** The copy has no schema of its own to prepare; its text is printed. *)
Definition calm_copy (sql : string) : Prop :=
  forall (t : txn) stmt stmt', parse_crdt_write sql = Ok stmt -> rewrite_rebuild_copy (tx t) stmt = Ok stmt' ->
    is_control (strip_main_schema_prefix (statement_to_string stmt')) = false.

Lemma copy_inv base limit w sql params t r t' :
  calm_copy sql -> tx_inv base limit w t -> copy_rows_verbatim sql params t = (r, t') -> tx_inv base limit w t'.
Proof.
  intros Hcalm Hi. unfold copy_rows_verbatim. unfold io_bind at 1, ensure_open.
  destruct (aborted t) eqn:Hab; [by intros [= <- <-]|]. pose proof (open_autocommit _ _ _ _ Hi Hab) as Ho.
  destruct (tx_guard t) as [guard|] eqn:Hg; [|by intros [= <- <-]]. destruct (schema_mode (options t)); [|by intros [= <- <-]].
  unfold io_bind at 1, io_read at 1. destruct (parse_crdt_write sql) as [stmt| |] eqn:Hp; cbn [map_err]; [|by intros [= <- <-]..].
  unfold io_bind at 1, io_read at 1. destruct (rewrite_rebuild_copy (tx t) stmt) as [stmt'| |] eqn:Hrw; [|by intros [= <- <-]..].
  unfold io_bind at 1. destruct (charge params t) as [rc t1] eqn:Hc.
  destruct (kept_inv _ _ _ _ _ _ _ (kept_charge params) Hi Ho Hc) as (Hi1 & Ho1 & _ & Hg1).
  destruct rc as [[]| |]; [|by intros [= <- <-]..]. unfold io_bind at 1.
  destruct (on_conn begin_verbatim_copy t1) as [rb t2] eqn:Hb.
  destruct (kept_inv _ _ _ _ _ _ _ kept_begin_copy Hi1 Ho1 Hb) as (Hi2 & Ho2 & _ & Hg2).
  destruct rb as [previous| |]; [|by intros [= <- <-]..]. unfold or_schema_rollback.
  cbv beta; lazymatch goal with |- (match ?m t2 with _ => _ end) = _ -> _ => destruct (m t2) as [r3 t3] eqn:H3 end.
  assert (tx_inv base limit w t3) as Hi3.
  { eapply (window_then_inv base limit w guard _ _ (on_conn (end_verbatim_copy previous)) t2);
      [done|done|congruence| |apply kept_end_copy|exact H3]. intros h. apply sound_execute. by eapply Hcalm. }
  destruct r3; intros [= <- <-]; [done| |done]. by apply rollback_inv.
Qed.

(** A closure whose statements are no transaction control. *)
Fixpoint calm_closure {R T} (f : closure R T) : Prop :=
  match f with
  | Done _ => True
  | Execute _ sql _ k => calm sql /\ forall r, calm_closure (k r)
  | QueryColumns _ sql _ _ k => calm sql /\ forall r, calm_closure (k r)
  | QueryRow _ sql _ _ k => calm sql /\ forall r, calm_closure (k r)
  | CopyRows sql _ k => calm_copy sql /\ forall r, calm_closure (k r)
  | LastRowid k => forall r, calm_closure (k r)
  end.

Lemma sound_query_rows {T} params (f : list SqlValue -> res SqlError T) :
  sound_exec (fun sql => query_rows sql params f).
Proof.
  intros sql h d Hc. unfold query_rows. destruct (st_columns sql h d); [|by split..].
  destruct (sound_rows T sql params f h d Hc) as (Hd & Ho & Ha). split; [done|]. split; [done|]. cbn.
  destruct (oc_autocommit _); [|done]. destruct Ha as ((e & ->) & Hs). split; [by exists e|done].
Qed.

Lemma sound_query_row {T} params (f : list SqlValue -> res SqlError T) :
  sound_exec (fun sql h a d => map_outcome optional (st_row T sql params f h a d)).
Proof.
  intros sql h d Hc. destruct (sound_row T sql params f h d Hc) as (Hd & Ho & Ha). split; [done|]. split; [done|]. cbn.
  destruct (oc_autocommit _); [|done]. destruct Ha as ((e & ->) & Hs). split; [by exists e|done].
Qed.
Lemma run_closure_inv {R T} base limit w (f : closure R T) t r t' :
  calm_closure f -> tx_inv base limit w t -> run_closure f t = (r, t') -> tx_inv base limit w t'.
Proof.
  revert t. induction f as [r0|nows sql params k IH|nows sql params g k IH|nows sql params g k IH|sql params k IH|k IH];
    intros t; cbn [calm_closure run_closure].
  - by intros _ Hi [= <- <-].
  - intros [Hc Hk] Hi. destruct (execute_call nows sql params t) as [r1 t1] eqn:Hr. apply IH; [done|].
    eapply run_inv; [exact Hc| |exact Hi|exact Hr]. intros s h d. apply sound_execute.
  - intros [Hc Hk] Hi. destruct (query_with_columns nows sql params g t) as [r1 t1] eqn:Hr. apply IH; [done|].
    exact (run_inv base limit w nows sql params (fun sql => query_rows sql params g) t r1 t1 Hc
             (sound_query_rows params g) Hi Hr).
  - intros [Hc Hk] Hi. destruct (query_row_call nows sql params g t) as [r1 t1] eqn:Hr. apply IH; [done|].
    exact (run_inv base limit w nows sql params _ t r1 t1 Hc (sound_query_row params g) Hi Hr).
  - intros [Hc Hk] Hi. destruct (copy_rows_verbatim sql params t) as [r1 t1] eqn:Hr. apply IH; [done|].
    by eapply copy_inv.
  - intros Hk Hi. by apply IH.
Qed.

Lemma before_commit_cases opts (t : txn) r t' : before_commit opts t = (r, t') ->
  t' = t /\ match r with
            | Ok _ => aborted t = None /\ (schema_mode opts = true -> foreign_key_check (tx t) = Ok tt)
            | _ => True
            end.
Proof.
  unfold before_commit, io_bind, ensure_open. destruct (aborted t); [by intros [= <- <-]|].
  destruct (schema_mode opts); [|by intros [= <- <-]]. unfold io_read.
  destruct (foreign_key_check (tx t)) as [[]| |]; by intros [= <- <-].
Qed.

Lemma begin_inv max guard opts (conn : Conn db) :
  begin_immediate conn = Ok tt -> guard_sane guard -> h_authorizer (cn_hooks conn) = None ->
  h_progress (cn_hooks conn) = None ->
  tx_inv (snapshot (db_of conn)) (h_limit (cn_hooks conn)) (watch_of conn) (begin_tx conn max guard opts).
Proof. intros Hb Hg Ha Hp. destruct (begins_outside (db_of conn) Hb) as [_ Hd]. by split. Qed.

Lemma drop_restores base limit w (conn : Conn db) t :
  tx_inv base limit w t -> base = snapshot (db_of conn) ->
  snapshot (db_of (drop_tx conn t)) = snapshot (db_of conn) /\ unguarded limit (cn_hooks (drop_tx conn t)).
Proof.
  intros [_ _ Hu _ He] ->. unfold drop_tx. destruct (tx_autocommit t); [|done]. by destruct (He eq_refl) as (_ & Hs & _).
Qed.
End invariant.

(** The closure returned [Ok] and the checks before the commit passed. *)
Definition commit_tried {U : Uhlc} {K : ConnHooks} {db} `{Rusqlite db} `{!LiveDb db} {R} (opts : GuardedWriteOptions)
    (rc : res Error R) (t : CrdtTransaction db) : bool :=
  is_ok rc && is_ok (fst (before_commit opts t)).

(** The ways a write ends: no transaction was begun; the closure's transaction
    was committed; or it was dropped, after a commit that failed or without one. *)
Lemma run_write_cases `{Unicode} {U : Uhlc} `{SqlParser} {db} `{HL : LiveDb db} {K : ConnHooks} `{!HookLaws}
    `{!Statements db} `{!SavepointLaws db} `{HT : !TxLaws db} {R T}
    max guard opts (f : closure R T) (conn : Conn db) r conn' :
  guard_sane guard -> h_authorizer (cn_hooks conn) = None -> h_progress (cn_hooks conn) = None ->
  calm_closure f -> run_write max guard opts f conn = (r, conn') ->
  (is_ok (begin_immediate conn) = false /\ is_ok r = false /\ conn' = conn) \/
  is_ok (begin_immediate conn) = true /\
  exists rc t, run_closure f (begin_tx conn max guard opts) = (rc, t) /\
    tx_inv (snapshot (db_of conn)) (h_limit (cn_hooks conn)) (watch_of conn) t /\
    match r with
    | Ok value => rc = Ok value /\ aborted t = None /\ tx_autocommit t = false /\
        (schema_mode opts = true -> foreign_key_check (tx t) = Ok tt) /\ commit (tx t) = Ok tt /\
        conn' = committed (tx t)
    | Err _ => conn' = drop_tx conn t /\ commit_tried opts rc t = false \/
        conn' = drop_tx conn (uncommitted t) /\ commit_tried opts rc t = true /\ tx_autocommit t = false
    | Panic _ => conn' = drop_tx conn t
    end.
Proof.
  intros Hg Ha Hp Hc. unfold run_write. destruct (begin_immediate conn) as [[]| |] eqn:Hb; [|by intros [= <- <-]; left..].
  pose proof (begin_inv max guard opts conn Hb Hg Ha Hp) as Hi.
  unfold io_bind at 1. destruct (run_closure f (begin_tx conn max guard opts)) as [rc t] eqn:Hr.
  pose proof (run_closure_inv _ _ _ _ _ _ _ Hc Hi Hr) as Hi'. intros Hend. right. split; [done|]. exists rc, t.
  split; [done|]. split; [done|]. revert Hend. unfold commit_tried.
  destruct rc as [value| |]; [|intros [= <- <-]; by try left..].
  unfold io_bind. destruct (before_commit opts t) as [rk tk] eqn:Hk.
  apply before_commit_cases in Hk as [-> Hk]. destruct rk as [[]| |]; [|intros [= <- <-]; by try left..].
  destruct Hk as [Hab Hfk]. pose proof (open_autocommit _ _ _ _ Hi' Hab) as Ho.
  unfold io_ret, commit_tx. rewrite Ho. destruct (commit (tx t)) as [[]| |] eqn:Hcm; intros [= <- <-]; [done|by right|done].
Qed.

Lemma committed_keeps {U : Uhlc} {K : ConnHooks} {db} (c : Conn db) :
  cn_hooks (committed c) = cn_hooks c /\ db_of (committed c) = db_of c.
Proof. unfold committed. by destruct (commit_hook _). Qed.

Lemma uncommitted_inv `{Unicode} {U : Uhlc} `{SqlParser} {db} `{HL : LiveDb db} {K : ConnHooks} `{!HookLaws}
    `{!Statements db} `{!SavepointLaws db} `{HT : !TxLaws db} base limit w (t : CrdtTransaction db) :
  tx_inv base limit w t -> tx_autocommit t = false -> exists w', tx_inv base limit w' (uncommitted t).
Proof.
  intros Hi Ho. unfold uncommitted. destruct (commit_fails_late _); [|by exists w]. destruct Hi as [Hw Hd Hu Hg _].
  destruct (committed_keeps (tx t)) as [Hh Hdb]. eexists.
  split; [reflexivity|change (durable (db_of (committed (tx t))) = base); by rewrite Hdb
    |change (unguarded limit (cn_hooks (committed (tx t)))); by rewrite Hh|done|cbn; congruence].
Qed.

Lemma run_write_spec `{Unicode} {U : Uhlc} `{SqlParser} {db} `{HL : LiveDb db} {K : ConnHooks} `{!HookLaws}
    `{!Statements db} `{!SavepointLaws db} `{HT : !TxLaws db} {R T}
    max guard opts (f : closure R T) (conn : Conn db) r conn' :
  guard_sane guard -> h_authorizer (cn_hooks conn) = None -> h_progress (cn_hooks conn) = None ->
  calm_closure f -> run_write max guard opts f conn = (r, conn') ->
  unguarded (h_limit (cn_hooks conn)) (cn_hooks conn') /\
  match r with
  | Ok value => exists t, run_closure f (begin_tx conn max guard opts) = (Ok value, t) /\ aborted t = None /\
      (schema_mode opts = true -> foreign_key_check (tx t) = Ok tt) /\ commit (tx t) = Ok tt /\
      db_of conn' = db_of (tx t)
  | _ => snapshot (db_of conn') = snapshot (db_of conn)
  end.
Proof.
  intros Hg Ha Hp Hc Hr. destruct (run_write_cases _ _ _ _ _ _ _ Hg Ha Hp Hc Hr) as [(_ & Hno & ->)|(_ & rc & t & Ht & Hi & Hend)].
  { split; [done|]. by destruct r. }
  destruct (drop_restores _ _ _ conn t Hi eq_refl) as [Hds Hdu]. destruct r as [value|e|m]; [| |by subst conn'].
  2: { destruct Hend as [[-> _]|(-> & _ & Ho)]; [done|].
       destruct (uncommitted_inv _ _ _ t Hi Ho) as (w' & Hi'). by destruct (drop_restores _ _ _ conn _ Hi' eq_refl). }
  destruct Hend as (-> & Hab & _ & Hfk & Hcm & ->). destruct (committed_keeps (tx t)) as [-> ->].
  split; [apply Hi|]. by exists t.
Qed.

(** C14: a write is all or nothing, whatever its closure does: for a closure that
    makes any calls with any SQL but transaction control, and carries on or not
    after any error, the database holds what it held before unless the write
    returns [Ok]; it returns [Ok] only when the closure did, the transaction was
    neither interrupted nor rolled back by SQLite, the foreign key check of a
    migration passed and the commit succeeded, and then the database is the one
    the closure left. In every case, panics included, no authorizer or progress
    callback is left on the connection and its value limit is what it was. *)
Theorem write_all_or_nothing `{Unicode} {U : Uhlc} `{SqlParser} {db} `{HL : LiveDb db} {K : ConnHooks} `{!HookLaws}
    `{!Statements db} `{!SavepointLaws db} `{HT : !TxLaws db} {R T}
    max guard opts (f : closure R T) (conn : Conn db) r conn' :
  guard_sane guard -> h_authorizer (cn_hooks conn) = None -> h_progress (cn_hooks conn) = None ->
  calm_closure f -> run_write max guard opts f conn = (r, conn') ->
  unguarded (h_limit (cn_hooks conn)) (cn_hooks conn') /\
  match r with
  | Ok value => exists t, run_closure f (begin_tx conn max guard opts) = (Ok value, t) /\ aborted t = None /\
      (schema_mode opts = true -> foreign_key_check (tx t) = Ok tt) /\ commit (tx t) = Ok tt /\
      db_of conn' = db_of (tx t)
  | _ => snapshot (db_of conn') = snapshot (db_of conn)
  end.
Proof. apply run_write_spec. Qed.

(** ** A connection for the witnesses

    Statements know four texts: an INSERT, a statement SQLite gives up on - it
    rolls the transaction back -, a COMMIT, and a query for everything else. *)

#[local] Existing Instance mini_uhlc.
#[local] Existing Instance mini_hooks.
#[local] Instance mini_sql_write : SqlParser :=
  mini_sql [("insert", [mini_note "a"]); ("abort", [StDelete (mkDelete false [] [] None None none)]);
            ("commit", [StOther "commit"]); ("alter", [StAlterTable (mkAlterTable (ident_name "items") [] none)])].

Definition sp_insert (d : Sp) : Sp :=
  mkSp (sp_base d) (set_config (sp_mem d) "row" "inserted") (sp_stack d) (sp_flags d).

Definition sp_step (sql : string) (autocommit : bool) (d : Sp) : outcome Sp nat :=
  if String.eqb sql "INSERT"
  then let d' := sp_insert d in
       mkOutcome (Ok 1%nat) [] (if autocommit then mkSp (sp_mem d') (sp_mem d') [] (sp_flags d') else d') [EvWrite "notes"] autocommit
  else if String.eqb sql "DELETE"
  then mkOutcome (Err (SqliteFailure 13)) [] (mkSp (sp_base d) (sp_base d) [] (sp_flags d)) [EvRollback] true
  else if String.eqb sql "OTHER"
  then mkOutcome (Ok 0%nat) [] (mkSp (sp_mem d) (sp_mem d) [] (sp_flags d)) [EvCommit] true
  else mkOutcome (Ok 0%nat) [] d [] autocommit.

(** The authorizer is asked about a write. *)
Definition sp_allowed (h : hooks) : bool :=
  match h_authorizer h with
  | Some a => match a (mkAuthContext (ActOther "write") none) with Deny => false | _ => true end
  | None => true
  end.
Definition sp_judged (sql : string) (h : hooks) (autocommit : bool) (d : Sp) : outcome Sp nat :=
  if sp_allowed h || negb (existsb (String.eqb sql) ["INSERT"; "DELETE"; "OTHER"]) then sp_step sql autocommit d
  else mkOutcome (Err (SqliteFailure SQLITE_AUTH)) [] d [] autocommit.

#[export] Instance sp_live : LiveDb Sp := {
  raised c st ps := match st with ConfigUpsertHlc => [EvWrite TABLE_CRDT_CONFIGS] | _ => [] end;
  commit_fails_late d := false;
  udf_error e := OtherSqlError "user function error";
}.
#[export] Instance sp_statements : Statements Sp := {
  st_execute sql ps h a d := sp_judged sql h a d;
  st_columns sql h d := Ok [];
  st_rows T sql ps f h a d := map_outcome (fun r => _ ← r; Ok []) (sp_judged sql h a d);
  st_row T sql ps f h a d := map_outcome (fun r => _ ← r; Err QueryReturnedNoRows) (sp_judged sql h a d);
  st_last_insert_rowid d := 1;
  st_query_only b h d :=
    if sp_allowed h then (None, mkSp (sp_base d) (sp_mem d) (sp_stack d) (b, snd (sp_flags d)), [])
    else (Some (SqliteFailure SQLITE_AUTH), d, []);
}.

Lemma sp_judged_sound sql h d : String.eqb sql "OTHER" = false ->
  let o := sp_judged sql h false d in
  sp_base (oc_db o) = sp_base d /\ orderly (oc_autocommit o) (oc_events o) /\
  (if oc_autocommit o
   then oc_result o = Err (SqliteFailure 13) /\ sp_mem (oc_db o) = sp_base d /\ sp_stack (oc_db o) = []
   else sp_stack (oc_db o) = sp_stack d).
Proof.
  intros Ho. unfold sp_judged. destruct (_ || _); [|done]. unfold sp_step.
  destruct (String.eqb sql "INSERT"); [done|].
  destruct (String.eqb sql "DELETE"); [split; [done|]; split; [by exists []|done]|]. by rewrite Ho.
Qed.

#[export] Instance sp_tx_laws : TxLaws Sp.
Proof.
  refine {| durable := (sp_base : Sp -> content); is_control sql := String.eqb sql "OTHER" |}.
  - intros d. cbn. destruct (bool_decide _) eqn:Hb; [|done]. destruct (bool_decide (length _ = _)) eqn:Hs; [|done].
    intros _. apply bool_decide_eq_true in Hb, Hs. by destruct (sp_stack d).
  - intros d st ps k d'. cbn. unfold sp_execute.
    destruct st; try (intros [= <- <-]; done); try (intros ([n m] & _ & [= <- <-])%bind_Ok; done).
    destruct (sp_stack d) as [|[n v] rest]; by intros [= <- <-].
  - by intros d [] ps.
  - intros d n. cbn. by intros ->.
  - intros sql ps h d Ho. destruct (sp_judged_sound sql h d Ho) as (Hd & Hev & Ha). split; [done|]. split; [done|]. cbn.
    destruct (oc_autocommit _); [|done]. destruct Ha as [Hr Hs]. by split; [exists 13|].
  - intros T sql ps f h d Ho. destruct (sp_judged_sound sql h d Ho) as (Hd & Hev & Ha). split; [done|]. split; [done|]. cbn.
    destruct (oc_autocommit _); [|done]. destruct Ha as [Hr Hs]. by split; [exists 13; rewrite Hr|].
  - intros T sql ps f h d Ho. destruct (sp_judged_sound sql h d Ho) as (Hd & Hev & Ha). split; [done|]. split; [done|]. cbn.
    destruct (oc_autocommit _); [|done]. destruct Ha as [Hr Hs]. by split; [exists 13; rewrite Hr|].
Defined.

(** The text a call runs: the query as written, or the printed statement,
    transformed or - in local mode - not. *)
Lemma prepared_text `{Unicode} {U : Uhlc} `{SqlParser} {db} `{HL : LiveDb db} {K : ConnHooks}
    nows sql params (t : CrdtTransaction db) p t' :
  prepare_statement nows sql params t = (Ok p, t') ->
  exists stmt, parse_crdt_write sql = Ok stmt /\
    ((exists q, stmt = StQuery q /\ ps_sql p = sql) \/
     ps_sql p = strip_main_schema_prefix (statement_to_string stmt) \/
     exists ts stmt' changed, transform_execute_statement stmt ts = Ok (stmt', changed) /\
       ps_sql p = strip_main_schema_prefix (statement_to_string stmt')).
Proof.
  unfold prepare_statement. intros (stmt & t1 & (Hp%map_err_Ok & ->)%io_read_Ok & Hr)%io_bind_Ok. exists stmt. split; [done|].
  assert (prepare_write nows params stmt t = (Ok p, t') ->
    ps_sql p = strip_main_schema_prefix (statement_to_string stmt) \/
    exists ts stmt' changed, transform_execute_statement stmt ts = Ok (stmt', changed) /\
       ps_sql p = strip_main_schema_prefix (statement_to_string stmt')) as Hw.
  { clear Hr. unfold prepare_write. intros ([] & t2 & _ & Hr)%io_bind_Ok.
    apply io_bind_Ok in Hr as (g & t3 & _ & Hr).
    assert (forall (k : Transformed -> PreparedStatement) (u u' : CrdtTransaction db), (forall w, ps_sql (k w) = tw_sql w) ->
      (w <- on_live (transform_write (fst nows) (snd nows) stmt) ;; io_ret (k w))%io u = (Ok p, u') ->
      exists ts stmt' changed, transform_execute_statement stmt ts = Ok (stmt', changed) /\
       ps_sql p = strip_main_schema_prefix (statement_to_string stmt')) as Htw.
    { intros k u u' Hk (w & u1 & Hw & [= <- <-])%io_bind_Ok. unfold on_live in Hw.
      destruct (transform_write _ _ _ _) as [rw l] eqn:Htw. injection Hw as Hw%map_err_Ok <-. subst rw.
      apply transform_write_Ok in Htw as (_ & Hx & Hs). rewrite Hk. eauto. }
    destruct g; [|right; by eapply Htw, Hr].
    apply io_bind_Ok in Hr as ([] & t4 & _ & Hr). apply io_bind_Ok in Hr as (loc & t5 & _ & Hr).
    apply io_bind_Ok in Hr as (tr & t6 & _ & Hr). destruct tr; [right; by eapply Htw, Hr | left; by injection Hr as <- <-]. }
  destruct stmt; try (right; by apply Hw). left. injection Hr as <- <-. by eexists.
Qed.

Definition mini_conn : Conn Sp := mkConn mini_plain_hooks (mkLive sp_start (ConnectionContext_new, mini_svc)) [].

(** The closure that ignores the failure of its second statement. *)
Definition mini_careless : closure unit unit :=
  Execute (20, 20) "insert" [] (fun _ => Execute (21, 21) "abort" [] (fun _ => Execute (22, 22) "insert" [] (fun _ => Done (Ok tt)))).

Lemma mini_calm_insert : calm (db := Sp) "insert".
Proof.
  intros nows params t p t' (stmt & Hp & Hc)%prepared_text. injection Hp as <-.
  destruct Hc as [(q & [=] & _)|[->|(ts & stmt' & ch & Ht & ->)]]; [done|]. by injection Ht as <- <-.
Qed.
Lemma mini_calm_abort : calm (db := Sp) "abort".
Proof.
  intros nows params t p t' (stmt & Hp & Hc)%prepared_text. injection Hp as <-.
  destruct Hc as [(q & [=] & _)|[->|(ts & stmt' & ch & Ht & ->)]]; [done|]. by injection Ht as <- <-.
Qed.

Abbreviation mini_write f := (run_write (db := Sp) 1000 None GuardedWriteOptions_default f mini_conn).

Lemma write_all_or_nothing_witness :
  fst (mini_write mini_careless) = Err (Database (TransactionAborted "SQLite rolled the transaction back")) /\
  sp_mem (db_of (snd (mini_write mini_careless))) = mini_mem [].
Proof.
  split; [vm_compute; reflexivity|].
  exact (proj2 (write_all_or_nothing 1000 None GuardedWriteOptions_default mini_careless mini_conn
    (Err (Database (TransactionAborted "SQLite rolled the transaction back"))) (snd (mini_write mini_careless))
    ltac:(by intros g b [=]) eq_refl eq_refl
    (conj mini_calm_insert (fun _ => conj mini_calm_abort (fun _ => conj mini_calm_insert (fun _ => I))))
    ltac:(apply pair_result; vm_compute; reflexivity))).
Defined.

(** A COMMIT inside the closure is not refused: the write after it reaches the
    disk although the closure fails, which the documentation says writes nothing. *)
Lemma write_commit_escapes :
  let f : closure unit unit := Execute (20, 20) "insert" [] (fun _ => Execute (21, 21) "commit" [] (fun _ => Done (Err (Consumer "changed my mind")))) in
  fst (mini_write f) = Err (Consumer "changed my mind") /\
  m_config (sp_mem (db_of mini_conn)) !! "row" = None /\
  m_config (sp_mem (db_of (snd (mini_write f)))) !! "row" = Some "inserted".
Proof. vm_compute. done. Qed.

(** A failure while the statement is prepared, stamping included, never marks
    the transaction aborted. *)
Lemma prepare_never_aborts `{Unicode} {U : Uhlc} `{SqlParser} {db} `{HL : LiveDb db} {K : ConnHooks} `{!HookLaws}
    `{!Statements db} `{!SavepointLaws db} `{HT : !TxLaws db} nows sql params (t : CrdtTransaction db) r t' :
  prepare_statement nows sql params t = (r, t') -> aborted t' = aborted t.
Proof. intros Hr%prepare_statement_keeps. by injection Hr. Qed.

(** ** An aborted transaction *)

Section aborted.
Context `{Unicode} {U : Uhlc} `{SqlParser} {db : Type} `{HL : LiveDb db} {K : ConnHooks} `{!Statements db}.

Lemma call_refused {A} (m : conn_io (CrdtTransaction db) Error A) t reason :
  aborted t = Some reason ->
  (_o <- ensure_open ;; m)%io t = (Err (Database (TransactionAborted reason)), t).
Proof. intros Ha. unfold io_bind, ensure_open. by rewrite Ha. Qed.

Lemma run_refused {T} nows sql params (exec : string -> hooks -> bool -> db -> outcome db T) t reason :
  aborted t = Some reason -> run nows sql params exec t = (Err (Database (TransactionAborted reason)), t).
Proof. intros Ha. unfold run, io_bind, ensure_open. by rewrite Ha. Qed.

Lemma copy_refused sql params (t : CrdtTransaction db) reason :
  aborted t = Some reason -> copy_rows_verbatim sql params t = (Err (Database (TransactionAborted reason)), t).
Proof. intros Ha. unfold copy_rows_verbatim, io_bind, ensure_open. by rewrite Ha. Qed.

Lemma closure_refused {R T} (f : closure R T) (t : CrdtTransaction db) reason :
  aborted t = Some reason -> snd (run_closure f t) = t.
Proof.
  intros Ha. induction f as [r0|nows sql params k IH|nows sql params g k IH|nows sql params g k IH|sql params k IH|k IH];
    cbn [run_closure]; [done| | | | |apply IH].
  - unfold execute_call. rewrite (run_refused _ _ _ _ _ _ Ha). apply IH.
  - unfold query_with_columns. rewrite (run_refused _ _ _ _ _ _ Ha). apply IH.
  - unfold query_row_call. rewrite (run_refused _ _ _ _ _ _ Ha). apply IH.
  - rewrite (copy_refused _ _ _ _ Ha). apply IH.
Qed.
End aborted.


(** ** Schema changes *)

Section schema.
Context `{Unicode} {U : Uhlc} `{SqlParser} {db : Type} `{HL : LiveDb db} {K : ConnHooks} `{!HookLaws}
  `{!Statements db} `{!SavepointLaws db} `{HT : !TxLaws db}.

Abbreviation txn := (CrdtTransaction db).

(** With the crate's savepoint on top, a rollback to it gives back what it
    saved. *)
Lemma rollback_reopens (t : txn) v rest : stack (db_of (tx t)) = (SAVEPOINT, v) :: rest ->
  snapshot (db_of (rollback (tx t))) = v /\ stack (db_of (rollback (tx t))) = rest.
Proof. intros Hs. exact (rollback_spec (db := Conn db) (tx t) v rest Hs). Qed.

Lemma on_conn_eq {A} (m : conn_io (Conn db) Error A) t r t' :
  on_conn m t = (r, t') -> exists c, m (tx t) = (r, c) /\ t' = set_conn t c.
Proof. unfold on_conn. destruct (m (tx t)) as [r1 c]. intros [= <- <-]. by exists c. Qed.

(** A guarded statement between opening and closing the savepoint: on success
    the savepoint is closed, on an error it is open or the transaction ended. *)
Lemma window_between {T} base limit w guard sql (exec : hooks -> bool -> db -> outcome db T) (m : conn_io (Conn db) Error unit)
    t r t' v rest :
  tx_inv base limit w t -> tx_autocommit t = false -> tx_guard t = Some guard ->
  (forall h, sound (db_of (tx t)) (exec h false (db_of (tx t)))) ->
  (forall c r1 c1, m c = (r1, c1) -> closed c r1 c1) -> kept conn_frame m ->
  stack (db_of (tx t)) = (SAVEPOINT, v) :: rest ->
  (value <- run_window guard sql exec ;; _c <- on_conn m ;; io_ret value)%io t = (r, t') ->
  match r with
  | Ok _ => stack (db_of (tx t')) = rest /\ tx_autocommit t' = false
  | Err _ => tx_autocommit t' = false -> stack (db_of (tx t')) = (SAVEPOINT, v) :: rest
  | Panic _ => True
  end.
Proof.
  intros Hi Ho Hg Hs Hm Hmk Hst. unfold io_bind at 1. destruct (run_window guard sql exec t) as [r1 t1] eqn:Hw.
  destruct (run_window_inv _ _ _ _ _ _ _ _ _ Hi Ho Hg Hs Hw) as (Hi1 & _ & Ho1 & Hk1).
  destruct r1 as [a|e|msg]; [|intros [= <- <-] Hac; by rewrite Hk1|by intros [= <- <-]]. specialize (Ho1 eq_refl).
  unfold io_bind. destruct (on_conn m t1) as [r2 t2] eqn:Hr2.
  pose proof (kept_on_conn _ Hmk _ _ _ Hr2) as Hf. apply on_conn_eq in Hr2 as (c & Hr2 & ->). apply Hm in Hr2.
  injection Hf as _ _. unfold closed in Hr2. cbn in Hr2. rewrite Hk1, Hst in Hr2 by done.
  destruct r2 as [[]| |]; intros [= <- <-]; cbn; [by split | by intros _ | done].
Qed.
End schema.

(** C23: a schema change and its triggers are one step: when a guarded statement
    that creates or alters a synced table succeeds, the savepoint around it and the
    recreation of the triggers is closed again; when the statement, or dropping or
    recreating the triggers, fails and SQLite has not ended the transaction, the
    database - schema, triggers and rows - is exactly what it was when the
    statement had been prepared, with the same savepoints open. *)
Theorem schema_change_atomic `{Unicode} {U : Uhlc} `{SqlParser} {db} `{HL : LiveDb db} {K : ConnHooks} `{!HookLaws}
    `{!Statements db} `{!SavepointLaws db} `{HT : !TxLaws db} {T} base limit w nows sql params
    (exec : string -> hooks -> bool -> db -> outcome db T) (t t1 t' : CrdtTransaction db) guard p change r :
  tx_inv base limit w t -> aborted t = None -> sound_exec exec ->
  prepare_statement nows sql params t = (Ok p, t1) -> is_control (ps_sql p) = false ->
  tx_guard t = Some guard -> ps_schema p = Some change -> run nows sql params exec t = (r, t') ->
  match r with
  | Ok _ => stack (db_of (tx t')) = stack (db_of (tx t1)) /\ tx_autocommit t' = false
  | Err _ => tx_autocommit t' = false ->
      snapshot (db_of (tx t')) = snapshot (db_of (tx t1)) /\ stack (db_of (tx t')) = stack (db_of (tx t1))
  | Panic _ => True
  end.
Proof.
  intros Hi Hab Hex Hp Hcalm Hg Hch. unfold run. unfold io_bind at 1, ensure_open. rewrite Hab.
  pose proof (open_autocommit _ _ _ _ Hi Hab) as Ho. unfold io_bind at 1. rewrite Hp.
  destruct (kept_inv _ _ _ _ _ _ _ (prepare_statement_keeps nows sql params) Hi Ho Hp) as (Hi1 & Ho1 & Ha1 & Hg1).
  rewrite Hg1, Hg, Hch. unfold io_bind at 1. destruct (on_conn (begin_change change) t1) as [rb t2] eqn:Hb.
  destruct (kept_inv _ _ _ _ _ _ _ (kept_begin change) Hi1 Ho1 Hb) as (Hi2 & Ho2 & Ha2 & Hg2).
  apply on_conn_eq in Hb as (c & Hb & ->). apply begin_change_opens in Hb.
  destruct rb as [[]|e|m]; [|by intros [= <- <-]..]. cbv beta.
  lazymatch goal with |- (match ?m _ with _ => _ end) = _ -> _ => destruct (m (set_conn t1 c)) as [r3 t3] eqn:H3 end.
  assert (forall h, sound (db_of (tx (set_conn t1 c))) (exec (ps_sql p) h false (db_of (tx (set_conn t1 c))))) as Hs
    by (intros h; by apply Hex).
  apply (window_between base limit w guard _ _ _ _ _ _ (snapshot (db_of (tx t1))) (stack (db_of (tx t1)))) in H3;
    [|done|done|congruence|done|apply complete_closes|kapply kept_complete; apply conn_frame_always|exact Hb].
  destruct r3 as [a|e|m]; intros [= <- <-]; [done| |done].
  intros Hac. assert (tx_autocommit t3 = false) as Hac3.
  { revert Hac. unfold note_rollback. cbn. destruct (aborted t3); [done|]. destruct (tx_autocommit t3) eqn:Hc; cbn; congruence. }
  replace (tx (note_rollback (set_conn t3 (rollback (tx t3))))) with (rollback (tx t3)); [by apply rollback_reopens, H3|].
  unfold note_rollback. cbn. by destruct (aborted t3); [|destruct (tx_autocommit t3)].
Qed.

(** An ALTER TABLE that changes rows and then fails. *)
Definition mini_failing (sql : string) (h : hooks) (a : bool) (d : Sp) : outcome Sp nat :=
  mkOutcome (Err (SqliteFailure 1)) [] (sp_insert d) [EvWrite "items"] false.
Definition mini_begun : CrdtTransaction Sp := begin_tx mini_conn 1000 (Some mini_guard) GuardedWriteOptions_default.
Definition mini_prepared := prepare_statement (20, 20) "alter" [] mini_begun.
Definition mini_alter := run (20, 20) "alter" [] mini_failing mini_begun.
Definition mini_ps : PreparedStatement := mkPrepared "ALTER TABLE" (Some (Altered "items" None)).

Lemma schema_change_atomic_witness :
  m_config (sp_mem (sp_insert (db_of (tx (snd mini_prepared))))) !! "row" = Some "inserted" /\
  is_ok (fst mini_alter) = false /\
  sp_mem (db_of (tx (snd mini_alter))) = sp_mem (db_of (tx (snd mini_prepared))).
Proof.
  split; [vm_compute; reflexivity|]. split; [vm_compute; reflexivity|].
  refine (proj1 (schema_change_atomic (sp_mem sp_start) mini_hard_limit (watch_of mini_conn) (20, 20) "alter" [] mini_failing mini_begun
    (snd mini_prepared) (snd mini_alter) mini_guard mini_ps (Altered "items" None)
    (Err (Database (ExecutionError "ALTER TABLE" None (SqliteFailure 1)))) _ eq_refl _ _ eq_refl eq_refl eq_refl _ _)).
  - split; try done. by intros g b [= <-] [= <-].
  - by intros sql h d _.
  - apply pair_result. vm_compute. reflexivity.
  - apply pair_result. vm_compute. reflexivity.
  - vm_compute. reflexivity.
Defined.

(** ** The rebuild copy *)

(** The value of the trigger gate, as [begin_verbatim_copy] reads it. *)
Definition trigger_gate {db} `{Rusqlite db} (c : db) : res SqlError (option string) :=
  optional (row ← query_row c ConfigGet [SText CONFIG_KEY_TRIGGERS_ENABLED]; get_string row 0).

Lemma begin_verbatim_gate {db} `{Rusqlite db} (c : db) previous c' :
  begin_verbatim_copy c = (Ok previous, c') ->
  exists n c1 gate, execute c (Savepoint SAVEPOINT) [] = Ok (n, c1) /\ trigger_gate c1 = Ok gate /\
    previous = default "1" gate /\ toggle_triggers c1 "0" = Ok c'.
Proof.
  unfold begin_verbatim_copy. intros ([] & c1 & (n & Hs)%batch_Ok & Hr)%io_bind_Ok. unfold or_rollback in Hr.
  unfold io_bind at 1, io_read at 1 in Hr. exists n, c1.
  unfold trigger_gate. destruct (optional _) as [gate| |]; cbn in Hr; [|done..].
  unfold io_bind, io_exec in Hr. destruct (toggle_triggers c1 "0"); cbn in Hr; [|done..].
  injection Hr as <- <-. by exists gate.
Qed.

Lemma end_verbatim_gate {db} `{Rusqlite db} previous (c : db) c' :
  end_verbatim_copy previous c = (Ok tt, c') ->
  exists c1 n, toggle_triggers c previous = Ok c1 /\ execute c1 (Release SAVEPOINT) [] = Ok (n, c').
Proof.
  unfold end_verbatim_copy. intros ([] & c1 & Ht & (n & Hr)%batch_Ok)%io_bind_Ok.
  unfold io_exec in Ht. destruct (toggle_triggers c previous) as [c2| |]; cbn in Ht; [|done..].
  injection Ht as <-. by exists c2, n.
Qed.

(** A rebuild copy neither stamps nor half-happens: outside schema mode, or
    without a guard, it is refused and nothing changes; when it succeeds, the
    triggers were switched off under the crate's savepoint before the copy, the
    gate was then set to exactly the value it had - on, if it had none - and the
    savepoint is closed; when it fails and SQLite has not ended the transaction,
    the database is what it was before the call, with the same savepoints open. *)
Theorem verbatim_copy_atomic `{Unicode} {U : Uhlc} `{SqlParser} {db} `{HL : LiveDb db} {K : ConnHooks} `{!HookLaws}
    `{!Statements db} `{!SavepointLaws db} `{HT : !TxLaws db} base limit w sql params (t t' : CrdtTransaction db) r :
  tx_inv base limit w t -> aborted t = None -> calm_copy (db := db) sql ->
  copy_rows_verbatim sql params t = (r, t') ->
  ((tx_guard t = None \/ schema_mode (options t) = false) ->
     t' = t /\ exists reason, r = Err (Database (UnsupportedStatement reason sql))) /\
  match r with
  | Ok _ => stack (db_of (tx t')) = stack (db_of (tx t)) /\
      exists n (c0 c1 c2 c3 c4 : Conn db) gate, db_of c0 = db_of (tx t) /\
        execute c0 (Savepoint SAVEPOINT) [] = Ok (n, c1) /\ trigger_gate c1 = Ok gate /\
        toggle_triggers c1 "0" = Ok c2 /\ toggle_triggers c3 (default "1" gate) = Ok c4 /\
        exists n', execute c4 (Release SAVEPOINT) [] = Ok (n', tx t')
  | Err _ => tx_autocommit t' = false ->
      snapshot (db_of (tx t')) = snapshot (db_of (tx t)) /\ stack (db_of (tx t')) = stack (db_of (tx t))
  | Panic _ => True
  end.
Proof.
  intros Hi Hab Hcalm Hr. pose proof (open_autocommit _ _ _ _ Hi Hab) as Ho. revert Hr.
  unfold copy_rows_verbatim. unfold io_bind at 1, ensure_open. rewrite Hab.
  destruct (tx_guard t) as [guard|] eqn:Hg; [|intros [= <- <-]; split; [intros _; split; [done|by eexists]|done]].
  destruct (schema_mode (options t)) eqn:Hsm; [|intros [= <- <-]; split; [intros _; split; [done|by eexists]|done]].
  intros Hr. split; [by intros [|]|]. revert Hr.
  unfold io_bind at 1, io_read at 1. destruct (parse_crdt_write sql) as [stmt| |] eqn:Hp; cbn [map_err]; [|by intros [= <- <-]..].
  unfold io_bind at 1, io_read at 1. destruct (rewrite_rebuild_copy (tx t) stmt) as [stmt'| |] eqn:Hrw; [|by intros [= <- <-]..].
  unfold io_bind at 1. destruct (charge params t) as [rc t1] eqn:Hc.
  destruct (kept_inv _ _ _ _ _ _ _ (kept_charge params) Hi Ho Hc) as (Hi1 & Ho1 & _ & Hg1).
  assert (tx t1 = tx t) as Ht1.
  { revert Hc. unfold charge. destruct (serialized_parameter_bytes params); [destruct (_ <? _)|..]; by intros [= <- <-]. }
  destruct rc as [[]| |]; [|intros [= <- <-] _; by rewrite Ht1|by intros [= <- <-]]. unfold io_bind at 1.
  destruct (on_conn begin_verbatim_copy t1) as [rb t2] eqn:Hb.
  destruct (kept_inv _ _ _ _ _ _ _ kept_begin_copy Hi1 Ho1 Hb) as (Hi2 & Ho2 & _ & Hg2).
  apply on_conn_eq in Hb as (c & Hb & ->). rewrite Ht1 in Hb. pose proof (begin_verbatim_opens _ _ _ Hb) as Hop.
  destruct rb as [previous| |]; [|intros [= <- <-] _; exact Hop|by intros [= <- <-]]. apply begin_verbatim_gate in Hb as (n & c1 & gate & Hsp & Hgate & -> & Htog).
  unfold or_schema_rollback. cbv beta.
  lazymatch goal with |- (match ?m _ with _ => _ end) = _ -> _ => destruct (m (set_conn t1 c)) as [r3 t3] eqn:H3 end.
  pose proof H3 as Hw.
  apply (window_between base limit w guard _ _ _ _ _ _ (snapshot (db_of (tx t))) (stack (db_of (tx t)))) in H3;
    [|done|done|congruence|intros h; apply sound_execute; by eapply Hcalm|apply end_verbatim_closes
     |kapply kept_end_verbatim; apply conn_frame_always|exact Hop].
  destruct r3 as [a|e|m]; intros [= <- <-]; [|intros Hac; cbn; by apply rollback_reopens, H3|done].
  split; [apply H3|]. apply io_bind_Ok in Hw as (v & t4 & _ & Hw). apply io_bind_Ok in Hw as ([] & t5 & He & [= <- <-]).
  apply on_conn_eq in He as (c5 & (c6 & n' & Ht6 & Hrel)%end_verbatim_gate & ->).
  exists n, (tx t), c1, c, (tx t4), c6, gate. do 5 (split; [done|]). by exists n'.
Qed.

Lemma copy_stays_insert `{Unicode} `{SqlParser} {db} `{Rusqlite db} (c : db) insert stmt' :
  rewrite_rebuild_copy c (StInsert insert) = Ok stmt' -> exists i, stmt' = StInsert i.
Proof.
  unfold rewrite_rebuild_copy. destruct (_ || _ || _); [done|]. destruct (copy_target insert), (copy_source insert); try done.
  destruct (wildcard_copy insert); [done|]. intros (x & _ & Hr)%bind_Ok. apply bind_Ok in Hr as (y & _ & Hr).
  destruct x, y; try done; injection Hr as <-; by eexists.
Qed.

(** A table rebuild of an empty table. *)
Definition mini_sql_copy : SqlParser := mini_sql [("copy", [StInsert mini_copy])].
Definition mini_migration : CrdtTransaction Sp := begin_tx mini_conn 1000 (Some mini_guard) (mkOptions true false).
Definition mini_copied := copy_rows_verbatim (H0 := mini_sql_copy) "copy" [PValue (SInteger 1)] mini_migration.

Lemma verbatim_copy_atomic_witness :
  fst mini_copied = Ok 1%nat /\ sp_stack (db_of (tx (snd mini_copied))) = [].
Proof.
  split; [vm_compute; reflexivity|].
  refine (proj1 (proj2 (verbatim_copy_atomic (H0 := mini_sql_copy) (sp_mem sp_start) mini_hard_limit (watch_of mini_conn) "copy" [PValue (SInteger 1)]
    mini_migration (snd mini_copied) (Ok 1%nat) _ eq_refl _ _))).
  - split; try done. by intros g b [= <-] [= <-].
  - by intros t stmt stmt' [= <-] (i & ->)%copy_stays_insert.
  - apply pair_result. vm_compute. reflexivity.
Defined.

(** ** The size of a transaction *)

Definition sizes_of (params : list sql_param) (sizes : list Z) : Prop :=
  Forall2 (fun p s => param_bytes p = Ok s) params sizes.
Definition sum_of (sizes : list Z) : Z := foldr Z.add 0 sizes.

Lemma param_bytes_nonneg p s : param_bytes p = Ok s -> 0 <= s.
Proof.
  destruct p as [v|o|e]; cbn; [|by intros [= <-]|done]. intros [= <-]. destruct v; cbn; lia.
Qed.

Lemma sum_of_nonneg params sizes : sizes_of params sizes -> 0 <= sum_of sizes.
Proof. induction 1 as [|p s ps ss Hp _ IH]; cbn; [lia|]. apply param_bytes_nonneg in Hp. unfold sum_of in IH. lia. Qed.

Lemma add_parameter_bytes_spec params sizes total :
  sizes_of params sizes -> 0 <= total <= usize_max ->
  add_parameter_bytes total params = Ok (Z.min (total + sum_of sizes) usize_max).
Proof.
  intros Hs. revert total. induction Hs as [|p s ps ss Hp Hps IH]; intros total Ht; cbn [add_parameter_bytes].
  - f_equal. cbn. lia.
  - rewrite Hp. cbn [mbind res_bind]. pose proof (param_bytes_nonneg _ _ Hp). pose proof (sum_of_nonneg _ _ Hps).
    unfold usize_max, saturating_add in *. rewrite IH; [|lia]. f_equal. change (sum_of (s :: ss)) with (s + sum_of ss). lia.
Qed.

(** C40: the size limit cannot be slipped: parameters are summed without
    wrap-around on machine words; a charge succeeds exactly when what was written
    before and the new parameters together stay within the limit, and then the
    count is their exact sum; a refused charge stays counted and reports the count
    and the limit; so once over the limit, every later charge - of an empty
    parameter list too - is refused. The limit is any below the largest machine
    word, where the count saturates. *)
Theorem charge_bounds `{Uhlc} {db} {K : ConnHooks} params sizes (t : CrdtTransaction db) :
  sizes_of params sizes -> 0 <= written_bytes t <= usize_max -> max_bytes t < usize_max ->
  serialized_parameter_bytes params = Ok (Z.min (sum_of sizes) usize_max) /\
  exists t', tx t' = tx t /\ aborted t' = aborted t /\ max_bytes t' = max_bytes t /\
    written_bytes t' = Z.min (written_bytes t + sum_of sizes) usize_max /\
    charge params t =
      (if written_bytes t + sum_of sizes <=? max_bytes t then Ok tt
       else Err (Database (TransactionTooLarge (written_bytes t') (max_bytes t))), t') /\
    (written_bytes t + sum_of sizes <= max_bytes t -> written_bytes t' = written_bytes t + sum_of sizes) /\
    (max_bytes t < written_bytes t -> fst (charge params t) <> Ok tt).
Proof.
  intros Hs Hw Hm. pose proof (sum_of_nonneg _ _ Hs) as Hn.
  pose proof (add_parameter_bytes_spec params sizes 0 Hs ltac:(unfold usize_max, u64_max; lia)) as Ha.
  rewrite Z.add_0_l in Ha. split; [exact Ha|]. unfold charge, serialized_parameter_bytes. rewrite Ha.
  assert (saturating_add (written_bytes t) (Z.min (sum_of sizes) usize_max) =
    Z.min (written_bytes t + sum_of sizes) usize_max) as -> by (unfold saturating_add, usize_max in *; lia).
  eexists (mkTx _ _ (Z.min (written_bytes t + sum_of sizes) usize_max) _ _ _ _). cbn [tx aborted max_bytes written_bytes].
  do 4 (split; [reflexivity|]). split; [|split; [lia|]].
  - destruct (Z.leb_spec (written_bytes t + sum_of sizes) (max_bytes t));
      [rewrite (proj2 (Z.ltb_ge _ _)) by lia | rewrite (proj2 (Z.ltb_lt _ _)) by lia]; reflexivity.
  - intros Hover. rewrite (proj2 (Z.ltb_lt _ _)) by lia. done.
Qed.

Lemma charge_bounds_witness :
  let t := begin_tx (db := Sp) mini_conn 10 None GuardedWriteOptions_default in
  let params := [PValue (SText "hello"); PValue (SInteger 7)] in
  sizes_of params [5; 8] /\ serialized_parameter_bytes params = Ok (Z.min (sum_of [5; 8]) usize_max).
Proof.
  intros t params. assert (sizes_of params [5; 8]) as Hs by (repeat constructor).
  split; [exact Hs|]. apply (charge_bounds params [5; 8] t Hs).
  - split; vm_compute; discriminate.
  - vm_compute. reflexivity.
Defined.

(** ** Reads *)

(** What a read relies on: under an authorizer that lets through nothing but
    what the read-only rule does, a statement leaves the data alone, and the hooks
    hear at most [current_hlc()]. The pragma sets the flag when it succeeds and leaves it
    when it fails, and touches nothing else; an authorizer that denies the setting of a
    pragma, as the read-only rule does, makes it fail. *)
Class ReadLaws (db : Type) `{HR : Rusqlite db} `{!LiveDb db} {K : ConnHooks} `{!HookLaws} `{!Statements db} `{!SavepointLaws db} := {
  query_only : db -> bool;
  pragma_context : AuthContext;
  pragma_is_write : read_only_rule pragma_context = Deny;
  pragma_sets : forall b h d e d' evs, st_query_only b h d = (e, d', evs) ->
    query_only d' = match e with None => b | Some _ => query_only d end /\
    snapshot d' = snapshot d /\ forallb asks evs = true;
  pragma_judged : forall b h d a, h_authorizer h = Some a -> a pragma_context = Deny ->
    exists e, fst (fst (st_query_only b h d)) = Some e;
  read_only_hooks (h : hooks) : Prop :=
    exists a, h_authorizer h = Some a /\ forall context, a context <> Deny -> read_only_rule context = Allow;
  reads {T} (d : db) (o : outcome db T) : Prop :=
    snapshot (oc_db o) = snapshot d /\ forallb asks (oc_events o) = true;
  reads_rows : forall T sql params f h a d, read_only_hooks h -> reads d (st_rows T sql params f h a d);
  reads_row : forall T sql params f h a d, read_only_hooks h -> reads d (st_row T sql params f h a d);
}.

Section read.
Context {U : Uhlc} {db : Type} `{HL : LiveDb db} {K : ConnHooks} `{!HookLaws} `{!Statements db}
  `{!SavepointLaws db} `{HT : !ReadLaws db}.

(** What the observer has been told, and the changes it may still hear of. *)
Definition told_of (c : Conn db) :=
  (cn_reports c, observer (fst (lt_conn (cn_live c))), changed_tables (fst (lt_conn (cn_live c)))).

Lemma told_of_asks (c : Conn db) d evs : forallb asks evs = true -> told_of (with_raised c d evs) = told_of c.
Proof.
  intros Hevs. destruct (run_asks (lt_conn (cn_live c)) evs Hevs) as (Ho & Hc & Hr).
  unfold told_of. cbn. by rewrite Ho, Hc, Hr, app_nil_r.
Qed.

(** The view between two statements. *)
Definition view_inv (v0 : content) (limit : Z) w (guard : option SqlGuard) (v : ReadOnlyConnection) : Prop :=
  told_of (ro_conn v) = w /\ snapshot (db_of (ro_conn v)) = v0 /\ h_authorizer (cn_hooks (ro_conn v)) = Some read_only_rule /\
  h_progress (cn_hooks (ro_conn v)) = None /\ h_limit (cn_hooks (ro_conn v)) = limit /\ ro_guard v = guard.

Definition read_exec {T} (exec : hooks -> bool -> db -> outcome db T) : Prop :=
  forall h a d, read_only_hooks h -> reads d (exec h a d).

Lemma scoped_read_only guard context : scoped_authorizer guard ScopeRead context <> Deny -> read_only_rule context = Allow.
Proof. cbn. unfold read_only_rule. by destruct (action context). Qed.

Lemma view_step_inv {T} v0 limit w guard (exec : hooks -> bool -> db -> outcome db T) v r v' :
  guard_sane guard -> read_exec exec -> view_inv v0 limit w guard v -> view_step exec v = (r, v') -> view_inv v0 limit w guard v'.
Proof.
  intros Hg Hex (Hw & Hs & Ha & Hp & Hl & Hgd). unfold view_step. rewrite Hgd. destruct guard as [g|].
  - destruct (run_guarded _ _ _ _ _) as [[rg h] s] eqn:Hr. apply run_guarded_spec in Hr; [|by intros b; apply Hg].
    destruct Hr as (Ha' & Hp' & Hl' & Hr). intros [= <- <-].
    assert (told_of (fst s) = w /\ snapshot (db_of (fst s)) = v0) as [Hw' Hs'].
    { destruct Hr as [(e & _ & ->)|(hr & result & answers & Hst & (Har & _) & _)]; [done|].
      unfold stepping in Hst. injection Hst as _ _ <-.
      destruct (Hex hr true (lt_db (cn_live (ro_conn v)))) as [Hd Hev].
      { eexists. split; [exact Har|]. apply scoped_read_only. }
      split; [exact (eq_trans (told_of_asks _ _ _ Hev) Hw)|exact (eq_trans Hd Hs)]. }
    split; [exact Hw'|]. split; [exact Hs'|]. split; [exact Ha'|]. split; [exact Hp'|]. split; [exact (eq_trans Hl' Hl)|done].
  - unfold stepping. intros [= <- <-]. destruct (Hex (cn_hooks (ro_conn v)) true (lt_db (cn_live (ro_conn v)))) as [Hd Hev].
    { exists read_only_rule. split; [done|]. intros context. unfold read_only_rule. by destruct (action context). }
    split; [exact (eq_trans (told_of_asks _ _ _ Hev) Hw)|]. split; [exact (eq_trans Hd Hs)|]. done.
Qed.

Lemma read_query_rows {T} sql params (f : list SqlValue -> res SqlError T) : read_exec (query_rows sql params f).
Proof.
  intros h a d Hh. unfold query_rows. destruct (st_columns sql h d); [|done..].
  exact (reads_rows T sql params f h a d Hh).
Qed.

Lemma view_call {A B} (m : ReadOnlyConnection (db:=db) -> A * ReadOnlyConnection (db:=db)) (g : A -> B) v r v' :
  (let '(x, v1) := m v in (g x, v1)) = (r, v') -> exists x, m v = (x, v').
Proof. destruct (m v) as [x v1]. intros [= _ <-]. by exists x. Qed.

Lemma run_view_inv {R T} v0 limit w guard (f : read_closure R T) v r v' :
  guard_sane guard -> view_inv v0 limit w guard v -> run_view f v = (r, v') -> view_inv v0 limit w guard v'.
Proof.
  intros Hg. revert v. induction f as [r0|sql params g k IH|sql params g k IH|sql params g k IH]; intros v Hi; cbn [run_view].
  - by intros [= <- <-].
  - destruct (view_query_row sql params g v) as [r1 v1] eqn:Hr. apply IH.
    apply view_call in Hr as (x & Hr). eapply view_step_inv; [exact Hg| |exact Hi|exact Hr].
    intros h a d. apply reads_row.
  - destruct (view_query_map sql params g v) as [r1 v1] eqn:Hr. apply IH.
    apply view_call in Hr as (x & Hr). eapply view_step_inv; [exact Hg| |exact Hi|exact Hr].
    intros h a d Hh. exact (read_query_rows sql params g h a d Hh).
  - destruct (view_query_with_columns sql params g v) as [r1 v1] eqn:Hr. apply IH.
    apply view_call in Hr as (x & Hr). exact (view_step_inv v0 limit w guard _ v x v1 Hg (read_query_rows sql params g) Hi Hr).
Qed.

Lemma set_query_only_spec b (c : Conn db) e c' : set_query_only b c = (e, c') ->
  snapshot (db_of c') = snapshot (db_of c) /\ cn_hooks c' = cn_hooks c /\ told_of c' = told_of c /\
  query_only (db_of c') = match e with None => b | Some _ => query_only (db_of c) end.
Proof.
  unfold set_query_only. destruct (st_query_only _ _ _) as [[e' d] evs] eqn:Hx. intros [= <- <-].
  apply pragma_sets in Hx as (Hq & Hs & Hev). do 2 (split; [done|]). split; [by apply told_of_asks|done].
Qed.

(** SQLite refused to reset the flag, on the connection [c'] was left by the last step:
    one without an authorizer. *)
Definition reset_refused (c' : Conn db) : Prop :=
  exists c e, h_authorizer (cn_hooks c) = None /\ set_query_only false c = (Some e, c').

(** What a read leaves. *)
Definition after_read (conn conn' : Conn db) : Prop :=
  snapshot (db_of conn') = snapshot (db_of conn) /\
  (query_only (db_of conn) = false -> query_only (db_of conn') = false \/ reset_refused conn') /\
  unguarded (h_limit (cn_hooks conn)) (cn_hooks conn') /\ told_of conn' = told_of conn.

(** The last step, on a connection that has no authorizer any more. *)
Lemma query_only_drop_spec (conn c : Conn db) :
  h_authorizer (cn_hooks c) = None -> h_progress (cn_hooks c) = None -> h_limit (cn_hooks c) = h_limit (cn_hooks conn) ->
  snapshot (db_of c) = snapshot (db_of conn) -> told_of c = told_of conn -> after_read conn (QueryOnly_drop c).
Proof.
  intros Ha Hp Hl Hs Hw. unfold QueryOnly_drop. destruct (set_query_only false c) as [e c'] eqn:Hq.
  destruct (set_query_only_spec _ _ _ _ Hq) as (Hds & Hdh & Hdw & Hdq). cbn [snd].
  split; [congruence|]. split; [|split; [rewrite Hdh; by split|congruence]].
  intros _. destruct e as [e|]; [right; by exists c, e|by left].
Qed.

Lemma run_read_spec {R T} guard (f : read_closure R T) (conn : Conn db) r conn' :
  guard_sane guard -> h_authorizer (cn_hooks conn) = None -> h_progress (cn_hooks conn) = None ->
  run_read guard f conn = (r, conn') -> after_read conn conn'.
Proof.
  intros Hg Ha Hp. unfold run_read, QueryOnly_enable. destruct (set_query_only true conn) as [e c1] eqn:Hx.
  destruct (set_query_only_spec _ _ _ _ Hx) as (Hs & Hh & Hw & Hq). destruct e as [e|].
  { intros [= <- <-]. split; [done|]. split; [intros Hno; left; congruence|]. split; [rewrite Hh; by split|done]. }
  unfold ReadOnlyConnection_enable. destruct (read_only_installs (cn_hooks c1)) as (h & Hin). rewrite Hin. cbn.
  apply set_authorizer_sets in Hin as (Hha & Hhp & Hhl).
  destruct (run_view f _) as [rv v] eqn:Hv. eapply (run_view_inv (snapshot (db_of conn)) (h_limit (cn_hooks conn)) (told_of conn) guard) in Hv;
    [|done|split; [done|split; [exact Hs|split; [exact Hha|split; [cbn; congruence|split; [cbn; congruence|done]]]]]].
  destruct Hv as (Hvw & Hvs & Hva & Hvp & Hvl & _). destruct (clear_authorizer (cn_hooks (ro_conn v))) as (h' & Hc). rewrite Hc.
  apply set_authorizer_sets in Hc as (Hca & Hcp & Hcl). intros [= <- <-].
  apply query_only_drop_spec; [exact Hca|cbn; congruence|cbn; congruence|exact Hvs|exact Hvw].
Qed.
End read.

(** C29: a read leaves no trace: whatever the closure asks for, with or without
    a guard, and whether it succeeds, fails or panics, the data is what it was, no
    authorizer and no progress callback is left, the value limit is unchanged, and the
    observer neither hears of anything nor will hear of anything new with the next
    commit. [query_only] is off again, unless SQLite itself refuses the pragma that
    resets it as the last step: that pragma is issued on a connection that has no
    authorizer any more, so it is never the read's own read-only rule, which would deny
    it, that leaves the connection read-only. *)
Theorem read_leaves_no_trace {U : Uhlc} {db} `{HL : LiveDb db} {K : ConnHooks} `{!HookLaws} `{!Statements db}
    `{!SavepointLaws db} `{HT : !ReadLaws db} {R T} guard (f : read_closure R T) (conn : Conn db) r conn' :
  guard_sane guard -> h_authorizer (cn_hooks conn) = None -> h_progress (cn_hooks conn) = None ->
  query_only (db_of conn) = false -> run_read guard f conn = (r, conn') ->
  snapshot (db_of conn') = snapshot (db_of conn) /\
  (query_only (db_of conn') = false \/
   exists c e, h_authorizer (cn_hooks c) = None /\ set_query_only false c = (Some e, conn')) /\
  h_authorizer (cn_hooks conn') = None /\ h_progress (cn_hooks conn') = None /\
  h_limit (cn_hooks conn') = h_limit (cn_hooks conn) /\ told_of conn' = told_of conn.
Proof.
  intros Hg Ha Hp Hq Hr. destruct (run_read_spec _ _ _ _ _ Hg Ha Hp Hr) as (Hs & Hqq & Hu & Hw).
  split; [done|]. split; [by apply Hqq|]. by destruct Hu as (? & ? & ?).
Qed.

(** Resetting the flag while the read-only rule is still installed would be denied. *)
Lemma reset_under_rule_refused {U : Uhlc} {db} `{HL : LiveDb db} {K : ConnHooks} `{!HookLaws} `{!Statements db}
    `{!SavepointLaws db} `{HT : !ReadLaws db} (c : Conn db) :
  h_authorizer (cn_hooks c) = Some read_only_rule -> query_only (db_of c) = true ->
  query_only (db_of (QueryOnly_drop c)) = true.
Proof.
  intros Ha Hq. destruct (pragma_judged false _ (db_of c) _ Ha pragma_is_write) as (e & He).
  unfold QueryOnly_drop. destruct (set_query_only false c) as [e' c'] eqn:Hx.
  destruct (set_query_only_spec _ _ _ _ Hx) as (_ & _ & _ & Hd). unfold set_query_only, db_of in *.
  destruct (st_query_only _ _ _) as [[e2 d] evs]. cbn in He. subst e2. injection Hx as <- <-. cbn [snd]. congruence.
Qed.

#[export] Instance sp_read_laws : ReadLaws Sp.
Proof.
  assert (forall sql h a d, (exists f, h_authorizer h = Some f /\ forall context, f context <> Deny -> read_only_rule context = Allow) ->
    sp_mem (oc_db (sp_judged sql h a d)) = sp_mem d /\ oc_events (sp_judged sql h a d) = []) as Hread.
  { intros sql h a d (f & Hf & Hro). unfold sp_judged, sp_allowed. rewrite Hf.
    assert (f (mkAuthContext (ActOther "write") none) = Deny) as ->.
    { destruct (f _) eqn:Hfa; [| |done]; exfalso; assert (f (mkAuthContext (ActOther "write") none) <> Deny) as Hn by congruence;
        by apply Hro in Hn. }
    cbn [orb]. destruct (existsb _ _) eqn:Hx; [done|]. cbn in Hx. unfold sp_step.
    apply orb_false_iff in Hx as [-> Hx]. apply orb_false_iff in Hx as [-> Hx]. by apply orb_false_iff in Hx as [-> _]. }
  refine {| query_only := sp_query_only; pragma_context := mkAuthContext (ActOther "write") none |}.
  - done.
  - intros b h d e d' evs. cbn. destruct (sp_allowed h); by intros [= <- <- <-].
  - intros b h d a Ha Hd. cbn. unfold sp_allowed. rewrite Ha, Hd. by eexists.
  - intros T sql ps f h a d Hh. destruct (Hread sql h a d Hh) as [Hd He]. split; [exact Hd|]. cbn. by rewrite He.
  - intros T sql ps f h a d Hh. destruct (Hread sql h a d Hh) as [Hd He]. split; [exact Hd|]. cbn. by rewrite He.
Defined.

(** A read that tries to write, and panics when it is refused. *)
Definition mini_nosy : read_closure unit unit :=
  ReadRow "INSERT" [] (fun _ => Ok tt) (fun r => match r with
    | Err (SqliteFailure 23) => ReadDone (Panic "denied")
    | _ => ReadDone (Ok tt)
    end).
Abbreviation mini_read := (run_read (db := Sp) None mini_nosy mini_conn).

Lemma read_leaves_no_trace_witness :
  fst mini_read = Panic "denied" /\ snapshot (db_of (snd mini_read)) = snapshot (db_of mini_conn) /\
  query_only (db_of (snd mini_read)) = false.
Proof.
  split; [vm_compute; reflexivity|].
  destruct (read_leaves_no_trace None mini_nosy mini_conn (Panic "denied") (snd mini_read)
    ltac:(by intros g b [=]) eq_refl eq_refl eq_refl ltac:(apply pair_result; vm_compute; reflexivity)) as (Hs & _ & _).
  split; [exact Hs|vm_compute; reflexivity].
Defined.
