(* ===== verification/Database.v ===== *)
(** * The database handle (src/database/mod.rs, src/database/config.rs,
    src/device_id.rs, the opening of src/db/core/init.rs)

    A handle is the connection behind its mutex, with what [open] fixed for its
    life. Opening runs the steps of the other components in order, under the file
    lock. The calls that only wrap another component's function under the
    connection lock are instances of [with_locked_conn]. *)

From S2P Require Import Prelude Utf8 Hashing Names Json Sql Mini Hlc Context Trigger Report Errors Lock SqlAst Prefix Transform CrdtWrite Value Scanner Preimage Policy Preflight Cleanup Init Compat Migrations Install Engine Guard Schema Session WritePath.

Definition DEFAULT_TRIGGER_VERSION : Z := 4.
Definition MAX_VALUE_BYTES : Z := 1000000000.

(** The consumer's bootstrap hook: the device UUID and what it wrote. *)
Definition DatabaseBootstrap (db : Type) := db -> res Error (list Z * db).
Definition StaticDeviceId {db} (uuid : list Z) : DatabaseBootstrap db := fun tx => Ok (uuid, tx).

Record DatabaseConfig (db : Type) := mkConfig {
  dc_path : Path;
  dc_key : string;
  dc_create_if_missing : bool;
  dc_bootstrap : DatabaseBootstrap db;
  dc_signature_provider : SignatureProvider;
  dc_migration_source : MigrationSource;
  dc_trigger_version : Z;
  dc_max_transaction_bytes : Z;
  dc_max_value_bytes : Z;
}.
Arguments mkConfig {db}.
Arguments dc_path {db}.
Arguments dc_key {db}.
Arguments dc_create_if_missing {db}.
Arguments dc_bootstrap {db}.
Arguments dc_signature_provider {db}.
Arguments dc_migration_source {db}.
Arguments dc_trigger_version {db}.
Arguments dc_max_transaction_bytes {db}.
Arguments dc_max_value_bytes {db}.

(** ** Opening the connection *)

(** rusqlite's calls on a fresh connection. *)
Class OpenDb (db : Type) `{Rusqlite db} := {
  open_with_flags : string -> bool -> res SqlError db;
  busy_timeout : db -> Z -> res SqlError db;
  pragma_update : db -> string -> string -> res SqlError db;
  create_scalar_function : db -> string -> res SqlError db;
  install_hook : db -> string -> res SqlError db;
  journal_mode_wal : db -> res SqlError (string * db);
  set_length_limit : db -> Z -> res SqlError db;
}.

Section opening.
Context {db : Type} `{OpenDb db}.

Definition register_current_hlc_udf (conn : db) : res DatabaseError db :=
  map_err (SqliteStep ("register " +:+ HLC_FUNCTION_NAME +:+ " function"))
    (create_scalar_function conn HLC_FUNCTION_NAME).

(** What the three hooks do is [Context.step]. *)
Definition install_tx_hlc_hooks (conn : db) : res DatabaseError db :=
  conn1 ← map_err (SqliteStep "install commit_hook") (install_hook conn "commit_hook");
  conn2 ← map_err (SqliteStep "install rollback_hook") (install_hook conn1 "rollback_hook");
  map_err (SqliteStep "install preupdate_hook") (install_hook conn2 "preupdate_hook").

Definition open_and_init_db (path key : string) (create : bool) : res DatabaseError db :=
  conn ← map_err (ConnectionFailed path) (open_with_flags path create);
  conn ← map_err (SqliteStep "configure database busy timeout") (busy_timeout conn 5000);
  conn ← map_err (PragmaFailed "key") (pragma_update conn "key" key);
  conn ← map_err (PragmaFailed "foreign_keys") (pragma_update conn "foreign_keys" "ON");
  fk_enabled ← map_err (PragmaFailed "foreign_keys (verify)")
                 (row ← query_row conn PragmaForeignKeys []; get_int row 0);
  if negb (fk_enabled =? 1)
  then Err (PragmaError "foreign_keys"
              ("PRAGMA foreign_keys returned " +:+ i32_to_string fk_enabled +:+ ", expected 1"))
  else
    conn ← map_err (SqliteStep ("register " +:+ UUID_FUNCTION_NAME +:+ " function"))
             (create_scalar_function conn UUID_FUNCTION_NAME);
    conn ← register_current_hlc_udf conn;
    conn ← install_tx_hlc_hooks conn;
    r ← map_err (PragmaFailed "journal_mode=WAL") (journal_mode_wal conn);
    let '(journal_mode, conn) := r in
    if negb (eq_ignore_ascii_case journal_mode "wal")
    then Err (PragmaError "journal_mode=WAL" ("expected WAL, got '" +:+ journal_mode +:+ "'"))
    else Ok conn.
End opening.

(** ** The handle *)

(** The uuid crate's [to_string]. *)
Class Uuid := { uuid_to_string : list Z -> string }.

Section handle.
Context `{Unicode} `{Serde} {U : Uhlc} `{SqlParser} `{Sha256} `{Base64} `{HashOrder} `{Uuid} {F : FileSystem}
  {db : Type} `{HR : Rusqlite db} `{!OpenDb db} `{HL : !LiveDb db} {K : ConnHooks} `{!Statements db}.

Record Database := mkDatabase {
  di_conn : mutex (Conn db);
  di_signature_provider : SignatureProvider;
  di_migration_source : MigrationSource;
  di_device_uuid : list Z;
  di_max_transaction_bytes : Z;
  di_max_value_bytes : Z;
  di_lock : DatabaseLock;
}.

Definition set_mutex (d : Database) (m : mutex (Conn db)) : Database :=
  mkDatabase m (di_signature_provider d) (di_migration_source d) (di_device_uuid d) (di_max_transaction_bytes d) (di_max_value_bytes d) (di_lock d).

Definition poisoned_error : Error := Errors.Database (MutexPoisoned "Database connection mutex poisoned").

(** A panic of [f] is caught, the lock is released unpoisoned, and the panic
    goes on. *)
Definition with_locked_conn {R} (f : conn_io (Conn db) Error R) : conn_io Database Error R := fun d =>
  match mutex_lock (di_conn d) with
  | None => (Err poisoned_error, d)
  | Some conn => let '(r, conn') := f conn in (r, set_mutex d (mkMutex conn' false))
  end.

(** [with_connection], the raw escape hatch, catches nothing. *)
Definition with_connection {R} (f : conn_io (Conn db) Error R) : conn_io Database Error R := fun d =>
  match mutex_lock (di_conn d) with
  | None => (Err poisoned_error, d)
  | Some conn =>
      let '(r, conn') := f conn in
      (r, set_mutex d (mkMutex conn' (match r with Panic _ => true | _ => false end)))
  end.

Definition write {R T} (f : closure R T) : conn_io Database Error R := fun d =>
  with_locked_conn (run_write (di_max_transaction_bytes d) None GuardedWriteOptions_default f) d.

Definition write_guarded_with {R T} (guard : SqlGuard) (options : GuardedWriteOptions) (f : closure R T)
    : conn_io Database Error R := fun d =>
  with_locked_conn (fun conn =>
    if schema_mode options
    then with_fk_disabled (fun e => Errors.Database (DbSqlite e)) conn (fun conn =>
           run_write (di_max_transaction_bytes d) (Some guard) options f conn)
    else run_write (di_max_transaction_bytes d) (Some guard) options f conn) d.

Definition write_guarded {R T} (guard : SqlGuard) (f : closure R T) : conn_io Database Error R :=
  write_guarded_with guard GuardedWriteOptions_default f.

Definition read {R T} (f : read_closure R T) : conn_io Database Error R := with_locked_conn (run_read None f).
Definition read_guarded {R T} (guard : SqlGuard) (f : read_closure R T) : conn_io Database Error R :=
  with_locked_conn (run_read (Some guard) f).

Definition device_id (d : Database) : list Z := di_device_uuid d.
Definition max_transaction_bytes (d : Database) : Z := di_max_transaction_bytes d.

Definition observe_committed_changes (d : Database) : Database :=
  set_mutex d
    (let m := di_conn d in
     let c := m_value m in
     let l := cn_live c in
     mkMutex (with_live c (mkLive (lt_db l) (set_observer true (fst (lt_conn l)), snd (lt_conn l)))) (m_poisoned m)).

(** *** The calls that run a component under the lock

    A component's function runs on the database value; the hooks its statements
    raise on the way are events [evs], an argument as the clock readings are, and
    [raise] is what they do to the state the connection shares with its hooks. *)

Definition clock_of (c : Conn db) : HlcService := snd (lt_conn (cn_live c)).
Definition raise (evs : list event) (c : Conn db) : Conn db := with_raised c (db_of c) evs.

Definition on_db {R} (evs : list event) (f : conn_io db Error R) : conn_io (Conn db) Error R := fun c =>
  let '(r, d) := f (db_of c) in (r, raise evs (with_live c (mkLive d (lt_conn (cn_live c))))).

(** A function that uses the clock, at one point of its run: [before] and
    [after] it. *)
Definition on_db_clock {R} (before after : list event) (f : db -> HlcService -> res Error R * db * HlcService)
    : conn_io (Conn db) Error R := fun c =>
  let c1 := raise before c in
  let '(r, d, svc) := f (db_of c1) (clock_of c1) in
  (r, raise after (with_live c1 (mkLive d (fst (lt_conn (cn_live c1)), svc)))).

Definition hlc (d : Database) : HlcService := clock_of (m_value (di_conn d)).
(** What a call on the shared service leaves. *)
Definition set_hlc_service (d : Database) (svc : HlcService) : Database :=
  let m := di_conn d in
  set_mutex d (mkMutex (with_live (m_value m) (mkLive (db_of (m_value m)) (fst (lt_conn (cn_live (m_value m))), svc)))
                 (m_poisoned m)).

Definition apply_migrations (evs : list event) : conn_io Database Error MigrationReport := fun d =>
  with_locked_conn (on_db evs (run_migrations (di_migration_source d))) d.

Definition install_crdt (before after : list event) (now : Z) (table_name : string) (opts : InstallCrdtOptions)
    : conn_io Database Error unit := fun d =>
  with_locked_conn (on_db_clock before after (fun conn svc =>
    Install.install_crdt conn table_name opts svc now (di_signature_provider d))) d.

Definition scan_dirty_tables : conn_io Database Error (list string) :=
  with_locked_conn (io_read (fun conn => from_db (Scanner.scan_dirty_tables (db_of conn)))).

Definition scan_table_for_local_changes (table_name : string) (after_hlc : option string) (filters : ScanFilters)
    : conn_io Database Error (list ColumnChange) := fun d =>
  let device_str := uuid_to_string (di_device_uuid d) in
  with_locked_conn (io_read (fun conn =>
    from_db (Scanner.scan_table_for_local_changes (db_of conn) table_name after_hlc device_str filters))) d.

(** The clock moves after the commit, and no hook runs after that. *)
Definition apply_remote_changes (evs : list event) (now : nat -> Z) (now_commit : Z) (changes : RemoteChanges)
    : conn_io Database Error ApplyOutcome := fun d =>
  with_locked_conn (on_db_clock evs [] (fun conn svc =>
    let '(r, conn', svc') := Engine.apply_remote_changes (SignatureApplyPolicy (di_signature_provider d)) now now_commit
                               conn changes svc tt in
    (p ← r; Ok (fst p), conn', svc'))) d.

Definition cleanup_deleted_rows (evs : list event) (policy : RetentionPolicy)
    (before_prune : db -> option string -> res DatabaseError db) : conn_io Database Error CleanupResult :=
  with_locked_conn (on_db evs (fun conn =>
    let '(r, conn') := Cleanup.cleanup_deleted_rows conn policy before_prune in (from_db r, conn'))).

(** ** Opening *)

(** Steps 2 to 6: the migrations, the bootstrap in its own transaction, the
    clock of the device it named, the triggers and the stamping. The clock
    readings are [now] (the clock's start) and [now_stamp]. *)
Definition open_steps (config : DatabaseConfig db) (now now_stamp : Z) : conn_io db Error (list Z * HlcService) :=
  (_l <- io_exec (fun conn => conn' ← from_db (db_from_sql (set_length_limit conn (limit_value (dc_max_value_bytes config))));
                              Ok (tt, conn')) ;;
   _m <- run_migrations (dc_migration_source config) ;;
   device_uuid <- (fun conn => run_tx (fun e => Errors.Database (DbSqlite e)) begin_deferred conn (dc_bootstrap config)) ;;
   hlc <- io_read (fun conn => map_err (fun e => Errors.Database (DbHlc e))
                                 (initialize_in_place HlcService_new conn now device_uuid)) ;;
   _t <- io_map_err Errors.Database (ensure_triggers_initialized (dc_trigger_version config)) ;;
   fun conn =>
     match stamp_unstamped_rows conn hlc now_stamp with
     | (Ok _, conn', hlc') => (Ok (device_uuid, hlc'), conn')
     | (Err e, conn', _) => (Err e, conn')
     | (Panic m, conn', _) => (Panic m, conn')
     end)%io.

Definition fresh_handle (config : DatabaseConfig db) (lock : DatabaseLock) (h : hooks) (uuid : list Z) (svc : HlcService) (conn : db)
    : Database :=
  mkDatabase (mkMutex (mkConn h (mkLive conn (ConnectionContext_new, svc)) []) false)
    (dc_signature_provider config) (dc_migration_source config) uuid
    (dc_max_transaction_bytes config) (dc_max_value_bytes config) lock.

(** [Database::open]; the lock is dropped when a later step fails. [None] is
    running out of fuel on the path's links; [h] are the fresh connection's hooks. *)
Definition open (fuel : nat) (config : DatabaseConfig db) (h : hooks) (now now_stamp : Z) (f : fs)
    : option (res Error Database * fs) :=
  if negb (valid_utf8 (display (dc_path config)))
  then Some (Err (Errors.Database (ValidationError "database path must be valid UTF-8")), f)
  else
    match try_acquire fuel f (dc_path config) with
    | None => None
    | Some (Err e, f1) => Some (Err (map_lock_error e), f1)
    | Some (Panic m, f1) => Some (Panic m, f1)
    | Some (Ok lock, f1) =>
        match from_db (open_and_init_db (display (dc_path config)) (dc_key config) (dc_create_if_missing config)) with
        | Err e => Some (Err e, drop_lock f1 lock)
        | Panic m => Some (Panic m, drop_lock f1 lock)
        | Ok conn =>
            match open_steps config now now_stamp conn with
            | (Ok (uuid, svc), conn') => Some (Ok (fresh_handle config lock h uuid svc conn'), f1)
            | (Err e, _) => Some (Err e, drop_lock f1 lock)
            | (Panic m, _) => Some (Panic m, drop_lock f1 lock)
            end
        end
    end.
End handle.

(** ** The handle after a panic *)

Section handle_laws.
Context `{Unicode} `{Serde} {U : Uhlc} `{SqlParser} {F : FileSystem} {db : Type} `{HR : Rusqlite db}
  `{HL : !LiveDb db} {K : ConnHooks} `{!HookLaws} `{!Statements db} `{!SavepointLaws db} `{HT : !TxLaws db}.

(** A handle as [open] leaves it: not poisoned, no guard on the connection. *)
Definition clean (limit : Z) (d : Database (db := db)) : Prop :=
  m_poisoned (di_conn d) = false /\ unguarded limit (cn_hooks (m_value (di_conn d))).

Lemma with_locked_conn_eq {R} (f : conn_io (Conn db) Error R) (d : Database (db := db)) : m_poisoned (di_conn d) = false ->
  with_locked_conn f d =
    (fst (f (m_value (di_conn d))), set_mutex d (mkMutex (snd (f (m_value (di_conn d)))) false)).
Proof. intros Hp. unfold with_locked_conn, mutex_lock. rewrite Hp. by destruct (f _) as [r c]. Qed.

(** A panic of the closure is the result of the write. *)
Lemma run_write_panics {R T} max guard opts (f : closure R T) (conn : Conn db) u m :
  begin_immediate conn = Ok u -> fst (run_closure f (begin_tx conn max guard opts)) = Panic m ->
  fst (run_write max guard opts f conn) = Panic m.
Proof.
  intros Hb. unfold run_write. rewrite Hb. unfold io_bind at 1.
  destruct (run_closure f _) as [rc t]. cbn. by intros ->.
Qed.
End handle_laws.


(** ** Foreign keys around a migration's write *)

#[export] Instance conn_fk_laws {U : Uhlc} {db} `{HR : Rusqlite db} `{!LiveDb db} `{!FkLaws db} {K : ConnHooks} : FkLaws (Conn db).
Proof.
  split.
  - intros c on n c' (d & He & ->)%conn_execute_Ok. exact (fk_set _ _ _ _ He).
  - intros c on. destruct (fk_set_total (db_of c) on) as (n & d & He). eexists n, _.
    apply conn_execute_Ok. by exists d.
Qed.

(** A migration's write gives the connection back as it took it: in schema
    mode, whatever the closure does and however the write ends, foreign-key
    enforcement is as it was, no guard is left, the value limit is unchanged and the
    handle is usable; and the closure ran with enforcement off. *)
Theorem schema_write_restores_connection `{Unicode} {U : Uhlc} `{SqlParser} {F : FileSystem} {db} `{HR : Rusqlite db}
    `{HL : !LiveDb db} `{!FkLaws db} {K : ConnHooks} `{!HookLaws} `{!Statements db} `{!SavepointLaws db} `{HT : !TxLaws db}
    {R T} limit guard options (f : closure R T) (d d' : Database (db := db)) was r :
  clean limit d -> guard_sane (Some guard) -> calm_closure f -> schema_mode options = true ->
  foreign_keys_enabled (m_value (di_conn d)) = Ok was ->
  write_guarded_with guard options f d = (r, d') ->
  clean limit d' /\ foreign_keys_enabled (m_value (di_conn d')) = Ok was /\
  exists conn1, foreign_keys_enabled conn1 = Ok false /\
    fst (run_write (di_max_transaction_bytes d) (Some guard) options f conn1) = r.
Proof.
  intros [Hp (Ha & Hpr & Hl)] Hg Hc Hm Hwas. unfold write_guarded_with. rewrite Hm, with_locked_conn_eq by done.
  set (body := fun conn => run_write (di_max_transaction_bytes d) (Some guard) options f conn).
  intros [= <- <-]. cbn [set_mutex di_conn m_value].
  assert (unguarded limit (cn_hooks (snd (with_fk_disabled (fun e => Errors.Database (DbSqlite e)) (m_value (di_conn d)) body)))) as Hu.
  { unfold with_fk_disabled. rewrite Hwas.
    destruct (execute (m_value (di_conn d)) (SetForeignKeys false) []) as [[n c1]| |] eqn:Hoff; [|by split; [|split]..].
    destruct (body c1) as [r1 c2] eqn:Hb. cbn [snd].
    assert (cn_hooks c1 = cn_hooks (m_value (di_conn d))) as Hk1 by (by apply conn_execute_Ok in Hoff as (x & _ & ->)).
    apply run_write_spec in Hb as [Hu _]; [|done|by rewrite Hk1..|done]. rewrite Hk1, Hl in Hu.
    unfold restore_foreign_keys. destruct (execute c2 (SetForeignKeys was) []) as [[k c3]| |] eqn:Hon; cbn; [|done..].
    by apply conn_execute_Ok in Hon as (x & _ & ->). }
  split; [by split|]. destruct (with_fk_disabled_spec (fun e => Errors.Database (DbSqlite e)) (m_value (di_conn d)) body was Hwas)
    as (conn1 & Hoff & Hr & Hon). split; [exact Hon|]. by exists conn1.
Qed.

(** ** Who holds the lock after [open] *)

Lemma try_acquire_held `{FileSystem} `{!FsLaws} fuel f p r f1 :
  try_acquire fuel f p = Some (r, f1) ->
  match r with
  | Ok lk => held f (lock_path lk) = false /\ handle_path (lk_handle lk) = lock_path lk /\
      (forall q, held f1 q = (bool_decide (q = lock_path lk) || held f q)) /\
      normalize_database_path_inner fuel f p [] = Some (Ok (database_path lk)) /\
      lock_path lk = lock_path_for (database_path lk)
  | _ => forall q, held f1 q = held f q
  end.
Proof.
  unfold try_acquire. destruct (normalize_database_path_inner fuel f p []) as [[n|e|m]|] eqn:Hn; [|by intros [= <- <-]..|done].
  unfold acquire_normalized. intros [= Ha].
  destruct (match parent (lock_path_for n) with Some par => lock_io par (create_dir_all f par) | None => Ok f end)
    as [fa| |] eqn:Hd; [|by injection Ha as <- <-..].
  assert (forall q, held fa q = held f q) as Hfa.
  { destruct (parent (lock_path_for n)) as [par|]; [|by injection Hd as <-].
    apply map_err_Ok in Hd. exact (dirs_take_no_lock _ _ _ Hd). }
  destruct (open_lock_file fa (lock_path_for n)) as [[h fb]| |] eqn:Ho; cbn [lock_io map_err] in Ha; [|by injection Ha as <- <-..].
  apply open_takes_no_lock in Ho as [Hh Hfb].
  destruct (try_lock_exclusive fb h) as [fc| |] eqn:Hl; injection Ha as <- <-; [|intros q; by rewrite Hfb, Hfa..].
  apply locked in Hl as [Hfree Hheld]. cbn [lock_path lk_handle database_path]. rewrite Hh in *.
  split; [by rewrite <- Hfa, <- Hfb|]. split; [done|]. split; [|done]. intros q. by rewrite Hheld, Hfb, Hfa.
Qed.

Lemma drop_lock_held `{FileSystem} `{!FsLaws} f f1 lk :
  held f (lock_path lk) = false -> handle_path (lk_handle lk) = lock_path lk ->
  (forall q, held f1 q = (bool_decide (q = lock_path lk) || held f q)) ->
  forall q, held (drop_lock f1 lk) q = held f q.
Proof.
  intros Hfree Hh Hf1 q. unfold drop_lock. rewrite unlocked, Hh, Hf1.
  destruct (decide (q = lock_path lk)) as [->|Hne]; [rewrite bool_decide_eq_true_2 by done; by rewrite Hfree|].
  by rewrite bool_decide_eq_false_2.
Qed.

Lemma stamp_clock `{Unicode} `{Serde} `{UhlcLaws} {db} `{Rusqlite db} (conn : db) hlc now r conn' hlc' h :
  hlc_slot hlc = Some h -> stamp_unstamped_rows conn hlc now = (r, conn', hlc') ->
  exists h', hlc_slot hlc' = Some h' /\ hlc_last h <= hlc_last h'.
Proof.
  intros Hs. unfold stamp_unstamped_rows.
  destruct (via_db (begin_immediate conn) ≫= _) as [[|p ps]| |];
    try (intros [= <- <- <-]; exists h; split; [done|lia]).
  unfold issue_hlc, new_timestamp_and_persist, new_timestamp, lock_hlc. rewrite Hs.
  destruct (hlc_poisoned hlc); cbn; [intros [= <- <- <-]; exists h; split; [done|lia]|].
  destruct (hlc_new_timestamp h now) as [t h'] eqn:Hn. intros [= _ <-]. exists h'. split; [done|].
  apply hlc_new_timestamp_later in Hn. lia.
Qed.

(** The steps of a successful [open], each on what the one before left. *)
Lemma open_steps_Ok `{Unicode} `{Serde} {U : Uhlc} `{!UhlcLaws} `{SqlParser} `{Sha256} {db} `{HR : Rusqlite db} `{!OpenDb db}
    (config : DatabaseConfig db) now now_stamp (conn0 conn : db) uuid svc :
  open_steps config now now_stamp conn0 = (Ok (uuid, svc), conn) ->
  exists c1 rep c2 c3 h triggers c4 rows,
    set_length_limit conn0 (limit_value (dc_max_value_bytes config)) = Ok c1 /\
    run_migrations (dc_migration_source config) c1 = (Ok rep, c2) /\
    dc_bootstrap config c2 = Ok (uuid, c3) /\
    initialize_in_place HlcService_new c3 now uuid = Ok (mkHlcService (Some h) false) /\
    ensure_triggers_initialized (dc_trigger_version config) c3 = (Ok triggers, c4) /\
    stamp_unstamped_rows c4 (mkHlcService (Some h) false) now_stamp = (Ok rows, conn, svc).
Proof.
  unfold open_steps. intros Ho. apply io_bind_Ok in Ho as ([] & c1 & Hl & Ho). apply io_bind_Ok in Ho as (rep & c2 & Hm & Ho).
  apply io_bind_Ok in Ho as (uuid1 & c3 & Hb%run_tx_Ok & Ho).
  apply io_bind_Ok in Ho as (svc1 & c3' & (Hi%map_err_Ok & ->)%io_read_Ok & Ho).
  apply io_bind_Ok in Ho as (al & c4 & Ht & Ho).
  destruct (stamp_unstamped_rows c4 svc1 now_stamp) as [[[n| |] c5] svc2] eqn:Hst; [|done..]. injection Ho as <- <- <-.
  pose proof Hi as Hi'. unfold initialize_in_place in Hi. apply bind_Ok in Hi as (hb & _ & [= <-]).
  exists c1, rep, c2, c3, hb, al, c4, n.
  unfold io_exec in Hl. destruct (from_db (db_from_sql (set_length_limit conn0 _))) as [x| |] eqn:Hx; [|done..].
  injection Hl as <-. apply map_err_Ok, map_err_Ok in Hx.
  split; [done|]. split; [done|]. split; [done|]. split; [done|]. split; [|done].
  unfold io_map_err in Ht. destruct (ensure_triggers_initialized _ c3) as [rt c]. injection Ht as Hrt <-.
  apply map_err_Ok in Hrt. by rewrite Hrt.
Qed.

(** A clock started on a database has passed the HLC it found there. *)
Lemma initialize_covers `{Unicode} `{Serde} {U : Uhlc} `{!UhlcLaws} {db} `{Rusqlite db} (conn : db) now uuid h t :
  initialize_in_place HlcService_new conn now uuid = Ok (mkHlcService (Some h) false) ->
  load_last_timestamp conn = Ok (Some t) -> ts_time t <= hlc_last h.
Proof.
  unfold initialize_in_place. intros Hi Ht. apply bind_Ok in Hi as (hb & Hb & [= ->]).
  unfold build_hlc_from_db in Hb. apply bind_Ok in Hb as (node & _ & Hb). rewrite Ht in Hb. cbn in Hb.
  destruct (hlc_update_with_timestamp _ now t) as [[[]| |] hu] eqn:Hu; [|done..]. injection Hb as ->.
  by apply hlc_update_covers in Hu as [? _].
Qed.

(** C26: an open database owns its file, a failed open owns nothing: when
    [open] fails, at whatever step, every lock is held exactly as before; when it
    succeeds, the lock file of the normalized path - free before - is held, the
    handle is not poisoned, both its limits are the configuration's, and the
    configured value limit was set on the connection. That connection went, in this
    order, through the migrations, the bootstrap hook (which named the handle's
    device), the triggers and the stamping, and is the handle's; the clock was
    started for that device on what the bootstrap left of it, and has passed the HLC
    found there, so it cannot issue it again. *)
Theorem open_owns_or_releases `{Unicode} `{Serde} {U : Uhlc} `{!UhlcLaws} `{SqlParser} `{Sha256} {F : FileSystem} `{!FsLaws}
    {db} `{HR : Rusqlite db} `{!OpenDb db} {K : ConnHooks} fuel (config : DatabaseConfig db) h now now_stamp f r f' :
  open fuel config h now now_stamp f = Some (r, f') ->
  match r with
  | Ok d => held f (lock_path (di_lock d)) = false /\ held f' (lock_path (di_lock d)) = true /\
      normalize_database_path_inner fuel f (dc_path config) [] = Some (Ok (database_path (di_lock d))) /\
      m_poisoned (di_conn d) = false /\ di_max_transaction_bytes d = dc_max_transaction_bytes config /\
      di_max_value_bytes d = dc_max_value_bytes config /\
      exists conn0 conn1 rep conn2 conn3 h triggers conn4 rows,
        open_and_init_db (display (dc_path config)) (dc_key config) (dc_create_if_missing config) = Ok conn0 /\
        set_length_limit conn0 (limit_value (dc_max_value_bytes config)) = Ok conn1 /\
        run_migrations (dc_migration_source config) conn1 = (Ok rep, conn2) /\
        dc_bootstrap config conn2 = Ok (device_id d, conn3) /\
        initialize_in_place HlcService_new conn3 now (device_id d) = Ok (mkHlcService (Some h) false) /\
        ensure_triggers_initialized (dc_trigger_version config) conn3 = (Ok triggers, conn4) /\
        stamp_unstamped_rows conn4 (mkHlcService (Some h) false) now_stamp =
          (Ok rows, db_of (m_value (di_conn d)), clock_of (m_value (di_conn d))) /\
        exists clock, hlc_slot (clock_of (m_value (di_conn d))) = Some clock /\ hlc_last h <= hlc_last clock /\
          forall t, load_last_timestamp conn3 = Ok (Some t) -> ts_time t <= hlc_last clock
  | _ => forall q, held f' q = held f q
  end.
Proof.
  unfold open. destruct (negb (valid_utf8 _)); [by intros [= <- <-]|].
  destruct (try_acquire fuel f (dc_path config)) as [[[lk|e|m] f1]|] eqn:Hacq; [| | |done].
  2, 3: apply try_acquire_held in Hacq; by intros [= <- <-].
  apply try_acquire_held in Hacq as (Hfree & Hh & Hf1 & Hn & Hlp).
  pose proof (drop_lock_held f f1 lk Hfree Hh Hf1) as Hdrop.
  destruct (from_db (open_and_init_db _ _ _)) as [conn0| |] eqn:Hopen; [|by intros [= <- <-]..]. apply map_err_Ok in Hopen.
  destruct (open_steps config now now_stamp conn0) as [[[uuid svc]| |] conn] eqn:Ho; intros [= <- <-]; [|done..].
  cbn [fresh_handle di_lock di_conn m_poisoned di_max_transaction_bytes di_max_value_bytes].
  split; [done|]. split; [by rewrite Hf1, bool_decide_eq_true_2|]. do 4 (split; [done|]).
  apply open_steps_Ok in Ho as (c1 & rep & c2 & c3 & hb & al & c4 & n & Hlim & Hmig & Hboot & Hinit & Htr & Hst).
  exists conn0, c1, rep, c2, c3, hb, al, c4, n. do 7 (split; [done|]).
  destruct (stamp_clock c4 (mkHlcService (Some hb) false) now_stamp (Ok n) conn svc hb eq_refl Hst) as (clock & Hclock & Hle).
  exists clock. split; [done|]. split; [done|]. intros t Ht. etrans; [by eapply initialize_covers|done].
Qed.

(** ** Witnesses *)

#[local] Existing Instance mini_uhlc.
#[local] Existing Instance mini_hooks.
#[local] Existing Instance mini_sql_write.
#[local] Existing Instance mini_fs.

#[export] Instance sp_fk_laws : FkLaws Sp.
Proof.
  split.
  - intros c on n c' [= <- <-]. by destruct on.
  - intros c on. by eexists _, _.
Qed.

Definition mini_handle : Database (db := Sp) :=
  mkDatabase (mkMutex mini_conn false) NoopSignatureProvider (StaticMigrationSource []) [1] 1000 MAX_VALUE_BYTES (@mkLock mini_fs mini_real mini_real mini_real).
Definition mini_panicking : closure unit unit := Execute (20, 20) "insert" [] (fun _ => Done (Panic "boom")).

Lemma mini_clean : clean mini_hard_limit mini_handle.
Proof. done. Qed.


Abbreviation mini_schema_write :=
  (write_guarded_with mini_guard (mkOptions true false) mini_panicking mini_handle).

Lemma schema_write_restores_connection_witness :
  fst mini_schema_write = Panic "boom" /\
  foreign_keys_enabled (m_value (di_conn (snd mini_schema_write))) = Ok true.
Proof.
  split; [vm_compute; reflexivity|].
  apply (schema_write_restores_connection mini_hard_limit mini_guard (mkOptions true false) mini_panicking mini_handle
    (snd mini_schema_write) true (Panic "boom") mini_clean ltac:(by intros g b [= <-] [= <-])
    (conj mini_calm_insert (fun _ => I)) eq_refl eq_refl).
  apply pair_result. vm_compute. reflexivity.
Defined.

(** A file: the journals and the tables. *)
Record MiniFile := mkMiniFile { mf_journal : MiniJournal; mf_mem : Mem }.

#[export] Instance mini_file_db : Rusqlite MiniFile := {
  prepare c st := Ok tt;
  execute c st ps :=
    match st with
    | JournalInsert _ | RawSql _ => r ← execute (mf_journal c) st ps; Ok (fst r, mkMiniFile (snd r) (mf_mem c))
    | _ => r ← execute (mf_mem c) st ps; Ok (fst r, mkMiniFile (mf_journal c) (snd r))
    end;
  query c st ps :=
    match st with
    | ReadJournal _ | JournalDigest _ => query (mf_journal c) st ps
    | TableExists => Ok [[SInteger 0]]
    | _ => query (mf_mem c) st ps
    end;
  table_info c t := table_info (mf_mem c) t;
  begin_immediate c := Ok tt;
  begin_deferred c := Ok tt;
  commit c := Ok tt;
}.

(** A fresh file: every call succeeds. *)
#[export] Instance mini_open_db : OpenDb MiniFile := {
  open_with_flags path create :=
    Ok (mkMiniFile (mkMiniJournal ∅ []) (set_config (mini_mem []) HLC_TIMESTAMP_TYPE (ts_to_string (mkTs 30 1))));
  busy_timeout c ms := Ok c;
  pragma_update c name value := Ok c;
  create_scalar_function c name := Ok c;
  install_hook c name := Ok c;
  journal_mode_wal c := Ok ("wal", c);
  set_length_limit c n := Ok c;
}.

Definition mini_config_open : DatabaseConfig MiniFile :=
  mkConfig mini_real "key" true (StaticDeviceId [1]) NoopSignatureProvider (StaticMigrationSource []) DEFAULT_TRIGGER_VERSION 1000 MAX_VALUE_BYTES.
Definition mini_opened := open (db := MiniFile) 2 mini_config_open mini_plain_hooks 20 21 [].

Definition mini_is_open (r : option (res Error (Database (db := MiniFile)) * fs)) : bool :=
  match r with Some (Ok _, _) => true | _ => false end.

Lemma opened_some (r : option (res Error (Database (db := MiniFile)) * fs)) :
  mini_is_open r = true -> exists d f, r = Some (Ok d, f).
Proof. destruct r as [[[d|e|m] f]|]; try done. intros _. by exists d, f. Qed.

Lemma open_owns_or_releases_witness :
  exists (d : Database (db := MiniFile)) f, mini_opened = Some (Ok d, f) /\ held f (lock_path (di_lock d)) = true /\
    m_poisoned (di_conn d) = false.
Proof.
  destruct (opened_some mini_opened) as (d & f & Ho); [vm_compute; reflexivity|].
  exists d, f. split; [exact Ho|].
  destruct (open_owns_or_releases (U := mini_uhlc) (F := mini_fs) (K := mini_hooks) (db := MiniFile) 2 mini_config_open mini_plain_hooks 20 21 [] (Ok d) f Ho) as (_ & Hh & _ & Hp & _).
  by split.
Defined.
