(* ===== verification/Handle.v ===== *)
(** * A handle over its life (src/database/mod.rs)

    Every call on an open handle is a step; what no sequence of steps can do: set
    the clock back, leave a guard behind, poison the connection, or change what
    [open] fixed. The raw connection is left out: what its closure does is the
    consumer's. *)

From S2P Require Import Prelude Utf8 Hashing Names Json Sql Mini Hlc Context Trigger Report Errors Lock SqlAst Prefix Transform CrdtWrite Value Scanner Preimage Policy Preflight Cleanup Init Compat Migrations Install Engine Guard Schema Session WritePath Database.

(** The clock of both sides is the same by computation. *)
Ltac same_clock := exact (reflexivity (R := clock_le) _).

(** ** The clock through one connection *)

Section clock.
Context `{Unicode} `{SqlParser} {U : Uhlc} `{!UhlcLaws} {db : Type} `{HR : Rusqlite db} `{HL : !LiveDb db}
  {K : ConnHooks} `{!HookLaws} `{!Statements db}.

Abbreviation txn := (CrdtTransaction db).

Definition conn_later (c c' : Conn db) : Prop := clock_le (clock_of c) (clock_of c').
#[export] Instance conn_later_preorder : PreOrder conn_later.
Proof. split; [intros c; unfold conn_later; reflexivity|]. unfold conn_later. intros c1 c2 c3 H12 H23. by etrans. Qed.

Lemma run_later (c : Conn db) d evs : conn_later c (with_raised c d evs).
Proof. apply run_clock. Qed.

Lemma execute_later (c : Conn db) st ps k c' : execute c st ps = Ok (k, c') -> conn_later c c'.
Proof. intros (d & _ & ->)%conn_execute_Ok. apply run_later. Qed.

(** In a transaction the guard stays as well. *)
Definition tx_later (t t' : txn) : Prop := tx_guard t' = tx_guard t /\ conn_later (tx t) (tx t').
#[export] Instance tx_later_preorder : PreOrder tx_later.
Proof.
  split; [intros t; split; [done|reflexivity]|]. intros t1 t2 t3 [Hg1 H12] [Hg2 H23]. split; [congruence|]. by etrans.
Qed.

Lemma on_conn_later {A} (m : conn_io (Conn db) Error A) : grows conn_later m -> grows tx_later (on_conn m).
Proof.
  intros Hm t r t'. unfold on_conn. destruct (m (tx t)) as [r1 c] eqn:Hact. intros [= <- <-].
  split; [done|]. by eapply Hm.
Qed.

Definition live_later (l l' : LiveTx db) : Prop := clock_le (snd (lt_conn l)) (snd (lt_conn l')).
#[export] Instance live_later_preorder : PreOrder live_later.
Proof. split; [intros l; unfold live_later; reflexivity|]. unfold live_later. intros l1 l2 l3 H12 H23. by etrans. Qed.

Lemma on_live_later {A} (m : conn_io (LiveTx db) DatabaseError A) : grows live_later m -> grows tx_later (on_live m).
Proof.
  intros Hm t r t'. unfold on_live. destruct (m (cn_live (tx t))) as [r1 l] eqn:Hact. intros [= <- <-].
  split; [done|]. by eapply Hm.
Qed.

Lemma transform_write_later now now2 stmt : grows live_later (transform_write (db := db) now now2 stmt).
Proof.
  apply (transform_write_grows _).
  - intros c n r ctx svc Hc. by apply current_or_new_clock in Hc.
  - intros c n t r svc Hu. by apply update_hlc_with_clock in Hu.
  - intros c st ps k c' He. cbn in He. apply bind_Ok in He as ([n d] & He & [= <- <-]). apply run_clock.
Qed.

Lemma prepare_later nows sql params : grows tx_later (prepare_statement (db := db) nows sql params).
Proof.
  kapply prepare_statement_grows; [|intros; apply on_live_later, transform_write_later].
  intros t r t'. unfold charge. destruct (serialized_parameter_bytes params); [|by intros [= <- <-]..].
  destruct (_ <? _); intros [= <- <-]; by split.
Qed.

Lemma note_rollback_later (t : txn) : tx_later t (note_rollback t).
Proof. unfold note_rollback. destruct (aborted t); [done|]. destruct (tx_autocommit t); by split. Qed.

Lemma finish_later {T} sql (result : res SqlError T) interrupted : grows tx_later (finish (db := db) sql result interrupted).
Proof.
  intros t r t'. unfold finish. destruct interrupted; [intros [= <- <-]; by split|].
  destruct result; intros [= <- <-]; [done|apply note_rollback_later|done].
Qed.

Lemma stepping_later {T} (exec : hooks -> bool -> db -> outcome db T) h c b result answers s :
  stepping exec h (c, b) = (result, answers, s) -> conn_later c (fst s).
Proof. intros [= <- <- <-]. apply run_clock. Qed.

Lemma run_plain_later {T} sql (exec : hooks -> bool -> db -> outcome db T) : grows tx_later (run_plain sql exec).
Proof.
  intros t r t'. unfold run_plain. destruct (stepping exec _ _) as [[result answers] s] eqn:Hs.
  intros Hf%finish_later. apply stepping_later in Hs. etrans; [|exact Hf]. split; [done|exact Hs].
Qed.

Lemma run_window_later {T} guard sql (exec : hooks -> bool -> db -> outcome db T) :
  guard_sane (Some guard) -> grows tx_later (run_window guard sql exec).
Proof.
  intros Hg t r t'. unfold run_window. destruct (run_guarded guard _ _ _ _) as [[rg h] s] eqn:Hr.
  apply run_guarded_spec in Hr; [|intros bytes; by apply Hg]. destruct Hr as (_ & _ & _ & Hr).
  assert (tx_later t (set_stepped t h s)) as Hs.
  { split; [done|]. destruct Hr as [(e & _ & ->)|(hr & result & answers & Hst & _)]; [same_clock|]. exact (stepping_later _ _ _ _ _ _ _ Hst). }
  destruct rg as [[result interrupted]| |]; [|by intros [= <- <-]..]. intros Hf%finish_later. by etrans.
Qed.

Lemma window_then_later {T} guard sql (exec : hooks -> bool -> db -> outcome db T) (m : conn_io (Conn db) Error unit) :
  guard_sane (Some guard) -> grows conn_later m ->
  grows tx_later (value <- run_window guard sql exec ;; _c <- on_conn m ;; io_ret value)%io.
Proof.
  intros Hg Hm. kapply kept_bind; [by apply run_window_later|]. intros v.
  kapply kept_bind; [by apply on_conn_later|]. intros _. kapply kept_ret.
Qed.

Lemma rollback_later (t : txn) : tx_later t (set_conn t (rollback (tx t))).
Proof. split; [done|]. apply (rollback_keeps conn_later). apply execute_later. Qed.

Lemma run_stmt_later {T} nows sql params (exec : string -> hooks -> bool -> db -> outcome db T) (t : txn) r t' :
  guard_sane (tx_guard t) -> Session.run nows sql params exec t = (r, t') -> tx_later t t'.
Proof.
  intros Hg. unfold Session.run. unfold io_bind at 1, ensure_open. destruct (aborted t); [by intros [= <- <-]|].
  unfold io_bind at 1. destruct (prepare_statement nows sql params t) as [rp t1] eqn:Hp. apply prepare_later in Hp.
  destruct rp as [p|e|m]; [|by intros [= <- <-]..]. intros Hr. etrans; [exact Hp|]. destruct Hp as [Hg1 _].
  destruct (tx_guard t1) as [guard|] eqn:Hgt; [|by eapply run_plain_later].
  assert (guard_sane (Some guard)) as Hs by (by rewrite Hg1).
  destruct (ps_schema p) as [change|]; [|by eapply run_window_later].
  assert (grows conn_later (begin_change (db := Conn db) change)) as Hb by (kapply kept_begin_change; apply execute_later).
  assert (grows conn_later (complete (db := Conn db) change)) as Hc by (kapply kept_complete; apply execute_later).
  unfold io_bind at 1 in Hr. destruct (on_conn (begin_change change) t1) as [rb t2] eqn:Hbe. apply (on_conn_later _ Hb) in Hbe.
  destruct rb as [[]|e|m]; [|by injection Hr as <- <-..]. etrans; [exact Hbe|].
  cbv beta in Hr. lazymatch type of Hr with (match ?m t2 with _ => _ end) = _ => destruct (m t2) as [r3 t3] eqn:H3 end.
  apply (window_then_later _ _ _ _ Hs Hc) in H3. etrans; [exact H3|].
  destruct r3; injection Hr as <- <-; [done| |done]. etrans; [apply rollback_later|apply note_rollback_later].
Qed.

Lemma or_schema_rollback_later {A} (m : conn_io txn Error A) : grows tx_later m -> grows tx_later (or_schema_rollback m).
Proof.
  intros Hm t r t'. unfold or_schema_rollback. destruct (m t) as [rm tm] eqn:Hr. apply Hm in Hr.
  destruct rm; intros [= <- <-]; [done| |done]. etrans; [exact Hr|apply rollback_later].
Qed.

Lemma copy_rows_later sql params (t : txn) r t' :
  guard_sane (tx_guard t) -> copy_rows_verbatim sql params t = (r, t') -> tx_later t t'.
Proof.
  intros Hg. unfold copy_rows_verbatim. unfold io_bind at 1, ensure_open. destruct (aborted t); [by intros [= <- <-]|].
  destruct (tx_guard t) as [guard|]; [|by intros [= <- <-]]. destruct (schema_mode (options t)); [|by intros [= <- <-]].
  revert t r t'. lazymatch goal with |- forall t r t', ?m t = _ -> _ => change (grows tx_later m) end.
  kapply kept_bind; [kapply kept_read|]. intros stmt. kapply kept_bind; [kapply kept_read|]. intros stmt'.
  kapply kept_bind; [intros t r t'; unfold charge; destruct (serialized_parameter_bytes params); [|by intros [= <- <-]..];
    destruct (_ <? _); intros [= <- <-]; by split|]. intros _.
  kapply kept_bind; [apply on_conn_later; kapply kept_begin_verbatim; apply execute_later|]. intros previous.
  apply or_schema_rollback_later, window_then_later; [done|]. kapply kept_end_verbatim. apply execute_later.
Qed.

Lemma run_closure_later {R T} (f : closure R T) : forall (t : txn) r t',
  guard_sane (tx_guard t) -> run_closure f t = (r, t') -> tx_later t t'.
Proof.
  assert (forall (t t1 t' : txn), guard_sane (tx_guard t) -> tx_later t t1 ->
    (guard_sane (tx_guard t1) -> tx_later t1 t') -> tx_later t t') as Hnext.
  { intros t t1 t' Hg H01 H12. etrans; [exact H01|]. apply H12. by rewrite (proj1 H01). }
  induction f as [r0|nows sql params k IH|nows sql params g k IH|nows sql params g k IH|sql params k IH|k IH];
    intros t r t' Hg; cbn [run_closure].
  - by intros [= <- <-].
  - destruct (execute_call nows sql params t) as [r1 t1] eqn:Hr. intros Hk. eapply Hnext; [done|by eapply run_stmt_later|eauto].
  - destruct (query_with_columns nows sql params g t) as [r1 t1] eqn:Hr. intros Hk. eapply Hnext; [done|by eapply run_stmt_later|eauto].
  - destruct (query_row_call nows sql params g t) as [r1 t1] eqn:Hr. intros Hk. eapply Hnext; [done|by eapply run_stmt_later|eauto].
  - destruct (copy_rows_verbatim sql params t) as [r1 t1] eqn:Hr. intros Hk. eapply Hnext; [done|by eapply copy_rows_later|eauto].
  - eauto.
Qed.

(** However a write ends, the clock stays where its statements moved it. *)
Lemma drop_tx_later (conn : Conn db) (t : txn) : conn_later (tx t) (drop_tx conn t).
Proof. unfold drop_tx. destruct (tx_autocommit t); same_clock. Qed.

Lemma run_write_later {R T} max guard opts (f : closure R T) (conn : Conn db) r conn' :
  guard_sane guard -> run_write max guard opts f conn = (r, conn') -> conn_later conn conn'.
Proof.
  intros Hg. unfold run_write. destruct (begin_immediate conn); [|by intros [= <- <-]..].
  unfold io_bind at 1. destruct (run_closure f (begin_tx conn max guard opts)) as [rc t] eqn:Hr.
  apply run_closure_later in Hr as [_ Hr]; [|done]. change (conn_later conn (tx t)) in Hr.
  pose proof (drop_tx_later conn t) as Hd.
  destruct rc as [value| |]; [|intros [= <- <-]; by etrans..].
  unfold io_bind. destruct (before_commit opts t) as [rk tk] eqn:Hk. apply before_commit_cases in Hk as [-> _].
  destruct rk as [[]| |]; [|intros [= <- <-]; by etrans..]. unfold io_ret, commit_tx.
  assert (conn_later (tx t) (committed (tx t))) as Hcm by (unfold committed; destruct (commit_hook _); same_clock).
  destruct (tx_autocommit t) eqn:Ho; [intros [= <- <-]; by etrans|].
  destruct (commit (tx t)) as [[]| |]; intros [= <- <-]; [by etrans| |by etrans]. etrans; [exact Hr|].
  etrans; [|apply drop_tx_later]. unfold uncommitted. by destruct (commit_fails_late _).
Qed.

Lemma with_fk_disabled_later {R} (on_sql : SqlError -> Error) (conn : Conn db) (body : conn_io (Conn db) Error R) r conn' :
  grows conn_later body -> with_fk_disabled on_sql conn body = (r, conn') -> conn_later conn conn'.
Proof.
  intros Hb. unfold with_fk_disabled. destruct (foreign_keys_enabled conn) as [was| |]; [|by intros [= <- <-]..].
  destruct (execute conn (SetForeignKeys false) []) as [[n c1]| |] eqn:He; [|by intros [= <- <-]..].
  apply execute_later in He. destruct (body c1) as [rb c2] eqn:Hr. apply Hb in Hr. intros [= <- <-].
  etrans; [exact He|]. etrans; [exact Hr|]. unfold restore_foreign_keys.
  destruct (execute c2 (SetForeignKeys was) []) as [[k c3]| |] eqn:Ho; cbn; [by eapply execute_later|done..].
Qed.

(** Reads. *)
Lemma view_step_later {T} (exec : hooks -> bool -> db -> outcome db T) v r v' :
  guard_sane (ro_guard v) -> view_step exec v = (r, v') -> ro_guard v' = ro_guard v /\ conn_later (ro_conn v) (ro_conn v').
Proof.
  intros Hg. unfold view_step. destruct (ro_guard v) as [guard|].
  - destruct (run_guarded _ _ _ _ _) as [[rg h] s] eqn:Hr. apply run_guarded_spec in Hr; [|intros bytes; by apply Hg].
    destruct Hr as (_ & _ & _ & Hr). intros [= <- <-]. split; [done|].
    destruct Hr as [(e & _ & ->)|(hr & result & answers & Hst & _)]; [same_clock|]. exact (stepping_later _ _ _ _ _ _ _ Hst).
  - unfold stepping. intros [= <- <-]. split; [done|]. apply run_clock.
Qed.

Lemma run_view_later {R T} (f : read_closure R T) : forall v r v',
  guard_sane (ro_guard v) -> run_view f v = (r, v') -> conn_later (ro_conn v) (ro_conn v').
Proof.
  assert (forall (X : Type) (exec : hooks -> bool -> db -> outcome db X) v x v1 (v' : ReadOnlyConnection (db := db)),
    guard_sane (ro_guard v) -> view_step exec v = (x, v1) ->
    (guard_sane (ro_guard v1) -> conn_later (ro_conn v1) (ro_conn v')) -> conn_later (ro_conn v) (ro_conn v')) as Hnext.
  { intros X exec v x v1 v' Hg Hs Hk. apply view_step_later in Hs as [Hg1 Hl]; [|done]. etrans; [exact Hl|]. apply Hk. by rewrite Hg1. }
  induction f as [r0|sql params g k IH|sql params g k IH|sql params g k IH]; intros v r v' Hg; cbn [run_view].
  - by intros [= <- <-].
  - destruct (view_query_row sql params g v) as [r1 v1] eqn:Hr. apply view_call in Hr as (x & Hr). intros Hk.
    eapply Hnext; [done|exact Hr|eauto].
  - destruct (view_query_map sql params g v) as [r1 v1] eqn:Hr. apply view_call in Hr as (x & Hr). intros Hk.
    eapply Hnext; [done|exact Hr|eauto].
  - destruct (view_query_with_columns sql params g v) as [r1 v1] eqn:Hr. apply view_call in Hr as (x & Hr). intros Hk.
    eapply Hnext; [done|exact Hr|eauto].
Qed.

Lemma run_read_later {R T} guard (f : read_closure R T) (conn : Conn db) r conn' :
  guard_sane guard -> run_read guard f conn = (r, conn') -> conn_later conn conn'.
Proof.
  assert (forall c : Conn db, conn_later c (QueryOnly_drop c)) as Hdrop.
  { intros c. unfold QueryOnly_drop, set_query_only. destruct (st_query_only _ _ _) as [[e d] evs]. apply run_clock. }
  intros Hg. unfold run_read. destruct (QueryOnly_enable conn) as [re c1] eqn:He.
  assert (conn_later conn c1) as Hl.
  { unfold QueryOnly_enable, set_query_only in He. destruct (st_query_only _ _ _) as [[e d] evs]. injection He as _ <-. apply run_clock. }
  clear He. rename Hl into He. destruct re as [[]| |]; [|by intros [= <- <-]..]. unfold ReadOnlyConnection_enable. destruct (install_read_only (cn_hooks c1)) as [h| |]; cbn;
    [|intros [= <- <-]; etrans; [exact He|apply Hdrop]..].
  destruct (run_view f _) as [rv v] eqn:Hv. apply run_view_later in Hv; [|done]. intros [= <- <-].
  etrans; [exact He|]. etrans; [exact Hv|]. etrans; [|apply Hdrop].
  destruct (set_authorizer (cn_hooks (ro_conn v)) None); same_clock.
Qed.

(** The components' calls. *)
Lemma raise_later evs (c : Conn db) : conn_later c (raise evs c) /\ cn_hooks (raise evs c) = cn_hooks c.
Proof.
  split; [apply run_later|done].
Qed.

Lemma on_db_later {R} evs (f : conn_io db Error R) c r c' :
  on_db evs f c = (r, c') -> conn_later c c' /\ cn_hooks c' = cn_hooks c.
Proof.
  unfold on_db. destruct (f (db_of c)) as [r1 d]. intros [= <- <-].
  exact (raise_later evs (with_live c (mkLive d (lt_conn (cn_live c))))).
Qed.

Lemma on_db_clock_later {R} before after (f : db -> HlcService -> res Error R * db * HlcService) c r c' :
  (forall d svc r d' svc', f d svc = (r, d', svc') -> clock_le svc svc') ->
  on_db_clock before after f c = (r, c') -> conn_later c c' /\ cn_hooks c' = cn_hooks c.
Proof.
  intros Hf. unfold on_db_clock. destruct (raise_later before c) as [Hb Hh]. set (c1 := raise before c) in *.
  destruct (f (db_of c1) (clock_of c1)) as [[r1 d] svc] eqn:Hr. apply Hf in Hr. intros [= <- <-].
  set (c2 := with_live c1 _). destruct (raise_later after c2) as [Ha Hha]. split; [|by rewrite Hha].
  etrans; [exact Hb|]. change (conn_later c1 c2) in Hr. by etrans.
Qed.
End clock.

Lemma install_crdt_clock `{Unicode} `{Serde} `{Base64} `{UhlcLaws} `{Sha256} {db} `{Rusqlite db}
    (conn : db) table opts svc now provider r conn' svc' :
  Install.install_crdt conn table opts svc now provider = (r, conn', svc') -> clock_le svc svc'.
Proof.
  unfold Install.install_crdt. destruct (negb _); [by intros [= <- <- <-]|].
  destruct (via_db (begin_immediate conn) ≫= _) as [[tx [|]]| |]; [| |by intros [= <- <- <-]..].
  - destruct (negb _); intros [=]; by subst.
  - destruct (setup_crdt tx table) as [tx1| |]; [|by intros [= <- <- <-]..].
    unfold backfill_existing_rows. destruct (via_db (get_table_schema tx1 table) ≫= _) as [[[pks cols] [|row rows]]| |].
    2: { unfold issue_hlc, new_timestamp_and_persist. destruct (new_timestamp svc now) as [rt svc1] eqn:Hn.
         apply new_timestamp_clock in Hn.
         destruct rt as [t| |]; intros [=]; by subst. }
    all: intros [=]; by subst.
Qed.

Lemma apply_remote_changes_clock `{Unicode} `{Serde} `{UhlcLaws} `{HashOrder} {db} `{Rusqlite db} {P}
    (policy : ApplyPolicy db P) now now_commit (conn : db) changes svc p r conn' svc' :
  Engine.apply_remote_changes policy now now_commit conn changes svc p = (r, conn', svc') -> clock_le svc svc'.
Proof.
  unfold Engine.apply_remote_changes. destruct (commit_batch policy now conn changes p) as [[[[o [h|]] p2]| |] c1];
    [|by intros [= <- <- <-]..].
  destruct (advance_past_remote svc now_commit h) as [adv svc1] eqn:Ha. apply advance_past_remote_clock in Ha.
  destruct adv; by intros [= <- <- <-].
Qed.

(** ** The calls as steps *)

Section life.
Context `{Unicode} `{Serde} {U : Uhlc} `{!UhlcLaws} `{SqlParser} `{Sha256} `{Base64} `{HashOrder} `{Uuid} {F : FileSystem}
  {db : Type} `{HR : Rusqlite db} `{HL : !LiveDb db} {K : ConnHooks} `{!HookLaws} `{!Statements db}
  `{!SavepointLaws db} `{HT : !TxLaws db} `{HRd : !ReadLaws db}.

(** What the service returned by [hlc()] does without a connection. *)
Inductive clock_call (svc : HlcService) : HlcService -> Prop :=
| call_new_timestamp now r svc' : new_timestamp svc now = (r, svc') -> clock_call svc svc'
| call_update now t r svc' : update_with_timestamp svc now t = (r, svc') -> clock_call svc svc'
| call_advance now s r svc' : advance_past_remote svc now s = (r, svc') -> clock_call svc svc'.

(** One call on the handle, with any arguments and any result; the SQL of a
    closure is no transaction control. *)
Inductive handle_step (d : Database (db := db)) : Database (db := db) -> Prop :=
| step_write R T (f : closure R T) r d' :
    calm_closure f -> write f d = (r, d') -> handle_step d d'
| step_write_guarded R T guard options (f : closure R T) r d' :
    guard_sane (Some guard) -> calm_closure f -> write_guarded_with guard options f d = (r, d') -> handle_step d d'
| step_read R T (f : read_closure R T) r d' : read f d = (r, d') -> handle_step d d'
| step_read_guarded R T guard (f : read_closure R T) r d' :
    guard_sane (Some guard) -> read_guarded guard f d = (r, d') -> handle_step d d'
| step_observe : handle_step d (observe_committed_changes d)
| step_clock svc : clock_call (hlc d) svc -> handle_step d (set_hlc_service d svc)
| step_migrations evs r d' : apply_migrations evs d = (r, d') -> handle_step d d'
| step_install before after now table opts r d' : install_crdt before after now table opts d = (r, d') -> handle_step d d'
| step_scan_dirty r d' : scan_dirty_tables d = (r, d') -> handle_step d d'
| step_scan table after filters r d' : scan_table_for_local_changes table after filters d = (r, d') -> handle_step d d'
| step_apply evs now now_commit changes r d' :
    apply_remote_changes evs now now_commit changes d = (r, d') -> handle_step d d'
| step_cleanup evs policy before_prune r d' : cleanup_deleted_rows evs policy before_prune d = (r, d') -> handle_step d d'.

(** What a step keeps, and the clock that only moves on. *)
Record handle_later (limit : Z) (d d' : Database (db := db)) : Prop := {
  hl_clean : clean limit d';
  hl_clock : clock_le (hlc d) (hlc d');
  hl_device : device_id d' = device_id d;
  hl_lock : di_lock d' = di_lock d;
  hl_limits : di_max_transaction_bytes d' = di_max_transaction_bytes d /\ di_max_value_bytes d' = di_max_value_bytes d;
  hl_seams : di_signature_provider d' = di_signature_provider d /\ di_migration_source d' = di_migration_source d;
}.

Lemma handle_later_trans limit d1 d2 d3 : handle_later limit d1 d2 -> handle_later limit d2 d3 -> handle_later limit d1 d3.
Proof.
  intros [_ Hc1 Hd1 Hl1 [Hm1 Hv1] [Hs1 Hi1]] [Hk Hc2 Hd2 Hl2 [Hm2 Hv2] [Hs2 Hi2]].
  split; [done|by etrans|congruence|congruence|split; congruence|split; congruence].
Qed.

(** A call under the lock moves only the connection. *)
Lemma locked_later {R} limit (f : conn_io (Conn db) Error R) d r d' :
  clean limit d ->
  (forall r c', f (m_value (di_conn d)) = (r, c') -> conn_later (m_value (di_conn d)) c' /\ unguarded limit (cn_hooks c')) ->
  with_locked_conn f d = (r, d') -> handle_later limit d d'.
Proof.
  intros [Hp Hu] Hf. rewrite with_locked_conn_eq by done. destruct (f (m_value (di_conn d))) as [r1 c'] eqn:Hr.
  intros [= <- <-]. destruct (Hf _ _ eq_refl) as [Hl Hu']. by split.
Qed.

(** ... and one that leaves the hooks alone leaves no guard. *)
Lemma locked_component {R} limit (f : conn_io (Conn db) Error R) d r d' :
  clean limit d -> (forall c r c', f c = (r, c') -> conn_later c c' /\ cn_hooks c' = cn_hooks c) ->
  with_locked_conn f d = (r, d') -> handle_later limit d d'.
Proof.
  intros Hd Hf. apply locked_later; [done|]. intros r1 c' [Hl Hh]%Hf. split; [done|]. rewrite Hh. apply Hd.
Qed.

Lemma read_later {R} (f : Conn db -> res Error R) c r c' :
  io_read f c = (r, c') -> conn_later c c' /\ cn_hooks c' = cn_hooks c.
Proof. intros [= <- <-]. split; [same_clock|done]. Qed.

Lemma run_write_unguarded {R T} limit max guard options (f : closure R T) c r c' :
  guard_sane guard -> unguarded limit (cn_hooks c) -> calm_closure f -> run_write max guard options f c = (r, c') ->
  unguarded limit (cn_hooks c').
Proof. intros Hg (Ha & Hp & <-) Hc Hr. by apply run_write_spec in Hr as [Hu _]. Qed.

Lemma run_read_unguarded {R T} limit guard (f : read_closure R T) c r c' :
  guard_sane guard -> unguarded limit (cn_hooks c) -> run_read guard f c = (r, c') -> unguarded limit (cn_hooks c').
Proof. intros Hg (Ha & Hp & <-) Hr. by apply run_read_spec in Hr as (_ & _ & Hu & _). Qed.

Lemma fk_write_unguarded {R T} limit max guard options (f : closure R T) on_sql (c : Conn db) r c' :
  guard_sane guard -> unguarded limit (cn_hooks c) -> calm_closure f ->
  with_fk_disabled on_sql c (fun c => run_write max guard options f c) = (r, c') -> unguarded limit (cn_hooks c').
Proof.
  intros Hg Hu Hc. unfold with_fk_disabled. destruct (foreign_keys_enabled c) as [was| |]; [|by intros [= <- <-]..].
  destruct (execute c (SetForeignKeys false) []) as [[n c1]| |] eqn:He; [|by intros [= <- <-]..].
  apply conn_execute_Ok in He as (x & _ & ->). destruct (run_write max guard options f _) as [rb c2] eqn:Hr. intros [= <- <-].
  apply (run_write_unguarded limit) in Hr; [|done..]. unfold restore_foreign_keys.
  destruct (execute c2 (SetForeignKeys was) []) as [[k c3]| |] eqn:Ho; cbn; [|done..].
  by apply conn_execute_Ok in Ho as (y & _ & ->).
Qed.

Lemma step_later limit d d' : clean limit d -> handle_step d d' -> handle_later limit d d'.
Proof.
  assert (guard_sane None) as Hnone by (by intros g b [=]). intros Hd Hs. destruct Hs as
    [R T f r d' Hc Hw|R T guard options f r d' Hg Hc Hw|R T f r d' Hr|R T guard f r d' Hg Hr| |svc Hs|evs r d' Hm
    |before after now table opts r d' Hi|r d' Hs|table after filters r d' Hs|evs now now_commit changes r d' Ha
    |evs policy before_prune r d' Hc].
  - eapply locked_later; [done| |exact Hw]. intros r1 c' Hrun. split; [by eapply run_write_later|].
    eapply run_write_unguarded; [done|apply Hd|done|exact Hrun].
  - eapply locked_later; [done| |exact Hw]. intros r1 c' Hrun. cbv beta in Hrun. destruct (schema_mode options).
    + split; [eapply with_fk_disabled_later; [|exact Hrun]; intros x y z; by apply run_write_later|].
      eapply fk_write_unguarded; [done|apply Hd|done|exact Hrun].
    + split; [by eapply run_write_later|]. eapply run_write_unguarded; [done|apply Hd|done|exact Hrun].
  - eapply locked_later; [done| |exact Hr]. intros r1 c' Hrun. split; [by eapply run_read_later|].
    eapply run_read_unguarded; [done|apply Hd|exact Hrun].
  - eapply locked_later; [done| |exact Hr]. intros r1 c' Hrun. split; [by eapply run_read_later|].
    eapply run_read_unguarded; [done|apply Hd|exact Hrun].
  - split; [exact Hd|same_clock|done..].
  - split; [exact Hd| |done..]. change (clock_le (hlc d) svc). destruct Hs as [now r svc Hn|now t r svc Hu|now s r svc Ha];
      [by apply new_timestamp_clock in Hn|by apply update_hlc_with_clock in Hu|by apply advance_past_remote_clock in Ha].
  - eapply locked_component; [done| |exact Hm]. intros c r1 c'. apply on_db_later.
  - eapply locked_component; [done| |exact Hi]. intros c r1 c'. apply on_db_clock_later. intros x svc r2 x' svc'.
    apply install_crdt_clock.
  - eapply locked_component; [done| |exact Hs]. intros c r1 c'. apply read_later.
  - eapply locked_component; [done| |exact Hs]. intros c r1 c'. apply read_later.
  - eapply locked_component; [done| |exact Ha]. intros c r1 c'. apply on_db_clock_later. intros x svc r2 x' svc'.
    destruct (Engine.apply_remote_changes _ _ _ _ _ _ _) as [[r3 c3] svc3] eqn:He. apply apply_remote_changes_clock in He.
    by intros [= <- <- <-].
  - eapply locked_component; [done| |exact Hc]. intros c r1 c'. apply on_db_later.
Qed.

(** By rule induction over the calls. *)
Lemma steps_later limit d d' : clean limit d -> rtc handle_step d d' -> handle_later limit d d'.
Proof.
  intros Hd Hs. induction Hs as [d|d d1 d' Hstep _ IH].
  - split; [done|reflexivity|done..].
  - pose proof (step_later _ _ _ Hd Hstep) as Hfirst. eapply handle_later_trans; [exact Hfirst|]. apply IH, Hfirst.
Qed.
End life.

(** C21: an open handle over its life: after any sequence of calls - writes with
    any closures free of transaction control, reads, migrations, installs, scans,
    applied batches, cleanups, calls on the clock - that succeed, fail or panic, the
    handle is usable, with no guard left on its connection and the value limit it was
    opened with; device, file lock, limits, signature provider and migration source
    are the ones of [open]; and its clock never goes back, so that a timestamp it
    issues is later than every timestamp it has issued or taken in before. *)
Theorem handle_lives_on `{Unicode} `{Serde} {U : Uhlc} `{!UhlcLaws} `{SqlParser} `{Sha256} `{Base64} `{HashOrder} `{Uuid}
    {F : FileSystem} {db} `{HR : Rusqlite db} `{HL : !LiveDb db} {K : ConnHooks} `{!HookLaws} `{!Statements db}
    `{!SavepointLaws db} `{HT : !TxLaws db} `{HRd : !ReadLaws db} limit (d d' : Database (db := db)) :
  clean limit d -> rtc handle_step d d' ->
  handle_later limit d d' /\
  forall h now t' svc', hlc_slot (hlc d) = Some h -> new_timestamp (hlc d') now = (Ok t', svc') ->
    hlc_last h < ts_time t' /\ exists h', hlc_slot svc' = Some h' /\ hlc_last h' = ts_time t'.
Proof.
  intros Hd Hs. pose proof (steps_later _ _ _ Hd Hs) as Hl. split; [done|]. intros h now t' svc' Hh Hn.
  destruct (hl_clock _ _ _ Hl) as [_ Hc]. destruct (Hc h Hh) as (h1 & Hh1 & Hle).
  apply new_timestamp_Ok in Hn as (h2 & h3 & Hh2 & Hh3 & Hlt & Heq). split; [|by exists h3].
  assert (h1 = h2) as -> by congruence. lia.
Qed.

(** ** A concrete life *)

#[local] Existing Instance mini_uhlc.
#[local] Existing Instance mini_hooks.
#[local] Existing Instance mini_sql_write.
#[local] Existing Instance mini_fs.
#[local] Instance mini_uuid : Uuid := { uuid_to_string _ := "device" }.

(** A write whose closure panics, a batch for a table the handle does not have,
    and a timestamp drawn from the clock. *)
Definition mini_life1 : Database (db := Sp) := snd (write mini_panicking mini_handle).
Definition mini_life2 : Database (db := Sp) :=
  snd (apply_remote_changes [EvCommit] (fun _ => 1000) 1000 [] mini_life1).
Definition mini_drawn := new_timestamp (hlc mini_life2) 30.
Definition mini_stamp : Timestamp := match fst mini_drawn with Ok t => t | _ => mkTs 0 0 end.

Lemma mini_life_steps : rtc handle_step mini_handle mini_life2.
Proof.
  apply (rtc_l _ _ mini_life1).
  - apply (step_write _ unit unit mini_panicking (Panic "boom")); [exact (conj mini_calm_insert (fun _ => I))|].
    apply pair_result. vm_compute. reflexivity.
  - apply rtc_once. eapply (step_apply _ [EvCommit] (fun _ => 1000) 1000 [] _ _). apply surjective_pairing.
Qed.

Lemma handle_lives_on_witness :
  clean mini_hard_limit mini_life2 /\ ts_time mini_stamp = 30 /\
  exists h, hlc_slot (hlc mini_handle) = Some h /\ hlc_last h < ts_time mini_stamp.
Proof.
  destruct (handle_lives_on mini_hard_limit mini_handle mini_life2 mini_clean mini_life_steps) as [Hl Hc].
  split; [exact (hl_clean _ _ _ Hl)|]. split; [vm_compute; reflexivity|].
  exists (1, MAX_REMOTE_HLC_DRIFT, 10). split; [reflexivity|].
  apply (Hc (1, MAX_REMOTE_HLC_DRIFT, 10) 30 mini_stamp (snd mini_drawn) eq_refl).
  apply pair_result. vm_compute. reflexivity.
Defined.
