(* ===== verification/Observer.v ===== *)
(** * What the change observer hears over a handle's life (src/database/mod.rs)

    [observe_committed_changes] installs a function that is called with the tables
    each committed transaction changed. Here the calls on a handle are followed with
    what each of them tells the observer. *)

From S2P Require Import Prelude Utf8 Hashing Names Json Sql Mini Hlc Context Trigger Report Errors Lock SqlAst Prefix Transform CrdtWrite Value Scanner Preimage Policy Preflight Cleanup Init Compat Migrations Install Engine Guard Schema Session WritePath Database Handle.

(** The pragma that switches foreign keys raises no event; it runs outside a
    transaction. *)
Class SilentPragmas (db : Type) `{LiveDb db} : Prop := {
  fk_silent : forall d on, forallb asks (raised d (SetForeignKeys on) []) = true;
}.

(** ** One connection *)

Section connection.
Context `{Unicode} `{SqlParser} {U : Uhlc} {db : Type} `{HR : Rusqlite db} `{HL : !LiveDb db}
  {K : ConnHooks} `{!HookLaws} `{!Statements db}.

Definition ctx_of (c : Conn db) : ConnectionContext := fst (lt_conn (cn_live c)).
Definition observing (c : Conn db) : bool := m_value (observer (ctx_of c)).

(** Between calls no change is pending. *)
Definition settled (c : Conn db) : Prop := collecting (observing c) ∅ (ctx_of c).

(** What committing the connection's transaction tells the observer. *)
Definition due (c : Conn db) : list (gset string) := announce (observing c) (m_value (changed_tables (ctx_of c))).

(** A call that told the observer [reps] and left nothing pending. *)
Definition told (c : Conn db) (reps : list (gset string)) (c' : Conn db) : Prop :=
  settled c' /\ observing c' = observing c /\ cn_reports c' = cn_reports c ++ reps.

Lemma told_nothing (c c' : Conn db) : settled c -> told_of c' = told_of c -> told c [] c'.
Proof.
  intros [Hc Ho] Heq. unfold told_of in Heq. apply pair_equal_spec in Heq as [[Hr Hob]%pair_equal_spec Hch].
  unfold told, settled, observing, ctx_of, collecting in *. by rewrite app_nil_r, Hr, Hob, Hch.
Qed.

Lemma told_trans (c1 c2 c3 : Conn db) reps1 reps2 : told c1 reps1 c2 -> told c2 reps2 c3 -> told c1 (reps1 ++ reps2) c3.
Proof.
  intros (_ & Ho1 & Hr1) (Hs & Ho2 & Hr2). split; [done|]. split; [congruence|]. by rewrite Hr2, Hr1, app_assoc.
Qed.

(** A commit announces the changes, a dropped transaction forgets them. *)
Lemma committed_told (c : Conn db) (t : CrdtTransaction db) :
  settled c -> watch_of (tx t) = watch_of c -> told c (due (tx t)) (committed (tx t)).
Proof.
  intros [Hc Ho] Hw. unfold watch_of, watch in Hw. apply pair_equal_spec in Hw as [Hr [Hob Hp]%pair_equal_spec].
  fold (ctx_of (tx t)) in *. fold (ctx_of c) in *.
  assert (collecting (observing c) (m_value (changed_tables (ctx_of (tx t)))) (ctx_of (tx t))) as Hcol.
  { split; [|congruence]. rewrite Hc in Hp. destruct (changed_tables (ctx_of (tx t))) as [v p]. cbn in *. by subst. }
  assert (observing (tx t) = observing c) as Hobs by (unfold observing at 1; by rewrite Hob).
  destruct (commit_announces _ _ _ Hcol) as [Hcol' Ha]. unfold told, due. rewrite Hobs, <- Ha, <- Hr.
  unfold settled, committed. fold (ctx_of (tx t)). destruct (commit_hook (ctx_of (tx t))) as [ctx' report].
  pose proof Hcol' as [_ Ho']. cbn in Ho'. unfold observing at 1 2. cbn. by rewrite Ho'.
Qed.

Lemma dropped_told `{!SavepointLaws db} `{!TxLaws db} (c : Conn db) (t : CrdtTransaction db) base limit :
  settled c -> tx_inv base limit (watch_of c) t -> told c [] (drop_tx c t).
Proof.
  intros Hs [Hw _ _ _ He]. pose proof Hs as [Hc Ho]. unfold ctx_of in Hc. unfold watch_of, watch in Hw.
  apply pair_equal_spec in Hw as [Hr [Hob Hp]%pair_equal_spec].
  apply told_nothing; [done|]. unfold drop_tx, told_of. destruct (tx_autocommit t).
  - destruct (He eq_refl) as (_ & _ & _ & Hf). unfold forgotten in Hf. rewrite Hp, Hc in Hf. rewrite Hc.
    by rewrite (Hf eq_refl), Hr, Hob.
  - cbn. rewrite Hr, Hob, Hc. f_equal. unfold mutex_update. by rewrite Hp, Hc.
Qed.

(** What a write that returned [r] told: what its transaction had pending when
    the closure ended, if it was committed - or if SQLite failed the commit after
    the hook had run. *)
Definition told_by {R T} (max : Z) (guard : option SqlGuard) (opts : GuardedWriteOptions) (f : closure R T)
    (c : Conn db) (r : res Error R) : list (gset string) :=
  let '(rc, t) := run_closure f (begin_tx c max guard opts) in
  match r with
  | Ok _ => due (tx t)
  | Err _ =>
      if is_ok (begin_immediate c) && commit_tried opts rc t && commit_fails_late (db_of (tx t))
      then due (tx t) else []
  | Panic _ => []
  end.

Lemma told_step (c c' : Conn db) : settled c' -> observing c' = observing c -> cn_reports c' = cn_reports c -> told c [] c'.
Proof. intros. split; [done|]. split; [done|]. by rewrite app_nil_r. Qed.

(** Dropping a transaction whose commit failed late. *)
Lemma uncommitted_told (c : Conn db) (t : CrdtTransaction db) :
  settled c -> watch_of (tx t) = watch_of c -> tx_autocommit t = false -> commit_fails_late (db_of (tx t)) = true ->
  told c (due (tx t)) (drop_tx c (uncommitted t)).
Proof.
  intros Hs Hw Ho Hl. pose proof (committed_told c t Hs Hw) as Ht. rewrite <- (app_nil_r (due (tx t))).
  eapply told_trans; [exact Ht|]. destruct Ht as (Hs1 & _ & _). unfold uncommitted, db_of in *. rewrite Hl. unfold drop_tx. cbn.
  rewrite Ho. pose proof (rollback_forgets _ _ _ Hs1) as Hr.
  apply told_step; [|done..]. exact Hr.
Qed.

Lemma run_write_told `{!SavepointLaws db} `{!TxLaws db} {R T} limit max guard opts (f : closure R T) (c : Conn db) r c' :
  guard_sane guard -> unguarded limit (cn_hooks c) -> calm_closure f -> settled c ->
  run_write max guard opts f c = (r, c') -> told c (told_by max guard opts f c r) c'.
Proof.
  intros Hg (Ha & Hp & _) Hc Hs Hr. unfold told_by.
  destruct (run_write_cases _ _ _ _ _ _ _ Hg Ha Hp Hc Hr) as [(Hb & Hno & ->)|(Hb & rc & t & Ht & Hi & Hend)].
  { rewrite Hb. destruct (run_closure _ _), r; [done|by apply told_nothing..]. }
  rewrite Ht, Hb. destruct r as [v|e|m].
  - destruct Hend as (-> & _ & _ & _ & _ & ->). apply committed_told; [done|apply Hi].
  - destruct Hend as [[-> Hct]|(-> & Hct & Ho)]; rewrite Hct; cbn; [by eapply dropped_told|].
    destruct (commit_fails_late _) eqn:Hl; [apply uncommitted_told; try done; apply Hi|].
    unfold uncommitted, db_of in *. rewrite Hl. by eapply dropped_told.
  - subst c'. by eapply dropped_told.
Qed.

(** With foreign keys off around it. *)
Definition fk_off (c : Conn db) : Conn db :=
  match execute c (SetForeignKeys false) [] with Ok (_, c') => c' | _ => c end.

Definition fk_ready (c : Conn db) : bool :=
  is_ok (foreign_keys_enabled c) && is_ok (execute c (SetForeignKeys false) []).

(** What a guarded write tells: in schema mode nothing unless it gets to its
    transaction. *)
Definition guarded_told {R T} (max : Z) (guard : SqlGuard) (opts : GuardedWriteOptions) (f : closure R T)
    (c : Conn db) (r : res Error R) : list (gset string) :=
  if schema_mode opts
  then (if fk_ready c then told_by max (Some guard) opts f (fk_off c) r else [])
  else told_by max (Some guard) opts f c r.

Lemma set_fk_told `{!SilentPragmas db} (c : Conn db) on n c' :
  settled c -> execute c (SetForeignKeys on) [] = Ok (n, c') -> told c [] c' /\ cn_hooks c' = cn_hooks c.
Proof.
  intros Hs (d & _ & ->)%conn_execute_Ok. split; [|done]. by apply told_nothing, told_of_asks, fk_silent.
Qed.

Lemma fk_write_told `{!SavepointLaws db} `{!TxLaws db} `{!SilentPragmas db} {R T} limit max guard opts (f : closure R T)
    on_sql (c : Conn db) r c' :
  guard_sane guard -> unguarded limit (cn_hooks c) -> calm_closure f -> settled c ->
  with_fk_disabled on_sql c (fun c => run_write max guard opts f c) = (r, c') ->
  told c (if fk_ready c then told_by max guard opts f (fk_off c) r else []) c'.
Proof.
  intros Hg Hu Hc Hs. unfold with_fk_disabled, fk_off, fk_ready.
  destruct (foreign_keys_enabled c) as [was| |]; [|intros [= <- <-]; by apply told_nothing..].
  destruct (execute c (SetForeignKeys false) []) as [[n c1]| |] eqn:He; [|intros [= <- <-]; by apply told_nothing..].
  destruct (set_fk_told _ _ _ _ Hs He) as [Ht1 Hh1]. destruct (run_write max guard opts f c1) as [rb c2] eqn:Hr. intros [= <- <-].
  rewrite <- Hh1 in Hu. pose proof (run_write_told _ _ _ _ _ _ _ _ Hg Hu Hc (proj1 Ht1) Hr) as Ht2.
  pose proof (told_trans _ _ _ _ _ Ht1 Ht2) as Ht. unfold restore_foreign_keys.
  destruct (execute c2 (SetForeignKeys was) []) as [[k c3]| |] eqn:Ho; cbn; [|done..].
  destruct (set_fk_told _ _ _ _ (proj1 Ht2) Ho) as [Ht3 _]. rewrite <- (app_nil_r (told_by _ _ _ _ _ _)). by eapply told_trans.
Qed.

Lemma run_read_told `{!SavepointLaws db} `{!ReadLaws db} {R T} limit guard (f : read_closure R T) (c : Conn db) r c' :
  guard_sane guard -> unguarded limit (cn_hooks c) -> settled c -> run_read guard f c = (r, c') -> told c [] c'.
Proof. intros Hg (Ha & Hp & _) Hs (_ & _ & _ & Hw)%run_read_spec; [|done..]. by apply told_nothing. Qed.

(** A component's call runs whole transactions. *)
Definition whole (txs : list (list event * bool)) : Prop := Forall (fun tx => forallb in_tx (fst tx) = true) txs.
Definition told_of_txs (c : Conn db) (txs : list (list event * bool)) : list (gset string) :=
  if observing c then omap report_of txs else [].

(** [run_hear], whatever database the statements leave. *)
Lemma raised_hear obs s (c : Conn db) d evs :
  collecting obs s (ctx_of c) ->
  collecting obs (snd (hear obs s evs)) (ctx_of (with_raised c d evs)) /\
  cn_reports (with_raised c d evs) = cn_reports c ++ fst (hear obs s evs).
Proof. intros Hc. destruct (run_hear obs evs s (lt_conn (cn_live c)) Hc) as [Hr Hc']. split; [exact Hc'|]. cbn. by rewrite Hr. Qed.

(** Its clock may move in between. *)
Lemma on_db_clock_told {R} before after txs (f : db -> HlcService -> res Error R * db * HlcService) (c : Conn db) r c' :
  settled c -> whole txs -> before ++ after = flat_map tx_events txs -> on_db_clock before after f c = (r, c') ->
  told c (told_of_txs c txs) c'.
Proof.
  intros Hs Hw Heq. unfold on_db_clock, raise. destruct (raised_hear _ _ c (db_of c) before Hs) as [Hc1 Hr1].
  set (c1 := with_raised c (db_of c) before) in *. destruct (f (db_of c1) (clock_of c1)) as [[r1 d] svc]. intros [= <- <-].
  set (c2 := with_live c1 (mkLive d (fst (lt_conn (cn_live c1)), svc))).
  destruct (raised_hear _ _ c2 (db_of c2) after Hc1) as [Hc2 Hr2].
  pose proof (hear_transactions (observing c) txs Hw) as Hh. rewrite <- Heq, hear_app in Hh.
  destruct (hear (observing c) ∅ before) as [os1 s1]. cbn [fst snd] in *.
  destruct (hear (observing c) s1 after) as [os2 s2]. injection Hh as Hos ->. cbn [fst snd] in *.
  assert (observing (with_raised c2 (db_of c2) after) = observing c) as Hob by (unfold observing at 1; by rewrite (proj2 Hc2)).
  change (told c (told_of_txs c txs) (with_raised c2 (db_of c2) after)).
  split; [unfold settled; by rewrite Hob|]. split; [done|]. rewrite Hr2.
  change (cn_reports c2) with (cn_reports c1). unfold told_of_txs. by rewrite Hr1, <- app_assoc, Hos.
Qed.

Lemma on_db_told {R} txs (f : conn_io db Error R) (c : Conn db) r c' :
  settled c -> whole txs -> on_db (flat_map tx_events txs) f c = (r, c') -> told c (told_of_txs c txs) c'.
Proof.
  intros Hs Hw Hr. apply (on_db_clock_told [] (flat_map tx_events txs) txs
    (fun d svc => let '(r, d') := f d in (r, d', svc)) c r c' Hs Hw eq_refl). revert Hr.
  unfold on_db, on_db_clock, raise. change (db_of (with_raised c (db_of c) [])) with (db_of c).
  destruct (f (db_of c)) as [r1 d]. intros [= <- <-]. f_equal. unfold with_raised. cbn. rewrite app_nil_r.
  by destruct (lt_conn (cn_live c)).
Qed.
End connection.

(** ** The calls on a handle *)

Section life.
Context `{Unicode} `{Serde} {U : Uhlc} `{!UhlcLaws} `{SqlParser} `{Sha256} `{Base64} `{HashOrder} `{Uuid} {F : FileSystem}
  {db : Type} `{HR : Rusqlite db} `{HL : !LiveDb db} {K : ConnHooks} `{!HookLaws} `{!Statements db}
  `{!SavepointLaws db} `{HT : !TxLaws db} `{HRd : !ReadLaws db} `{HSp : !SilentPragmas db}.

Definition conn_of (d : Database (db := db)) : Conn db := m_value (di_conn d).

(** One call on the handle and what it tells. A component tells of the committed ones
    among the transactions [txs] it runs. *)
Inductive tells (d : Database (db := db)) : list (gset string) -> Database (db := db) -> Prop :=
| tells_write R T (f : closure R T) r d' :
    calm_closure f -> write f d = (r, d') ->
    tells d (told_by (di_max_transaction_bytes d) None GuardedWriteOptions_default f (conn_of d) r) d'
| tells_write_guarded R T guard options (f : closure R T) r d' :
    guard_sane (Some guard) -> calm_closure f -> write_guarded_with guard options f d = (r, d') ->
    tells d (guarded_told (di_max_transaction_bytes d) guard options f (conn_of d) r) d'
| tells_read R T (f : read_closure R T) r d' : read f d = (r, d') -> tells d [] d'
| tells_read_guarded R T guard (f : read_closure R T) r d' :
    guard_sane (Some guard) -> read_guarded guard f d = (r, d') -> tells d [] d'
| tells_observe : tells d [] (observe_committed_changes d)
| tells_clock svc : clock_call (hlc d) svc -> tells d [] (set_hlc_service d svc)
| tells_migrations txs r d' :
    whole txs -> apply_migrations (flat_map tx_events txs) d = (r, d') -> tells d (told_of_txs (conn_of d) txs) d'
| tells_install before after txs now table opts r d' :
    whole txs -> before ++ after = flat_map tx_events txs -> install_crdt before after now table opts d = (r, d') ->
    tells d (told_of_txs (conn_of d) txs) d'
| tells_scan_dirty r d' : scan_dirty_tables d = (r, d') -> tells d [] d'
| tells_scan table after filters r d' : scan_table_for_local_changes table after filters d = (r, d') -> tells d [] d'
| tells_apply txs now now_commit changes r d' :
    whole txs -> apply_remote_changes (flat_map tx_events txs) now now_commit changes d = (r, d') ->
    tells d (told_of_txs (conn_of d) txs) d'
| tells_cleanup txs policy before_prune r d' :
    whole txs -> cleanup_deleted_rows (flat_map tx_events txs) policy before_prune d = (r, d') ->
    tells d (told_of_txs (conn_of d) txs) d'.

(** A sequence of calls. *)
Inductive life : Database (db := db) -> list (gset string) -> Database (db := db) -> Prop :=
| life_over d : life d [] d
| life_call d reps1 d1 reps2 d2 : tells d reps1 d1 -> life d1 reps2 d2 -> life d (reps1 ++ reps2) d2.

Lemma tells_is_call d reps d' : tells d reps d' -> handle_step d d'.
Proof.
  destruct 1; [eapply step_write|eapply step_write_guarded|eapply step_read|eapply step_read_guarded|eapply step_observe
    |eapply step_clock|eapply step_migrations|eapply step_install|eapply step_scan_dirty|eapply step_scan
    |eapply step_apply|eapply step_cleanup]; eassumption.
Qed.

(** A call under the lock that tells [reps]. *)
Lemma locked_told {R} limit (f : conn_io (Conn db) Error R) reps (d : Database (db := db)) r d' :
  clean limit d -> (forall r c', f (conn_of d) = (r, c') -> told (conn_of d) (reps r) c') ->
  with_locked_conn f d = (r, d') -> told (conn_of d) (reps r) (conn_of d').
Proof.
  intros [Hp _] Hf. rewrite with_locked_conn_eq by done. fold (conn_of d). destruct (f (conn_of d)) as [r1 c'] eqn:Hr.
  intros [= <- <-]. by apply Hf.
Qed.

Lemma io_read_told {R} (f : Conn db -> res Error R) (c : Conn db) r c' : settled c -> io_read f c = (r, c') -> told c [] c'.
Proof. intros Hs [= <- <-]. by apply told_nothing. Qed.

Lemma tells_told limit d reps d' : clean limit d -> settled (conn_of d) -> tells d reps d' ->
  settled (conn_of d') /\ cn_reports (conn_of d') = cn_reports (conn_of d) ++ reps.
Proof.
  assert (guard_sane None) as Hnone by (by intros g b [=]). intros Hd Hs.
  pose proof (fun R => @locked_told R limit) as Hl. assert (forall c' : Conn db, told (conn_of d) reps c' ->
    settled c' /\ cn_reports c' = cn_reports (conn_of d) ++ reps) as Hend by (by intros c' (? & _ & ?)).
  destruct 1 as [R T f r d' Hc Hw|R T guard opts f r d' Hg Hc Hw|R T f r d' Hr|R T guard f r d' Hg Hr| |svc Hk|txs r d' Hw Hm
    |before after txs now table opts r d' Hw Hev Hi|r d' Hr|table after filters r d' Hr|txs now nc changes r d' Hw Ha
    |txs policy prune r d' Hw Hc].
  5: { rewrite app_nil_r. split; [|done]. destruct Hs as [Hch Ho]. unfold settled, observing, collecting in *. cbn.
       unfold ctx_of in *. cbn. unfold conn_of in *. rewrite Ho. by split. }
  all: apply Hend.
  - eapply (Hl _ _ (fun r => told_by _ None _ f (conn_of d) r)); [done| |exact Hw]. intros r1 c'. by apply (run_write_told limit); [|apply Hd|..].
  - eapply (Hl _ _ (fun r => guarded_told _ guard opts f (conn_of d) r)); [done| |exact Hw].
    intros r1 c'. unfold guarded_told. cbv beta. destruct (schema_mode opts).
    + by apply (fk_write_told limit); [|apply Hd|..].
    + by apply (run_write_told limit); [|apply Hd|..].
  - eapply (Hl _ _ (fun _ => [])); [done| |exact Hr]. intros r1 c'. by apply (run_read_told limit); [|apply Hd|].
  - eapply (Hl _ _ (fun _ => [])); [done| |exact Hr]. intros r1 c'. by apply (run_read_told limit); [|apply Hd|].
  - by apply told_nothing.
  - eapply (Hl _ _ (fun _ => _)); [done| |exact Hm]. intros r1 c'. by apply on_db_told.
  - eapply (Hl _ _ (fun _ => _)); [done| |exact Hi]. intros r1 c'. by apply on_db_clock_told.
  - eapply (Hl _ _ (fun _ => [])); [done| |exact Hr]. intros r1 c'. by apply io_read_told.
  - eapply (Hl _ _ (fun _ => [])); [done| |exact Hr]. intros r1 c'. by apply io_read_told.
  - eapply (Hl _ _ (fun _ => _)); [done| |exact Ha]. intros r1 c'. apply on_db_clock_told; [done|done|apply app_nil_r].
  - eapply (Hl _ _ (fun _ => _)); [done| |exact Hc]. intros r1 c'. by apply on_db_told.
Qed.

Lemma life_told limit d reps d' : clean limit d -> settled (conn_of d) -> life d reps d' ->
  clean limit d' /\ settled (conn_of d') /\ cn_reports (conn_of d') = cn_reports (conn_of d) ++ reps.
Proof.
  intros Hd Hs Hl. induction Hl as [d|d reps1 d1 reps2 d2 Hc _ IH]; [by rewrite app_nil_r|].
  destruct (tells_told _ _ _ _ Hd Hs Hc) as [Hs1 Hr1]. apply tells_is_call in Hc.
  destruct (IH (hl_clean _ _ _ (step_later _ _ _ Hd Hc)) Hs1) as (Hd2 & Hs2 & Hr2).
  split; [done|]. split; [done|]. by rewrite Hr2, Hr1, app_assoc.
Qed.
End life.

(** C22: the observer hears of the committed changes and of nothing else: over any
    sequence of calls on an open handle - writes with any closures free of transaction
    control, guarded or not and in a migration's mode or not, reads, migrations,
    installs, scans, applied batches, cleanups - whatever each returns, the observer
    is called exactly with the sets that [life] adds up, in the order of the calls: a
    write that returns [Ok] tells the tables its transaction had changed, once and only
    if there are any; one whose closure fails or panics, that SQLite rolled back or
    that never gets to its commit tells nothing, however much it had written; the one
    exception is a commit that SQLite fails after its hook has run, which has been
    told; a read tells nothing; a component tells of its committed transactions one
    by one; and nothing is left pending for the commit of a later call. *)
Theorem observer_hears_commits `{Unicode} `{Serde} {U : Uhlc} `{!UhlcLaws} `{SqlParser} `{Sha256} `{Base64} `{HashOrder} `{Uuid}
    {F : FileSystem} {db} `{HR : Rusqlite db} `{HL : !LiveDb db} {K : ConnHooks} `{!HookLaws} `{!Statements db}
    `{!SavepointLaws db} `{HT : !TxLaws db} `{HRd : !ReadLaws db} `{HSp : !SilentPragmas db}
    limit reps (d d' : Database (db := db)) :
  clean limit d -> settled (conn_of d) -> life d reps d' ->
  cn_reports (conn_of d') = cn_reports (conn_of d) ++ reps /\ settled (conn_of d') /\
  m_value (changed_tables (ctx_of (conn_of d'))) = ∅.
Proof.
  intros Hd Hs Hl. destruct (life_told _ _ _ _ Hd Hs Hl) as (_ & Hs' & Hr). split; [done|]. split; [done|].
  by destruct Hs' as [-> _].
Qed.

(** ** A concrete life *)

#[local] Existing Instance mini_uhlc.
#[local] Existing Instance mini_hooks.
#[local] Existing Instance mini_sql_write.
#[local] Existing Instance mini_fs.
#[local] Instance mini_uuid : Uuid := { uuid_to_string _ := "device" }.

#[export] Instance sp_silent : SilentPragmas Sp.
Proof. by split. Qed.

Definition mini_saving : closure unit unit := Execute (20, 20) "insert" [] (fun _ => Done (Ok tt)).
Definition mini_txs : list (list event * bool) :=
  [([EvWrite "items"; EvWrite "haex_crdt_configs_no_sync"], true); ([EvWrite "photos"], false)].

(** An observed handle; a write; the same with a closure that panics; a batch
    whose second transaction is rolled back. *)
Definition mini_observed : Database (db := Sp) := observe_committed_changes mini_handle.
Definition mini_saved : Database (db := Sp) := snd (write mini_saving mini_observed).
Definition mini_failed : Database (db := Sp) := snd (write mini_panicking mini_saved).
Definition mini_applied : Database (db := Sp) :=
  snd (apply_remote_changes (flat_map tx_events mini_txs) (fun _ => 1000) 1000 [] mini_failed).

Lemma mini_heard : exists reps, life mini_observed reps mini_applied /\ reps = [{["notes"]}; {["items"]}].
Proof.
  eexists. split.
  - eapply life_call.
    { apply (tells_write _ unit unit mini_saving (fst (write mini_saving mini_observed)) mini_saved (conj mini_calm_insert (fun _ => I))). apply surjective_pairing. }
    eapply life_call.
    { apply (tells_write _ unit unit mini_panicking (fst (write mini_panicking mini_saved)) mini_failed (conj mini_calm_insert (fun _ => I))). apply surjective_pairing. }
    eapply life_call; [|apply life_over].
    eapply (tells_apply _ mini_txs (fun _ => 1000) 1000 []); [by repeat constructor|]. apply surjective_pairing.
  - vm_compute. reflexivity.
Qed.

Lemma observer_hears_commits_witness :
  cn_reports (conn_of mini_applied) = [{["notes"]}; {["items"]}] /\
  m_value (changed_tables (ctx_of (conn_of mini_applied))) = ∅.
Proof.
  destruct mini_heard as (reps & Hl & ->).
  destruct (observer_hears_commits mini_hard_limit [{["notes"]}; {["items"]}] mini_observed mini_applied
    ltac:(done) ltac:(done) Hl) as (Hr & _ & Hc).
  split; [exact Hr|exact Hc].
Defined.
